(* ===== verification/_CoqProject ===== *)
-Q . S2P
Prelude.v
Text.v
Apath.v
Externals.v
Sample.v
Ids.v
Entry.v
Counters.v
Errors.v
World.v
Console.v
Transport.v
Excludes.v
Jsonio.v
SampleWorld.v
BlockDir.v
BlockStore.v
Index.v
Archive.v
Footprint.v
Stitch.v
Merge.v
LiveTree.v
LiveOrder.v
LiveWhole.v
Diff.v
Show.v
Gc.v
Backup.v
BackupRun.v
Combine.v
Restore.v
RestoreRun.v
HunkIndex.v
StoredBand.v
BlockListing.v
BandWriter.v
BackupTree.v
RestoreTree.v
BackupWhole.v
GcSafety.v
GcExact.v
Validation.v
RoundTrip.v
Incremental.v
Remote.v
S3.v
Sftp.v
Mount.v
Cli.v
CliSafety.v
CliRun.v
