(* ===== verification/Prelude.v ===== *)
(** * conserve: a verification library

    A model of the backup program conserve (Rust, src/src/) and theorems about it.
    The library follows the modules of the program; each file models the source
    files it names and then proves its theorems and evaluates them on examples.

    ** Parts of the program, and where they are

    - [Prelude]: outcomes of a run ([Ret], [Panic], [Crash], [NoFuel]), the state monad
      [ST], results with [?] ([←?]), machine arithmetic of 64 bits, the standard
      library's [sort_by] and [binary_search_by], and the predicates on runs:
      [respects R m] (every run of [m], however it ends, relates the first state to the
      last by [R]), [wp], [keeps] and [terminates], each with a hint database.
    - [Text]: strings as UTF-8 bytes: characters, slices, splitting, decimal numbers.
    - [Apath] (apath.rs): archive paths: validity, [append], [below], the prefix test,
      the order, and the two order checkers.
    - [Externals]: the class [Ext] of operations of third-party code (BLAKE2b, hex,
      Snappy, semver, time, globs, users, LRU caches), [BuildCfg] for debug assertions,
      and the classes of the laws that theorems assume. [Sample] and [SampleWorld] are
      one instance of all of them with proofs of the laws; the examples run on it.
    - [Ids] (bandid.rs, blockhash.rs, kind.rs, unix_mode.rs, owner.rs, unix_time.rs),
      [Entry] (entry.rs, change.rs, the records of index.rs and blockdir.rs),
      [Counters] (counters.rs, stats.rs, misc.rs, monitor/task.rs), [Errors] (errors.rs).
    - [World]: the state that the program acts on: a file system ([Fs], a finite map
      from paths to nodes), a schedule of failures, short reads and directory orders,
      the clock, the monitor's errors and counters, and the caches of block
      directories. [syscall] is the one place where an operation fails, takes partial
      effect, or ends the process. [Console] (what the program prints, the buffered
      writers that it drops, the monitor of termui/monitor.rs as far as it counts errors).
    - [S3] (transport/s3.rs) and [Sftp] (transport/sftp.rs), with what they share in
      [Remote]: the remote transports, over any state of the service. The AWS and SSH
      clients are the classes [S3Client] and [Ssh2], what the services promise is
      [S3Laws] and [SftpLaws], and each file ends with a service in memory.
    - [Transport] (transport.rs, transport/local.rs): the class [Protocol] and its local
      instance. [Reading] and [Blind] are the interfaces through which clients are shown
      to change no file, or nothing but the monitor.
    - [Excludes] (excludes.rs), [Jsonio] (jsonio.rs, compress/snappy.rs).
    - [BlockDir] (blockdir.rs), [Index] (index.rs), [Archive] (archive.rs, band.rs,
      gc_lock.rs), [Stitch] (stitch.rs, stored_tree.rs, tree.rs), [Merge] (merge.rs),
      [LiveTree] (live_tree.rs), [Diff] (diff.rs), [Show] (show.rs), [Gc] (the deletion
      and validation of archive.rs, validate.rs), [Backup] (backup.rs, io.rs), [Restore]
      (restore.rs), [HunkIndex] (hunk_index.rs), [Mount] (mount/projfs.rs), [Cli]
      (bin/conserve.rs and the opening of a transport of transport.rs).
    - Files of theorems only: [BlockStore] (storing and reading blocks, as other parts
      rely on it), [Footprint] (the paths that each operation can change), [LiveOrder]
      and [LiveWhole] (the order and the completeness of the walk of a live tree),
      [Combine] (small files in one block), [BackupRun] and [RestoreRun] (where backups
      and restores write, and that they end), [StoredBand] (a finished band, and reading
      it while other files change), [BandWriter] (a band while it is written),
      [BackupTree] (the loop of a backup, entry by entry and group by group),
      [BackupWhole] (what a whole backup leaves), [RestoreTree] (the restore of a whole
      version), [RoundTrip] (one after the other), [Incremental] (a backup on top of
      another), [BlockListing] (the listing of the blocks), [GcSafety] (what deletion
      keeps), [GcExact] (all that it does when nothing fails), [Validation] (what
      validating decides), [CliSafety] and [CliRun] (commands that change nothing, and
      sessions of commands).

    What connects the components in these files are records of what holds between two
    steps: [sound] (the block directory), [writing] (the index), [combining] and [filing]
    (the files of a group), [saving] (the whole writer), [on_the_way] and [pending] (the
    walk), [progress] (the restore). [TrustedBasis] is the interface through which the
    loop of a backup uses the version before: any source of entries that keeps reading
    while the archive grows, and whose entries can be trusted.

    A method [T::f] is [T.f] in the file of its module; loops that are inline in the
    source are separate definitions named after what they do ([next_loop], [step]).
    A client is proved against the interface of what it calls: [Index] iterates over any
    [HunkIter] with [HunkIterLaws], which [Index] and [Stitch] both instantiate.

    ** What the theorems show

    - Paths and names: the order is total, children come before what is deeper, a
      subtree is contiguous, valid paths stay inside a tree, names of bands and blocks
      determine them; and where the prefix test is wrong.
    - Storage: creating a file changes nothing else, whatever fails; content and hunks
      that are written are read back; content that is returned has its hash; which
      blocks count as present, and why an empty one stays empty.
    - Bands: a new band has a new number, the collection lock is exclusive, the band
      selected by default is the newest finished one.
    - Iteration: hunks and entries come in order, once, and filtered exactly; seeking is
      exact; every iteration ends.
    - Merging two trees is a refinement of the merge of two lists, complete and ordered;
      comparing a stored tree with a live one reports exactly what their entries say.
    - Files: reading with retries, cutting a file into blocks, combining small files into
      one block, and restoring, are exact; a file that is stored is the file restored;
      the restore of a finished version makes exactly the tree that its entries describe,
      the times of directories included, and nothing else.
    - Whole backups: without failures and short reads, a backup makes a finished version
      with exactly one entry for each entry of the source, with its metadata and the
      addresses of its content; restoring it gives the source tree back; the next backup,
      which reuses blocks of unchanged files, is as exact, and leaves the version before
      as it was. Whatever fails, a backup keeps to its archive, where it only adds; a
      restore stays inside its destination; both end, when the trees that they read are
      apart from those that they write.
    - Remote transports: on S3 a file is an object, a listing has exactly the names in a
      directory, and removing a directory removes every object whose key begins with its
      path, those of other directories included; over SFTP directories and files are what
      they are with the local transport, except for the kind of one error.
    - Live trees: the walk is in order, misses nothing, never panics, and ends.
    - Commands: making an archive, backing up into it and restoring from it, each a
      process of its own, end in success and give the source tree back; a command that
      only looks, or is told to try only, changes nothing but a lock, whatever fails.
    - Deletion keeps the blocks that a kept band refers to when nothing fails; and loses
      them when the system cannot read a hunk. When nothing fails and the archive is in
      order it succeeds, and removes exactly the bands named and every block that no
      other band refers to, and nothing else.
    - Validation of an archive in order reports no error exactly when every block that
      it reads is sound; a hunk that is damaged is noticed neither by it nor by a restore.
    - Hunk lookup and mounted files: exact, with the two cases in which the code gives
      nothing although there is something.

    ** Bounds and fuel

    A loop that is not structural has a bound computed from the state: the number of
    hunks listed, of bands before the current one, of nodes of the file system, of
    bytes left in a file. [NoFuel] is the outcome when a bound is exceeded, and
    [terminates] theorems show that it does not occur: [Stitch.rounds] counts the phases
    left for this band and the older ones; [Stitch.bound] allows for each older band as
    many hunks as there can be files below an index; [hunks_bound] is the interface.
    The remote transports take the bounds of their loops as arguments, and their theorems
    hold for every bound that is large enough: one more than the pages of a listing, or
    the nodes of the remote file system.
    A bound is taken when a loop starts. Where the body of the loop writes, as in backup
    and restore, the theorem that the bound is enough assumes that it writes elsewhere.

    ** Choices

    Numbers of 64 bits are [N] with explicit checks: overflow panics with debug
    assertions and wraps without. Symbolic links are nodes that are never followed.
    Parallel iterators run in order; a hash set is visited in the order of its
    elements. Logging, tasks of the progress display and the elapsed time are left out.
    Standard output accepts everything that is printed. An archive is on a local disk: the
    program of [Cli] is the one built without the features for S3 and SFTP, on Unix, and
    the remote transports are modelled on their own.

    ** Not modelled

    The parsing of arguments by clap, logs, progress bars and the threads behind them
    (termui/), the mount command (built on Windows only), archives on remote transports
    as a whole, the calls to the Windows projected file system and the caches around
    them, the Windows half of owners, test fixtures. Third-party code is a parameter,
    with the behaviour that is relied on as laws. *)

From Stdlib Require Export ZArith NArith Lia.
From Stdlib Require Import Ascii.
From stdpp Require Export base list strings gmap sorting pretty numbers.


(** ** Outcomes and the state monad of the model *)

(** What running a piece of the program yields: a value, a Rust panic, the death
    of the process in the middle of a system call, or (for the loops that carry
    an explicit bound) exhaustion of the bound, which theorems exclude. *)
Inductive outcome (A : Type) : Type :=
  | Ret (a : A)
  | Panic
  | Crash
  | NoFuel.
Arguments Ret {A} a.
Arguments Panic {A}.
Arguments Crash {A}.
Arguments NoFuel {A}.

(** Rust's [Result]. *)
Inductive result (A E : Type) : Type :=
  | Ok (a : A)
  | Err (e : E).
Arguments Ok {A E} a.
Arguments Err {A E} e.

Definition ST (W A : Type) : Type := W → outcome A * W.

#[export] Instance ST_ret W : MRet (ST W) := λ A a w, (Ret a, w).
#[export] Instance ST_bind W : MBind (ST W) := λ A B k m w,
  match m w with
  | (Ret a, w') => k a w'
  | (Panic, w') => (Panic, w')
  | (Crash, w') => (Crash, w')
  | (NoFuel, w') => (NoFuel, w')
  end.

Definition panic {W A} : ST W A := λ w, (Panic, w).
Definition no_fuel {W A} : ST W A := λ w, (NoFuel, w).
Definition get {W} : ST W W := λ w, (Ret w, w).
Definition gets {W A} (f : W → A) : ST W A := λ w, (Ret (f w), w).
Definition modify {W} (f : W → W) : ST W unit := λ w, (Ret tt, f w).

(** [Result::map_err], [Result::map], [Result::unwrap_or] and [Result::ok]. *)
Definition map_err {A E F} (f : E → F) (r : result A E) : result A F :=
  match r with Ok a => Ok a | Err e => Err (f e) end.
Definition map_ok {A B E} (f : A → B) (r : result A E) : result B E :=
  match r with Ok a => Ok (f a) | Err e => Err e end.
Definition unwrap_or {A E} (d : A) (r : result A E) : A :=
  match r with Ok a => a | Err _ => d end.
Definition result_ok {A E} (r : result A E) : option A :=
  match r with Ok a => Some a | Err _ => None end.
Definition ok_or {A E} (e : E) (o : option A) : result A E :=
  match o with Some a => Ok a | None => Err e end.

(** Rust's [?] operator inside a function whose result is a [Result]. *)
Definition try {W A B E} (m : ST W (result A E)) (k : A → ST W (result B E)) :
    ST W (result B E) :=
  r ← m; match r with Ok a => k a | Err e => mret (Err e) end.

Declare Scope rust_scope.
Delimit Scope rust_scope with rust.
Notation "x ←? m ; k" := (try m (λ x, k))
  (at level 20, m at level 100, k at level 200, only parsing) : rust_scope.
Notation "' x ←? m ; k" := (try m (λ x, k))
  (at level 20, x pattern, m at level 100, k at level 200, only parsing) : rust_scope.
Open Scope rust_scope.

(** [assert!] *)
Definition rust_assert {W} (b : bool) : ST W unit := if b then mret tt else panic.

(** [Option::unwrap] and [Option::expect] *)
Definition expect {W A} (o : option A) : ST W A :=
  match o with Some a => mret a | None => panic end.

(** [Result::unwrap] and [Result::expect] *)
Definition expect_ok {W A E} (r : result A E) : ST W A :=
  match r with Ok a => mret a | Err _ => panic end.

(** A scope that owns something: it is dropped on return and when a panic unwinds, but
    not when the process dies. *)
Definition scoped {W A} (drop : ST W unit) (body : ST W A) : ST W A := λ w,
  match body w with
  | (Ret a, w') => (_ ← drop; mret a) w'
  | (Panic, w') => (_ ← drop; panic) w'
  | (o, w') => (o, w')
  end.

(** A [for] loop over a list, whose body always continues. *)
Fixpoint for_each {W A} (l : list A) (f : A → ST W unit) : ST W unit :=
  match l with
  | [] => mret tt
  | x :: l => _ ← f x; for_each l f
  end.

(** A [for] loop that threads a value and whose body can leave by [?]. *)
Fixpoint try_fold {W A S E} (f : S → A → ST W (result S E)) (s : S) (l : list A) :
    ST W (result S E) :=
  match l with
  | [] => mret (Ok s)
  | x :: l => s' ←? f s x; try_fold f s' l
  end.

(** A [for] loop that threads a value. *)
Fixpoint fold_st {W A S} (f : S → A → ST W S) (s : S) (l : list A) : ST W S :=
  match l with
  | [] => mret s
  | x :: l => s' ← f s x; fold_st f s' l
  end.

(** ** Build configuration and machine integers *)

(** Whether the crate is built with [cfg(debug_assertions)]: overflow then
    panics instead of wrapping, and [debug_assert!] and [DebugCheckOrder] are
    active. *)
Class BuildCfg : Type := debug_assertions : bool.

(** [debug_assert!] *)
Definition debug_assert {W} `{BuildCfg} (b : bool) : ST W unit :=
  if debug_assertions then rust_assert b else mret tt.

Lemma debug_assert_true {W} `{BuildCfg} (w : W) : debug_assert true w = (Ret tt, w).
Proof. unfold debug_assert. by destruct debug_assertions. Qed.

Lemma bind_run {W A B} (m : ST W A) (k : A → ST W B) w a w' :
  m w = (Ret a, w') → (m ≫= k) w = k a w'.
Proof. intros Hm. unfold mbind, ST_bind. by rewrite Hm. Qed.

Lemma try_run {W A B E} (m : ST W (result A E)) (k : A → ST W (result B E)) w a w' :
  m w = (Ret (Ok a), w') → try m k w = k a w'.
Proof. intros Hm. unfold try. by rewrite (bind_run _ _ _ _ _ Hm). Qed.

Lemma try_run_err {W A B E} (m : ST W (result A E)) (k : A → ST W (result B E)) w e w' :
  m w = (Ret (Err e), w') → try m k w = (Ret (Err e), w').
Proof. intros Hm. unfold try. by rewrite (bind_run _ _ _ _ _ Hm). Qed.

Definition u32_max : N := 2 ^ 32 - 1.
Definition u64_modulus : N := 2 ^ 64.

(** [a + b] on [u64] and on 64-bit [usize]: overflow panics with debug
    assertions and wraps without. *)
Definition add_u64 {W} `{BuildCfg} (a b : N) : ST W N :=
  let n := (a + b)%N in
  if (n <? u64_modulus)%N then mret n
  else if debug_assertions then panic else mret (n mod u64_modulus)%N.

(** [a - b] on the same types. *)
Definition sub_u64 {W} `{BuildCfg} (a b : N) : ST W N :=
  if (b <=? a)%N then mret (a - b)%N
  else if debug_assertions then panic else mret (u64_modulus + a - b)%N.

(** [iter().sum()] on [u64] *)
Fixpoint sum_u64_from {W} `{BuildCfg} (acc : N) (l : list N) : ST W N :=
  match l with
  | [] => mret acc
  | x :: l => acc' ← add_u64 acc x; sum_u64_from acc' l
  end.

Definition sum_u64 {W} `{BuildCfg} (l : list N) : ST W N := sum_u64_from 0 l.

(** The mathematical sum, without overflow. *)
Definition sum_N (l : list N) : N := foldr N.add 0%N l.

Lemma sum_u64_from_ok {W} `{BuildCfg} acc l (w : W) :
  (acc + sum_N l < u64_modulus)%N → sum_u64_from acc l w = (Ret (acc + sum_N l)%N, w).
Proof.
  revert acc. induction l as [|x l IH]; intros acc Hs; simpl in *.
  { by rewrite N.add_0_r. }
  unfold add_u64, mbind, ST_bind.
  assert ((acc + x <? u64_modulus)%N = true) as -> by (apply N.ltb_lt; lia).
  simpl. rewrite IH by lia. f_equal. f_equal. lia.
Qed.

Lemma add_u64_small {W} `{BuildCfg} a b (w : W) : (a + b < u64_modulus)%N → add_u64 a b w = (Ret (a + b)%N, w).
Proof. intros Hlt. unfold add_u64. by destruct (N.ltb_spec (a + b) u64_modulus); [|lia]. Qed.

Lemma sum_u64_ok {W} `{BuildCfg} l (w : W) :
  (sum_N l < u64_modulus)%N → sum_u64 l w = (Ret (sum_N l), w).
Proof. intros Hs. unfold sum_u64. by rewrite sum_u64_from_ok. Qed.

(** ** Lists *)

Lemma length_omap_le {A B : Type} (f : A → option B) l : length (omap f l) ≤ length l.
Proof.
  induction l as [|x l IH]; [done|].
  change (omap f (x :: l)) with (match f x with Some y => y :: omap f l | None => omap f l end).
  destruct (f x); cbn [length]; lia.
Qed.

(** A partial map that is injective on a list keeps it free of duplicates. *)
Lemma omap_NoDup {A B : Type} (f : A → option B) l :
  NoDup l → (∀ x y z, x ∈ l → y ∈ l → f x = Some z → f y = Some z → x = y) → NoDup (omap f l).
Proof.
  induction 1 as [|x l Hx Hl IH]; intros Hf; [constructor|].
  assert (NoDup (omap f l)) as Hnd.
  { apply IH. intros y z u Hy Hz. apply Hf; by right. }
  change (omap f (x :: l)) with (match f x with Some y => y :: omap f l | None => omap f l end).
  destruct (f x) as [z|] eqn:E; [|done]. constructor; [|done].
  intros (y & Hy & Hz)%list_elem_of_omap. assert (x = y) as -> by (apply (Hf x y z); [by left|by right|done..]).
  done.
Qed.

(** ** Comparisons *)

(** Rust's [Ordering::Less] and so on are the constructors of [comparison]. A
    comparison function is a total order when it satisfies these laws. *)
Class CmpOrder {A} (cmp : A → A → comparison) : Prop := {
  cmp_eq_iff : ∀ x y, cmp x y = Eq ↔ x = y;
  cmp_antisym : ∀ x y, cmp y x = CompOpp (cmp x y);
  cmp_lt_trans : ∀ x y z, cmp x y = Lt → cmp y z = Lt → cmp x z = Lt
}.

Definition cmp_lt {A} (cmp : A → A → comparison) (x y : A) : Prop := cmp x y = Lt.

Section total_order.
Context {A : Type} (cmp : A → A → comparison) `{!CmpOrder cmp}.

Lemma cmp_refl x : cmp x x = Eq.
Proof. by apply (cmp_eq_iff (cmp:=cmp)). Qed.

Lemma cmp_gt_iff x y : cmp x y = Gt ↔ cmp y x = Lt.
Proof.
  pose proof (cmp_antisym (cmp:=cmp) x y) as H.
  destruct (cmp x y), (cmp y x); simpl in *; split; congruence.
Qed.

#[global] Instance cmp_lt_strict : StrictOrder (cmp_lt cmp).
Proof.
  split.
  - intros x Hx. unfold complement, cmp_lt in Hx. rewrite cmp_refl in Hx. done.
  - intros x y z. apply cmp_lt_trans.
Qed.

Lemma cmp_not_gt_trans x y z : cmp x y ≠ Gt → cmp y z = Lt → cmp x z = Lt.
Proof.
  intros Hxy Hyz. destruct (cmp x y) eqn:E; [|by eapply cmp_lt_trans|done].
  apply (cmp_eq_iff (cmp:=cmp)) in E. by subst.
Qed.

Lemma cmp_lt_not_gt_trans x y z : cmp x y = Lt → cmp y z ≠ Gt → cmp x z = Lt.
Proof.
  intros Hxy Hyz. destruct (cmp y z) eqn:E; [|by eapply cmp_lt_trans|done].
  apply (cmp_eq_iff (cmp:=cmp)) in E. by subst.
Qed.

Lemma cmp_le_trans x y z : cmp x y ≠ Gt → cmp y z ≠ Gt → cmp x z ≠ Gt.
Proof.
  intros Hxy Hyz. destruct (cmp x y) eqn:E; [|by rewrite (cmp_lt_not_gt_trans _ _ _ E Hyz)|done].
  apply (cmp_eq_iff (cmp:=cmp)) in E. by subst.
Qed.

End total_order.

(** ** Strings *)

(** Text is a sequence of bytes in UTF-8: [String.length] is [str::len]. *)

Lemma ascii_compare_eq a b : Ascii.compare a b = Eq ↔ a = b.
Proof.
  unfold Ascii.compare. rewrite N.compare_eq_iff. split; [|by intros ->].
  intros H. rewrite <-(ascii_N_embedding a), <-(ascii_N_embedding b). by rewrite H.
Qed.

Lemma string_compare_eq s t : String.compare s t = Eq ↔ s = t.
Proof.
  split; [apply String.compare_eq_iff|intros ->].
  induction t as [|a t IH]; simpl; [done|].
  unfold Ascii.compare. by rewrite N.compare_refl.
Qed.

#[export] Instance string_compare_order : CmpOrder String.compare.
Proof.
  split.
  - apply string_compare_eq.
  - intros x y. apply String.compare_antisym.
  - induction x as [|a x IH]; intros [|b y] [|c z]; simpl; try done.
    unfold Ascii.compare.
    destruct (N.compare_spec (N_of_ascii a) (N_of_ascii b)) as [Hab|Hab|Hab]; try done;
    destruct (N.compare_spec (N_of_ascii b) (N_of_ascii c)) as [Hbc|Hbc|Hbc]; try done.
    + intros H1 H2. rewrite Hab, Hbc, N.compare_refl. by eapply IH.
    + intros _ _. rewrite Hab. apply N.compare_lt_iff in Hbc. by rewrite Hbc.
    + intros _ _. rewrite <-Hbc. apply N.compare_lt_iff in Hab. by rewrite Hab.
    + intros _ _. assert (N_of_ascii a < N_of_ascii c)%N as H by lia.
      apply N.compare_lt_iff in H. by rewrite H.
Qed.

Lemma string_compare_refl s : String.compare s s = Eq.
Proof. apply (cmp_refl String.compare). Qed.

(** ** Sorting and searching *)

(** [sort_unstable_by]: a sorted permutation. The program never depends on the
    order of equal keys. *)
Definition sort_by {A} (cmp : A → A → comparison) : list A → list A :=
  merge_sort (λ x y, cmp x y ≠ Gt).

(** [slice::binary_search_by], as the standard library writes it. The bound
    [fuel] is the length of the slice: every round discards at least one
    element. *)
Fixpoint binary_search_loop {A} (f : A → comparison) (l : list A)
    (fuel left right : nat) : result nat nat :=
  match fuel with
  | O => Err left
  | S fuel =>
      if left <? right then
        let mid := left + (right - left) / 2 in
        match l !! mid with
        | None => Err left
        | Some x =>
            match f x with
            | Lt => binary_search_loop f l fuel (mid + 1) right
            | Gt => binary_search_loop f l fuel left mid
            | Eq => Ok mid
            end
        end
      else Err left
  end.

Definition binary_search_by {A} (f : A → comparison) (l : list A) : result nat nat :=
  binary_search_loop f l (length l) 0 (length l).

(** The precondition of a binary search: [f] classifies the elements as first
    the smaller ones, then the equal ones, then the greater ones. *)
Definition partitioned {A} (f : A → comparison) (l : list A) : Prop :=
  ∀ i j x y, i < j → l !! i = Some x → l !! j = Some y →
    (f x = Gt → f y = Gt) ∧ (f y = Lt → f x = Lt).

Lemma binary_search_loop_spec {A} (f : A → comparison) (l : list A) fuel left right :
  partitioned f l →
  right ≤ length l → left ≤ right → right - left ≤ fuel →
  (∀ i x, i < left → l !! i = Some x → f x = Lt) →
  (∀ i x, right ≤ i → l !! i = Some x → f x = Gt) →
  match binary_search_loop f l fuel left right with
  | Ok i => ∃ x, l !! i = Some x ∧ f x = Eq
  | Err i => i ≤ length l ∧ (∀ j x, j < i → l !! j = Some x → f x = Lt) ∧
             (∀ j x, i ≤ j → l !! j = Some x → f x = Gt)
  end.
Proof.
  intros Hp. revert left right. induction fuel as [|fuel IH]; intros left right Hr Hlr Hf HL HG;
    cbn [binary_search_loop].
  { assert (left = right) as -> by lia. auto. }
  destruct (Nat.ltb_spec left right) as [Hlt|Hge].
  2: { assert (left = right) as -> by lia. auto. }
  set (mid := left + (right - left) / 2).
  assert ((right - left) / 2 < right - left) by (apply Nat.div_lt; lia).
  destruct (lookup_lt_is_Some_2 l mid ltac:(lia)) as [x Hx]. rewrite Hx.
  destruct (f x) eqn:E; [eauto| |]; apply IH; try lia; try done.
  - intros i y Hi Hy. destruct (decide (i = mid)) as [->|]; [congruence|].
    eapply (Hp i mid); eauto; lia.
  - intros i y Hi Hy. destruct (decide (i = mid)) as [->|]; [congruence|].
    eapply (Hp mid i); eauto; lia.
Qed.

Lemma binary_search_by_spec {A} (f : A → comparison) (l : list A) :
  partitioned f l →
  match binary_search_by f l with
  | Ok i => ∃ x, l !! i = Some x ∧ f x = Eq
  | Err i => i ≤ length l ∧ (∀ j x, j < i → l !! j = Some x → f x = Lt) ∧
             (∀ j x, i ≤ j → l !! j = Some x → f x = Gt)
  end.
Proof.
  intros Hp. apply binary_search_loop_spec; auto; try lia.
  intros i x Hi Hx. apply lookup_lt_Some in Hx. lia.
Qed.

Section sort_by.
Context {A : Type} (cmp : A → A → comparison).
Hypothesis cmp_total : ∀ x y, cmp y x = CompOpp (cmp x y).
Hypothesis cmp_trans : ∀ x y z, cmp x y ≠ Gt → cmp y z ≠ Gt → cmp x z ≠ Gt.

Lemma sort_by_perm l : sort_by cmp l ≡ₚ l.
Proof. apply merge_sort_Permutation. Qed.

Lemma sort_by_sorted l : StronglySorted (λ x y, cmp x y ≠ Gt) (sort_by cmp l).
Proof using cmp_total cmp_trans.
  assert (Transitive (λ x y, cmp x y ≠ Gt)) by exact cmp_trans.
  assert (Total (λ x y, cmp x y ≠ Gt)).
  { intros x y. rewrite (cmp_total x y). destruct (cmp x y); simpl; auto. }
  apply StronglySorted_merge_sort; apply _.
Qed.
End sort_by.

(** ** Invariants of runs *)

(** [m] relates every initial state to the final one by [R], however it ends:
    with a value, in a panic, or when the process dies. *)
Definition respects {W A} (R : relation W) (m : ST W A) : Prop := ∀ w, R w (m w).2.

Section respects.
Context {W : Type} (R : relation W) `{!PreOrder R}.

Lemma respects_ret {A} (a : A) : respects R (mret a).
Proof. intros w. simpl. reflexivity. Qed.
Lemma respects_panic {A} : respects R (panic (A:=A)).
Proof. intros w. simpl. reflexivity. Qed.
Lemma respects_no_fuel {A} : respects R (no_fuel (A:=A)).
Proof. intros w. simpl. reflexivity. Qed.
Lemma respects_gets {A} (f : W → A) : respects R (gets f).
Proof. intros w. simpl. reflexivity. Qed.
Lemma respects_get : respects R get.
Proof. intros w. simpl. reflexivity. Qed.

Lemma respects_bind {A B} (m : ST W A) (k : A → ST W B) :
  respects R m → (∀ a, respects R (k a)) → respects R (m ≫= k).
Proof.
  intros Hm Hk w. specialize (Hm w). unfold mbind, ST_bind.
  destruct (m w) as [[a| | |] w']; simpl in *; try done.
  etrans; [done|]. apply Hk.
Qed.

(** A scope that drops something relates the states when its body does, from here. *)
Lemma scoped_at {A} (drop : ST W unit) (body : ST W A) w :
  R w (body w).2 → respects R drop → R w (scoped drop body w).2.
Proof.
  intros Hb Hd. unfold scoped. destruct (body w) as [[x| | |] w1]; simpl in *; try done; (etrans; [exact Hb|]).
  - apply (respects_bind drop (λ _, mret x)); [done|]. intros _. apply respects_ret.
  - apply (respects_bind drop (λ _, panic)); [done|]. intros _. apply respects_panic.
Qed.

Lemma respects_scoped {A} (drop : ST W unit) (body : ST W A) :
  respects R drop → respects R body → respects R (scoped drop body).
Proof. intros Hd Hb w. by apply scoped_at. Qed.

Lemma respects_try {A B E} (m : ST W (result A E)) (k : A → ST W (result B E)) :
  respects R m → (∀ a, respects R (k a)) → respects R (try m k).
Proof.
  intros Hm Hk. unfold try. apply respects_bind; [done|].
  intros [a|e]; [apply Hk|apply respects_ret].
Qed.

Lemma respects_assert b : respects R (rust_assert b).
Proof. destruct b; [apply respects_ret|apply respects_panic]. Qed.

Lemma respects_expect {A} (o : option A) : respects R (expect o).
Proof. destruct o; [apply respects_ret|apply respects_panic]. Qed.

Lemma respects_expect_ok {A E} (r : result A E) : respects R (expect_ok r).
Proof. destruct r; [apply respects_ret|apply respects_panic]. Qed.

Lemma respects_for_each {A} (l : list A) (f : A → ST W unit) :
  (∀ x, respects R (f x)) → respects R (for_each l f).
Proof.
  intros Hf. induction l; simpl; [apply respects_ret|].
  apply respects_bind; auto.
Qed.

Lemma respects_try_fold {A S E} (f : S → A → ST W (result S E)) s l :
  (∀ s x, respects R (f s x)) → respects R (try_fold f s l).
Proof.
  intros Hf. revert s. induction l; simpl; intros s; [apply respects_ret|].
  apply respects_try; auto.
Qed.

Lemma respects_fold_st {A S} (f : S → A → ST W S) s l :
  (∀ s x, respects R (f s x)) → respects R (fold_st f s l).
Proof.
  intros Hf. revert s. induction l; simpl; intros s; [apply respects_ret|].
  apply respects_bind; auto.
Qed.

Lemma respects_add_u64 `{BuildCfg} a b : respects R (add_u64 a b).
Proof. unfold add_u64, panic. intros w. by repeat case_match. Qed.

Lemma respects_sum_u64 `{BuildCfg} l : respects R (sum_u64 l).
Proof.
  unfold sum_u64. generalize 0%N. induction l as [|n l IH]; intros s; simpl; [apply respects_ret|].
  apply respects_bind; [apply respects_add_u64|done].
Qed.
End respects.

Lemma respects_modify {W} (R : relation W) f : (∀ w, R w (f w)) → respects R (modify f).
Proof. intros H w. apply H. Qed.

Create HintDb respects.
#[export] Hint Resolve respects_ret respects_panic respects_no_fuel respects_gets respects_get
  respects_bind respects_try respects_assert respects_expect respects_expect_ok
  respects_for_each respects_try_fold respects_fold_st : respects.

(** Structural part of a [respects] goal: descend through binds, matches and
    loops, closing leaves with the hint database. *)
Ltac respects_step :=
  lazymatch goal with
  | |- respects _ (mret _) => apply respects_ret; try apply _
  | |- respects _ panic => apply respects_panic; try apply _
  | |- respects _ no_fuel => apply respects_no_fuel; try apply _
  | |- respects _ get => apply respects_get; try apply _
  | |- respects _ (gets _) => apply respects_gets; try apply _
  | |- respects _ (mbind _ _) => apply respects_bind; [try apply _| |intros ?]
  | |- respects _ (try _ _) => apply respects_try; [try apply _| |intros ?]
  | |- respects _ (scoped _ _) => apply respects_scoped; [try apply _| |]
  | |- respects _ (rust_assert _) => apply respects_assert; try apply _
  | |- respects _ (expect _) => apply respects_expect; try apply _
  | |- respects _ (expect_ok _) => apply respects_expect_ok; try apply _
  | |- respects _ (for_each _ _) => apply respects_for_each; [try apply _|intros ?]
  | |- respects _ (try_fold _ _ _) => apply respects_try_fold; [try apply _|intros ? ?]
  | |- respects _ (fold_st _ _ _) => apply respects_fold_st; [try apply _|intros ? ?]
  | |- respects _ (add_u64 _ _) => apply respects_add_u64; try apply _
  | |- respects _ (sum_u64 _) => apply respects_sum_u64; try apply _
  | |- respects _ (let _ := _ in _) => cbv zeta
  | |- respects _ (match ?x with _ => _ end) => destruct x
  end.

Ltac solve_respects := repeat (first [solve [eauto 3 with respects] | respects_step]).

(** The same for programs that only read, with a smaller database. *)
Create HintDb reading.
Ltac solve_reading := repeat (first [solve [eauto 2 with reading] | respects_step]).

(** [m] relates the states by [R], however it ends, and what it returns satisfies [I]. *)
Definition held {W A} (R : relation W) (I : A → Prop) (m : ST W A) : Prop :=
  ∀ w, R w (m w).2 ∧ ∀ a, (m w).1 = Ret a → I a.

Section held.
Context {W : Type} (R : relation W) `{!PreOrder R}.

Lemma held_ret {A} (I : A → Prop) a : I a → held R I (mret a).
Proof. intros Ha w. split; [reflexivity|]. by intros a' [= <-]. Qed.

Lemma held_respects {A} (I : A → Prop) (m : ST W A) : held R I m → respects R m.
Proof. intros Hm w. apply Hm. Qed.

Lemma held_bind {A B} (J : A → Prop) (I : B → Prop) (m : ST W A) (k : A → ST W B) :
  held R J m → (∀ a, J a → held R I (k a)) → held R I (m ≫= k).
Proof.
  intros Hm Hk w. destruct (Hm w) as [Hr HJ]. unfold mbind, ST_bind.
  destruct (m w) as [[a| | |] w1]; simpl in *; try by split.
  destruct (Hk a (HJ a eq_refl) w1) as [Hr' HI]. split; [by etrans|done].
Qed.

(** Something that only has to respect [R], and then more *)
Lemma held_then {A B} (I : B → Prop) (m : ST W A) (k : A → ST W B) :
  respects R m → (∀ a, held R I (k a)) → held R I (m ≫= k).
Proof. intros Hm Hk. apply (held_bind (λ _, True)); [|by intros]. intros w. by split. Qed.

Lemma held_panic {A} (I : A → Prop) : held R I panic.
Proof. intros w. split; [reflexivity|done]. Qed.
End held.

(** ** Weakest preconditions *)

(** [wp m Q C w]: started in [w], the run of [m] ends in a value satisfying
    [Q], or in a panic or a crash in a state satisfying [C]. *)
Definition wp {W A} (m : ST W A) (Q : A → W → Prop) (C : W → Prop) (w : W) : Prop :=
  match m w with
  | (Ret a, w') => Q a w'
  | (_, w') => C w'
  end.

Section wp.
Context {W : Type}.
Implicit Types (C : W → Prop) (w : W).

Lemma wp_ret {A} (a : A) (Q : A → W → Prop) C w : Q a w → wp (mret a) Q C w.
Proof. done. Qed.

Lemma wp_bind {A B} (m : ST W A) (k : A → ST W B) Q C w :
  wp m (λ a w', wp (k a) Q C w') C w → wp (m ≫= k) Q C w.
Proof.
  unfold wp, mbind, ST_bind. by destruct (m w) as [[a| | |] w'].
Qed.

Lemma wp_mono {A} (m : ST W A) (Q Q' : A → W → Prop) (C C' : W → Prop) w :
  wp m Q C w → (∀ a w', Q a w' → Q' a w') → (∀ w', C w' → C' w') → wp m Q' C' w.
Proof. unfold wp. destruct (m w) as [[a| | |] w']; auto. Qed.

Lemma wp_try {A B E} (m : ST W (result A E)) (k : A → ST W (result B E)) Q C w :
  wp m (λ r w', match r with Ok a => wp (k a) Q C w' | Err e => Q (Err e) w' end) C w →
  wp (try m k) Q C w.
Proof.
  intros H. unfold try. apply wp_bind. eapply wp_mono; [exact H| |done].
  intros [a|e] w'; auto.
Qed.
(** An invariant that a program keeps. *)
Definition keeps (I : W → Prop) : relation W := λ w w', I w → I w'.

#[global] Instance keeps_preorder I : PreOrder (keeps I).
Proof. split; [by intros w Hw|]. intros a b c Hab Hbc Ha. by apply Hbc, Hab. Qed.

Lemma wp_keep {A} (I : W → Prop) (m : ST W A) (Q : A → W → Prop) C w :
  respects (keeps I) m → I w → (∀ a w', I w' → Q a w') → (∀ w', I w' → C w') → wp m Q C w.
Proof.
  intros Hm Hw HQ HC. specialize (Hm w Hw). unfold wp.
  destruct (m w) as [[a| | |] w']; simpl in *; auto.
Qed.

(** The same before more steps *)
Lemma wp_keep_bind {A B} (I : W → Prop) (m : ST W A) (k : A → ST W B) (Q : B → W → Prop) C w :
  respects (keeps I) m → I w → (∀ w', I w' → C w') → (∀ a w', I w' → wp (k a) Q C w') →
  wp (m ≫= k) Q C w.
Proof. intros Hm Hw HC Hk. apply wp_bind. by eapply wp_keep. Qed.
End wp.

Ltac wp_ret := unfold wp; simpl.

(** A run that ends in a value. *)
Definition runs {W A} (m : ST W A) (w : W) (a : A) (w' : W) : Prop := m w = (Ret a, w').

Lemma runs_bind {W A B} (m : ST W A) (k : A → ST W B) w a w' b w'' :
  runs m w a w' → runs (k a) w' b w'' → runs (m ≫= k) w b w''.
Proof. unfold runs, mbind, ST_bind. by intros -> ->. Qed.

Lemma runs_try {W A B E} (m : ST W (result A E)) (k : A → ST W (result B E)) w a w' b w'' :
  runs m w (Ok a) w' → runs (k a) w' b w'' → runs (try m k) w b w''.
Proof. unfold runs, try, mbind, ST_bind. by intros -> ->. Qed.

Lemma runs_try_err {W A B E} (m : ST W (result A E)) (k : A → ST W (result B E)) w e w' :
  runs m w (Err e) w' → runs (try m k) w (Err e) w'.
Proof. unfold runs, try, mbind, ST_bind. by intros ->. Qed.

(** ** Taking runs apart *)

Lemma bind_ret_inv {W A B} (m : ST W A) (k : A → ST W B) w b w' :
  (m ≫= k) w = (Ret b, w') → ∃ a w1, m w = (Ret a, w1) ∧ k a w1 = (Ret b, w').
Proof. unfold mbind, ST_bind. destruct (m w) as [[a| | |] w1]; try done. by eauto. Qed.

Lemma try_ok_inv {W A B E} (m : ST W (result A E)) (k : A → ST W (result B E)) w b w' :
  try m k w = (Ret (Ok b), w') → ∃ a w1, m w = (Ret (Ok a), w1) ∧ k a w1 = (Ret (Ok b), w').
Proof.
  intros ([a|e] & w1 & Hm & Hk)%bind_ret_inv; [by eauto|done].
Qed.

Lemma ret_inv {W A} (a b : A) (w w' : W) : (mret a : ST W A) w = (Ret b, w') → a = b ∧ w = w'.
Proof. intros H. unfold mret, ST_ret in H. by simplify_eq. Qed.

Lemma assert_inv {W} b u (w w' : W) : rust_assert b w = (Ret u, w') → b = true ∧ w' = w.
Proof. destruct b; [by intros [_ ->]%ret_inv|done]. Qed.

Lemma modify_run {W} (f : W → W) w : modify f w = (Ret tt, f w).
Proof. done. Qed.

Lemma expect_run {W A} (o : option A) a (w : W) : o = Some a → expect o w = (Ret a, w).
Proof. by intros ->. Qed.

(** [inv_run H]: take apart a run that ended in a value. *)
Ltac inv_run H :=
  try progress cbn iota in H;
  lazymatch type of H with
  | (mbind _ _) _ = (Ret _, _) =>
      let a := fresh "a" in let w := fresh "w" in let H1 := fresh "Hrun" in
      apply bind_ret_inv in H as (a & w & H1 & H)
  | try _ _ _ = (Ret (Ok _), _) =>
      let a := fresh "a" in let w := fresh "w" in let H1 := fresh "Hrun" in
      apply try_ok_inv in H as (a & w & H1 & H)
  | mret _ _ = (Ret _, _) => apply ret_inv in H as [? ?]; simplify_eq
  end.

(** ** Sorted lists *)

Lemma strongly_sorted_filter {A} (R : relation A) (P : A → Prop) `{∀ x, Decision (P x)} l :
  StronglySorted R l → StronglySorted R (filter P l).
Proof.
  induction 1 as [|x l Hl IH Hx]; [constructor|]. rewrite filter_cons. case_decide; [|done].
  constructor; [done|]. apply Forall_forall. intros y [_ Hy]%list_elem_of_In%list_elem_of_filter.
  by eapply Forall_forall in Hx; [|by apply list_elem_of_In].
Qed.

(** ** Termination *)

(** [m] never exhausts a bound of the model. *)
Definition terminates {W A} (m : ST W A) : Prop := ∀ w, (m w).1 ≠ NoFuel.

Section terminates.
Context {W : Type}.

Lemma terminates_ret {A} (a : A) : terminates (mret a : ST W A).
Proof. done. Qed.
Lemma terminates_panic {A} : terminates (panic : ST W A).
Proof. done. Qed.
Lemma terminates_get : terminates (get : ST W W).
Proof. done. Qed.
Lemma terminates_gets {A} (f : W → A) : terminates (gets f).
Proof. done. Qed.
Lemma terminates_modify (f : W → W) : terminates (modify f).
Proof. done. Qed.

Lemma terminates_bind {A B} (m : ST W A) (k : A → ST W B) :
  terminates m → (∀ a, terminates (k a)) → terminates (m ≫= k).
Proof.
  intros Hm Hk w. specialize (Hm w). unfold mbind, ST_bind.
  destruct (m w) as [[a| | |] w1]; simpl in *; [apply Hk|done..].
Qed.

Lemma terminates_scoped {A} (drop : ST W unit) (body : ST W A) :
  terminates drop → terminates body → terminates (scoped drop body).
Proof.
  intros Hd Hb w. specialize (Hb w). unfold scoped. destruct (body w) as [[a| | |] w1]; try done;
    unfold mbind, ST_bind; specialize (Hd w1); by destruct (drop w1) as [[[]| | |] w2].
Qed.

Lemma terminates_try {A B E} (m : ST W (result A E)) (k : A → ST W (result B E)) :
  terminates m → (∀ a, terminates (k a)) → terminates (try m k).
Proof. intros Hm Hk. apply terminates_bind; [done|]. by intros [a|e]. Qed.

Lemma terminates_assert b : terminates (rust_assert b : ST W unit).
Proof. by destruct b. Qed.
Lemma terminates_expect {A} (o : option A) : terminates (expect o : ST W A).
Proof. by destruct o. Qed.
Lemma terminates_expect_ok {A E} (r : result A E) : terminates (expect_ok r : ST W A).
Proof. by destruct r. Qed.

Lemma terminates_for_each {A} (l : list A) (f : A → ST W unit) :
  (∀ x, terminates (f x)) → terminates (for_each l f).
Proof. intros Hf. induction l; simpl; [done|]. by apply terminates_bind. Qed.

Lemma terminates_try_fold {A S E} (f : S → A → ST W (result S E)) s l :
  (∀ s x, terminates (f s x)) → terminates (try_fold f s l).
Proof. intros Hf. revert s. induction l; intros s; simpl; [done|]. by apply terminates_try. Qed.

Lemma terminates_fold_st {A S} (f : S → A → ST W S) s l :
  (∀ s x, terminates (f s x)) → terminates (fold_st f s l).
Proof. intros Hf. revert s. induction l; intros s; simpl; [done|]. by apply terminates_bind. Qed.

Lemma terminates_debug_assert `{BuildCfg} b : terminates (debug_assert b : ST W unit).
Proof. unfold debug_assert. destruct debug_assertions; [apply terminates_assert|done]. Qed.

Lemma terminates_add_u64 `{BuildCfg} a b : terminates (add_u64 a b : ST W N).
Proof. unfold add_u64. by destruct (_ <? _)%N, debug_assertions. Qed.

Lemma terminates_sum_u64 `{BuildCfg} l : terminates (sum_u64 l : ST W N).
Proof.
  unfold sum_u64. generalize 0%N. induction l as [|x l IH]; intros acc; simpl; [done|].
  apply terminates_bind; [apply terminates_add_u64|done].
Qed.
End terminates.

Create HintDb terminates.
#[export] Hint Resolve terminates_ret terminates_panic terminates_get terminates_gets terminates_modify
  terminates_assert terminates_expect terminates_expect_ok terminates_debug_assert
  terminates_add_u64 terminates_sum_u64 : terminates.

Ltac terminates_step :=
  lazymatch goal with
  | |- terminates (mbind _ _) => apply terminates_bind; [|intros ?]
  | |- terminates (try _ _) => apply terminates_try; [|intros ?]
  | |- terminates (scoped _ _) => apply terminates_scoped
  | |- terminates (for_each _ _) => apply terminates_for_each; intros ?
  | |- terminates (try_fold _ _ _) => apply terminates_try_fold; intros ? ?
  | |- terminates (fold_st _ _ _) => apply terminates_fold_st; intros ? ?
  | |- terminates (let _ := _ in _) => cbv zeta
  | |- terminates (match ?x with _ => _ end) => destruct x
  end.

(** Descend through a program, closing the leaves with the hint database. *)
Ltac solve_terminates := repeat (first [solve [eauto 2 with terminates] | terminates_step]).
