(* ===== verification/Text.v ===== *)
(** * Text

    The operations of Rust's [str] and [String] that conserve uses, on byte
    strings in UTF-8: [split], [starts_with], [ends_with], [chars], slicing,
    [format!] of padded unsigned decimals, [str::parse::<u32>], [trim] and
    [lines]; and the facts about them that the components share. *)

From Stdlib Require Import DecimalString DecimalN Ascii.
From S2P Require Export Prelude.
From stdpp Require Import list.

Open Scope string_scope.

#[global] Arguments String.append !_ _ /.

(** ** Definitions *)

(** [s.split(c)]: always at least one part. *)
Fixpoint split_on (c : ascii) (s : string) : list string :=
  match s with
  | EmptyString => [""]
  | String a s =>
      if Ascii.eqb a c then "" :: split_on c s
      else match split_on c s with
           | [] => [String a ""]
           | p :: ps => String a p :: ps
           end
  end.

(** The inverse of [split_on]: the parts with the separator between them. *)
Fixpoint join_with (c : ascii) (ps : list string) : string :=
  match ps with
  | [] => ""
  | [p] => p
  | p :: ps => p +:+ String c (join_with c ps)
  end.

(** [s.contains(c)] *)
Fixpoint contains_char (c : ascii) (s : string) : bool :=
  match s with
  | EmptyString => false
  | String a s => Ascii.eqb a c || contains_char c s
  end.

(** [s.contains(p)] for a string. *)
Fixpoint contains_str (p s : string) : bool :=
  String.prefix p s || match s with EmptyString => false | String _ s => contains_str p s end.

(** [s.starts_with(p)] and [s.strip_prefix(p)], for a string or a character. *)
Definition starts_with (p s : string) : bool := String.prefix p s.

Fixpoint str_strip_prefix (p s : string) : option string :=
  match p, s with
  | EmptyString, _ => Some s
  | String a p, String b s => if Ascii.eqb a b then str_strip_prefix p s else None
  | _, EmptyString => None
  end.

(** [s.ends_with(c)] for a character. *)
Fixpoint ends_with_char (c : ascii) (s : string) : bool :=
  match s with
  | EmptyString => false
  | String a EmptyString => Ascii.eqb a c
  | String _ s => ends_with_char c s
  end.

(** A byte that continues a character of UTF-8: 0b10xxxxxx. *)
Definition is_continuation (a : ascii) : bool :=
  (N.land (N_of_ascii a) 192 =? 128)%N.

Definition starts_with_continuation (s : string) : bool :=
  match s with EmptyString => false | String a _ => is_continuation a end.

(** Well-formed UTF-8. [pending] bytes are missing from the current character,
    and the next of them is between [lo] and [hi]. *)
Fixpoint utf8_valid_from (pending : nat) (lo hi : N) (s : string) : bool :=
  match s with
  | EmptyString => (pending =? 0)%nat
  | String a s =>
      let n := N_of_ascii a in
      match pending with
      | S p => ((lo <=? n) && (n <=? hi))%N && utf8_valid_from p 128 191 s
      | O =>
          if (n <? 128)%N then utf8_valid_from 0 128 191 s
          else if ((194 <=? n) && (n <=? 223))%N then utf8_valid_from 1 128 191 s
          else if (n =? 224)%N then utf8_valid_from 2 160 191 s
          else if (n =? 237)%N then utf8_valid_from 2 128 159 s
          else if ((225 <=? n) && (n <=? 239))%N then utf8_valid_from 2 128 191 s
          else if (n =? 240)%N then utf8_valid_from 3 144 191 s
          else if ((241 <=? n) && (n <=? 243))%N then utf8_valid_from 3 128 191 s
          else if (n =? 244)%N then utf8_valid_from 3 128 143 s
          else false
      end
  end.

Definition utf8_valid (s : string) : bool := utf8_valid_from 0 128 191 s.

(** The first byte of a character: how many more there are, and the range of the next. *)
Definition utf8_lead (n : N) : option (nat * N * N) :=
  if (n <? 128)%N then Some (0%nat, 128%N, 191%N)
  else if ((194 <=? n) && (n <=? 223))%N then Some (1%nat, 128%N, 191%N)
  else if (n =? 224)%N then Some (2%nat, 160%N, 191%N)
  else if (n =? 237)%N then Some (2%nat, 128%N, 159%N)
  else if ((225 <=? n) && (n <=? 239))%N then Some (2%nat, 128%N, 191%N)
  else if (n =? 240)%N then Some (3%nat, 144%N, 191%N)
  else if ((241 <=? n) && (n <=? 243))%N then Some (3%nat, 128%N, 191%N)
  else if (n =? 244)%N then Some (3%nat, 128%N, 143%N)
  else None.

(** U+FFFD *)
Definition replacement_character : string := String "239" (String "191" (String "189" "")).

(** [OsStr::to_string_lossy]: every longest part of a character that is broken off, and
    every other byte that is not of one, is replaced. [acc] is the part read so far. *)
Fixpoint lossy_from (acc : string) (pending : nat) (lo hi : N) (s : string) : string :=
  match s with
  | EmptyString => match acc with EmptyString => EmptyString | _ => replacement_character end
  | String a s =>
      let n := N_of_ascii a in
      let start :=
        match utf8_lead n with
        | Some (O, _, _) => String a (lossy_from "" 0 128 191 s)
        | Some (k, lo, hi) => lossy_from (String a "") k lo hi s
        | None => replacement_character +:+ lossy_from "" 0 128 191 s
        end in
      match pending with
      | O => start
      | S p =>
          if ((lo <=? n) && (n <=? hi))%N then
            match p with
            | O => acc +:+ String a (lossy_from "" 0 128 191 s)
            | _ => lossy_from (acc +:+ String a "") p 128 191 s
            end
          else replacement_character +:+ start
      end
  end.

Definition to_string_lossy (s : string) : string := lossy_from "" 0 128 191 s.

(** [s.chars()], each character given by its bytes. *)
Fixpoint chars (s : string) : list string :=
  match s with
  | EmptyString => []
  | String a s =>
      if starts_with_continuation s then
        match chars s with
        | [] => [String a ""]
        | g :: gs => String a g :: gs
        end
      else String a "" :: chars s
  end.

(** The bytes from offset [n] on. *)
Fixpoint string_drop (n : nat) (s : string) : string :=
  match n, s with
  | O, _ => s
  | S n, String _ s => string_drop n s
  | S _, EmptyString => ""
  end.

(** The first [n] bytes. *)
Fixpoint string_take (n : nat) (s : string) : string :=
  match n, s with
  | O, _ => ""
  | S n, String a s => String a (string_take n s)
  | S _, EmptyString => ""
  end.

(** [&s[n..]]: [None] where Rust panics, past the end or inside a character. *)
Definition slice_from (n : nat) (s : string) : option string :=
  if (String.length s <? n)%nat then None
  else let r := string_drop n s in
       if starts_with_continuation r then None else Some r.

(** [&s[..n]] *)
Definition slice_to (n : nat) (s : string) : option string :=
  if (String.length s <? n)%nat then None
  else if starts_with_continuation (string_drop n s) then None
  else Some (String.substring 0 n s).

(** Decimal digits of an unsigned integer, without padding. *)
Definition decimal (n : N) : string := NilEmpty.string_of_uint (N.to_uint n).

Fixpoint zeros (n : nat) : string :=
  match n with O => "" | S n => String "0" (zeros n) end.

(** [format!("{:0>w$}", n)] and [format!("{:0w$}", n)] for unsigned [n]. *)
Definition pad_decimal (w : nat) (n : N) : string :=
  let d := decimal n in zeros (w - String.length d) +:+ d.

(** [s.parse::<u32>().ok()]: an optional plus sign, then one or more digits, in range. *)
Definition parse_u32 (s : string) : option N :=
  let digits := match s with String "+" t => t | _ => s end in
  match digits with
  | EmptyString => None
  | _ => match NilEmpty.uint_of_string digits with
         | Some d => let n := N.of_uint d in if (n <=? u32_max)%N then Some n else None
         | None => None
         end
  end.

Definition ascii_to_lower (a : ascii) : ascii :=
  let n := N_of_ascii a in
  if ((65 <=? n) && (n <=? 90))%N then ascii_of_N (n + 32) else a.

Fixpoint string_to_lower (s : string) : string :=
  match s with
  | EmptyString => ""
  | String a s => String (ascii_to_lower a) (string_to_lower s)
  end.

(** [s.eq_ignore_ascii_case(t)] *)
Definition eq_ignore_ascii_case (s t : string) : bool :=
  String.eqb (string_to_lower s) (string_to_lower t).

(** Every byte is below 128, so that bytes and characters coincide. *)
Fixpoint is_ascii (s : string) : bool :=
  match s with
  | EmptyString => true
  | String a s => (N_of_ascii a <? 128)%N && is_ascii s
  end.

(** A file system path, as the names below the file system's root. *)
Definition Path : Type := list string.

(** The normal components of a relative path: [Path::components] drops empty
    parts and [.]; a [..] stays. *)
Definition path_components (rel : string) : list string :=
  filter (λ p, p ≠ "" ∧ p ≠ ".") (split_on "/" rel).

(** [Path::join] and [PathBuf::push]: an absolute argument replaces the base. *)
Definition path_join (base : Path) (rel : string) : Path :=
  if starts_with "/" rel then path_components rel else (base ++ path_components rel)%list.

(** ** Facts *)

Lemma split_on_not_nil c s : split_on c s ≠ [].
Proof.
  destruct s as [|a s]; simpl; [done|].
  destruct (Ascii.eqb a c); [done|]. by destruct (split_on c s).
Qed.

Lemma join_with_cons c p ps :
  ps ≠ [] → join_with c (p :: ps) = p +:+ String c (join_with c ps).
Proof. by destruct ps. Qed.

Lemma join_split c s : join_with c (split_on c s) = s.
Proof.
  induction s as [|a s IH]; simpl; [done|].
  pose proof (split_on_not_nil c s) as Hn.
  destruct (Ascii.eqb_spec a c) as [->|].
  - by rewrite join_with_cons, IH.
  - destruct (split_on c s) as [|p ps]; [done|].
    destruct ps as [|q ps]; [simpl in *; by rewrite IH|].
    rewrite join_with_cons by done. rewrite join_with_cons in IH by done.
    simpl. by rewrite <-IH.
Qed.

Lemma split_on_inj c s t : split_on c s = split_on c t → s = t.
Proof. intros H. by rewrite <-(join_split c s), H, join_split. Qed.

Lemma split_on_no_sep c s : contains_char c s = false → split_on c s = [s].
Proof.
  induction s as [|a s IH]; simpl; [done|].
  intros [Ha Hs]%orb_false_iff. rewrite Ha, IH; done.
Qed.

Lemma split_on_part c s p : p ∈ split_on c s → contains_char c p = false.
Proof.
  revert p. induction s as [|a s IH]; simpl; intros p.
  - by intros ->%list_elem_of_singleton.
  - pose proof (split_on_not_nil c s) as Hn.
    destruct (Ascii.eqb a c) eqn:E.
    + intros [->|Hp]%elem_of_cons; [done|auto].
    + destruct (split_on c s) as [|q qs]; [done|].
      intros [->|Hp]%elem_of_cons; [|apply IH; by right].
      simpl. rewrite E. apply IH. by left.
Qed.

Lemma split_on_app c s t : split_on c (s +:+ String c t) = (split_on c s ++ split_on c t)%list.
Proof.
  induction s as [|a s IH]; simpl.
  - by rewrite Ascii.eqb_refl.
  - rewrite IH. destruct (Ascii.eqb a c); [done|].
    pose proof (split_on_not_nil c s) as Hn. by destruct (split_on c s).
Qed.

Lemma split_join c ps :
  ps ≠ [] → Forall (λ p, contains_char c p = false) ps → split_on c (join_with c ps) = ps.
Proof.
  intros Hn Hps. induction Hps as [|p ps Hp Hps IH]; [done|].
  destruct ps as [|q ps]; [by apply split_on_no_sep|].
  change (join_with c (p :: q :: ps)) with (p +:+ String c (join_with c (q :: ps))).
  rewrite split_on_app, IH, split_on_no_sep; done.
Qed.

Lemma string_app_assoc (s t u : string) : (s +:+ t) +:+ u = s +:+ (t +:+ u).
Proof. induction s as [|a s IH]; simpl; [done|by rewrite IH]. Qed.

Lemma string_app_nil_r (s : string) : s +:+ "" = s.
Proof. induction s as [|a s IH]; simpl; [done|by rewrite IH]. Qed.

Lemma string_length_app (s t : string) :
  String.length (s +:+ t) = String.length s + String.length t.
Proof. induction s as [|a s IH]; simpl; [done|by rewrite IH]. Qed.

Lemma join_with_app c ps qs :
  ps ≠ [] → qs ≠ [] → join_with c (ps ++ qs) = join_with c ps +:+ String c (join_with c qs).
Proof.
  induction ps as [|p [|r ps] IH]; intros Hp Hq; [done|by apply join_with_cons|].
  change ((p :: r :: ps) ++ qs)%list with (p :: ((r :: ps) ++ qs))%list.
  rewrite join_with_cons, IH, (join_with_cons _ p (r :: ps)) by done.
  by rewrite string_app_assoc.
Qed.

Lemma string_take_drop n s : string_take n s +:+ string_drop n s = s.
Proof. revert n. induction s as [|a s IH]; intros [|n]; simpl; [done..|by rewrite IH]. Qed.

Lemma string_length_take n s : String.length (string_take n s) = Nat.min n (String.length s).
Proof. revert n. induction s as [|a s IH]; intros [|n]; simpl; [done..|by rewrite IH]. Qed.

Lemma string_length_drop n s : String.length (string_drop n s) = (String.length s - n)%nat.
Proof. revert n. induction s as [|a s IH]; intros [|n]; simpl; [done..|by rewrite IH]. Qed.

Lemma substring_take n s : String.substring 0 n s = string_take n s.
Proof. revert s. induction n as [|n IH]; intros [|a s]; simpl; [done..|]. by rewrite IH. Qed.

Lemma string_take_ge n s : (String.length s ≤ n)%nat → string_take n s = s.
Proof.
  revert n. induction s as [|a s IH]; intros [|n] Hn; simpl in *; [done..|lia|].
  rewrite IH; [done|lia].
Qed.

Lemma string_take_app s t : string_take (String.length s) (s +:+ t) = s.
Proof. induction s as [|a s IH]; simpl; [done|by rewrite IH]. Qed.

Lemma string_drop_app s t : string_drop (String.length s) (s +:+ t) = t.
Proof. induction s as [|a s IH]; simpl; [done|exact IH]. Qed.

Lemma string_drop_app_add s t n : string_drop (String.length s + n) (s +:+ t) = string_drop n t.
Proof. induction s as [|a s IH]; simpl; [done|exact IH]. Qed.

Lemma string_take_app_le n s t : (n ≤ String.length s)%nat → string_take n (s +:+ t) = string_take n s.
Proof. revert n. induction s as [|a s IH]; intros [|n] Hn; simpl in *; [done|lia|done|]. rewrite IH; [done|lia]. Qed.

Lemma string_take_app_add s t n : string_take (String.length s + n) (s +:+ t) = s +:+ string_take n t.
Proof. induction s as [|a s IH]; simpl; [done|]. by rewrite IH. Qed.

Lemma string_drop_app_le n s t : (n ≤ String.length s)%nat → string_drop n (s +:+ t) = string_drop n s +:+ t.
Proof. revert n. induction s as [|a s IH]; intros [|n] Hn; simpl in *; try done; [lia|]. apply IH. lia. Qed.

Lemma string_drop_drop n m s : string_drop n (string_drop m s) = string_drop (m + n) s.
Proof. revert m. induction s as [|a s IH]; intros [|m]; simpl; try done. by destruct n. Qed.

Lemma string_drop_take n m s : string_drop n (string_take m s) = string_take (m - n) (string_drop n s).
Proof.
  revert n m. induction s as [|a s IH]; intros [|n] [|m]; simpl; try done. by destruct (m - n)%nat.
Qed.

Lemma starts_with_spec p s : starts_with p s = true ↔ ∃ t, s = p +:+ t.
Proof.
  unfold starts_with. revert s. induction p as [|a p IH]; intros [|b s]; simpl.
  - split; eauto.
  - split; eauto.
  - split; [done|]. by intros [? ?].
  - destruct (ascii_dec a b) as [->|Hne].
    + rewrite IH. split; intros [t Ht]; exists t; [by f_equal|by injection Ht].
    + split; [done|]. intros [t [=]]; congruence.
Qed.

Lemma str_strip_prefix_spec p s t : str_strip_prefix p s = Some t ↔ s = p +:+ t.
Proof.
  revert s. induction p as [|a p IH]; intros [|b s]; simpl.
  - naive_solver.
  - naive_solver.
  - done.
  - destruct (Ascii.eqb_spec a b) as [->|Hne]; [rewrite IH; naive_solver|].
    split; [done|]. intros [=]; congruence.
Qed.

Lemma lossy_from_valid s : ∀ acc pending lo hi,
  utf8_valid_from pending lo hi s = true → (pending = 0%nat ↔ acc = "") →
  lossy_from acc pending lo hi s = acc +:+ s.
Proof.
  induction s as [|a s IH]; intros acc pending lo hi Hv Hacc; cbn [lossy_from utf8_valid_from] in *.
  - apply Nat.eqb_eq in Hv. by rewrite (proj1 Hacc Hv).
  - destruct pending as [|p].
    + rewrite (proj1 Hacc eq_refl). unfold utf8_lead.
      repeat case_match; simplify_eq/=; try done; rewrite IH; try done.
    + apply andb_true_iff in Hv as [-> Hv]. destruct p as [|p].
      * f_equal. f_equal. by rewrite IH.
      * rewrite IH; [by rewrite string_app_assoc|done|]. split; [done|]. by destruct acc.
Qed.

Lemma to_string_lossy_valid s : utf8_valid s = true → to_string_lossy s = s.
Proof. intros Hv. unfold to_string_lossy. by rewrite lossy_from_valid. Qed.

Lemma ends_with_app_char c s : ends_with_char c (s +:+ String c "") = true.
Proof.
  induction s as [|a s IH]; simpl; [apply Ascii.eqb_refl|].
  destruct (s +:+ String c "") eqn:E; [|done]. by destruct s.
Qed.

Lemma ends_with_char_split c s :
  ends_with_char c s = true ↔ ∃ t, s = t +:+ String c "".
Proof.
  split; [|intros [t ->]; apply ends_with_app_char].
  induction s as [|a [|b s] IH]; simpl in *; [done| |].
  - intros ->%Ascii.eqb_eq. by exists "".
  - intros H. destruct (IH H) as [t Ht]. exists (String a t). simpl. by rewrite Ht.
Qed.

Lemma ascii_not_continuation a : (N_of_ascii a <? 128)%N = true → is_continuation a = false.
Proof. by destruct a as [[] [] [] [] [] [] [] []]. Qed.

Lemma starts_with_continuation_app s t :
  s ≠ "" → starts_with_continuation (s +:+ t) = starts_with_continuation s.
Proof. by destruct s. Qed.

Lemma chars_not_nil a s : chars (String a s) ≠ [].
Proof. simpl. destruct (starts_with_continuation s); [|done]. by destruct (chars s). Qed.

Lemma chars_app s t :
  starts_with_continuation t = false → chars (s +:+ t) = (chars s ++ chars t)%list.
Proof.
  intros Ht. induction s as [|a s IH]; simpl; [done|]. rewrite IH.
  destruct s as [|b s]; [simpl; by rewrite Ht|].
  rewrite starts_with_continuation_app by done.
  destruct (starts_with_continuation (String b s)); [|done].
  pose proof (chars_not_nil b s) as Hn. by destruct (chars (String b s)).
Qed.

Lemma chars_length_le s : (length (chars s) ≤ String.length s)%nat.
Proof.
  induction s as [|a s IH]; simpl; [done|].
  destruct (starts_with_continuation s); simpl; [|lia].
  destruct (chars s); simpl in *; lia.
Qed.

Lemma chars_ascii_length s : is_ascii s = true → length (chars s) = String.length s.
Proof.
  induction s as [|a s IH]; simpl; intros Hs; [done|].
  apply andb_true_iff in Hs as [_ Hs].
  assert (starts_with_continuation s = false) as ->.
  { destruct s as [|b s]; [done|]. simpl in *. apply andb_true_iff in Hs as [Hb _].
    by apply ascii_not_continuation. }
  simpl. by rewrite IH.
Qed.

Lemma chars_head_char c t : head (chars t) = Some (String c "") → ∃ u, t = String c u.
Proof.
  destruct t as [|a t]; simpl; [done|].
  destruct (starts_with_continuation t); simpl.
  - destruct (chars t); simpl; intros [= ->]; eauto.
  - intros [= ->]. eauto.
Qed.

(** The characters of a string are pieces of it, so none is [c] if [c] does not occur. *)
Lemma chars_no_char c s : contains_char c s = false → String c "" ∉ chars s.
Proof.
  induction s as [|a s IH]; simpl; [by intros _ ?%not_elem_of_nil|].
  intros [Ha Hs]%orb_false_iff Hin. apply Ascii.eqb_neq in Ha.
  destruct (starts_with_continuation s) eqn:E.
  - destruct (chars s) as [|g gs] eqn:Eg.
    + apply list_elem_of_singleton in Hin. congruence.
    + apply elem_of_cons in Hin as [Hin|Hin]; [congruence|].
      apply IH; [done|]. by right.
  - apply elem_of_cons in Hin as [Hin|Hin]; [congruence|]. by apply IH.
Qed.

(** Decimal printing and parsing. *)

Lemma uint_of_string_zeros n s d :
  NilEmpty.uint_of_string s = Some d →
  ∃ d', NilEmpty.uint_of_string (zeros n +:+ s) = Some d' ∧ N.of_uint d' = N.of_uint d.
Proof.
  intros Hd. induction n as [|n IH]; simpl; [eauto|].
  destruct IH as (d' & -> & Hd'). exists (Decimal.D0 d'). by split.
Qed.

Lemma decimal_not_nil n : decimal n ≠ "".
Proof.
  unfold decimal. intros H. apply (f_equal NilEmpty.uint_of_string) in H.
  rewrite NilEmpty.usu in H. injection H as H.
  pose proof (Unsigned.of_to n) as Hn. rewrite H in Hn. simpl in Hn.
  subst n. by vm_compute in H.
Qed.

Lemma decimal_no_plus n s : decimal n ≠ String "+" s.
Proof.
  unfold decimal. intros H. apply (f_equal NilEmpty.uint_of_string) in H.
  rewrite NilEmpty.usu in H. simpl in H. by destruct (NilEmpty.uint_of_string s).
Qed.

Lemma parse_u32_zeros k n : (n <= u32_max)%N → parse_u32 (zeros k +:+ decimal n) = Some n.
Proof.
  intros Hn. destruct (uint_of_string_zeros k (decimal n) (N.to_uint n)) as (d & Hd & Hdn).
  { apply NilEmpty.usu. }
  rewrite Unsigned.of_to in Hdn.
  assert (∀ s, zeros k +:+ decimal n ≠ String "+" s) as Hp.
  { destruct k; simpl; [apply decimal_no_plus|done]. }
  assert (zeros k +:+ decimal n ≠ "") as He.
  { destruct k; simpl; [apply decimal_not_nil|done]. }
  unfold parse_u32. destruct (zeros k +:+ decimal n) as [|a s] eqn:E; [done|].
  assert (match a with "+"%char => s | _ => String a s end = String a s) as Heq.
  { destruct a as [[] [] [] [] [] [] [] []]; try done. by destruct (Hp s). }
  cbv zeta. change (match String a s with String "+" t => t | _ => String a s end)
    with (match a with "+"%char => s | _ => String a s end).
  rewrite Heq, Hd, Hdn. by apply N.leb_le in Hn as ->.
Qed.

Lemma parse_u32_fits s n : parse_u32 s = Some n → (n <= u32_max)%N.
Proof.
  unfold parse_u32. destruct (match s with String "+" t => t | _ => s end); [done|].
  destruct (NilEmpty.uint_of_string _); [|done]. destruct (N.leb_spec (N.of_uint u) u32_max); [|done]. by intros [= <-].
Qed.

Lemma parse_pad_decimal w n : (n <= u32_max)%N → parse_u32 (pad_decimal w n) = Some n.
Proof. apply parse_u32_zeros. Qed.

Lemma pad_decimal_inj w n m : pad_decimal w n = pad_decimal w m → n = m.
Proof.
  unfold pad_decimal. intros H. apply (f_equal NilEmpty.uint_of_string) in H.
  destruct (uint_of_string_zeros (w - String.length (decimal n)) (decimal n) (N.to_uint n))
    as (d & Hd & Hdn); [apply NilEmpty.usu|].
  destruct (uint_of_string_zeros (w - String.length (decimal m)) (decimal m) (N.to_uint m))
    as (d' & Hd' & Hdm); [apply NilEmpty.usu|].
  rewrite Unsigned.of_to in Hdn, Hdm. congruence.
Qed.

Lemma zeros_length n : String.length (zeros n) = n.
Proof. induction n; simpl; congruence. Qed.

Lemma pad_decimal_length w n : (w ≤ String.length (pad_decimal w n))%nat.
Proof. unfold pad_decimal. rewrite string_length_app, zeros_length. lia. Qed.

(** Digits are neither a path separator nor special. *)
Lemma digits_no_char c s d :
  NilEmpty.uint_of_string s = Some d → uint_of_char c (Some Decimal.Nil) = None →
  contains_char c s = false.
Proof.
  revert d. induction s as [|a s IH]; intros d; simpl; [done|].
  intros Hd Hc. destruct (NilEmpty.uint_of_string s) as [d'|] eqn:E; [|by destruct a as [[] [] [] [] [] [] [] []]].
  rewrite (IH d' eq_refl Hc). destruct (Ascii.eqb_spec a c) as [->|]; [|done].
  by destruct c as [[] [] [] [] [] [] [] []].
Qed.

Lemma pad_decimal_no_char c w n :
  uint_of_char c (Some Decimal.Nil) = None → contains_char c (pad_decimal w n) = false.
Proof.
  intros Hc. destruct (uint_of_string_zeros (w - String.length (decimal n)) (decimal n) (N.to_uint n))
    as (d & Hd & _); [apply NilEmpty.usu|]. by eapply digits_no_char.
Qed.
