(* ===== verification/Apath.v ===== *)
(** * Apaths (src/apath.rs)

    Archive paths: validity, construction, the prefix test, conversion to a file
    system path, the archive's total order, and the order checks that the index
    writer and the tree walk perform. *)

From Stdlib Require Import Ascii.
From S2P Require Import Prelude Text.
From stdpp Require Import list.

(** ** Definitions *)

(** The newtype [Apath(String)]. Deserialization builds it from any string; the
    other constructors check [is_valid]. *)
Record Apath : Type := MkApath { apath_str : string }.

#[export] Instance Apath_eq_dec : EqDecision Apath.
Proof. solve_decision. Defined.
#[export] Instance Apath_countable : Countable Apath.
Proof. apply (inj_countable' apath_str MkApath). by intros []. Defined.

Module Apath.

(** A part of a path that is allowed in an apath. *)
Definition valid_part (part : string) : bool :=
  negb (String.eqb part "" || String.eqb part "." || String.eqb part ".."
        || contains_char "000" part).

Definition is_valid (a : string) : bool :=
  if negb (starts_with "/" a) then false
  else if (String.length a =? 1)%nat then true
  else forallb valid_part (split_on "/" (string_drop 1 a)).

(** [a.append(child_name)] *)
Definition append (self : Apath) (child_name : string) : Apath :=
  let c := apath_str self in
  let c := if String.eqb c "/" then c else c +:+ "/" in
  MkApath (c +:+ child_name).

(** [self.is_prefix_of(a)]: note that [chars().nth] counts characters and
    [len] counts bytes. *)
Definition is_prefix_of (self a : Apath) : bool :=
  let len := String.length (apath_str self) in
  match Nat.compare len (String.length (apath_str a)) with
  | Gt => false
  | Eq => String.eqb (apath_str self) (apath_str a)
  | Lt => starts_with (apath_str self) (apath_str a)
          && (ends_with_char "/" (apath_str self)
              || bool_decide (chars (apath_str a) !! len = Some "/"))
  end.

(** [self.below(tree_root)]; [None] where slicing panics. *)
Definition below (self : Apath) (tree_root : Path) : option Path :=
  path_join tree_root <$> slice_from 1 (apath_str self).

Definition root : Apath := MkApath "/".

(** [FromStr]: the checked constructor. *)
Definition from_str (s : string) : result Apath unit :=
  if is_valid s then Ok (MkApath s) else Err tt.

(** [From<&str>] and [From<String>]: assert that the path is valid. *)
Definition from {W} (s : string) : ST W Apath :=
  _ ← rust_assert (is_valid s); mret (MkApath s).

(** The loop of [Ord::cmp], on the parts not yet compared. *)
Fixpoint cmp_loop (oa : string) (ait : list string) (ob : string) (bit : list string) :
    comparison :=
  match ait, bit with
  | [], [] => String.compare oa ob
  | [], _ :: _ => Lt
  | _ :: _, [] => Gt
  | ac :: ait, bc :: bit =>
      match String.compare oa ob with
      | Eq => cmp_loop ac ait bc bit
      | other => other
      end
  end.

(** [Ord::cmp] on lists of parts; a split is never empty. *)
Definition cmp_parts (a b : list string) : comparison :=
  match a, b with
  | oa :: ait, ob :: bit => cmp_loop oa ait ob bit
  | [], [] => Eq
  | [], _ => Lt
  | _, [] => Gt
  end.

Definition cmp (self b : Apath) : comparison :=
  cmp_parts (split_on "/" (apath_str self)) (split_on "/" (apath_str b)).

(** [self < b] *)
Definition lt (self b : Apath) : Prop := cmp_lt cmp self b.

End Apath.

Module CheckOrder.

(** [CheckOrder { last_apath }] *)
Record t : Type := Mk { last_apath : option Apath }.

Definition new : t := Mk None.

(** [check]; panics when the path is not after the last one. *)
Definition check {W} (self : t) (a : Apath) : ST W t :=
  _ ← match last_apath self with
      | Some last => rust_assert (match Apath.cmp last a with Lt => true | _ => false end)
      | None => mret tt
      end;
  mret (Mk (Some a)).

End CheckOrder.

Module DebugCheckOrder.

(** With debug assertions a [CheckOrder], otherwise a unit struct. *)
Definition check {W} `{BuildCfg} (self : CheckOrder.t) (a : Apath) : ST W CheckOrder.t :=
  if debug_assertions then CheckOrder.check self a else mret self.

End DebugCheckOrder.

(** ** The abstract view: an apath names a list of path components *)

(** A component that is allowed between slashes. *)
Definition valid_name (n : string) : bool :=
  Apath.valid_part n && negb (contains_char "/" n).

Definition of_names (ns : list string) : Apath := MkApath (String "/" (join_with "/" ns)).

(** [q] is in the subtree strictly below directory [p]. *)
Definition strictly_below (p q : Apath) : Prop :=
  ∃ s, s ≠ "" ∧ q = Apath.append p s.

(** A run of checks: [check] on every path in turn. *)
Definition check_all {W} (l : list Apath) : ST W CheckOrder.t :=
  fold_st CheckOrder.check CheckOrder.new l.

(** ** Validity *)

Lemma is_valid_cons s :
  Apath.is_valid (String "/" s) = true ↔
  s = "" ∨ Forall (λ n, Apath.valid_part n = true) (split_on "/" s).
Proof.
  unfold Apath.is_valid. destruct s as [|b s]; [split; auto|].
  change (starts_with "/" (String "/" (String b s))) with true. cbv [negb].
  change (String.length (String "/" (String b s)) =? 1)%nat with false. cbv iota.
  change (string_drop 1 (String "/" (String b s))) with (String b s).
  rewrite List.forallb_forall, <-List.Forall_forall. split; [auto|intros [|]; done].
Qed.

Lemma is_valid_starts a : Apath.is_valid a = true → ∃ s, a = String "/" s.
Proof.
  unfold Apath.is_valid. destruct (starts_with "/" a) eqn:E; [|done]. intros _.
  apply starts_with_spec in E as [t ->]. by exists t.
Qed.

Lemma valid_name_iff n :
  valid_name n = true ↔ Apath.valid_part n = true ∧ contains_char "/" n = false.
Proof. unfold valid_name. by rewrite andb_true_iff, negb_true_iff. Qed.

Lemma valid_name_no_slash n : valid_name n = true → contains_char "/" n = false.
Proof. by intros [_ ?]%valid_name_iff. Qed.

Lemma valid_name_not_nil n : valid_name n = true → n ≠ "".
Proof. by intros [H _]%valid_name_iff ->. Qed.

Definition valid_names (ns : list string) : Prop := Forall (λ n, valid_name n = true) ns.

Lemma valid_names_no_slash ns :
  valid_names ns → Forall (λ n, contains_char "/" n = false) ns.
Proof. intros H. eapply Forall_impl; [exact H|apply valid_name_no_slash]. Qed.

#[export] Hint Resolve valid_names_no_slash valid_name_no_slash valid_name_not_nil : core.


(** The slashes of a nonempty join of valid names are exactly the separators. *)
Lemma split_valid_names ns : valid_names ns → ns ≠ [] → split_on "/" (join_with "/" ns) = ns.
Proof. intros. apply split_join; auto. Qed.

Lemma join_valid_names_nil ns : valid_names ns → join_with "/" ns = "" → ns = [].
Proof.
  intros Hv H. destruct ns as [|n ns]; [done|]. exfalso.
  inversion_clear Hv as [|? ? Hn _]. apply (valid_name_not_nil n Hn).
  destruct ns; simpl in H; [done|]. by destruct n.
Qed.

Lemma of_names_valid ns : valid_names ns → Apath.is_valid (apath_str (of_names ns)) = true.
Proof.
  intros Hv. apply is_valid_cons. destruct ns as [|n ns]; [by left|right].
  rewrite split_valid_names by done. eapply Forall_impl; [exact Hv|].
  by intros x [? _]%valid_name_iff.
Qed.

Lemma is_valid_names a :
  Apath.is_valid (apath_str a) = true ↔ ∃ ns, valid_names ns ∧ a = of_names ns.
Proof.
  split.
  - intros H. destruct (is_valid_starts _ H) as [s Hs]. rewrite Hs in H.
    destruct a as [str]; simpl in *; subst str.
    apply is_valid_cons in H as [->|H]; [by exists []; split; [constructor|]|].
    exists (split_on "/" s). unfold of_names. rewrite join_split. split; [|done].
    apply Forall_forall. intros n Hn. apply valid_name_iff. split.
    + by eapply Forall_forall in H.
    + by eapply split_on_part.
  - intros (ns & Hv & ->). by apply of_names_valid.
Qed.

Lemma of_names_inj ns ms : valid_names ns → valid_names ms → of_names ns = of_names ms → ns = ms.
Proof.
  intros Hn Hm [= H]. destruct ns as [|n ns].
  - symmetry. by apply join_valid_names_nil.
  - destruct ms as [|m ms]; [by apply join_valid_names_nil|].
    rewrite <-(split_valid_names (n :: ns)), H by done. by apply split_valid_names.
Qed.

Lemma append_names ns n :
  valid_names ns → Apath.append (of_names ns) n = of_names (ns ++ [n])%list.
Proof.
  intros Hv. unfold Apath.append, of_names. simpl apath_str.
  destruct (String.eqb_spec (String "/" (join_with "/" ns)) "/") as [H|H].
  - injection H as H. apply join_valid_names_nil in H; [|done]. by subst.
  - rewrite join_with_app by (done || by intros ->).
    simpl. f_equal. f_equal. by rewrite string_app_assoc.
Qed.

Lemma append_valid a n :
  Apath.is_valid (apath_str a) = true → valid_name n = true →
  Apath.is_valid (apath_str (Apath.append a n)) = true.
Proof.
  intros (ns & Hv & ->)%is_valid_names Hn. rewrite append_names by done.
  apply of_names_valid. apply Forall_app. split; [done|]. by constructor.
Qed.

(** ** The order *)

Lemma cmp_loop_eq oa a ob b : Apath.cmp_loop oa a ob b = Eq ↔ oa = ob ∧ a = b.
Proof.
  revert oa ob b. induction a as [|ac a IH]; intros oa ob [|bc b]; simpl.
  - rewrite string_compare_eq. split; [by intros ->|by intros [-> _]].
  - split; [done|]. by intros [_ ?].
  - split; [done|]. by intros [_ ?].
  - destruct (String.compare oa ob) eqn:E.
    + apply string_compare_eq in E. subst. rewrite IH. split; [by intros [-> ->]|by intros [_ [= -> ->]]].
    + split; [done|]. intros [-> _]. by rewrite string_compare_refl in E.
    + split; [done|]. intros [-> _]. by rewrite string_compare_refl in E.
Qed.

Lemma cmp_loop_antisym oa a ob b :
  Apath.cmp_loop ob b oa a = CompOpp (Apath.cmp_loop oa a ob b).
Proof.
  revert oa ob b. induction a as [|ac a IH]; intros oa ob [|bc b]; simpl; try done.
  - apply cmp_antisym.
  - rewrite (cmp_antisym (cmp:=String.compare) oa ob).
    destruct (String.compare oa ob); simpl; [apply IH|done|done].
Qed.

Lemma cmp_loop_trans oa a ob b oc c :
  Apath.cmp_loop oa a ob b = Lt → Apath.cmp_loop ob b oc c = Lt →
  Apath.cmp_loop oa a oc c = Lt.
Proof.
  revert oa ob oc b c. induction a as [|ac a IH]; intros oa ob oc [|bc b] [|cc c]; simpl; try done.
  - apply (cmp_lt_trans (cmp:=String.compare)).
  - destruct (String.compare oa ob) eqn:E1; try done;
      destruct (String.compare ob oc) eqn:E2; try done.
    + apply (cmp_eq_iff (cmp:=String.compare)) in E1 as ->. rewrite E2. apply IH.
    + apply (cmp_eq_iff (cmp:=String.compare)) in E1 as ->. by rewrite E2.
    + apply (cmp_eq_iff (cmp:=String.compare)) in E2 as ->. by rewrite E1.
    + by rewrite (cmp_lt_trans _ _ _ E1 E2).
Qed.

Lemma cmp_loop_parts oa a ob b :
  Apath.cmp_parts (oa :: a) (ob :: b) = Apath.cmp_loop oa a ob b.
Proof. done. Qed.

#[export] Instance apath_cmp_order : CmpOrder Apath.cmp.
Proof.
  split; unfold Apath.cmp.
  - intros [x] [y]; simpl.
    destruct (split_on "/" x) as [|a l] eqn:Ea; [by destruct (split_on_not_nil "/" x)|].
    destruct (split_on "/" y) as [|b m] eqn:Eb; [by destruct (split_on_not_nil "/" y)|].
    simpl. rewrite cmp_loop_eq. split.
    + intros [-> ->]. f_equal. apply (split_on_inj "/"). by rewrite Ea, Eb.
    + intros H. injection H as H. rewrite <-H, Ea in Eb. by injection Eb as -> ->.
  - intros [x] [y]; simpl.
    destruct (split_on "/" x), (split_on "/" y); try done. apply cmp_loop_antisym.
  - intros [x] [y] [z]; simpl.
    destruct (split_on "/" x), (split_on "/" y), (split_on "/" z); try done.
    apply cmp_loop_trans.
Qed.

(** Comparing the name lists: the leading empty part of the split is common. *)
Lemma cmp_of_names n ns m ms :
  valid_names (n :: ns) → valid_names (m :: ms) →
  Apath.cmp (of_names (n :: ns)) (of_names (m :: ms)) = Apath.cmp_loop n ns m ms.
Proof.
  intros Hn Hm. unfold Apath.cmp, of_names, apath_str.
  change (split_on "/" (String "/" ?s)) with ("" :: split_on "/" s).
  by rewrite !split_valid_names.
Qed.

Lemma cmp_loop_common o ps a as_ b bs :
  Apath.cmp_loop o (ps ++ a :: as_) o (ps ++ b :: bs) = Apath.cmp_loop a as_ b bs.
Proof.
  revert o. induction ps as [|p ps IH]; intros o; simpl; by rewrite string_compare_refl.
Qed.

(** A path between two paths with the prefix [ps] has the prefix too. *)
Lemma cmp_loop_between o ps s1 ss1 ob b s2 ss2 :
  Apath.cmp_loop o (ps ++ s1 :: ss1) ob b = Lt →
  Apath.cmp_loop ob b o (ps ++ s2 :: ss2) = Lt →
  ob = o ∧ ∃ s3 ss3, b = (ps ++ s3 :: ss3)%list.
Proof.
  revert o ob b. induction ps as [|p ps IH]; intros o ob [|bc b]; simpl; try done.
  - destruct (String.compare o ob) eqn:E1; try done.
    + apply (cmp_eq_iff (cmp:=String.compare)) in E1 as ->. eauto.
    + destruct (String.compare ob o) eqn:E2; try done.
      * apply (cmp_eq_iff (cmp:=String.compare)) in E2 as ->. by rewrite string_compare_refl in E1.
      * pose proof (cmp_lt_trans (cmp:=String.compare) _ _ _ E1 E2) as H. by rewrite string_compare_refl in H.
  - destruct (String.compare o ob) eqn:E1; try done.
    + apply (cmp_eq_iff (cmp:=String.compare)) in E1 as ->. rewrite string_compare_refl.
      intros H1 H2. destruct (IH _ _ _ H1 H2) as (-> & s3 & ss3 & ->). eauto.
    + destruct (String.compare ob o) eqn:E2; try done.
      * apply (cmp_eq_iff (cmp:=String.compare)) in E2 as ->. by rewrite string_compare_refl in E1.
      * pose proof (cmp_lt_trans (cmp:=String.compare) _ _ _ E1 E2) as H. by rewrite string_compare_refl in H.
Qed.

(** The parts of an apath after its leading slash. *)
Definition parts (ns : list string) : list string := match ns with [] => [""] | _ => ns end.

Lemma split_of_names ns :
  valid_names ns → split_on "/" (apath_str (of_names ns)) = "" :: parts ns.
Proof.
  intros Hv. unfold of_names, apath_str.
  change (split_on "/" (String "/" ?s)) with ("" :: split_on "/" s).
  destruct ns as [|n ns]; [done|]. by rewrite split_valid_names.
Qed.

Lemma cmp_of_names_parts ns ms :
  valid_names ns → valid_names ms →
  Apath.cmp (of_names ns) (of_names ms) = Apath.cmp_parts (parts ns) (parts ms).
Proof.
  intros Hn Hm. unfold Apath.cmp. rewrite !split_of_names by done.
  destruct ns, ms; done.
Qed.

(** The root is before every other path. *)
Lemma root_lt n ns : valid_names (n :: ns) → Apath.lt Apath.root (of_names (n :: ns)).
Proof.
  intros Hv. change Apath.root with (of_names []). unfold Apath.lt, cmp_lt.
  rewrite cmp_of_names_parts by (done || constructor). simpl.
  inversion_clear Hv as [|? ? Hn _]. apply valid_name_not_nil in Hn.
  destruct ns; [by destruct n|done].
Qed.

Lemma lt_children_first ns x y z zs :
  valid_names (ns ++ [x]) → valid_names (ns ++ y :: z :: zs) →
  Apath.lt (of_names (ns ++ [x])) (of_names (ns ++ y :: z :: zs)).
Proof.
  intros Hx Hy. unfold Apath.lt, cmp_lt. destruct ns as [|n ns].
  - simpl. by rewrite cmp_of_names.
  - simpl app. rewrite cmp_of_names by done. by rewrite cmp_loop_common.
Qed.

Lemma lt_between ps as_ b cs :
  valid_names (ps ++ as_) → valid_names b → valid_names (ps ++ cs) → as_ ≠ [] → cs ≠ [] →
  Apath.lt (of_names (ps ++ as_)) (of_names b) →
  Apath.lt (of_names b) (of_names (ps ++ cs)) →
  ∃ bs, bs ≠ [] ∧ b = ps ++ bs.
Proof.
  intros Ha Hb Hc Hna Hnc Hab Hbc.
  destruct as_ as [|a1 as_]; [done|]. destruct cs as [|c1 cs]; [done|].
  destruct ps as [|p ps]; simpl app in *.
  - destruct b as [|b bs]; [|by exists (b :: bs)].
    exfalso. pose proof (root_lt a1 as_ Ha) as Hr. unfold Apath.lt in *.
    change (of_names []) with Apath.root in *.
    assert (cmp_lt Apath.cmp Apath.root Apath.root) as Hrr by (by etransitivity).
    unfold cmp_lt in Hrr. by rewrite (cmp_refl Apath.cmp) in Hrr.
  - destruct b as [|b bs].
    + exfalso. pose proof (root_lt p _ Ha) as Hr. unfold Apath.lt in *.
      change (of_names []) with Apath.root in *.
      assert (cmp_lt Apath.cmp Apath.root Apath.root) as Hrr by (by etransitivity).
      unfold cmp_lt in Hrr. by rewrite (cmp_refl Apath.cmp) in Hrr.
    + unfold Apath.lt, cmp_lt in Hab, Hbc. rewrite cmp_of_names in Hab, Hbc by done.
      destruct (cmp_loop_between _ _ _ _ _ _ _ _ Hab Hbc) as (-> & s3 & ss3 & ->).
      by exists (s3 :: ss3).
Qed.

(** ** Prefixes *)

(** Every Rust string satisfies this: no byte that continues a character comes
    after a whole one-byte character. *)
Fixpoint utf8_boundaries (s : string) : bool :=
  match s with
  | EmptyString => true
  | String a s =>
      ((128 <=? N_of_ascii a)%N || negb (starts_with_continuation s)) && utf8_boundaries s
  end.

Lemma is_continuation_range a : is_continuation a = true → (128 <= N_of_ascii a <= 191)%N.
Proof. destruct a as [[] [] [] [] [] [] [] []]; vm_compute; intros; (split; discriminate) || discriminate. Qed.

Lemma utf8_valid_from_boundaries p lo hi s :
  utf8_valid_from p lo hi s = true → (128 <= lo)%N →
  utf8_boundaries s = true ∧ (p = 0%nat → starts_with_continuation s = false).
Proof.
  revert p lo hi. induction s as [|a s IH]; intros p lo hi Hv Hlo; [by split|].
  destruct p as [|p].
  - assert (∃ p' lo' hi', utf8_valid_from p' lo' hi' s = true ∧ (128 <= lo')%N ∧
              ((N_of_ascii a < 128)%N ∧ p' = 0%nat ∨ (192 <= N_of_ascii a)%N))
      as (p' & lo' & hi' & Hs & Hlo' & Ha).
    { cbn [utf8_valid_from] in Hv.
      repeat match type of Hv with context [if ?b then _ else _] => destruct b eqn:? end;
      try done; eexists _, _, _; (split; [exact Hv|]); (split; [done|]);
        rewrite ?andb_true_iff, ?N.leb_le, ?N.ltb_lt, ?N.eqb_eq in *; lia. }
    destruct (IH _ _ _ Hs Hlo') as [Hb Hc]. cbn [utf8_boundaries starts_with_continuation]. split.
    + rewrite Hb, andb_true_r. destruct Ha as [[Ha ->]|Ha].
      * rewrite Hc by done. by rewrite orb_true_r.
      * assert ((128 <=? N_of_ascii a)%N = true) as -> by (apply N.leb_le; lia). done.
    + intros _. apply not_true_iff_false. intros Hk%is_continuation_range. lia.
  - cbn [utf8_valid_from] in Hv. apply andb_true_iff in Hv as [Hr Hs].
    destruct (IH _ _ _ Hs ltac:(done)) as [Hb _]. split; [|done]. cbn [utf8_boundaries].
    rewrite Hb, andb_true_r. apply andb_true_iff in Hr as [Hr _]. apply N.leb_le in Hr.
    assert ((128 <=? N_of_ascii a)%N = true) as -> by (apply N.leb_le; lia). done.
Qed.

Lemma utf8_valid_boundaries s : utf8_valid s = true → utf8_boundaries s = true.
Proof. intros Hv. by apply (utf8_valid_from_boundaries 0 128 191) in Hv as [? _]. Qed.

Lemma utf8_boundaries_app_ascii p t :
  is_ascii p = true → p ≠ "" → utf8_boundaries (p +:+ t) = true →
  starts_with_continuation t = false.
Proof.
  induction p as [|a p IH]; [done|]. simpl. intros [Ha Hp]%andb_true_iff _ [H1 H2]%andb_true_iff.
  destruct p as [|b p]; [|by apply IH].
  simpl in H1. apply N.ltb_lt in Ha. apply orb_true_iff in H1 as [H1|H1].
  - apply N.leb_le in H1. lia.
  - by apply negb_true_iff in H1.
Qed.

Lemma join_prefix_names ps qs :
  valid_names ps → valid_names qs → ps ≠ [] →
  ∀ t, join_with "/" qs = join_with "/" ps +:+ String "/" t → ps `prefix_of` qs.
Proof.
  intros Hp Hq Hn t H. exists (split_on "/" t).
  destruct qs as [|q qs].
  { exfalso. destruct (join_with "/" ps); simpl in H; done. }
  rewrite <-(split_valid_names (q :: qs)), H by done.
  by rewrite split_on_app, split_valid_names.
Qed.

Lemma of_names_not_slash_end n ns :
  valid_names (n :: ns) → ends_with_char "/" (apath_str (of_names (n :: ns))) = false.
Proof.
  intros Hv. apply not_true_iff_false. intros [t Ht]%ends_with_char_split.
  unfold of_names, apath_str in Ht.
  destruct t as [|c t]; [by injection Ht as H; apply (join_valid_names_nil (n :: ns)) in H|].
  injection Ht as _ Ht. pose proof (split_valid_names (n :: ns) Hv ltac:(done)) as Hs.
  cbn [join_with] in Ht, Hs. rewrite Ht, split_on_app in Hs. simpl in Hs.
  rewrite <-Hs in Hv. apply Forall_app in Hv as [_ Hv]. by inversion_clear Hv.
Qed.

Lemma is_prefix_of_root qs : valid_names qs → Apath.is_prefix_of Apath.root (of_names qs) = true.
Proof.
  intros Hq. destruct qs as [|q qs]; [done|].
  unfold Apath.is_prefix_of, Apath.root, of_names, apath_str.
  destruct (join_with "/" (q :: qs)) eqn:E; [|done].
  by apply join_valid_names_nil in E.
Qed.

Lemma utf8_boundaries_app P t : utf8_boundaries (P +:+ t) = true → utf8_boundaries t = true.
Proof. induction P; simpl; [done|]. intros [_ ?]%andb_true_iff. auto. Qed.

Lemma is_prefix_of_app P t :
  is_ascii P = true → P ≠ "" → ends_with_char "/" P = false →
  utf8_boundaries (P +:+ t) = true →
  Apath.is_prefix_of (MkApath P) (MkApath (P +:+ t)) = true ↔
  t = "" ∨ ∃ u, t = String "/" u.
Proof.
  intros Ha Hne He Hu. unfold Apath.is_prefix_of, apath_str.
  pose proof (utf8_boundaries_app_ascii P t Ha Hne Hu) as Ht.
  apply utf8_boundaries_app in Hu.
  rewrite string_length_app.
  assert (starts_with P (P +:+ t) = true) as Hs by (apply starts_with_spec; eauto).
  destruct (Nat.compare_spec (String.length P) (String.length P + String.length t)) as [Hl|Hl|Hl];
    [| |lia].
  - assert (t = "") as -> by (destruct t; simpl in Hl; [done|lia]).
    rewrite string_app_nil_r, String.eqb_refl. naive_solver.
  - rewrite Hs, He. simpl. rewrite bool_decide_eq_true, chars_app by done.
    rewrite lookup_app_r by (by rewrite chars_ascii_length).
    rewrite chars_ascii_length, Nat.sub_diag, <-head_lookup by done. split.
    + intros H%chars_head_char. by right.
    + intros [->|[u ->]]; [simpl in Hl; lia|]. simpl in Hu |- *.
      by destruct (starts_with_continuation u).
Qed.

Lemma join_with_prefix ps qs :
  valid_names ps → valid_names qs → ps ≠ [] →
  ps `prefix_of` qs ↔
  qs = ps ∨ ∃ t, join_with "/" qs = join_with "/" ps +:+ String "/" t.
Proof.
  intros Hp Hq Hn. split.
  - intros [[|x k] ->]; [left; by rewrite app_nil_r|right].
    exists (join_with "/" (x :: k)). by apply join_with_app.
  - intros [->|[t Ht]]; [done|]. by eapply join_prefix_names.
Qed.

Lemma starts_with_length P s : starts_with P s = true → (String.length P ≤ String.length s)%nat.
Proof. intros [t ->]%starts_with_spec. rewrite string_length_app. lia. Qed.

Lemma is_prefix_of_starts p a :
  Apath.is_prefix_of p a = true → ∃ t, apath_str a = apath_str p +:+ t.
Proof.
  unfold Apath.is_prefix_of. destruct (Nat.compare _ _); [| |done].
  - intros ->%String.eqb_eq. exists "". by rewrite string_app_nil_r.
  - by intros [?%starts_with_spec _]%andb_true_iff.
Qed.

Lemma is_prefix_of_names ps qs :
  valid_names ps → valid_names qs →
  is_ascii (apath_str (of_names ps)) = true →
  utf8_boundaries (apath_str (of_names qs)) = true →
  Apath.is_prefix_of (of_names ps) (of_names qs) = true ↔ ps `prefix_of` qs.
Proof.
  intros Hp Hq Ha Hu. destruct (decide (ps = [])) as [->|Hne].
  { rewrite is_prefix_of_root by done. split; [|done]. intros _. apply prefix_nil. }
  rewrite join_with_prefix by done.
  pose proof (of_names_not_slash_end) as He. destruct ps as [|p ps]; [done|]. specialize (He _ _ Hp).
  unfold of_names in *. simpl apath_str in *.
  set (P := join_with "/" (p :: ps)) in *. set (Q := join_with "/" qs) in *.
  split.
  - intros H. destruct (is_prefix_of_starts _ _ H) as [t Ht]. simpl in Ht. injection Ht as Ht.
    change (String "/" Q) with ("/" +:+ Q) in *. rewrite Ht in *.
    change ("/" +:+ (P +:+ t)) with (String "/" P +:+ t) in *.
    apply is_prefix_of_app in H as [->|[u ->]]; try done; [|by eauto].
    left. rewrite string_app_nil_r in Ht.
    unfold P in Ht. rewrite <-(split_valid_names (p :: ps) Hp), <-Ht by done. symmetry.
    destruct qs as [|q qs]; [by apply join_valid_names_nil in Hp|]. by apply split_valid_names.
  - intros H. assert (∃ t, Q = P +:+ t ∧ (t = "" ∨ ∃ u, t = String "/" u)) as (t & Ht & Hor).
    { destruct H as [->|[t Ht]]; [exists ""; rewrite string_app_nil_r; auto|].
      exists (String "/" t). eauto. }
    rewrite Ht in *. apply (is_prefix_of_app (String "/" P) t); done.
Qed.

(** ** Paths on disk *)

Lemma valid_names_components ns : valid_names ns → path_components (join_with "/" ns) = ns.
Proof.
  intros Hv. unfold path_components. destruct ns as [|n ns]; [done|].
  rewrite split_valid_names by done. generalize dependent (n :: ns). clear.
  intros l Hl. induction Hl as [|m l Hm Hl IH]; [done|].
  apply valid_name_iff in Hm as [Hm _]. unfold Apath.valid_part in Hm.
  rewrite filter_cons_True by (split; intros ->; done). by rewrite IH.
Qed.

Lemma join_not_absolute ns : valid_names ns → starts_with "/" (join_with "/" ns) = false.
Proof.
  intros Hv. destruct ns as [|n ns]; [done|]. apply not_true_iff_false.
  intros [t Ht]%starts_with_spec. pose proof (split_valid_names _ Hv ltac:(done)) as Hs.
  rewrite Ht in Hs. simpl in Hs. rewrite <-Hs in Hv. by inversion_clear Hv.
Qed.

Lemma below_names ns tree_root :
  valid_names ns → utf8_boundaries (apath_str (of_names ns)) = true →
  Apath.below (of_names ns) tree_root = Some (tree_root ++ ns)%list.
Proof.
  intros Hv Hu. unfold Apath.below, slice_from, of_names, apath_str in *.
  simpl in Hu. apply andb_true_iff in Hu as [Hu _]. apply negb_true_iff in Hu.
  simpl. rewrite Hu. simpl. unfold path_join.
  by rewrite join_not_absolute, valid_names_components.
Qed.

(** ** Order checks *)

Lemma check_all_from {W} (l : list Apath) (last : option Apath) (w : W) :
  (∃ s, fold_st CheckOrder.check (CheckOrder.Mk last) l w = (Ret s, w)) ↔
  (∀ a b, last = Some a → head l = Some b → Apath.lt a b) ∧ Sorted Apath.lt l.
Proof.
  revert last. induction l as [|x l IH]; intros last; simpl.
  { split; [intros _; split; [done|constructor]|eauto]. }
  unfold CheckOrder.check, mbind, ST_bind. simpl.
  destruct last as [a|]; simpl.
  - unfold Apath.lt, cmp_lt. destruct (Apath.cmp a x) eqn:E; simpl.
    1,3: split; [by intros [? ?]|intros [H _]; specialize (H a x eq_refl eq_refl); congruence].
    rewrite (IH (Some x)). split.
    + intros [H1 H2]. split; [naive_solver|]. constructor; [done|].
      destruct l; constructor. by eapply H1.
    + intros [H1 H2]. inversion_clear H2 as [|? ? Hs Hh]. split; [|done].
      intros a' b [= <-] Hb. destruct l; [done|]. injection Hb as ->. by inversion_clear Hh.
  - rewrite (IH (Some x)). split.
    + intros [H1 H2]. split; [done|]. constructor; [done|].
      destruct l; constructor. by eapply H1.
    + intros [H1 H2]. inversion_clear H2 as [|? ? Hs Hh]. split; [|done].
      intros a' b [= <-] Hb. destruct l; [done|]. injection Hb as ->. by inversion_clear Hh.
Qed.

(** ** The properties *)

(** C33: [Ord::cmp] on apaths is a total order whose equality is equality of the
    paths: the relation [<] is a strict order, any two paths are comparable, and
    reversing the arguments reverses the answer. *)
Theorem apath_cmp_total :
  StrictOrder Apath.lt ∧
  ∀ a b, (Apath.cmp a b = Eq ↔ a = b) ∧ Apath.cmp b a = CompOpp (Apath.cmp a b)
         ∧ (Apath.lt a b ∨ a = b ∨ Apath.lt b a).
Proof.
  split; [apply (cmp_lt_strict Apath.cmp)|]. intros a b.
  pose proof (cmp_eq_iff (cmp:=Apath.cmp) a b) as He.
  split; [done|]. split; [apply (cmp_antisym (cmp:=Apath.cmp))|].
  unfold Apath.lt, cmp_lt. destruct (Apath.cmp a b) eqn:E; [naive_solver|naive_solver|].
  right; right. by apply (cmp_gt_iff Apath.cmp).
Qed.

(** In the archive's order all direct children of a directory come before
    anything deeper in its subdirectories, whatever the names. *)
Theorem apath_children_before_grandchildren (ns : list string) (x y z : string) (zs : list string)
    (Hx : valid_names (ns ++ [x])) (Hy : valid_names (ns ++ y :: z :: zs)) :
  Apath.cmp (of_names (ns ++ [x])) (of_names (ns ++ y :: z :: zs)) = Lt.
Proof. by apply lt_children_first. Qed.

Lemma apath_children_before_grandchildren_witness :
  Apath.cmp (of_names ["home"; "zz"]) (of_names ["home"; "aa"; "b"]) = Lt.
Proof.
  apply (apath_children_before_grandchildren ["home"] "zz" "aa" "b" []); repeat constructor.
Defined.

(** C40: the strict descendants of a directory are contiguous in the archive's
    order: a valid path between two of them is one of them. *)
Theorem apath_subtree_contiguous (ps : list string) (a b c : Apath)
    (Hp : valid_names ps)
    (Ha : ∃ s, valid_names s ∧ s ≠ [] ∧ a = of_names (ps ++ s))
    (Hb : Apath.is_valid (apath_str b) = true)
    (Hc : ∃ s, valid_names s ∧ s ≠ [] ∧ c = of_names (ps ++ s))
    (Hab : Apath.cmp a b = Lt) (Hbc : Apath.cmp b c = Lt) :
  ∃ s, valid_names s ∧ s ≠ [] ∧ b = of_names (ps ++ s).
Proof.
  destruct Ha as (s1 & Hs1 & Hn1 & ->), Hc as (s2 & Hs2 & Hn2 & ->).
  apply is_valid_names in Hb as (bs & Hb & ->).
  destruct (lt_between ps s1 bs s2) as (s & Hn & ->); try done.
  1,2: by apply Forall_app.
  apply Forall_app in Hb as [_ Hb]. eauto.
Qed.

Lemma apath_subtree_contiguous_witness :
  ∃ s, valid_names s ∧ s ≠ [] ∧ of_names ["a"; "c"; "d"] = of_names (["a"] ++ s).
Proof.
  apply (apath_subtree_contiguous ["a"] (of_names ["a"; "b"]) (of_names ["a"; "c"; "d"])
           (of_names ["a"; "c"; "e"])); try reflexivity.
  - repeat constructor.
  - exists ["b"]. repeat split; try discriminate. repeat constructor.
  - exists ["c"; "e"]. repeat split; try discriminate. repeat constructor.
Defined.

(** For an ASCII directory path, [is_prefix_of] holds exactly of the
    directory and the paths whose name list extends its name list. *)
Theorem apath_is_prefix_of_ascii (ps qs : list string)
    (Hp : valid_names ps) (Hq : valid_names qs)
    (Ha : is_ascii (apath_str (of_names ps)) = true)
    (Hu : utf8_valid (apath_str (of_names qs)) = true) :
  Apath.is_prefix_of (of_names ps) (of_names qs) = true ↔ ps `prefix_of` qs.
Proof. apply utf8_valid_boundaries in Hu. by apply is_prefix_of_names. Qed.

Lemma apath_is_prefix_of_ascii_witness :
  Apath.is_prefix_of (of_names ["a"]) (of_names ["a"; "b"]) = true ↔ ["a"] `prefix_of` ["a"; "b"].
Proof. apply apath_is_prefix_of_ascii; try reflexivity; repeat constructor. Defined.

(** The letter e with an acute accent, two bytes in UTF-8. *)
Definition e_acute : string := String "195" (String "169" "").

(** [is_prefix_of] compares a length in bytes with a position in
    characters: the entries of a directory whose name is not ASCII are not
    recognised as below it, and a file next to it is. *)
Theorem apath_is_prefix_of_non_ascii :
  Apath.is_prefix_of (of_names [e_acute]) (of_names [e_acute; "x"]) = false
  ∧ Apath.is_prefix_of (of_names [e_acute]) (of_names [e_acute +:+ "a"; "x"]) = true.
Proof. by vm_compute. Qed.

(** [below] maps a valid apath to the path of its names inside the tree
    root, so nothing valid leaves the tree. *)
Theorem apath_below_stays_inside (a : Apath) (tree_root : Path)
    (Hv : Apath.is_valid (apath_str a) = true)
    (Hu : utf8_valid (apath_str a) = true) :
  ∃ ns, valid_names ns ∧ a = of_names ns ∧ Apath.below a tree_root = Some (tree_root ++ ns)%list.
Proof.
  apply is_valid_names in Hv as (ns & Hns & ->). exists ns. split; [done|]. split; [done|].
  apply utf8_valid_boundaries in Hu. by apply below_names.
Qed.

Lemma apath_below_stays_inside_witness :
  ∃ ns, valid_names ns ∧ of_names ["a"; "b"] = of_names ns ∧
        Apath.below (of_names ["a"; "b"]) ["tmp"] = Some (["tmp"] ++ ns)%list.
Proof. apply (apath_below_stays_inside (of_names ["a"; "b"]) ["tmp"]); reflexivity. Defined.

(** Checking paths one after the other with [CheckOrder::check] panics
    unless they are in strictly increasing archive order, and then the whole
    sequence is sorted. *)
Theorem check_order_accepts_sorted {W} (l : list Apath) (w : W) :
  (∃ s, check_all l w = (Ret s, w)) ↔ StronglySorted Apath.lt l.
Proof.
  unfold check_all, CheckOrder.new. rewrite check_all_from.
  assert (Transitive Apath.lt) by apply (cmp_lt_strict Apath.cmp).
  split.
  - intros [_ Hs]. by apply Sorted_StronglySorted.
  - intros Hs. split; [done|]. by apply StronglySorted_Sorted.
Qed.

(** [append] of a single valid name to a valid apath is valid, and is the
    path with that name added; in particular it is in the subtree of the
    directory. *)
Theorem apath_append_valid (a : Apath) (n : string)
    (Ha : Apath.is_valid (apath_str a) = true) (Hn : valid_name n = true) :
  Apath.is_valid (apath_str (Apath.append a n)) = true ∧
  ∃ ns, a = of_names ns ∧ Apath.append a n = of_names (ns ++ [n]).
Proof.
  split; [by apply append_valid|].
  apply is_valid_names in Ha as (ns & Hv & ->). exists ns. split; [done|]. by apply append_names.
Qed.

Lemma apath_append_valid_witness :
  Apath.is_valid (apath_str (Apath.append Apath.root "x")) = true ∧
  ∃ ns, Apath.root = of_names ns ∧ Apath.append Apath.root "x" = of_names (ns ++ ["x"]).
Proof. apply (apath_append_valid Apath.root "x"); reflexivity. Defined.
