(* ===== verification/Externals.v ===== *)
(** * Third-party code

    The crates the program calls, as parameters: the operations it uses are
    the fields of the class [Ext] (and [Serde] for the derived serializers), and
    the documented behaviour it relies on is stated in separate classes of laws.
    Nothing here defines what a crate computes. *)

From Stdlib Require Import Ascii.
From S2P Require Import Prelude Text.
From stdpp Require Import list.

(** ** Times (the [time] crate) *)

(** A UTC [OffsetDateTime]: [unix_timestamp()] and [nanosecond()]. *)
Record OffsetDateTime : Type := MkTime { unix_timestamp : Z; nanosecond : N }.

#[export] Instance OffsetDateTime_eq_dec : EqDecision OffsetDateTime.
Proof. solve_decision. Defined.
#[export] Instance OffsetDateTime_countable : Countable OffsetDateTime.
Proof.
  apply (inj_countable' (λ t, (unix_timestamp t, nanosecond t)) (λ p, MkTime p.1 p.2)).
  by intros [].
Defined.

(** ** The operations *)

Class Ext : Type := {
  (** [blake2b(64, &[], bytes)] *)
  blake2b : string → string;
  (** [hex::encode], [hex::decode_to_slice] into a slice of a given length *)
  hex_encode : string → string;
  hex_decode_to_slice : string → nat → option string;
  (** [snap::raw]: compress, and decompress with the length in the header *)
  snap_compress : string → option string;
  snap_decompress : string → option string;
  (** [semver] *)
  semver_Version : Type;
  semver_VersionReq : Type;
  semver_parse : string → option semver_Version;
  semver_req_parse : string → option semver_VersionReq;
  semver_matches : semver_VersionReq → semver_Version → bool;
  (** [time]: [from_unix_timestamp], [replace_nanosecond] *)
  time_from_unix_timestamp : Z → option OffsetDateTime;
  time_replace_nanosecond : OffsetDateTime → N → option OffsetDateTime;
  (** [globset]: building a glob with a literal separator, and a set of them *)
  Glob : Type;
  glob_build : bool → string → option Glob;
  GlobSet : Type;
  globset_build : list Glob → option GlobSet;
  globset_is_match : GlobSet → string → bool;
  globset_empty : GlobSet;
  (** [uzers]: names, already filtered to UTF-8 *)
  user_name_by_uid : N → option string;
  group_name_by_gid : N → option string;
  uid_by_user_name : string → option N;
  gid_by_group_name : string → option N;
  (** [unix_mode::to_string] *)
  unix_mode_to_string : N → string;
  (** [thousands::Separable::separate_with_commas] *)
  separate_with_commas : N → string;
  (** [lru::LruCache] *)
  Lru : Type → Type → Type;
  lru_new : ∀ {K V}, N → Lru K V;
  lru_contains : ∀ {K V} `{EqDecision K}, Lru K V → K → bool;
  lru_get : ∀ {K V} `{EqDecision K}, Lru K V → K → option V * Lru K V;
  lru_put : ∀ {K V} `{EqDecision K}, Lru K V → K → V → Lru K V;
  lru_push : ∀ {K V} `{EqDecision K}, Lru K V → K → V → Lru K V;
  lru_pop : ∀ {K V} `{EqDecision K}, Lru K V → K → Lru K V
}.

(** [serde_json] on a type with derived serialization. *)
Class Serde (A : Type) : Type := {
  to_json : A → option string;
  from_json : string → option A
}.

(** ** Their documented behaviour *)

(** The digest has the length asked for. *)
Class HashLaws `{Ext} : Prop := {
  blake2b_length : ∀ s, String.length (blake2b s) = 64
}.

Definition is_hex_digit (a : Ascii.ascii) : bool :=
  let n := Ascii.N_of_ascii a in
  (((48 <=? n) && (n <=? 57)) || ((97 <=? n) && (n <=? 102)))%N.

Fixpoint all_hex (s : string) : bool :=
  match s with EmptyString => true | String a s => is_hex_digit a && all_hex s end.

(** Two lower-case hexadecimal digits per byte, and the inverse. *)
Class HexLaws `{Ext} : Prop := {
  hex_encode_length : ∀ s, String.length (hex_encode s) = 2 * String.length s;
  hex_encode_digits : ∀ s, all_hex (hex_encode s) = true;
  hex_decode_encode : ∀ s, hex_decode_to_slice (hex_encode s) (String.length s) = Some s;
  hex_decode_length : ∀ s n b, hex_decode_to_slice s n = Some b → String.length b = n
}.

(** Decompression inverts compression, and compressed data is never empty. *)
Class SnapLaws `{Ext} : Prop := {
  snap_round_trip : ∀ s c, snap_compress s = Some c → snap_decompress c = Some s;
  snap_not_empty : ∀ s c, snap_compress s = Some c → c ≠ ""
}.

(** Parsing inverts printing, with or without a final line feed. *)
Class SerdeLaws (A : Type) `{Serde A} : Prop := {
  json_round_trip : ∀ (a : A) s, to_json a = Some s → from_json s = Some a;
  json_round_trip_nl : ∀ (a : A) s,
    to_json a = Some s → from_json (s +:+ String "010"%char "") = Some a
}.

(** Timestamps are kept, and nanoseconds below a second are accepted. *)
Class TimeLaws `{Ext} : Prop := {
  time_from_timestamp : ∀ s t, time_from_unix_timestamp s = Some t → t = MkTime s 0;
  time_replace : ∀ t n, (n < 1000000000)%N →
    time_replace_nanosecond t n = Some (MkTime (unix_timestamp t) n);
  time_replace_inv : ∀ t n t', time_replace_nanosecond t n = Some t' →
    t' = MkTime (unix_timestamp t) n
}.

(** What is in a cache was put there last: [lru_peek] is the content. *)
Class LruLaws `{Ext} : Type := {
  lru_peek : ∀ {K V} `{EqDecision K}, Lru K V → K → option V;
  lru_peek_new : ∀ {K V} `{EqDecision K} n k, lru_peek (lru_new (K:=K) (V:=V) n) k = None;
  lru_contains_peek : ∀ {K V} `{EqDecision K} (c : Lru K V) k,
    lru_contains c k = true ↔ is_Some (lru_peek c k);
  lru_get_peek : ∀ {K V} `{EqDecision K} (c : Lru K V) k, (lru_get c k).1 = lru_peek c k;
  lru_peek_get : ∀ {K V} `{EqDecision K} (c : Lru K V) k k',
    lru_peek (lru_get c k).2 k' = lru_peek c k';
  lru_peek_put : ∀ {K V} `{EqDecision K} (c : Lru K V) k v k' v',
    lru_peek (lru_put c k v) k' = Some v' → (k' = k ∧ v' = v) ∨ (k' ≠ k ∧ lru_peek c k' = Some v');
  lru_peek_push : ∀ {K V} `{EqDecision K} (c : Lru K V) k v k' v',
    lru_peek (lru_push c k v) k' = Some v' → (k' = k ∧ v' = v) ∨ (k' ≠ k ∧ lru_peek c k' = Some v');
  lru_peek_pop : ∀ {K V} `{EqDecision K} (c : Lru K V) k k' v',
    lru_peek (lru_pop c k) k' = Some v' → k' ≠ k ∧ lru_peek c k' = Some v'
}.
