(* ===== verification/Sample.v ===== *)
(** * A sample instance

    One concrete choice for the third-party operations, with proofs of the laws
    that theorems assume. The examples of the other files run on it; it also
    shows that the laws can hold together. *)

From Stdlib Require Import Ascii.
From S2P Require Import Prelude Text Externals.
From stdpp Require Import list strings countable.

(** ** Hexadecimal *)

Definition hex_digit (n : N) : ascii := ascii_of_N (if n <? 10 then 48 + n else 87 + n)%N.

Definition hex_value (a : ascii) : option N :=
  let n := N_of_ascii a in
  if ((48 <=? n) && (n <=? 57))%N then Some (n - 48)%N
  else if ((97 <=? n) && (n <=? 102))%N then Some (n - 87)%N
  else None.

Fixpoint sample_hex_encode (s : string) : string :=
  match s with
  | EmptyString => ""
  | String a s =>
      String (hex_digit (N_of_ascii a / 16)) (String (hex_digit (N_of_ascii a mod 16))
        (sample_hex_encode s))
  end.

Fixpoint sample_hex_decode (s : string) : option string :=
  match s with
  | EmptyString => Some ""
  | String a (String b s) =>
      x ← hex_value a; y ← hex_value b; t ← sample_hex_decode s;
      Some (String (ascii_of_N (16 * x + y)) t)
  | _ => None
  end.

Definition sample_decode_to_slice (s : string) (n : nat) : option string :=
  b ← sample_hex_decode s; if (String.length b =? n)%nat then Some b else None.

(** ** A cache that forgets nothing *)

Section cache.
Context {K V : Type} `{EqDecision K}.

Fixpoint cache_peek (c : list (K * V)) (k : K) : option V :=
  match c with
  | [] => None
  | (k', v) :: c => if decide (k' = k) then Some v else cache_peek c k
  end.

Definition cache_pop (c : list (K * V)) (k : K) : list (K * V) := filter (λ kv, kv.1 ≠ k) c.

Lemma cache_peek_pop c k k' v :
  cache_peek (cache_pop c k) k' = Some v → k' ≠ k ∧ cache_peek c k' = Some v.
Proof.
  unfold cache_pop. induction c as [|[k1 v1] c IH]; simpl; [done|].
  destruct (decide (k1 ≠ k)) as [Hk|Hk]; simpl.
  - rewrite filter_cons_True by done. simpl. destruct (decide (k1 = k')) as [->|]; [naive_solver|]. apply IH.
  - rewrite filter_cons_False by naive_solver. intros [? Hv]%IH. split; [done|].
    rewrite decide_False; [done|]. intros ->. by destruct Hk.
Qed.
End cache.

(** ** The instance *)

#[local] Instance sample_ext : Ext := {
  blake2b s := string_take 64 (s +:+ zeros 64);
  hex_encode := sample_hex_encode;
  hex_decode_to_slice := sample_decode_to_slice;
  snap_compress s := Some (String "z" s);
  snap_decompress s := match s with String "z" s => Some s | _ => None end;
  semver_Version := string;
  semver_VersionReq := string;
  semver_parse s := Some s;
  semver_req_parse s := Some s;
  semver_matches _ _ := true;
  time_from_unix_timestamp s := Some (MkTime s 0);
  time_replace_nanosecond t n := if (n <? 1000000000)%N then Some (MkTime (unix_timestamp t) n) else None;
  Glob := string;
  glob_build _ s := Some s;
  GlobSet := list string;
  globset_build gs := Some gs;
  globset_is_match gs s := bool_decide (s ∈ gs);
  globset_empty := [];
  user_name_by_uid u := if (u =? 0)%N then Some "root" else None;
  group_name_by_gid g := if (g =? 0)%N then Some "root" else None;
  uid_by_user_name s := if String.eqb s "root" then Some 0%N else None;
  gid_by_group_name s := if String.eqb s "root" then Some 0%N else None;
  unix_mode_to_string m := decimal m;
  separate_with_commas n := decimal n;
  Lru K V := list (K * V);
  lru_new _ _ _ := [];
  lru_contains K V _ c k := bool_decide (is_Some (cache_peek c k));
  lru_get K V _ c k := (cache_peek c k, c);
  lru_put K V _ c k v := (k, v) :: c;
  lru_push K V _ c k v := (k, v) :: c;
  lru_pop K V _ c k := cache_pop c k
}.

#[local] Instance sample_hash_laws : HashLaws.
Proof.
  split. intros s. cbn [blake2b sample_ext]. rewrite string_length_take, string_length_app, zeros_length. lia.
Qed.

Lemma sample_hex_encode_length s : String.length (sample_hex_encode s) = 2 * String.length s.
Proof. induction s as [|a s IH]; simpl; [done|]. rewrite IH. lia. Qed.

Lemma hex_digit_ok (a : ascii) :
  is_hex_digit (hex_digit (N_of_ascii a / 16)) = true ∧
  is_hex_digit (hex_digit (N_of_ascii a mod 16)) = true ∧
  hex_value (hex_digit (N_of_ascii a / 16)) = Some (N_of_ascii a / 16)%N ∧
  hex_value (hex_digit (N_of_ascii a mod 16)) = Some (N_of_ascii a mod 16)%N.
Proof. destruct a as [[] [] [] [] [] [] [] []]; vm_compute; done. Qed.

Lemma sample_hex_decode_encode s : sample_hex_decode (sample_hex_encode s) = Some s.
Proof.
  induction s as [|a s IH]; [done|]. cbn [sample_hex_encode sample_hex_decode].
  destruct (hex_digit_ok a) as (_ & _ & -> & ->). simpl. rewrite IH. simpl.
  rewrite <-(N.div_mod (N_of_ascii a) 16) by done. by rewrite ascii_N_embedding.
Qed.

#[local] Instance sample_hex_laws : HexLaws.
Proof.
  split; simpl.
  - apply sample_hex_encode_length.
  - intros s. induction s as [|a s IH]; [done|]. cbn [sample_hex_encode all_hex].
    destruct (hex_digit_ok a) as (-> & -> & _). done.
  - intros s. unfold sample_decode_to_slice. rewrite sample_hex_decode_encode. simpl.
    by rewrite Nat.eqb_refl.
  - intros s n b. unfold sample_decode_to_slice. destruct (sample_hex_decode s); [|done]. simpl.
    destruct (Nat.eqb_spec (String.length s0) n); [|done]. by intros [= ->].
Qed.

#[local] Instance sample_snap_laws : SnapLaws.
Proof. split; simpl; intros s c [= <-]; done. Qed.

#[local] Instance sample_time_laws : TimeLaws.
Proof.
  split; simpl.
  - by intros s t [= <-].
  - intros t n Hn. destruct (N.ltb_spec n 1000000000); [done|lia].
  - intros t n t'. destruct (_ <? _)%N; [|done]. by intros [= <-].
Qed.

#[local] Instance sample_lru_laws : LruLaws.
Proof.
  refine {| lru_peek K V _ := @cache_peek K V _ |}; simpl; try done.
  - intros. by rewrite bool_decide_eq_true.
  - intros K V ? c k v k' v'. destruct (decide (k = k')) as [->|]; [|naive_solver].
    intros [= ->]. by left.
  - intros K V ? c k v k' v'. destruct (decide (k = k')) as [->|]; [|naive_solver].
    intros [= ->]. by left.
  - intros. by apply cache_peek_pop.
Defined.

(** ** Serializers *)

Fixpoint bits_of (p : positive) : string :=
  match p with
  | xH => "."
  | xO p => String "0" (bits_of p)
  | xI p => String "1" (bits_of p)
  end.

Fixpoint of_bits (s : string) : option positive :=
  match s with
  | String "." _ => Some xH
  | String "0" s => xO <$> of_bits s
  | String "1" s => xI <$> of_bits s
  | _ => None
  end.

Lemma of_bits_of p s : of_bits (bits_of p +:+ s) = Some p.
Proof. induction p; simpl; [by rewrite IHp|by rewrite IHp|done]. Qed.

#[local] Instance sample_serde {A : Type} `{Countable A} : Serde A := {
  to_json a := Some (bits_of (encode a));
  from_json s := of_bits s ≫= decode
}.

#[local] Instance sample_serde_laws {A : Type} `{Countable A} : SerdeLaws A.
Proof.
  split; simpl; intros a s [= <-].
  - rewrite <-(string_app_nil_r (bits_of _)), of_bits_of. simpl. apply decode_encode.
  - rewrite of_bits_of. simpl. apply decode_encode.
Qed.

(** With debug assertions *)
#[local] Instance sample_build : BuildCfg := true.
