(* ===== verification/Ids.v ===== *)
(** * Small value types

    Band identifiers (src/bandid.rs), block hashes (src/blockhash.rs), file
    kinds (src/kind.rs), modes (src/unix_mode.rs), owners (src/owner.rs) and the
    conversions of times (src/unix_time.rs). *)

From Stdlib Require Import Ascii DecimalString.
From S2P Require Import Prelude Text Apath Externals Sample.
From stdpp Require Import list.

(** ** Band identifiers *)

(** [BandId(u32)] *)
Record BandId : Type := MkBandId { band_num : N }.

#[export] Instance BandId_eq_dec : EqDecision BandId.
Proof. solve_decision. Defined.
#[export] Instance BandId_countable : Countable BandId.
Proof. apply (inj_countable' band_num MkBandId). by intros []. Defined.

Module BandId.

(** [BandId::new(seqs)] *)
Definition new {W} (seqs : list N) : ST W BandId :=
  match seqs with [n] => mret (MkBandId n) | _ => panic end.

Definition zero : BandId := MkBandId 0.

(** [self.0 + 1] on [u32]: overflow panics with debug assertions and wraps without. *)
Definition next_sibling {W} `{BuildCfg} (self : BandId) : ST W BandId :=
  let n := (band_num self + 1)%N in
  if (n <=? u32_max)%N then mret (MkBandId n)
  else if debug_assertions then panic else mret (MkBandId 0).

Definition previous (self : BandId) : option BandId :=
  if (band_num self =? 0)%N then None else Some (MkBandId (band_num self - 1)).

(** [FromStr]; the error carries the rejected string. *)
Definition from_str (s : string) : result BandId string :=
  match str_strip_prefix "b" s with
  | Some num => match parse_u32 num with
                | Some num => Ok (MkBandId num)
                | None => Err s
                end
  | None => Err s
  end.

(** [Display]: [format!("b{:0>4}", self.0)] *)
Definition to_string (self : BandId) : string := "b" +:+ pad_decimal 4 (band_num self).

(** The derived [Ord]. *)
Definition cmp (a b : BandId) : comparison := N.compare (band_num a) (band_num b).

(** A value a [u32] can hold. *)
Definition fits (self : BandId) : Prop := (band_num self <= u32_max)%N.

End BandId.

(** ** Block hashes *)

Definition BLAKE_HASH_SIZE_BYTES : nat := 64.

(** [BlockHash { bin: [u8; 64] }] *)
Record BlockHash : Type := MkBlockHash { bin : string }.

#[export] Instance BlockHash_eq_dec : EqDecision BlockHash.
Proof. solve_decision. Defined.
#[export] Instance BlockHash_countable : Countable BlockHash.
Proof. apply (inj_countable' bin MkBlockHash). by intros []. Defined.

Module BlockHash.

Definition hash_bytes `{Ext} (bytes : string) : BlockHash := MkBlockHash (blake2b bytes).

(** [FromStr]; the error carries the rejected string. *)
Definition from_str `{Ext} (s : string) : result BlockHash string :=
  if negb (String.length s =? BLAKE_HASH_SIZE_BYTES * 2)%nat then Err s
  else match hex_decode_to_slice s BLAKE_HASH_SIZE_BYTES with
       | Some b => Ok (MkBlockHash b)
       | None => Err s
       end.

(** [Display] and [From<BlockHash> for String] *)
Definition to_string `{Ext} (self : BlockHash) : string := hex_encode (bin self).

(** [Ord]: bytes in order. *)
Definition cmp (a b : BlockHash) : comparison := String.compare (bin a) (bin b).

(** A value the array can hold. *)
Definition fits (self : BlockHash) : Prop := String.length (bin self) = BLAKE_HASH_SIZE_BYTES.

End BlockHash.

(** ** Kinds *)

Inductive Kind : Type := Kind_File | Kind_Dir | Kind_Symlink | Kind_Unknown.

#[export] Instance Kind_eq_dec : EqDecision Kind.
Proof. solve_decision. Defined.
#[export] Instance Kind_countable : Countable Kind.
Proof.
  apply (inj_countable'
    (λ k, match k with Kind_File => 0 | Kind_Dir => 1 | Kind_Symlink => 2 | Kind_Unknown => 3 end)
    (λ n, match n with 0 => Kind_File | 1 => Kind_Dir | 2 => Kind_Symlink | _ => Kind_Unknown end)).
  by intros [].
Defined.

(** What [std::fs::FileType] distinguishes. *)
Inductive FileType : Type := ft_file | ft_dir | ft_symlink | ft_other.

(** [From<FileType> for Kind] *)
Definition Kind_from (ft : FileType) : Kind :=
  match ft with
  | ft_file => Kind_File
  | ft_dir => Kind_Dir
  | ft_symlink => Kind_Symlink
  | ft_other => Kind_Unknown
  end.

(** ** Modes *)

(** [UnixMode(Option<u32>)] *)
Record UnixMode : Type := MkUnixMode { mode_bits : option N }.

#[export] Instance UnixMode_eq_dec : EqDecision UnixMode.
Proof. solve_decision. Defined.
#[export] Instance UnixMode_countable : Countable UnixMode.
Proof. apply (inj_countable' mode_bits MkUnixMode). by intros []. Defined.

Module UnixMode.

(** [0o7777] *)
Definition MODE_BITS : N := 4095.

(** [From<u32>] and, on Unix, [From<Permissions>] *)
Definition from (mode : N) : UnixMode := MkUnixMode (Some (N.land mode MODE_BITS)).

(** [mode & 0o200 == 0] *)
Definition readonly (self : UnixMode) : bool :=
  match mode_bits self with
  | Some mode => (N.land mode 128 =? 0)%N
  | None => false
  end.

Fixpoint trim_start_matches (c : Ascii.ascii) (s : string) : string :=
  match s with
  | String a s' => if Ascii.eqb a c then trim_start_matches c s' else s
  | EmptyString => ""
  end.

Fixpoint spaces (n : nat) : string :=
  match n with O => "" | S n => String " " (spaces n) end.

(** [{:<w$}]: the width counts characters. *)
Definition pad_right (w : nat) (s : string) : string := s +:+ spaces (w - length (chars s)).

(** [{:>w$}] *)
Definition pad_left (w : nat) (s : string) : string := spaces (w - length (chars s)) +:+ s.

(** [Display] *)
Definition to_string `{Ext} (self : UnixMode) : string :=
  match mode_bits self with
  | Some mode => pad_right 9 (trim_start_matches "?" (unix_mode_to_string mode))
  | None => pad_right 9 "none"
  end.

End UnixMode.

(** ** Owners *)

Record Owner : Type := MkOwner { user : option string; group : option string }.

#[export] Instance Owner_eq_dec : EqDecision Owner.
Proof. solve_decision. Defined.
#[export] Instance Owner_countable : Countable Owner.
Proof. apply (inj_countable' (λ o, (user o, group o)) (λ p, MkOwner p.1 p.2)). by intros []. Defined.

Module Owner.

Definition is_none (self : Owner) : bool :=
  bool_decide (user self = None) && bool_decide (group self = None).

(** [self.clear()] *)
Definition clear (self : Owner) : Owner := MkOwner None None.

(** [Display] *)
Definition to_string (self : Owner) : string :=
  UnixMode.pad_right 10 (default "none" (user self)) +:+ " "
  +:+ UnixMode.pad_right 10 (default "none" (group self)).

(** [From<&fs::Metadata>]: the names of the numeric owner. *)
Definition from_ids `{Ext} (uid gid : N) : Owner :=
  MkOwner (user_name_by_uid uid) (group_name_by_gid gid).

(** The numeric ids that [set_owner] passes to [lchown]. *)
Definition ids `{Ext} (owner : Owner) : option N * option N :=
  (user owner ≫= uid_by_user_name, group owner ≫= gid_by_group_name).

End Owner.

(** ** Times *)

(** [OffsetDateTime::from_unix_seconds_and_nanos]: both [unwrap]s can panic. *)
Definition from_unix_seconds_and_nanos {W} `{Ext} (unix_seconds : Z) (nanoseconds : N) :
    ST W OffsetDateTime :=
  t ← expect (time_from_unix_timestamp unix_seconds);
  expect (time_replace_nanosecond t nanoseconds).

(** A [filetime::FileTime]: seconds and nanoseconds. *)
Definition FileTime : Type := (Z * N)%type.

(** [ToFileTime::to_file_time] *)
Definition to_file_time (t : OffsetDateTime) : FileTime := (unix_timestamp t, nanosecond t).

(** [ToOffsetDateTime::to_offset_date_time] *)
Definition to_offset_date_time {W} `{Ext} (t : FileTime) : ST W OffsetDateTime :=
  from_unix_seconds_and_nanos t.1 t.2.

(** ** Facts *)

#[export] Instance bandid_cmp_order : CmpOrder BandId.cmp.
Proof.
  split; unfold BandId.cmp.
  - intros [x] [y]. simpl. rewrite N.compare_eq_iff. split; [by intros ->|by intros [= ->]].
  - intros [x] [y]. apply N.compare_antisym.
  - intros [x] [y] [z]. simpl. rewrite !N.compare_lt_iff. lia.
Qed.

Lemma bandid_from_to_string b : BandId.fits b → BandId.from_str (BandId.to_string b) = Ok b.
Proof.
  destruct b as [n]. intros Hn. unfold BandId.from_str, BandId.to_string. simpl.
  by rewrite parse_pad_decimal.
Qed.

Lemma bandid_to_string_inj a b : BandId.to_string a = BandId.to_string b → a = b.
Proof.
  destruct a as [a], b as [b]. unfold BandId.to_string. simpl. intros [= H].
  by apply pad_decimal_inj in H as ->.
Qed.

Lemma bandid_to_string_no_slash b : contains_char "/" (BandId.to_string b) = false.
Proof. unfold BandId.to_string. simpl. by apply pad_decimal_no_char. Qed.

Lemma bandid_from_str_fits s b : BandId.from_str s = Ok b → BandId.fits b.
Proof.
  unfold BandId.from_str. destruct (str_strip_prefix "b" s) as [num|]; [|done].
  destruct (parse_u32 num) as [n|] eqn:E; [|done]. intros [= <-]. unfold BandId.fits. simpl.
  unfold parse_u32 in E. revert E.
  generalize (match num with String "+" t => t | _ => num end). intros d.
  destruct d; [done|]. destruct (NilEmpty.uint_of_string _); [|done].
  destruct (N.leb_spec (N.of_uint u) u32_max) as [Hl|]; [|done]. by intros [= <-].
Qed.

Lemma bandid_previous_lt b p : BandId.previous b = Some p → (band_num p < band_num b)%N.
Proof.
  unfold BandId.previous. destruct (N.eqb_spec (band_num b) 0); [done|].
  intros [= <-]. simpl. lia.
Qed.

Section hash_facts.
Context `{Ext, !HashLaws, !HexLaws}.

Lemma hash_bytes_fits s : BlockHash.fits (BlockHash.hash_bytes s).
Proof. apply blake2b_length. Qed.

Lemma blockhash_from_to_string h :
  BlockHash.fits h → BlockHash.from_str (BlockHash.to_string h) = Ok h.
Proof.
  intros Hh. unfold BlockHash.fits in Hh. unfold BlockHash.from_str, BlockHash.to_string.
  rewrite hex_encode_length, Hh. simpl.
  rewrite <-Hh, hex_decode_encode. by destruct h.
Qed.

Lemma blockhash_to_string_inj a b :
  BlockHash.fits a → BlockHash.fits b → BlockHash.to_string a = BlockHash.to_string b → a = b.
Proof.
  intros Ha Hb Heq. apply (f_equal BlockHash.from_str) in Heq.
  rewrite !blockhash_from_to_string in Heq by done. by injection Heq.
Qed.

Lemma blockhash_from_str_fits s h : BlockHash.from_str s = Ok h → BlockHash.fits h.
Proof.
  unfold BlockHash.from_str. destruct (negb _); [done|].
  destruct (hex_decode_to_slice s BLAKE_HASH_SIZE_BYTES) as [b|] eqn:E; [|done].
  intros [= <-]. unfold BlockHash.fits. simpl. by eapply hex_decode_length.
Qed.
End hash_facts.

Lemma unix_mode_from_in_range m : ∃ b, mode_bits (UnixMode.from m) = Some b ∧ (b <= UnixMode.MODE_BITS)%N.
Proof.
  eexists. split; [done|]. unfold UnixMode.MODE_BITS.
  change 4095%N with (N.ones 12). rewrite N.land_ones. change (N.ones 12) with 4095%N.
  assert (m mod 2 ^ 12 < 2 ^ 12)%N by (apply N.mod_lt; done). change (2 ^ 12)%N with 4096%N in *. lia.
Qed.

(** ** Correctness *)

(** The name of a band's directory determines the band: parsing what
    [to_string] printed gives the number back, whatever is parsed fits the
    machine integer, and different bands have different names. *)
Theorem bandid_round_trip (b : BandId) (Hb : BandId.fits b) :
  BandId.from_str (BandId.to_string b) = Ok b ∧
  (∀ c, BandId.to_string c = BandId.to_string b ↔ c = b) ∧
  (∀ s c, BandId.from_str s = Ok c → BandId.fits c).
Proof.
  split; [by apply bandid_from_to_string|]. split.
  - intros c. split; [apply bandid_to_string_inj|by intros ->].
  - apply bandid_from_str_fits.
Qed.

Lemma bandid_round_trip_witness :
  BandId.from_str (BandId.to_string (MkBandId 12)) = Ok (MkBandId 12) ∧
  (∀ c, BandId.to_string c = BandId.to_string (MkBandId 12) ↔ c = MkBandId 12) ∧
  (∀ s c, BandId.from_str s = Ok c → BandId.fits c).
Proof. apply (bandid_round_trip (MkBandId 12)). vm_compute. discriminate. Defined.

(** The hexadecimal name of a block determines its hash: a digest has the
    width of the array, parsing what was printed gives it back, only strings of
    128 characters parse, and what parses fits the array. *)
Theorem blockhash_round_trip `{Ext, !HashLaws, !HexLaws} (content : string) :
  BlockHash.fits (BlockHash.hash_bytes content) ∧
  BlockHash.from_str (BlockHash.to_string (BlockHash.hash_bytes content))
    = Ok (BlockHash.hash_bytes content) ∧
  (∀ s h, BlockHash.from_str s = Ok h → String.length s = 128 ∧ BlockHash.fits h).
Proof.
  split; [apply hash_bytes_fits|]. split; [apply blockhash_from_to_string, hash_bytes_fits|].
  intros s h Hs. split; [|by eapply blockhash_from_str_fits].
  unfold BlockHash.from_str in Hs. destruct (Nat.eqb_spec (String.length s) (BLAKE_HASH_SIZE_BYTES * 2)) as [E|];
    [exact E|done].
Qed.

#[local] Existing Instances sample_ext sample_hash_laws sample_hex_laws.

Lemma blockhash_round_trip_witness :
  BlockHash.fits (BlockHash.hash_bytes "hello") ∧
  BlockHash.from_str (BlockHash.to_string (BlockHash.hash_bytes "hello"))
    = Ok (BlockHash.hash_bytes "hello") ∧
  (∀ s h, BlockHash.from_str s = Ok h → String.length s = 128 ∧ BlockHash.fits h).
Proof. apply (blockhash_round_trip "hello"). Defined.
