(* ===== verification/Entry.v ===== *)
(** * Entries and changes

    Entries of a tree (src/entry.rs), of an index (the data of src/index.rs and
    [Address] of src/blockdir.rs), and the changes between two entries
    (src/change.rs). *)

From S2P Require Import Prelude Text Apath Externals Ids.
From stdpp Require Import list.

(** ** Definitions *)

(** Per-kind metadata. *)
Inductive KindMeta : Type :=
  | KM_File (size : N)
  | KM_Dir
  | KM_Symlink (target : string)
  | KM_Unknown.

#[export] Instance KindMeta_eq_dec : EqDecision KindMeta.
Proof. solve_decision. Defined.

(** [From<&KindMeta> for Kind] *)
Definition Kind_from_meta (m : KindMeta) : Kind :=
  match m with
  | KM_Dir => Kind_Dir
  | KM_File _ => Kind_File
  | KM_Symlink _ => Kind_Symlink
  | KM_Unknown => Kind_Unknown
  end.

(** An entry of a live tree, with no addresses. *)
Record EntryValue : Type := MkEntryValue {
  ev_apath : Apath;
  ev_kind_meta : KindMeta;
  ev_mtime : OffsetDateTime;
  ev_unix_mode : UnixMode;
  ev_owner : Owner
}.

#[export] Instance EntryValue_eq_dec : EqDecision EntryValue.
Proof. solve_decision. Defined.

(** Where some data is: a block, an offset in it and a length. *)
Record Address : Type := MkAddress { a_hash : BlockHash; a_start : N; a_len : N }.

#[export] Instance Address_eq_dec : EqDecision Address.
Proof. solve_decision. Defined.
#[export] Instance Address_countable : Countable Address.
Proof.
  apply (inj_countable' (λ a, (a_hash a, a_start a, a_len a)) (λ p, MkAddress p.1.1 p.1.2 p.2)).
  by intros [].
Defined.

(** An entry of an index. *)
Record IndexEntry : Type := MkIndexEntry {
  ie_apath : Apath;
  ie_kind : Kind;
  ie_mtime : Z;
  ie_unix_mode : UnixMode;
  ie_owner : Owner;
  ie_mtime_nanos : N;
  ie_addrs : list Address;
  ie_target : option string
}.

#[export] Instance IndexEntry_eq_dec : EqDecision IndexEntry.
Proof. solve_decision. Defined.
#[export] Instance IndexEntry_countable : Countable IndexEntry.
Proof.
  apply (inj_countable'
    (λ e, (ie_apath e, ie_kind e, ie_mtime e, ie_unix_mode e, ie_owner e,
           ie_mtime_nanos e, ie_addrs e, ie_target e))
    (λ p, match p with (a, k, m, u, o, n, l, t) => MkIndexEntry a k m u o n l t end)).
  by intros [].
Defined.

(** The trait [EntryTrait]. The modification time and the size of an index entry
    are computed, and the computation can panic. *)
Class EntryTrait (E : Type) : Type := {
  apath : E → Apath;
  kind : E → Kind;
  mtime : ∀ {W}, E → ST W OffsetDateTime;
  size : ∀ {W}, E → ST W (option N);
  symlink_target : E → option string;
  unix_mode : E → UnixMode;
  owner : E → Owner
}.

#[export] Instance EntryValue_entry : EntryTrait EntryValue := {
  apath := ev_apath;
  kind e := Kind_from_meta (ev_kind_meta e);
  mtime W e := mret (ev_mtime e);
  size W e := mret (match ev_kind_meta e with KM_File s => Some s | _ => None end);
  symlink_target e := match ev_kind_meta e with KM_Symlink t => Some t | _ => None end;
  unix_mode := ev_unix_mode;
  owner := ev_owner
}.

#[export] Instance IndexEntry_entry `{Ext} `{BuildCfg} : EntryTrait IndexEntry := {
  apath := ie_apath;
  kind := ie_kind;
  mtime W e := from_unix_seconds_and_nanos (ie_mtime e) (ie_mtime_nanos e);
  size W e := s ← sum_u64 (a_len <$> ie_addrs e); mret (Some s);
  symlink_target := ie_target;
  unix_mode := ie_unix_mode;
  owner := ie_owner
}.

Module IndexEntry.

(** [IndexEntry::metadata_from(source)] *)
Definition metadata_from {W} (source : EntryValue) : ST W IndexEntry :=
  m ← mtime source;
  _ ← rust_assert (bool_decide (is_Some (symlink_target source) ↔ kind source = Kind_Symlink));
  mret {| ie_apath := apath source;
          ie_kind := kind source;
          ie_addrs := [];
          ie_target := symlink_target source;
          ie_mtime := unix_timestamp m;
          ie_mtime_nanos := nanosecond m;
          ie_unix_mode := unix_mode source;
          ie_owner := owner source |}.

(** [IndexEntry { addrs, ..entry }] *)
Definition with_addrs (addrs : list Address) (e : IndexEntry) : IndexEntry :=
  {| ie_apath := ie_apath e; ie_kind := ie_kind e; ie_mtime := ie_mtime e;
     ie_unix_mode := ie_unix_mode e; ie_owner := ie_owner e;
     ie_mtime_nanos := ie_mtime_nanos e; ie_addrs := addrs; ie_target := ie_target e |}.

End IndexEntry.

(** [From<IndexEntry> for EntryValue] *)
Definition EntryValue_from {W} `{Ext} `{BuildCfg} (e : IndexEntry) : ST W EntryValue :=
  kind_meta ← match ie_kind e with
              | Kind_File => s ← sum_u64 (a_len <$> ie_addrs e); mret (KM_File s)
              | Kind_Symlink => t ← expect (ie_target e); mret (KM_Symlink t)
              | Kind_Dir => mret KM_Dir
              | Kind_Unknown => mret KM_Unknown
              end;
  m ← from_unix_seconds_and_nanos (ie_mtime e) (ie_mtime_nanos e);
  mret {| ev_apath := ie_apath e; ev_kind_meta := kind_meta; ev_mtime := m;
          ev_unix_mode := ie_unix_mode e; ev_owner := ie_owner e |}.

Inductive KindMetadata : Type :=
  | KMD_File (size : N)
  | KMD_Dir
  | KMD_Symlink (target : string).

(** [From<&dyn EntryTrait> for KindMetadata] *)
Definition KindMetadata_from {W E} `{EntryTrait E} (entry : E) : ST W KindMetadata :=
  match kind entry with
  | Kind_File => s ← size entry; s ← expect s; mret (KMD_File s)
  | Kind_Dir => mret KMD_Dir
  | Kind_Symlink => t ← expect (symlink_target entry); mret (KMD_Symlink t)
  | Kind_Unknown => panic
  end.

Record EntryMetadata : Type := MkEntryMetadata {
  em_kind : KindMetadata;
  em_mtime : OffsetDateTime;
  em_owner : Owner;
  em_unix_mode : UnixMode
}.

#[export] Instance KindMetadata_eq_dec : EqDecision KindMetadata.
Proof. solve_decision. Defined.
#[export] Instance EntryMetadata_eq_dec : EqDecision EntryMetadata.
Proof. solve_decision. Defined.

(** [From<&dyn EntryTrait> for EntryMetadata] *)
Definition EntryMetadata_from {W E} `{EntryTrait E} (entry : E) : ST W EntryMetadata :=
  k ← KindMetadata_from entry;
  m ← mtime entry;
  mret {| em_kind := k; em_mtime := m; em_owner := owner entry; em_unix_mode := unix_mode entry |}.

Inductive Change (E : Type) : Type :=
  | Unchanged (unchanged : E)
  | Added (added : E)
  | Deleted (deleted : E)
  | Changed (old new : E).
Arguments Unchanged {E}.
Arguments Added {E}.
Arguments Deleted {E}.
Arguments Changed {E}.

Module Change.

Definition is_unchanged {E} (self : Change E) : bool :=
  match self with Unchanged _ => true | _ => false end.

Definition is_changed {E} (self : Change E) : bool :=
  match self with Changed _ _ => true | _ => false end.

Definition primary_metadata {E} (self : Change E) : E :=
  match self with
  | Unchanged unchanged => unchanged
  | Added added => added
  | Deleted deleted => deleted
  | Changed _ new => new
  end.

Definition sigil {E} (self : Change E) : string :=
  match self with
  | Unchanged _ => "."
  | Added _ => "+"
  | Deleted _ => "-"
  | Changed _ _ => "*"
  end.

End Change.

Record EntryChange : Type := MkEntryChange { ec_apath : Apath; ec_change : Change EntryMetadata }.

Module EntryChange.

Definition added {W E} `{EntryTrait E} (entry : E) : ST W EntryChange :=
  m ← EntryMetadata_from entry; mret (MkEntryChange (apath entry) (Added m)).

Definition deleted {W E} `{EntryTrait E} (entry : E) : ST W EntryChange :=
  m ← EntryMetadata_from entry; mret (MkEntryChange (apath entry) (Deleted m)).

Definition unchanged {W E} `{EntryTrait E} (entry : E) : ST W EntryChange :=
  m ← EntryMetadata_from entry; mret (MkEntryChange (apath entry) (Unchanged m)).

Definition changed {W E F} `{BuildCfg} `{EntryTrait E} `{EntryTrait F} (old : E) (new : F) :
    ST W EntryChange :=
  _ ← debug_assert (bool_decide (apath old = apath new));
  o ← EntryMetadata_from old;
  n ← EntryMetadata_from new;
  mret (MkEntryChange (apath old) (Changed o n)).

(** The last two clauses of the test in [diff_metadata]. *)
Definition content_differs {W A B} `{EntryTrait A} `{EntryTrait B} (a : A) (b : B) : ST W bool :=
  match kind a with
  | Kind_File =>
      sa ← size a; sb ← size b;
      if decide (sa = sb) then
        ma ← mtime a; mb ← mtime b; mret (negb (bool_decide (ma = mb)))
      else mret true
  | Kind_Symlink => mret (negb (bool_decide (symlink_target a = symlink_target b)))
  | _ => mret false
  end.

Definition diff_metadata {W A B} `{BuildCfg} `{EntryTrait A} `{EntryTrait B} (a : A) (b : B) :
    ST W EntryChange :=
  _ ← debug_assert (bool_decide (apath a = apath b));
  differs ← (if negb (bool_decide (kind a = kind b)) || negb (bool_decide (owner a = owner b))
                || negb (bool_decide (unix_mode a = unix_mode b))
             then mret true else content_differs a b);
  if (differs : bool) then changed a b else unchanged a.

(** [Display] *)
Definition to_string (self : EntryChange) : string :=
  Change.sigil (ec_change self) +:+ " " +:+ apath_str (ec_apath self).

End EntryChange.

(** ** What an entry reads as *)

(** Reading the time and the size of [e] gives [m] and [s], and the entry has
    the metadata its kind needs. *)
Definition reads_as {E} `{EntryTrait E} (e : E) (m : OffsetDateTime) (s : option N) : Prop :=
  (∀ W (w : W), mtime e w = (Ret m, w)) ∧ (∀ W (w : W), size e w = (Ret s, w)) ∧
  match kind e with
  | Kind_File => is_Some s
  | Kind_Dir => True
  | Kind_Symlink => is_Some (symlink_target e)
  | Kind_Unknown => False
  end.

(** Two entries agree on what a backup or a diff regards as significant. *)
Definition same_metadata {A B} `{EntryTrait A} `{EntryTrait B} (a : A) (ma : OffsetDateTime)
    (sa : option N) (b : B) (mb : OffsetDateTime) (sb : option N) : Prop :=
  kind a = kind b ∧ owner a = owner b ∧ unix_mode a = unix_mode b ∧
  (kind a = Kind_File → sa = sb ∧ ma = mb) ∧
  (kind a = Kind_Symlink → symlink_target a = symlink_target b).

(** The metadata recorded for an entry. *)
Definition metadata_of {E} `{EntryTrait E} (e : E) (m : OffsetDateTime) (s : option N) : EntryMetadata :=
  {| em_kind := match kind e with
                | Kind_File => KMD_File (default 0%N s)
                | Kind_Symlink => KMD_Symlink (default "" (symlink_target e))
                | _ => KMD_Dir
                end;
     em_mtime := m; em_owner := owner e; em_unix_mode := unix_mode e |}.

Lemma EntryMetadata_from_runs {W E} `{EntryTrait E} (e : E) m s (w : W) :
  reads_as e m s → EntryMetadata_from e w = (Ret (metadata_of e m s), w).
Proof.
  intros (Hm & Hs & Hk).
  unfold EntryMetadata_from, KindMetadata_from, metadata_of, mbind, ST_bind.
  destruct (kind e); try done.
  - rewrite Hs. destruct Hk as [n ->]. simpl. by rewrite Hm.
  - simpl. by rewrite Hm.
  - destruct Hk as [t Ht]. rewrite Ht. simpl. by rewrite Hm.
Qed.

Lemma changed_runs {W E F} `{BuildCfg} `{EntryTrait E} `{EntryTrait F} (a : E) ma sa (b : F) mb sb (w : W) :
  reads_as a ma sa → reads_as b mb sb → apath a = apath b →
  EntryChange.changed a b w
  = (Ret (MkEntryChange (apath a) (Changed (metadata_of a ma sa) (metadata_of b mb sb))), w).
Proof.
  intros Ha Hb Hp. unfold EntryChange.changed, debug_assert, mbind, ST_bind.
  rewrite bool_decide_true by done.
  destruct debug_assertions; simpl;
    by rewrite (EntryMetadata_from_runs a ma sa), (EntryMetadata_from_runs b mb sb).
Qed.

Lemma content_differs_runs {W A B} `{EntryTrait A} `{EntryTrait B} (a : A) ma sa (b : B) mb sb (w : W) :
  reads_as a ma sa → reads_as b mb sb → kind a = kind b →
  ∃ d, EntryChange.content_differs a b w = (Ret d, w) ∧
    (d = false ↔ (kind a = Kind_File → sa = sb ∧ ma = mb) ∧
                 (kind a = Kind_Symlink → symlink_target a = symlink_target b)).
Proof.
  intros (Hma & Hsa & Ha) (Hmb & Hsb & Hb) Hk.
  unfold EntryChange.content_differs, mbind, ST_bind. destruct (kind a) eqn:E.
  - rewrite Hsa, Hsb. destruct (decide (sa = sb)) as [->|Hs].
    + rewrite Hma, Hmb. eexists. split; [done|].
      destruct (bool_decide (ma = mb)) eqn:Em; simpl.
      * apply bool_decide_eq_true in Em. naive_solver.
      * apply bool_decide_eq_false in Em. naive_solver.
    + eexists. split; [done|]. naive_solver.
  - eexists. split; [done|]. naive_solver.
  - eexists. split; [done|].
    destruct (bool_decide _) eqn:Et; simpl.
    + apply bool_decide_eq_true in Et. naive_solver.
    + apply bool_decide_eq_false in Et. naive_solver.
  - done.
Qed.

(** An index entry with times in range and sizes that add up reads as such. *)
Lemma index_entry_reads_as `{Ext, !TimeLaws} `{BuildCfg} (e : IndexEntry) :
  is_Some (time_from_unix_timestamp (ie_mtime e)) → (ie_mtime_nanos e < 1000000000)%N →
  (sum_N (a_len <$> ie_addrs e) < u64_modulus)%N →
  ie_kind e ≠ Kind_Unknown → (ie_kind e = Kind_Symlink → is_Some (ie_target e)) →
  reads_as e (MkTime (ie_mtime e) (ie_mtime_nanos e)) (Some (sum_N (a_len <$> ie_addrs e))).
Proof.
  intros [t Ht] Hn Hs Hk Hl. pose proof (time_from_timestamp _ _ Ht) as ->.
  split_and!.
  - intros W w. simpl. unfold from_unix_seconds_and_nanos, mbind, ST_bind. rewrite Ht. simpl.
    by rewrite time_replace.
  - intros W w. simpl. unfold mbind, ST_bind. by rewrite sum_u64_ok.
  - simpl. destruct (ie_kind e); naive_solver.
Qed.

Lemma entry_value_reads_as (e : EntryValue) :
  ev_kind_meta e ≠ KM_Unknown →
  reads_as e (ev_mtime e) (match ev_kind_meta e with KM_File s => Some s | _ => None end).
Proof.
  intros Hk. split_and!; [done|done|]. simpl. destruct (ev_kind_meta e); simpl; naive_solver.
Qed.

(** [diff_metadata] of two entries at one path reports them unchanged exactly
    when kind, owner and mode agree, size and time too if they are files, and
    the target if they are symlinks; otherwise it reports both sides. *)
Theorem diff_metadata_correct {W A B} `{BuildCfg} `{EntryTrait A} `{EntryTrait B}
    (a : A) (ma : OffsetDateTime) (sa : option N) (b : B) (mb : OffsetDateTime) (sb : option N) (w : W)
    (Ha : reads_as a ma sa) (Hb : reads_as b mb sb) (Hp : apath a = apath b) :
  ∃ c, EntryChange.diff_metadata a b w = (Ret (MkEntryChange (apath a) c), w) ∧
    (c = Unchanged (metadata_of a ma sa) ∧ same_metadata a ma sa b mb sb ∨
     c = Changed (metadata_of a ma sa) (metadata_of b mb sb) ∧ ¬ same_metadata a ma sa b mb sb).
Proof.
  unfold EntryChange.diff_metadata, same_metadata.
  rewrite (bool_decide_true (apath a = apath b)) by done.
  erewrite bind_run by apply debug_assert_true.
  destruct (negb (bool_decide (kind a = kind b)) || negb (bool_decide (owner a = owner b))
            || negb (bool_decide (unix_mode a = unix_mode b))) eqn:E.
  - eexists. split.
    + erewrite bind_run by done. by apply (changed_runs a ma sa b mb sb).
    + right. split; [done|]. intros (Hk & Ho & Hu & _).
      rewrite !bool_decide_true in E by done. done.
  - apply orb_false_iff in E as [[E1 E2]%orb_false_iff E3].
    apply negb_false_iff, bool_decide_eq_true in E1, E2, E3.
    destruct (content_differs_runs a ma sa b mb sb w Ha Hb E1) as (d & Hd & Hiff).
    rewrite (bind_run _ _ _ _ _ Hd). destruct d.
    + eexists. split; [by apply (changed_runs a ma sa b mb sb)|].
      right. split; [done|]. intros (_ & _ & _ & Hc). apply Hiff in Hc. done.
    + eexists. split.
      * unfold EntryChange.unchanged.
        by rewrite (bind_run _ _ _ _ _ (EntryMetadata_from_runs a ma sa w Ha)).
      * left. split; [done|]. split; [done|]. split; [done|]. split; [done|]. by apply Hiff.
Qed.

(** A file of the live tree, for examples. *)
Definition sample_file (len : N) : EntryValue :=
  MkEntryValue Apath.root (KM_File len) (MkTime 10 0) (UnixMode.from 420) (MkOwner None None).

Lemma diff_metadata_correct_witness :
  ∃ c, @EntryChange.diff_metadata nat _ _ true _ _ (sample_file 3) (sample_file 4) 0
       = (Ret (MkEntryChange (apath (sample_file 3)) c), 0) ∧
    (c = Unchanged (metadata_of (sample_file 3) (MkTime 10 0) (Some 3%N)) ∧
       same_metadata (sample_file 3) (MkTime 10 0) (Some 3%N) (sample_file 4) (MkTime 10 0) (Some 4%N) ∨
     c = Changed (metadata_of (sample_file 3) (MkTime 10 0) (Some 3%N))
           (metadata_of (sample_file 4) (MkTime 10 0) (Some 4%N)) ∧
       ¬ same_metadata (sample_file 3) (MkTime 10 0) (Some 3%N) (sample_file 4) (MkTime 10 0) (Some 4%N)).
Proof.
  apply (@diff_metadata_correct nat EntryValue EntryValue true _ _ (sample_file 3) (MkTime 10 0)
    (Some 3%N) (sample_file 4) (MkTime 10 0) (Some 4%N) 0).
  - apply (entry_value_reads_as (sample_file 3)). discriminate.
  - apply (entry_value_reads_as (sample_file 4)). discriminate.
  - reflexivity.
Defined.
