(* ===== verification/Counters.v ===== *)
(** * Counters, progress and statistics

    The event counters (src/counters.rs), the progress tasks (src/monitor/task.rs),
    the statistics (src/stats.rs, [BackupStats] of src/backup.rs, [BlockDirStats]
    of src/blockdir.rs) and the small helpers of src/misc.rs. *)

From Stdlib Require Import Ascii.
From S2P Require Import Prelude Text Externals Ids.
From stdpp Require Import list.

(** ** Counters *)

Inductive Counter : Type :=
  | Files | FileBytes | Dirs | Symlinks
  | EntriesUnchanged | EntriesChanged | EntriesAdded | EntriesDeleted
  | EmptyFiles | SmallFiles | SingleBlockFiles | MultiBlockFiles
  | DeduplicatedBlocks | DeduplicatedBlockBytes
  | BlockWrites | BlockWriteUncompressedBytes | BlockWriteCompressedBytes
  | BlockReads | BlockReadUncompressedBytes | BlockReadCompressedBytes
  | BlockContentCacheHit | BlockContentCacheMiss
  | BlockExistenceCacheHit | BlockExistenceCacheMiss
  | IndexWrites | IndexWriteUncompressedBytes | IndexWriteCompressedBytes.

#[export] Instance Counter_eq_dec : EqDecision Counter.
Proof. solve_decision. Defined.

Module Counter.

(** [Counter::iter()], in declaration order *)
Definition iter : list Counter :=
  [Files; FileBytes; Dirs; Symlinks;
   EntriesUnchanged; EntriesChanged; EntriesAdded; EntriesDeleted;
   EmptyFiles; SmallFiles; SingleBlockFiles; MultiBlockFiles;
   DeduplicatedBlocks; DeduplicatedBlockBytes;
   BlockWrites; BlockWriteUncompressedBytes; BlockWriteCompressedBytes;
   BlockReads; BlockReadUncompressedBytes; BlockReadCompressedBytes;
   BlockContentCacheHit; BlockContentCacheMiss;
   BlockExistenceCacheHit; BlockExistenceCacheMiss;
   IndexWrites; IndexWriteUncompressedBytes; IndexWriteCompressedBytes].

Definition COUNT : nat := length iter.

(** [counter as usize] *)
Definition to_usize (c : Counter) : nat :=
  default 0 (fst <$> list_find (λ d, d = c) iter).

End Counter.

(** [Counters { counters: [AtomicUsize; Counter::COUNT] }] *)
Record Counters : Type := MkCounters { counters : list N }.

(** [AtomicUsize::fetch_add] wraps around. *)
Definition wrapping_add (a b : N) : N := ((a + b) mod u64_modulus)%N.

Module Counters.

Definition new : Counters := MkCounters (replicate Counter.COUNT 0%N).

Definition count (self : Counters) (c : Counter) (increment : N) : Counters :=
  MkCounters (alter (λ v, wrapping_add v increment) (Counter.to_usize c) (counters self)).

Definition set (self : Counters) (c : Counter) (value : N) : Counters :=
  MkCounters (<[Counter.to_usize c := value]> (counters self)).

Definition get (self : Counters) (c : Counter) : N :=
  default 0%N (counters self !! Counter.to_usize c).

Definition iter (self : Counters) : list (Counter * N) :=
  (λ c, (c, get self c)) <$> Counter.iter.

End Counters.

(** ** Progress tasks *)

(** [TaskState]; a [Task] is a shared reference to one. *)
Record TaskState : Type := MkTaskState { t_name : string; t_total : N; t_done : N }.

Module Task.

Definition set_total (total : N) (s : TaskState) : TaskState := MkTaskState (t_name s) total (t_done s).
Definition set_done (done : N) (s : TaskState) : TaskState := MkTaskState (t_name s) (t_total s) done.
Definition increment (n : N) (s : TaskState) : TaskState :=
  MkTaskState (t_name s) (t_total s) (wrapping_add (t_done s) n).
Definition set_name (name : string) (s : TaskState) : TaskState :=
  MkTaskState name (t_total s) (t_done s).

(** [percent]: the product can overflow. *)
Definition percent {W} `{BuildCfg} (s : TaskState) : ST W N :=
  if (t_total s =? 0)%N then mret 0%N
  else
    let p := (t_done s * 100)%N in
    if (p <? u64_modulus)%N then mret (p / t_total s)%N
    else if debug_assertions then panic else mret ((p mod u64_modulus) / t_total s)%N.

End Task.

(** [TaskList]: weak references, that is the names of allocated states; a state
    is alive while the heap holds it. *)
Record TaskList : Type := MkTaskList { tasks : list nat }.

Definition TaskHeap : Type := nat → option TaskState.

Module TaskList.

(** [start_task(name)] at the fresh reference [r] *)
Definition start_task (self : TaskList) (heap : TaskHeap) (r : nat) (name : string) :
    TaskList * TaskHeap :=
  (MkTaskList (tasks self ++ [r]),
   λ r', if decide (r' = r) then Some (MkTaskState name 0 0) else heap r').

(** [active_tasks()]: forget the dropped ones, return the others. *)
Definition active_tasks (self : TaskList) (heap : TaskHeap) : TaskList * list TaskState :=
  (MkTaskList (filter (λ r, is_Some (heap r)) (tasks self)), omap heap (tasks self)).

End TaskList.

(** ** Statistics *)

Record BlockDirStats : Type := MkBlockDirStats {
  read_blocks : N;
  read_block_compressed_bytes : N;
  read_block_uncompressed_bytes : N;
  cache_hit : N
}.

Record IndexReadStats : Type := MkIndexReadStats {
  index_hunks : N;
  uncompressed_index_bytes : N;
  compressed_index_bytes : N;
  index_errors : N
}.

Record LiveTreeIterStats : Type := MkLiveTreeIterStats {
  directories_visited : N;
  exclusions : N;
  metadata_error : N;
  entries_returned : N
}.

Record DeleteStats : Type := MkDeleteStats {
  deleted_band_count : N;
  unreferenced_block_count : N;
  unreferenced_block_bytes : N;
  deletion_errors : N;
  deleted_block_count : N
}.

(** [BackupStats] *)
Record BackupStats : Type := MkBackupStats {
  bs_files : N;
  bs_symlinks : N;
  bs_directories : N;
  bs_unknown_kind : N;
  bs_unmodified_files : N;
  bs_modified_files : N;
  bs_new_files : N;
  bs_replaced_damaged_blocks : N;
  bs_deduplicated_bytes : N;
  bs_uncompressed_bytes : N;
  bs_compressed_bytes : N;
  bs_deduplicated_blocks : N;
  bs_written_blocks : N;
  bs_combined_blocks : N;
  bs_empty_files : N;
  bs_small_combined_files : N;
  bs_single_block_files : N;
  bs_multi_block_files : N;
  bs_errors : N;
  bs_read_blocks : N;
  bs_read_blocks_uncompressed_bytes : N;
  bs_read_blocks_compressed_bytes : N
}.

Module BackupStats.
Local Open Scope N_scope.

(** [BackupStats::default()] *)
Definition zero : BackupStats :=
  MkBackupStats 0 0 0 0 0 0 0 0 0 0 0 0 0 0 0 0 0 0 0 0 0 0.

(** The derived [AddAssign], field by field *)
Definition add (s t : BackupStats) : BackupStats :=
  MkBackupStats
    (bs_files s + bs_files t)
    (bs_symlinks s + bs_symlinks t)
    (bs_directories s + bs_directories t)
    (bs_unknown_kind s + bs_unknown_kind t)
    (bs_unmodified_files s + bs_unmodified_files t)
    (bs_modified_files s + bs_modified_files t)
    (bs_new_files s + bs_new_files t)
    (bs_replaced_damaged_blocks s + bs_replaced_damaged_blocks t)
    (bs_deduplicated_bytes s + bs_deduplicated_bytes t)
    (bs_uncompressed_bytes s + bs_uncompressed_bytes t)
    (bs_compressed_bytes s + bs_compressed_bytes t)
    (bs_deduplicated_blocks s + bs_deduplicated_blocks t)
    (bs_written_blocks s + bs_written_blocks t)
    (bs_combined_blocks s + bs_combined_blocks t)
    (bs_empty_files s + bs_empty_files t)
    (bs_small_combined_files s + bs_small_combined_files t)
    (bs_single_block_files s + bs_single_block_files t)
    (bs_multi_block_files s + bs_multi_block_files t)
    (bs_errors s + bs_errors t)
    (bs_read_blocks s + bs_read_blocks t)
    (bs_read_blocks_uncompressed_bytes s + bs_read_blocks_uncompressed_bytes t)
    (bs_read_blocks_compressed_bytes s + bs_read_blocks_compressed_bytes t).

(** Adding to one field *)
Definition add_files (inc : N) (s : BackupStats) : BackupStats :=
  let '(MkBackupStats x b c d e f g h i j k l m n o p q r s t u v) := s in
  MkBackupStats (x + inc) b c d e f g h i j k l m n o p q r s t u v.
Definition add_symlinks (inc : N) (s : BackupStats) : BackupStats :=
  let '(MkBackupStats a x c d e f g h i j k l m n o p q r s t u v) := s in
  MkBackupStats a (x + inc) c d e f g h i j k l m n o p q r s t u v.
Definition add_directories (inc : N) (s : BackupStats) : BackupStats :=
  let '(MkBackupStats a b x d e f g h i j k l m n o p q r s t u v) := s in
  MkBackupStats a b (x + inc) d e f g h i j k l m n o p q r s t u v.
Definition add_unknown_kind (inc : N) (s : BackupStats) : BackupStats :=
  let '(MkBackupStats a b c x e f g h i j k l m n o p q r s t u v) := s in
  MkBackupStats a b c (x + inc) e f g h i j k l m n o p q r s t u v.
Definition add_unmodified_files (inc : N) (s : BackupStats) : BackupStats :=
  let '(MkBackupStats a b c d x f g h i j k l m n o p q r s t u v) := s in
  MkBackupStats a b c d (x + inc) f g h i j k l m n o p q r s t u v.
Definition add_modified_files (inc : N) (s : BackupStats) : BackupStats :=
  let '(MkBackupStats a b c d e x g h i j k l m n o p q r s t u v) := s in
  MkBackupStats a b c d e (x + inc) g h i j k l m n o p q r s t u v.
Definition add_new_files (inc : N) (s : BackupStats) : BackupStats :=
  let '(MkBackupStats a b c d e f x h i j k l m n o p q r s t u v) := s in
  MkBackupStats a b c d e f (x + inc) h i j k l m n o p q r s t u v.
Definition add_replaced_damaged_blocks (inc : N) (s : BackupStats) : BackupStats :=
  let '(MkBackupStats a b c d e f g x i j k l m n o p q r s t u v) := s in
  MkBackupStats a b c d e f g (x + inc) i j k l m n o p q r s t u v.
Definition add_deduplicated_bytes (inc : N) (s : BackupStats) : BackupStats :=
  let '(MkBackupStats a b c d e f g h x j k l m n o p q r s t u v) := s in
  MkBackupStats a b c d e f g h (x + inc) j k l m n o p q r s t u v.
Definition add_uncompressed_bytes (inc : N) (s : BackupStats) : BackupStats :=
  let '(MkBackupStats a b c d e f g h i x k l m n o p q r s t u v) := s in
  MkBackupStats a b c d e f g h i (x + inc) k l m n o p q r s t u v.
Definition add_compressed_bytes (inc : N) (s : BackupStats) : BackupStats :=
  let '(MkBackupStats a b c d e f g h i j x l m n o p q r s t u v) := s in
  MkBackupStats a b c d e f g h i j (x + inc) l m n o p q r s t u v.
Definition add_deduplicated_blocks (inc : N) (s : BackupStats) : BackupStats :=
  let '(MkBackupStats a b c d e f g h i j k x m n o p q r s t u v) := s in
  MkBackupStats a b c d e f g h i j k (x + inc) m n o p q r s t u v.
Definition add_written_blocks (inc : N) (s : BackupStats) : BackupStats :=
  let '(MkBackupStats a b c d e f g h i j k l x n o p q r s t u v) := s in
  MkBackupStats a b c d e f g h i j k l (x + inc) n o p q r s t u v.
Definition add_combined_blocks (inc : N) (s : BackupStats) : BackupStats :=
  let '(MkBackupStats a b c d e f g h i j k l m x o p q r s t u v) := s in
  MkBackupStats a b c d e f g h i j k l m (x + inc) o p q r s t u v.
Definition add_empty_files (inc : N) (s : BackupStats) : BackupStats :=
  let '(MkBackupStats a b c d e f g h i j k l m n x p q r s t u v) := s in
  MkBackupStats a b c d e f g h i j k l m n (x + inc) p q r s t u v.
Definition add_small_combined_files (inc : N) (s : BackupStats) : BackupStats :=
  let '(MkBackupStats a b c d e f g h i j k l m n o x q r s t u v) := s in
  MkBackupStats a b c d e f g h i j k l m n o (x + inc) q r s t u v.
Definition add_single_block_files (inc : N) (s : BackupStats) : BackupStats :=
  let '(MkBackupStats a b c d e f g h i j k l m n o p x r s t u v) := s in
  MkBackupStats a b c d e f g h i j k l m n o p (x + inc) r s t u v.
Definition add_multi_block_files (inc : N) (s : BackupStats) : BackupStats :=
  let '(MkBackupStats a b c d e f g h i j k l m n o p q x s t u v) := s in
  MkBackupStats a b c d e f g h i j k l m n o p q (x + inc) s t u v.
Definition add_errors (inc : N) (s : BackupStats) : BackupStats :=
  let '(MkBackupStats a b c d e f g h i j k l m n o p q r x t u v) := s in
  MkBackupStats a b c d e f g h i j k l m n o p q r (x + inc) t u v.
Definition add_read_blocks (inc : N) (s : BackupStats) : BackupStats :=
  let '(MkBackupStats a b c d e f g h i j k l m n o p q r s x u v) := s in
  MkBackupStats a b c d e f g h i j k l m n o p q r s (x + inc) u v.
Definition add_read_blocks_uncompressed_bytes (inc : N) (s : BackupStats) : BackupStats :=
  let '(MkBackupStats a b c d e f g h i j k l m n o p q r s t x v) := s in
  MkBackupStats a b c d e f g h i j k l m n o p q r s t (x + inc) v.
Definition add_read_blocks_compressed_bytes (inc : N) (s : BackupStats) : BackupStats :=
  let '(MkBackupStats a b c d e f g h i j k l m n o p q r s t u x) := s in
  MkBackupStats a b c d e f g h i j k l m n o p q r s t u (x + inc).

End BackupStats.

(** ** Small helpers *)

(** [remove_item(v, item)]: the first equal element only. *)
Fixpoint remove_item {A} `{EqDecision A} (v : list A) (item : A) : list A :=
  match v with
  | [] => []
  | x :: v => if decide (item = x) then v else x :: remove_item v item
  end.

Definition zero_u32 (a : N) : bool := (a =? 0)%N.
Definition zero_u64 (a : N) : bool := (a =? 0)%N.

(** [mb_string(s)] and [bytes_to_human_mb(s)] *)
Definition mb_string `{Ext} (s : N) : string := separate_with_commas (s / 1000000).
Definition bytes_to_human_mb `{Ext} (s : N) : string :=
  separate_with_commas (s / 1000000) +:+ " MB".

(** [format!("{:2}", n)] *)
Definition pad2 (n : N) : string := UnixMode.pad_left 2 (decimal n).

(** [duration_to_hms(d)], on the whole seconds of the duration *)
Definition duration_to_hms (elapsed_secs : N) : string :=
  if (3600 <=? elapsed_secs)%N then
    pad2 (elapsed_secs / 3600) +:+ ":" +:+ pad_decimal 2 ((elapsed_secs / 60) mod 60)
    +:+ ":" +:+ pad_decimal 2 (elapsed_secs mod 60)
  else
    "   " +:+ pad2 ((elapsed_secs / 60) mod 60) +:+ ":" +:+ pad_decimal 2 (elapsed_secs mod 60).

Definition LF : string := String "010"%char "".

(** [write_size], [write_count], [write_duration]: one line each. *)
Definition write_size `{Ext} (label : string) (value : N) : string :=
  UnixMode.pad_left 12 (mb_string value) +:+ " MB   " +:+ label +:+ LF.
Definition write_count `{Ext} (label : string) (value : N) : string :=
  UnixMode.pad_left 12 (separate_with_commas value) +:+ "      " +:+ label +:+ LF.
Definition write_duration (label : string) (secs : N) : string :=
  UnixMode.pad_left 12 (duration_to_hms secs) +:+ "      " +:+ label +:+ LF.

(** [Display for DeleteStats], given the elapsed seconds *)
Definition DeleteStats_to_string `{Ext} (s : DeleteStats) (elapsed : N) : string :=
  "deletion stats" +:+ LF
  +:+ write_count "bands deleted" (deleted_band_count s) +:+ LF
  +:+ write_count "unreferenced blocks" (unreferenced_block_count s)
  +:+ write_size "  unreferenced" (unreferenced_block_bytes s)
  +:+ write_count "  deleted" (deleted_block_count s) +:+ LF
  +:+ write_count "deletion errors" (deletion_errors s) +:+ LF
  +:+ write_duration "elapsed" elapsed.

(** ** Facts *)

Lemma counter_to_usize_lookup c : Counter.iter !! Counter.to_usize c = Some c.
Proof. by destruct c. Qed.

Lemma counter_to_usize_inj c d : Counter.to_usize c = Counter.to_usize d → c = d.
Proof.
  intros Heq. pose proof (counter_to_usize_lookup c) as Hc.
  rewrite Heq, counter_to_usize_lookup in Hc. by injection Hc.
Qed.

(** A [Counters] always has the length of the array. *)
Definition counters_ok (s : Counters) : Prop := length (counters s) = Counter.COUNT.

Lemma counter_in_range s c : counters_ok s → is_Some (counters s !! Counter.to_usize c).
Proof.
  intros Hs. apply lookup_lt_is_Some. rewrite Hs.
  eapply lookup_lt_Some, counter_to_usize_lookup.
Qed.

(** Counting an event adds to that counter, modulo the width of the atomic,
    and leaves every other counter alone; setting replaces the value. *)
Theorem counters_count_set (s : Counters) (c d : Counter) (n : N) (Hs : counters_ok s) :
  Counters.get (Counters.count s c n) d
    = (if decide (d = c) then wrapping_add (Counters.get s c) n else Counters.get s d) ∧
  Counters.get (Counters.set s c n) d = (if decide (d = c) then n else Counters.get s d) ∧
  counters_ok (Counters.count s c n) ∧ counters_ok (Counters.set s c n).
Proof.
  destruct (counter_in_range s c Hs) as [v Hv].
  assert (Counter.to_usize c < length (counters s)) as Hl by (by eapply lookup_lt_Some).
  unfold Counters.get, Counters.count, Counters.set, counters_ok. simpl.
  rewrite length_alter, length_insert. split_and!; try done; destruct (decide (d = c)) as [->|Hd].
  - by rewrite list_lookup_alter_eq, Hv.
  - rewrite list_lookup_alter_ne; [done|]. by intros ?%counter_to_usize_inj.
  - by rewrite list_lookup_insert_eq.
  - rewrite list_lookup_insert_ne; [done|]. by intros ?%counter_to_usize_inj.
Qed.

Lemma counters_count_set_witness :
  Counters.get (Counters.count Counters.new Dirs 3) Dirs
    = (if decide (Dirs = Dirs) then wrapping_add (Counters.get Counters.new Dirs) 3
       else Counters.get Counters.new Dirs) ∧
  Counters.get (Counters.set Counters.new Dirs 3) Dirs
    = (if decide (Dirs = Dirs) then 3%N else Counters.get Counters.new Dirs) ∧
  counters_ok (Counters.count Counters.new Dirs 3) ∧
  counters_ok (Counters.set Counters.new Dirs 3).
Proof. apply (counters_count_set Counters.new Dirs Dirs 3). reflexivity. Defined.

Lemma remove_item_perm {A} `{EqDecision A} (v : list A) x :
  x ∈ v → v ≡ₚ x :: remove_item v x.
Proof.
  induction v as [|y v IH]; [by intros ?%not_elem_of_nil|]. simpl.
  destruct (decide (x = y)) as [->|Hne]; [done|].
  intros [?|Hin]%elem_of_cons; [done|]. rewrite (IH Hin) at 1. by rewrite Permutation_swap.
Qed.

Lemma remove_item_notin {A} `{EqDecision A} (v : list A) x : x ∉ v → remove_item v x = v.
Proof.
  induction v as [|y v IH]; [done|]. simpl. intros [H1 H2]%not_elem_of_cons.
  rewrite decide_False by done. by rewrite IH.
Qed.
