(* ===== verification/Errors.v ===== *)
(** * Errors

    The errors of the library (src/errors.rs), of transports (src/transport.rs)
    and of JSON files (src/jsonio.rs), and their conversions. *)

From S2P Require Import Prelude Text Apath Externals Ids.
From stdpp Require Import list.

(** The kinds of [std::io::Error] that the model distinguishes. *)
Inductive IoKind : Type :=
  | Io_NotFound
  | Io_AlreadyExists
  | Io_PermissionDenied
  | Io_NotADirectory
  | Io_IsADirectory
  | Io_InvalidData
  | Io_Other.

#[export] Instance IoKind_eq_dec : EqDecision IoKind.
Proof. solve_decision. Defined.

(** [transport::ErrorKind] *)
Inductive TransportErrorKind : Type :=
  | TE_NotFound
  | TE_AlreadyExists
  | TE_PermissionDenied
  | TE_CreateTransport
  | TE_Connect
  | TE_UrlScheme
  | TE_Other.

#[export] Instance TransportErrorKind_eq_dec : EqDecision TransportErrorKind.
Proof. solve_decision. Defined.

(** [transport::Error]: the kind, the underlying error if it is an IO error,
    and the path it is about. *)
Record TransportError : Type := MkTransportError {
  te_kind : TransportErrorKind;
  te_source : option IoKind;
  te_path : option Path
}.

(** [From<io::ErrorKind> for transport::ErrorKind] *)
Definition TransportErrorKind_from (kind : IoKind) : TransportErrorKind :=
  match kind with
  | Io_NotFound => TE_NotFound
  | Io_AlreadyExists => TE_AlreadyExists
  | Io_PermissionDenied => TE_PermissionDenied
  | _ => TE_Other
  end.

(** [transport::Error::io_error(path, source)] *)
Definition io_error (path : Path) (source : IoKind) : TransportError :=
  {| te_kind := match source with
                | Io_NotFound => TE_NotFound
                | Io_AlreadyExists => TE_AlreadyExists
                | Io_PermissionDenied => TE_PermissionDenied
                | _ => TE_Other
                end;
     te_source := Some source;
     te_path := Some path |}.

(** [transport::Error::is_not_found] *)
Definition is_not_found (e : TransportError) : bool := bool_decide (te_kind e = TE_NotFound).

(** [conserve::Error]. Errors of third-party libraries carry nothing. *)
Inductive Error : Type :=
  | BlockCorrupt (hash : BlockHash)
  | BlockMissing (hash : BlockHash)
  | BlockTooShort (hash : BlockHash) (actual_len referenced_len : N)
  | ListBlocks (source : TransportError)
  | NotAnArchive
  | UnsupportedArchiveVersion (version : string)
  | UnsupportedBandVersion (band_id : BandId) (version : string)
  | ArchiveEmpty
  | NoCompleteBands
  | UnsupportedBandFormatFlags (band_id : BandId) (unsupported_flags : list string)
  | DestinationNotEmpty
  | NewArchiveDirectoryNotEmpty
  | InvalidVersion (version : string)
  | BandHeadMissing (band_id : BandId)
  | DeleteWithIncompleteBackup (band_id : BandId)
  | DeleteWithConcurrentActivity
  | GarbageCollectionLockHeld
  | GarbageCollectionLockHeldDuringBackup
  | ParseGlob
  | DeserializeJson (path : string)
  | SerializeJson
  | InvalidMetadata (details : string)
  | BandNotFound (band_id : BandId)
  | ListBands (source : IoKind)
  | ReadSourceFile (path : Path) (source : IoKind)
  | UnsupportedSourceKind (path : Path)
  | UnsupportedTargetEncoding (path : Path)
  | ListSourceTree (path : Path) (source : IoKind)
  | RestoreFile (path : Path) (source : IoKind)
  | RestoreSymlink (path : Path) (source : IoKind)
  | RestoreFileBlock (apath : Apath) (hash : BlockHash) (source : Error)
  | RestoreDirectory (path : Path) (source : IoKind)
  | RestoreOwnership (path : Path) (source : IoKind)
  | RestorePermissions (path : Path) (source : IoKind)
  | RestoreModificationTime (path : Path) (source : IoKind)
  | UrlScheme (scheme : string)
  | UnexpectedFile (path : string)
  | NotImplemented
  | MountDestinationExists
  | MountDestinationDoesNotExists
  | IOError (source : IoKind)
  | SetOwner (source : IoKind) (path : Path)
  | SnapCompressionError
  | TransportErr (source : TransportError).

(** [jsonio::Error] *)
Inductive JsonioError : Type :=
  | JE_Io (source : IoKind)
  | JE_Json (path : string)
  | JE_Transport (source : TransportError).

(** [From<jsonio::Error> for Error] *)
Definition Error_from_jsonio (value : JsonioError) : Error :=
  match value with
  | JE_Io source => IOError source
  | JE_Json path => DeserializeJson path
  | JE_Transport source => TransportErr source
  end.

(** The two classifications of IO errors agree. *)
Lemma io_error_kind path source : te_kind (io_error path source) = TransportErrorKind_from source.
Proof. by destruct source. Qed.

Lemma is_not_found_io path source :
  is_not_found (io_error path source) = true ↔ source = Io_NotFound.
Proof. unfold is_not_found. rewrite bool_decide_eq_true. by destruct source. Qed.
