(* ===== verification/World.v ===== *)
(** * The world

    What the program runs in: a file system whose system calls follow an
    adversarial schedule of failures, short reads, directory orders and deaths of
    the process; the clock; the monitor; and the shared state of open block
    directories.

    The file system is a map from absolute paths, given by their names, to nodes.
    Symbolic links are not followed: using one where the system would follow it
    is an error of kind [Io_Other]. *)

From S2P Require Import Prelude Text Apath Externals Ids Counters Errors.
From stdpp Require Import list gmap strings.

(** Keys are never counted by enumeration. *)
#[export] Remove Hints finite.finite_countable : typeclass_instances.

(** ** Nodes *)

Record Meta : Type := MkMeta { m_mode : N; m_mtime : OffsetDateTime; m_uid : N; m_gid : N }.

Inductive Node : Type :=
  | NFile (content : string) (meta : Meta)
  | NDir (meta : Meta)
  | NSymlink (target : string) (meta : Meta)
  | NOther (meta : Meta).

Abbreviation Fs := (gmap Path Node).

Definition node_meta (n : Node) : Meta :=
  match n with NFile _ m | NDir m | NSymlink _ m | NOther m => m end.

Definition node_type (n : Node) : FileType :=
  match n with NFile _ _ => ft_file | NDir _ => ft_dir | NSymlink _ _ => ft_symlink | NOther _ => ft_other end.

Definition with_meta (f : Meta → Meta) (n : Node) : Node :=
  match n with
  | NFile c m => NFile c (f m)
  | NDir m => NDir (f m)
  | NSymlink t m => NSymlink t (f m)
  | NOther m => NOther (f m)
  end.

Definition parent (p : Path) : Path := removelast p.

Definition is_dir_node (n : option Node) : bool :=
  match n with Some (NDir _) => true | _ => false end.

(** The error of using a path at which there is nothing: [ENOTDIR] when a proper
    ancestor is something other than a directory, else [ENOENT]. *)
Definition absent_kind (fs : Fs) (p : Path) : IoKind :=
  if existsb (λ n, match fs !! take n p with
                   | Some (NDir _) | None => false
                   | Some _ => true
                   end) (seq 0 (length p))
  then Io_NotADirectory else Io_NotFound.

(** ** File system operations, when they are not disturbed *)

Definition fs_create (p : Path) (n : Node) (fs : Fs) : result Fs IoKind :=
  match fs !! p with
  | Some _ => Err Io_AlreadyExists
  | None => if is_dir_node (fs !! parent p) then Ok (<[p := n]> fs) else Err (absent_kind fs p)
  end.

(** [open] with [create] and [truncate] *)
Definition fs_open_truncate (p : Path) (m : Meta) (fs : Fs) : result Fs IoKind :=
  match fs !! p with
  | Some (NFile _ m') => Ok (<[p := NFile "" m']> fs)
  | Some (NDir _) => Err Io_IsADirectory
  | Some _ => Err Io_Other
  | None => if is_dir_node (fs !! parent p) then Ok (<[p := NFile "" m]> fs) else Err (absent_kind fs p)
  end.

Definition fs_append (p : Path) (s : string) (fs : Fs) : Fs :=
  match fs !! p with
  | Some (NFile c m) => <[p := NFile (c +:+ s) m]> fs
  | _ => fs
  end.

Definition fs_read_file (p : Path) (fs : Fs) : result string IoKind :=
  match fs !! p with
  | Some (NFile c _) => Ok c
  | Some (NDir _) => Err Io_IsADirectory
  | Some _ => Err Io_Other
  | None => Err (absent_kind fs p)
  end.

Definition child_name (p k : Path) : option string :=
  match last k with
  | Some n => if decide (k = p ++ [n]) then Some n else None
  | None => None
  end.

(** The entries of a directory, in the order of the map. *)
Definition fs_children (p : Path) (fs : Fs) : list (string * Node) :=
  omap (λ kn, (λ n, (n, kn.2)) <$> child_name p kn.1) (map_to_list fs).

Definition fs_read_dir (p : Path) (fs : Fs) : result (list (string * Node)) IoKind :=
  match fs !! p with
  | Some (NDir _) => Ok (fs_children p fs)
  | Some _ => Err Io_NotADirectory
  | None => Err (absent_kind fs p)
  end.

(** [lstat], and [stat] which does not follow links here *)
Definition fs_lstat (p : Path) (fs : Fs) : result Node IoKind :=
  match fs !! p with
  | Some n => Ok n
  | None => Err (absent_kind fs p)
  end.

Definition fs_stat (p : Path) (fs : Fs) : result Node IoKind :=
  match fs !! p with
  | Some (NSymlink _ _) => Err Io_Other
  | Some n => Ok n
  | None => Err (absent_kind fs p)
  end.

Definition fs_remove_file (p : Path) (fs : Fs) : result Fs IoKind :=
  match fs !! p with
  | Some (NDir _) => Err Io_IsADirectory
  | Some _ => Ok (delete p fs)
  | None => Err (absent_kind fs p)
  end.

Definition deeper (a b : Path) : Prop := (length b ≤ length a)%nat.

#[export] Instance deeper_dec : RelDecision deeper.
Proof. intros a b. unfold deeper. apply _. Defined.

(** The paths at or below [p], the deepest first. *)
Definition fs_subtree (p : Path) (fs : Fs) : list Path :=
  merge_sort deeper
    (filter (λ k, p `prefix_of` k) (fst <$> map_to_list fs)).

Definition fs_delete_all (ps : list Path) (fs : Fs) : Fs := foldr delete fs ps.

Definition fs_remove_dir_all (p : Path) (fs : Fs) : result Fs IoKind :=
  match fs !! p with
  | Some (NDir _) => Ok (fs_delete_all (fs_subtree p fs) fs)
  | Some (NSymlink _ _) => Ok (delete p fs)
  | Some _ => Err Io_NotADirectory
  | None => Err (absent_kind fs p)
  end.

(** The missing directories that [create_dir_all(p)] makes, the topmost first. *)
Definition fs_missing_dirs (p : Path) (fs : Fs) : list Path :=
  filter (λ k, fs !! k = None) ((λ n, take n p) <$> seq 1 (length p)).

Definition fs_make_dirs (ps : list Path) (m : Meta) (fs : Fs) : Fs :=
  foldl (λ fs k, <[k := NDir m]> fs) fs ps.

Definition fs_create_dir_all (p : Path) (m : Meta) (fs : Fs) : result Fs IoKind :=
  match fs !! p with
  | Some (NDir _) => Ok fs
  | Some _ => Err Io_AlreadyExists
  | None =>
      match absent_kind fs p with
      | Io_NotFound => Ok (fs_make_dirs (fs_missing_dirs p fs) m fs)
      | k => Err k
      end
  end.

Definition fs_set_meta (p : Path) (f : Meta → Meta) (fs : Fs) : result Fs IoKind :=
  match fs !! p with
  | Some n => Ok (<[p := with_meta f n]> fs)
  | None => Err (absent_kind fs p)
  end.

(** ** Schedules *)

(** What happens to one system call: nothing; an error of some kind; or the
    death of the process. The number says how much of a divisible operation (the
    bytes of a write, the entries of a recursive removal or creation) took effect. *)
Inductive Fault : Type :=
  | NoFault
  | FailIo (k : IoKind) (n : nat)
  | Die (n : nat).

(** State of an open block directory, shared by all its users. *)
Record BlockDirState `{Ext} : Type := MkBlockDirState {
  bds_stats : BlockDirStats;
  bds_cache : Lru BlockHash string;
  bds_exists : Lru BlockHash unit
}.

(** A [BufWriter] on a file that is open for writing: what it has not written yet. *)
Record BufWriter : Type := MkBufWriter { bf_path : Path; bf_buf : string }.

(** Standard output, and the buffered writers that have been made. *)
Record Console : Type := MkConsole {
  con_stdout : string;
  con_writers : nat → BufWriter;
  con_next : nat
}.

Record World `{Ext} : Type := MkWorld {
  w_fs : Fs;
  w_tick : nat;
  w_faults : nat → Fault;
  (** the most bytes that the read at this tick returns, if fewer than asked for *)
  w_short : nat → option nat;
  (** the order in which the directory listing at this tick comes *)
  w_order : nat → list nat;
  (** seconds since the epoch *)
  w_clock : nat → Z;
  (** what the monitor has been told *)
  w_errors : list Error;
  w_counters : Counters;
  (** open block directories *)
  w_blockdirs : nat → BlockDirState;
  w_next_blockdir : nat;
  (** what the command line prints to *)
  w_console : Console
}.

Section world.
Context `{Ext}.
Abbreviation M := (ST World).

Definition with_fs (f : Fs → Fs) (w : World) : World :=
  MkWorld _ (f (w_fs w)) (w_tick w) (w_faults w) (w_short w) (w_order w) (w_clock w)
    (w_errors w) (w_counters w) (w_blockdirs w) (w_next_blockdir w) (w_console w).

Definition tick (w : World) : World :=
  MkWorld _ (w_fs w) (S (w_tick w)) (w_faults w) (w_short w) (w_order w) (w_clock w)
    (w_errors w) (w_counters w) (w_blockdirs w) (w_next_blockdir w) (w_console w).

Definition add_error (e : Error) (w : World) : World :=
  MkWorld _ (w_fs w) (w_tick w) (w_faults w) (w_short w) (w_order w) (w_clock w)
    (w_errors w ++ [e]) (w_counters w) (w_blockdirs w) (w_next_blockdir w) (w_console w).

Definition with_counters (f : Counters → Counters) (w : World) : World :=
  MkWorld _ (w_fs w) (w_tick w) (w_faults w) (w_short w) (w_order w) (w_clock w)
    (w_errors w) (f (w_counters w)) (w_blockdirs w) (w_next_blockdir w) (w_console w).

Definition with_blockdir (h : nat) (f : BlockDirState → BlockDirState) (w : World) : World :=
  MkWorld _ (w_fs w) (w_tick w) (w_faults w) (w_short w) (w_order w) (w_clock w)
    (w_errors w) (w_counters w)
    (λ h', if decide (h' = h) then f (w_blockdirs w h) else w_blockdirs w h') (w_next_blockdir w) (w_console w).

Definition alloc_blockdir (s : BlockDirState) (w : World) : World :=
  MkWorld _ (w_fs w) (w_tick w) (w_faults w) (w_short w) (w_order w) (w_clock w)
    (w_errors w) (w_counters w)
    (λ h', if decide (h' = w_next_blockdir w) then s else w_blockdirs w h') (S (w_next_blockdir w)) (w_console w).

Definition with_console (f : Console → Console) (w : World) : World :=
  MkWorld _ (w_fs w) (w_tick w) (w_faults w) (w_short w) (w_order w) (w_clock w)
    (w_errors w) (w_counters w) (w_blockdirs w) (w_next_blockdir w) (f (w_console w)).

(** ** System calls *)

(** A system call: [op] is its effect, [partial n] the part of the effect that
    took place when it is disturbed. *)
Definition syscall {A : Type} (op : World → result (A * Fs) IoKind) (partial : nat → Fs → Fs) :
    M (result A IoKind) := λ w,
  match w_faults w (w_tick w) with
  | NoFault =>
      match op w with
      | Ok (a, fs') => (Ret (Ok a), tick (with_fs (λ _, fs') w))
      | Err k => (Ret (Err k), tick w)
      end
  | FailIo k n => (Ret (Err k), tick (with_fs (partial n) w))
  | Die n => (Crash, tick (with_fs (partial n) w))
  end.

(** A system call that only reads. *)
Definition sys_read {A : Type} (op : World → result A IoKind) : M (result A IoKind) :=
  syscall (λ w, map_ok (λ a, (a, w_fs w)) (op w)) (λ _ fs, fs).

(** A system call that changes the file system, all or nothing. *)
Definition sys_write (op : World → result Fs IoKind) : M (result unit IoKind) :=
  syscall (λ w, map_ok (λ fs, (tt, fs)) (op w)) (λ _ fs, fs).

(** Metadata of what the process creates now. *)
Definition new_meta (mode : N) (w : World) : Meta :=
  MkMeta mode (MkTime (w_clock w (w_tick w)) 0) 0 0.

Definition sys_create_dir (p : Path) : M (result unit IoKind) :=
  sys_write (λ w, fs_create p (NDir (new_meta 493 w)) (w_fs w)).

Definition sys_open_new (p : Path) : M (result unit IoKind) :=
  sys_write (λ w, fs_create p (NFile "" (new_meta 420 w)) (w_fs w)).

Definition sys_open_truncate (p : Path) : M (result unit IoKind) :=
  sys_write (λ w, fs_open_truncate p (new_meta 420 w) (w_fs w)).

(** [write_all] on a handle that is at the end of the file at [p] *)
Definition sys_write_all (p : Path) (s : string) : M (result unit IoKind) :=
  syscall (λ w, Ok (tt, fs_append p s (w_fs w)))
    (λ n, fs_append p (string_take (Nat.min n (String.length s)) s)).

Definition sys_read_file (p : Path) : M (result string IoKind) :=
  sys_read (λ w, fs_read_file p (w_fs w)).

(** [permute code l]: the list reordered by a Lehmer code. *)
Fixpoint permute {A : Type} (code : list nat) (l : list A) : list A :=
  match l with
  | [] => []
  | x :: l =>
      let l' := permute (tl code) l in
      let k := default 0 (head code) mod S (length l') in
      take k l' ++ x :: drop k l'
  end.

Definition sys_read_dir (p : Path) : M (result (list (string * Node)) IoKind) :=
  sys_read (λ w, map_ok (permute (w_order w (w_tick w))) (fs_read_dir p (w_fs w))).

Definition sys_lstat (p : Path) : M (result Node IoKind) := sys_read (λ w, fs_lstat p (w_fs w)).
Definition sys_stat (p : Path) : M (result Node IoKind) := sys_read (λ w, fs_stat p (w_fs w)).

Definition sys_remove_file (p : Path) : M (result unit IoKind) :=
  sys_write (λ w, fs_remove_file p (w_fs w)).

Definition sys_remove_dir_all (p : Path) : M (result unit IoKind) :=
  syscall (λ w, map_ok (λ fs, (tt, fs)) (fs_remove_dir_all p (w_fs w)))
    (λ n fs, match fs_remove_dir_all p fs with
             | Ok _ => fs_delete_all (take n (fs_subtree p fs)) fs
             | Err _ => fs
             end).

Definition sys_create_dir_all (p : Path) : M (result unit IoKind) :=
  syscall (λ w, map_ok (λ fs, (tt, fs)) (fs_create_dir_all p (new_meta 493 w) (w_fs w)))
    (λ _ fs, fs).

Definition sys_symlink (target : string) (p : Path) : M (result unit IoKind) :=
  sys_write (λ w, fs_create p (NSymlink target (new_meta 511 w)) (w_fs w)).

(** [chmod], [utimes] and [lchown] *)
Definition sys_set_permissions (p : Path) (mode : N) : M (result unit IoKind) :=
  sys_write (λ w, fs_set_meta p (λ m, MkMeta mode (m_mtime m) (m_uid m) (m_gid m)) (w_fs w)).

Definition sys_set_mtime (p : Path) (t : FileTime) : M (result unit IoKind) :=
  sys_write (λ w, fs_set_meta p (λ m, MkMeta (m_mode m) (MkTime t.1 t.2) (m_uid m) (m_gid m)) (w_fs w)).

Definition sys_lchown (p : Path) (uid gid : option N) : M (result unit IoKind) :=
  sys_write (λ w, fs_set_meta p
    (λ m, MkMeta (m_mode m) (m_mtime m) (default (m_uid m) uid) (default (m_gid m) gid)) (w_fs w)).

(** An open file, as the bytes it has left to read. *)
Record Reader : Type := MkReader { rd_rest : string }.

Definition sys_open (p : Path) : M (result Reader IoKind) :=
  sys_read (λ w, map_ok MkReader (fs_read_file p (w_fs w))).

(** [read(&mut buf)] with a buffer of [len] bytes: at least one byte is read
    unless the buffer is empty or the file is at its end. *)
Definition sys_file_read (rd : Reader) (len : N) : M (result (string * Reader) IoKind) :=
  sys_read (λ w,
    let avail := String.length (rd_rest rd) in
    let want := N.to_nat (N.min len (N.of_nat avail)) in
    let n := match w_short w (w_tick w) with Some k => Nat.min want (S k) | None => want end in
    Ok (string_take n (rd_rest rd), MkReader (string_drop n (rd_rest rd)))).

(** [OffsetDateTime::now_utc().unix_timestamp()] *)
Definition now_utc_timestamp : M Z := λ w, (Ret (w_clock w (w_tick w)), tick w).

(** ** The monitor *)

Definition monitor_error (e : Error) : M unit := modify (add_error e).
Definition monitor_count (c : Counter) (n : N) : M unit :=
  modify (with_counters (λ s, Counters.count s c n)).
Definition monitor_set_counter (c : Counter) (n : N) : M unit :=
  modify (with_counters (λ s, Counters.set s c n)).

End world.

Abbreviation M := (ST World).

(** ** Facts *)

Section facts.
Context `{Ext}.

Lemma permute_perm {A : Type} code (l : list A) : permute code l ≡ₚ l.
Proof.
  revert code. induction l as [|x l IH]; intros code; simpl; [done|].
  set (k := default 0 (head code) mod S (length (permute (tl code) l))).
  rewrite <-Permutation_middle, take_drop. by rewrite IH.
Qed.

Lemma elem_of_fs_children p fs n nd : (n, nd) ∈ fs_children p fs ↔ fs !! (p ++ [n]) = Some nd.
Proof.
  unfold fs_children. rewrite list_elem_of_omap. split.
  - intros ([k nd'] & Hk & Heq). apply elem_of_map_to_list in Hk. simpl in Heq.
    unfold child_name in Heq. destruct (last k) as [m|]; [|done].
    destruct (decide (k = p ++ [m])) as [->|]; [|done]. simpl in Heq. by injection Heq as -> ->.
  - intros Hl. exists (p ++ [n], nd). split; [by apply elem_of_map_to_list|].
    unfold child_name. simpl. rewrite last_snoc. by rewrite decide_True.
Qed.

Lemma fs_children_length p (fs : Fs) : length (fs_children p fs) ≤ size fs.
Proof.
  unfold fs_children. etrans; [apply length_omap_le|]. by rewrite length_map_to_list.
Qed.

Lemma fs_children_NoDup p (fs : Fs) : NoDup (fs_children p fs).*1.
Proof.
  unfold fs_children. pose proof (NoDup_fst_map_to_list fs) as Hnd.
  induction (map_to_list fs) as [|[k nd] l IH]; [constructor|].
  simpl in Hnd. apply NoDup_cons in Hnd as [Hk Hnd]. specialize (IH Hnd).
  match goal with |- NoDup (omap ?f (?x :: l)).*1 =>
    change (omap f (x :: l)) with (match f x with Some y => y :: omap f l | None => omap f l end) end.
  simpl. destruct (child_name p k) as [n|] eqn:En; [|done]. simpl. constructor; [|done].
  intros ([n' nd'] & Heq & Hin)%list_elem_of_fmap. simpl in Heq. subst n'.
  apply list_elem_of_omap in Hin as ([k' nd''] & Hin & Hx). simpl in Hx.
  destruct (child_name p k') as [n2|] eqn:En'; simplify_eq/=.
  assert (∀ k n, child_name p k = Some n → k = (p ++ [n])%list) as Hc.
  { intros k0 n0. unfold child_name. destruct (last k0); [|done]. case_decide; [|done]. by intros [= ->]. }
  apply Hc in En, En'. subst. apply Hk. apply list_elem_of_fmap. by eexists; split; [|exact Hin].
Qed.

Lemma delete_all_lookup ps (fs : Fs) p :
  fs_delete_all ps fs !! p = if decide (p ∈ ps) then None else fs !! p.
Proof.
  induction ps as [|q ps IH]; cbn [fs_delete_all foldr]; [done|]. fold (fs_delete_all ps fs).
  destruct (decide (p = q)) as [->|Hne].
  - rewrite lookup_delete_eq. rewrite decide_True; [done|by left].
  - rewrite lookup_delete_ne, IH by done. destruct (decide (p ∈ ps)) as [Hp|Hp].
    + rewrite decide_True; [done|by right].
    + rewrite decide_False; [done|]. by intros [?|?]%elem_of_cons.
Qed.

Lemma elem_of_fs_subtree p (fs : Fs) q : q ∈ fs_subtree p fs ↔ p `prefix_of` q ∧ is_Some (fs !! q).
Proof.
  unfold fs_subtree. rewrite merge_sort_Permutation, list_elem_of_filter, list_elem_of_fmap.
  split; intros [Hp Hq]; (split; [done|]).
  - destruct Hq as ([q' n] & -> & Hq%elem_of_map_to_list). by exists n.
  - destruct Hq as [n Hn]. exists (q, n). split; [done|]. by apply elem_of_map_to_list.
Qed.

Lemma fs_read_file_inv p (fs : Fs) c : fs_read_file p fs = Ok c → ∃ m, fs !! p = Some (NFile c m).
Proof. unfold fs_read_file. destruct (fs !! p) as [[]|]; intros [= <-]. by eexists. Qed.

(** Nothing lies below what is not a directory. *)
Definition fs_wf (fs : Fs) : Prop :=
  ∀ p q, q ≠ [] → is_Some (fs !! (p ++ q)) → fs !! p = None ∨ is_dir_node (fs !! p) = true.

(** A missing path below a directory is not found, unless a file is in the way. *)
Lemma absent_below (fs : Fs) base ns :
  fs_wf fs → is_dir_node (fs !! base) = true →
  (∀ k, k < length ns → fs !! (base ++ take k ns) = None ∨ is_dir_node (fs !! (base ++ take k ns)) = true) →
  absent_kind fs (base ++ ns) = Io_NotFound.
Proof.
  intros Hwf Hd Hns. unfold absent_kind.
  destruct (existsb _ _) eqn:E; [exfalso|done].
  apply existsb_exists in E as (n & Hn%in_seq & Hx). rewrite length_app in Hn.
  assert (fs !! take n (base ++ ns) = None ∨ is_dir_node (fs !! take n (base ++ ns)) = true) as [Hz|Hz].
  { destruct (decide (n < length base)) as [Hlt|Hge].
    - rewrite take_app_le by lia. eapply (Hwf _ (drop n base)).
      + intros He%(f_equal length). rewrite length_drop in He. simpl in He. lia.
      + rewrite take_drop. destruct (fs !! base); [by eexists|done].
    - rewrite take_app_ge by lia. apply Hns. lia. }
  - by rewrite Hz in Hx.
  - destruct (fs !! take n (base ++ ns)) as [[]|]; done.
Qed.

Lemma is_dir_is_Some o : is_dir_node o = true → is_Some o.
Proof. by destruct o. Qed.

Lemma fs_wf_root n : fs_wf {[ [] := n ]}.
Proof. intros p q Hq [m Hm]. apply lookup_singleton_Some in Hm as [Heq _]. destruct p, q; naive_solver. Qed.

(** Making something new in a directory *)
Lemma fs_wf_insert (fs : Fs) p n :
  fs_wf fs → p ≠ [] → is_dir_node (fs !! parent p) = true →
  is_dir_node (Some n) = true ∨ (∀ q, q ≠ [] → fs !! (p ++ q) = None) →
  fs_wf (<[p := n]> fs).
Proof.
  intros Hwf Hp Hd Hn p' q Hq [m Hm].
  destruct (decide (p' = p)) as [->|Hne].
  { rewrite lookup_insert_eq. right. destruct Hn as [Hn|Hn]; [done|].
    rewrite lookup_insert_ne, Hn in Hm; [done|done|].
    intros Heq. rewrite <-(app_nil_r p) in Heq at 1. by apply app_inv_head in Heq. }
  rewrite (lookup_insert_ne fs p p') by done.
  apply lookup_insert_Some in Hm as [[Heq _]|[_ Hm]]; [|by eapply Hwf].
  destruct q as [|x q _] using rev_ind; [done|]. unfold parent in Hd.
  rewrite Heq, app_assoc, removelast_last in Hd. destruct (decide (q = [])) as [->|Hq'].
  - rewrite app_nil_r in Hd. by right.
  - eapply Hwf; [exact Hq'|]. exact (is_dir_is_Some _ Hd).
Qed.

(** Every node but the root is in a directory. *)
Definition fs_closed (fs : Fs) : Prop :=
  ∀ p q, q ≠ [] → is_Some (fs !! (p ++ q)) → is_dir_node (fs !! p) = true.

Lemma fs_closed_wf fs : fs_closed fs → fs_wf fs.
Proof. intros Hc p q Hq Hs. right. by eapply Hc. Qed.

Lemma fs_closed_root n : fs_closed {[ [] := n ]}.
Proof. intros p q Hq [m Hm]. apply lookup_singleton_Some in Hm as [Heq _]. destruct p, q; naive_solver. Qed.

Lemma fs_closed_insert (fs : Fs) p n :
  fs_closed fs → fs !! p = None → p ≠ [] → is_dir_node (fs !! parent p) = true → fs_closed (<[p := n]> fs).
Proof.
  intros Hc Hn Hp Hd p' q Hq [m Hm]. apply lookup_insert_Some in Hm as [[Heq _]|[_ Hm]].
  - destruct q as [|x q _] using rev_ind; [done|]. unfold parent in Hd.
    rewrite Heq, app_assoc, removelast_last in Hd.
    assert (is_dir_node (fs !! p') = true) as Hd'.
    { destruct (decide (q = [])) as [->|Hq']; [by rewrite app_nil_r in Hd|].
      eapply Hc; [exact Hq'|]. exact (is_dir_is_Some _ Hd). }
    rewrite lookup_insert_ne; [done|]. intros <-. by rewrite Hn in Hd'.
  - assert (is_dir_node (fs !! p') = true) as Hd' by (by eapply Hc).
    rewrite lookup_insert_ne; [done|]. intros <-. by rewrite Hn in Hd'.
Qed.

(** No failure and no death is scheduled. *)
Definition fault_free (w : World) : Prop := ∀ t, w_faults w t = NoFault.

Lemma fault_free_tick w : fault_free w → fault_free (tick w).
Proof. done. Qed.
Lemma fault_free_with_fs f w : fault_free w → fault_free (with_fs f w).
Proof. done. Qed.

Lemma syscall_run {A : Type} (op : World → result (A * Fs) IoKind) partial w :
  w_faults w (w_tick w) = NoFault →
  syscall op partial w =
    match op w with
    | Ok (a, fs') => (Ret (Ok a), tick (with_fs (λ _, fs') w))
    | Err k => (Ret (Err k), tick w)
    end.
Proof. intros Hf. unfold syscall. by rewrite Hf. Qed.

(** What stays the same while the program runs without failures: everything but
    the file system, the tick, the counters and the console. The monitor is told of no
    errors. *)
Record frame (w w' : World) : Prop := {
  frame_faults : w_faults w' = w_faults w;
  frame_short : w_short w' = w_short w;
  frame_order : w_order w' = w_order w;
  frame_clock : w_clock w' = w_clock w;
  frame_blockdirs : w_blockdirs w' = w_blockdirs w;
  frame_next : w_next_blockdir w' = w_next_blockdir w;
  frame_errors : w_errors w' = w_errors w
}.

#[export] Instance frame_preorder : PreOrder frame.
Proof.
  split; [by intros w|]. intros w1 w2 w3 [] []. split; congruence.
Qed.

(** A run that has read, and at most counted *)
Definition quiet : relation World := λ w w', w_fs w' = w_fs w ∧ frame w w'.

#[export] Instance quiet_preorder : PreOrder quiet.
Proof.
  split; [by intros w|]. intros w1 w2 w3 [Hf Hr] [Hf' Hr']. split; [congruence|by etrans].
Qed.

Lemma fault_free_frame w w' : frame w w' → fault_free w → fault_free w'.
Proof. intros [Hf _ _ _ _ _ _] H1 t. by rewrite Hf. Qed.

Lemma frame_tick w : frame w (tick w).
Proof. done. Qed.
Lemma frame_with_fs f w : frame w (with_fs f w).
Proof. done. Qed.

Lemma quiet_tick w : quiet w (tick w).
Proof. done. Qed.
Lemma quiet_count c n w : quiet w (with_counters (λ s, Counters.count s c n) w).
Proof. done. Qed.
Lemma quiet_free w w' : quiet w w' → fault_free w → fault_free w'.
Proof. intros [_ Hf]. by apply fault_free_frame. Qed.

Lemma with_fs_id w : with_fs (λ fs, fs) w = w.
Proof. by destruct w. Qed.

Lemma with_fs_same w : with_fs (λ _, w_fs w) w = w.
Proof. by destruct w. Qed.

Lemma sys_read_run {A : Type} (op : World → result A IoKind) w :
  fault_free w → sys_read op w = (Ret (op w), tick w).
Proof.
  intros Hf. unfold sys_read. rewrite syscall_run by apply Hf.
  destruct (op w); simpl; [|done]. by rewrite with_fs_same.
Qed.

Lemma sys_write_run (op : World → result Fs IoKind) w :
  fault_free w →
  sys_write op w = match op w with
                   | Ok fs' => (Ret (Ok tt), tick (with_fs (λ _, fs') w))
                   | Err k => (Ret (Err k), tick w)
                   end.
Proof.
  intros Hf. unfold sys_write. rewrite syscall_run by apply Hf. by destruct (op w).
Qed.

(** Relations on worlds that follow from a relation on file systems. *)
Definition fs_rel (R : relation Fs) : relation World := λ w w', R (w_fs w) (w_fs w').

#[export] Instance fs_rel_preorder R : PreOrder R → PreOrder (fs_rel R).
Proof.
  intros [Hr Ht]. split.
  - intros w. apply Hr.
  - intros w1 w2 w3. apply Ht.
Qed.

Lemma syscall_respects {A : Type} (R : relation Fs) (op : World → result (A * Fs) IoKind) partial :
  Reflexive R →
  (∀ w a fs', op w = Ok (a, fs') → R (w_fs w) fs') →
  (∀ n fs, R fs (partial n fs)) →
  respects (fs_rel R) (syscall op partial).
Proof.
  intros Hr Hop Hp w. unfold syscall, fs_rel.
  destruct (w_faults w (w_tick w)); simpl; [|apply Hp|apply Hp].
  destruct (op w) as [[a fs']|] eqn:E; simpl; [by eapply Hop|reflexivity].
Qed.

(** Relations that do not look at the file system, the tick or the counters; and those
    that do not look at the errors that the monitor was told of either. *)
Class Mute (R : relation World) : Prop := {
  mute_preorder :: PreOrder R;
  blind_tick : ∀ w, R w (tick w);
  blind_fs : ∀ w f, R w (tick (with_fs f w));
  blind_counters : ∀ w f, R w (with_counters f w)
}.

Class Blind (R : relation World) : Prop := {
  blind_mute :: Mute R;
  blind_error : ∀ w e, R w (add_error e w)
}.

Lemma syscall_blind {A : Type} R `{!Mute R} (op : World → result (A * Fs) IoKind) partial :
  respects R (syscall op partial).
Proof.
  intros w. unfold syscall.
  destruct (w_faults w (w_tick w)); [destruct (op w) as [[a fs']|]|..]; simpl;
    solve [apply blind_fs|apply blind_tick].
Qed.

Lemma syscall_terminates {A : Type} (op : World → result (A * Fs) IoKind) partial :
  terminates (syscall op partial).
Proof.
  intros w. unfold syscall.
  destruct (w_faults w (w_tick w)); [destruct (op w) as [[a fs']|]|..]; done.
Qed.

Lemma monitor_count_blind R `{!Mute R} c n : respects R (monitor_count c n).
Proof. intros w. apply blind_counters. Qed.
Lemma monitor_error_blind R `{!Blind R} e : respects R (monitor_error e).
Proof. intros w. apply blind_error. Qed.
Lemma now_blind R `{!Mute R} : respects R now_utc_timestamp.
Proof. intros w. apply blind_tick. Qed.

Lemma sys_read_respects {A : Type} (R : relation Fs) (op : World → result A IoKind) :
  Reflexive R → respects (fs_rel R) (sys_read op).
Proof.
  intros Hr. apply syscall_respects; [done| |reflexivity].
  intros w a fs'. unfold map_ok. destruct (op w); [|done]. by intros [= <- <-].
Qed.

Lemma sys_write_respects (R : relation Fs) (op : World → result Fs IoKind) :
  Reflexive R → (∀ w fs', op w = Ok fs' → R (w_fs w) fs') → respects (fs_rel R) (sys_write op).
Proof.
  intros Hr Hop. apply syscall_respects; [done| |reflexivity].
  intros w [] fs'. unfold map_ok. destruct (op w) eqn:E; [|done]. intros [= <-]. by apply Hop.
Qed.

Lemma now_respects (R : relation Fs) : Reflexive R → respects (fs_rel R) now_utc_timestamp.
Proof. intros Hr w. unfold fs_rel. simpl. reflexivity. Qed.
Lemma monitor_error_respects (R : relation Fs) e : Reflexive R → respects (fs_rel R) (monitor_error e).
Proof. intros Hr w. unfold fs_rel. simpl. reflexivity. Qed.
Lemma monitor_count_respects (R : relation Fs) c n : Reflexive R → respects (fs_rel R) (monitor_count c n).
Proof. intros Hr w. unfold fs_rel. simpl. reflexivity. Qed.
Lemma monitor_set_counter_respects (R : relation Fs) c n :
  Reflexive R → respects (fs_rel R) (monitor_set_counter c n).
Proof. intros Hr w. unfold fs_rel. simpl. reflexivity. Qed.
Lemma with_blockdir_respects (R : relation Fs) h f :
  Reflexive R → respects (fs_rel R) (modify (with_blockdir h f)).
Proof. intros Hr w. unfold fs_rel. simpl. reflexivity. Qed.
Lemma alloc_blockdir_respects (R : relation Fs) s :
  Reflexive R → respects (fs_rel R) (modify (alloc_blockdir s)).
Proof. intros Hr w. unfold fs_rel. simpl. reflexivity. Qed.

End facts.

#[export] Hint Resolve sys_read_respects now_respects monitor_error_respects monitor_count_respects
  monitor_set_counter_respects with_blockdir_respects alloc_blockdir_respects : respects.
#[export] Hint Extern 1 (Reflexive _) => typeclasses eauto : respects.
Create HintDb frame.
#[export] Hint Resolve fault_free_tick fault_free_with_fs frame_tick frame_with_fs : frame.
#[export] Hint Extern 1 (terminates (sys_read _)) => apply syscall_terminates : terminates.
#[export] Hint Extern 1 (terminates (sys_write _)) => apply syscall_terminates : terminates.
#[export] Hint Extern 1 (terminates (syscall _ _)) => apply syscall_terminates : terminates.
#[export] Hint Extern 1 (terminates (monitor_error _)) => apply terminates_modify : terminates.
#[export] Hint Extern 1 (terminates (monitor_count _ _)) => apply terminates_modify : terminates.
#[export] Hint Extern 1 (terminates (monitor_set_counter _ _)) => apply terminates_modify : terminates.
#[export] Hint Extern 1 (terminates now_utc_timestamp) => done : terminates.
