(* ===== verification/Console.v ===== *)
(** * Standard output and buffered writers

    What the command line prints, and the [BufWriter]s of the standard library that it
    writes files with: bytes are kept until the buffer of [buf_capacity] bytes is full,
    and what is left is written when the writer is dropped, where failures are ignored.
    Standard output takes everything that is printed to it. *)

From S2P Require Import Prelude Text Externals Ids Counters Errors World.
From stdpp Require Import list gmap strings.

(** ** Definitions *)

Section console.
Context `{Ext}.

(** [print!] and [println!] *)
Definition print (s : string) : M unit :=
  modify (with_console (λ c, MkConsole (con_stdout c +:+ s) (con_writers c) (con_next c))).

Definition println (s : string) : M unit := print (s +:+ LF).

(** [BufWriter::new], on a file that has just been opened and truncated *)
Definition set_writer (id : nat) (b : BufWriter) (c : Console) : Console :=
  MkConsole (con_stdout c) (λ i, if decide (i = id) then b else con_writers c i) (con_next c).

Definition new_writer (path : Path) : M nat :=
  id ← gets (λ w, con_next (w_console w));
  _ ← modify (with_console (λ c, set_writer id (MkBufWriter path "")
                 (MkConsole (con_stdout c) (con_writers c) (S (con_next c)))));
  mret id.

Definition set_buffer (id : nat) (s : string) : M unit :=
  modify (with_console (λ c, set_writer id (MkBufWriter (bf_path (con_writers c id)) s) c)).

Definition buf_capacity : nat := N.to_nat 8192.

(** How much of [s] the next write takes *)
Definition taken (s : string) (w : World) : nat :=
  match w_faults w (w_tick w) with
  | NoFault => String.length s
  | FailIo _ n | Die n => Nat.min n (String.length s)
  end.

(** [flush_buf()]: what has not been taken stays in the buffer. *)
Definition flush_buf (id : nat) : M (result unit IoKind) :=
  b ← gets (λ w, con_writers (w_console w) id);
  match bf_buf b with
  | EmptyString => mret (Ok tt)
  | s =>
      n ← gets (taken s);
      r ← sys_write_all (bf_path b) s;
      _ ← set_buffer id (string_drop n s);
      mret r
  end.

(** [write_all(s)] *)
Definition buf_write_all (id : nat) (s : string) : M (result unit IoKind) :=
  b ← gets (λ w, con_writers (w_console w) id);
  let spare := buf_capacity - String.length (bf_buf b) in
  if String.length s <? spare then _ ← set_buffer id (bf_buf b +:+ s); mret (Ok tt)
  else
    _ ←? (if spare <? String.length s then flush_buf id else mret (Ok tt));
    b ← gets (λ w, con_writers (w_console w) id);
    if buf_capacity <=? String.length s then sys_write_all (bf_path b) s
    else _ ← set_buffer id (bf_buf b +:+ s); mret (Ok tt).

(** [writeln!(w, "{}", s)]: the text and the end of the line are written separately. *)
Definition buf_writeln (id : nat) (s : string) : M (result unit IoKind) :=
  _ ←? buf_write_all id s;
  buf_write_all id LF.

(** [Drop for BufWriter] *)
Definition drop_writer (id : nat) : M unit := _ ← flush_buf id; mret tt.

(** A new [TermUiMonitor]: nothing has been counted or reported. *)
Definition new_monitor : M unit :=
  modify (λ w, MkWorld _ (w_fs w) (w_tick w) (w_faults w) (w_short w) (w_order w) (w_clock w)
    [] Counters.new (w_blockdirs w) (w_next_blockdir w) (w_console w)).

(** [error_count()] *)
Definition error_count : M N := gets (λ w, N.of_nat (length (w_errors w)) mod u64_modulus)%N.

End console.
