(* ===== verification/Transport.v ===== *)
(** * Transports

    The access to an archive: the dispatching object (src/transport.rs) and the
    local file system protocol (src/transport/local.rs). A transport is modelled
    by the directory it addresses; its URL only serves messages. *)

From Stdlib Require Import Ascii.
From S2P Require Import Prelude Text Apath Externals Ids Counters Errors World.
From stdpp Require Import list gmap strings.

(** [transport::WriteMode] *)
Inductive WriteMode : Type := Overwrite | CreateNew.

#[export] Instance WriteMode_eq_dec : EqDecision WriteMode.
Proof. solve_decision. Defined.

(** [transport::Metadata] and [transport::ListDir] *)
Record Metadata : Type := MkMetadata { md_len : N; md_kind : Kind; md_modified : OffsetDateTime }.
Record ListDir : Type := MkListDir { ld_files : list string; ld_dirs : list string }.

(** A transport that addresses a local directory. *)
Record Transport : Type := MkTransport { tr_path : Path }.

#[export] Instance Transport_eq_dec : EqDecision Transport.
Proof. solve_decision. Defined.

(** The trait [Protocol]: the operations a protocol provides. *)
Class Protocol `{Ext} (P : Type) : Type := {
  p_read_file : P → string → M (result string TransportError);
  p_write_file : P → string → string → WriteMode → M (result unit TransportError);
  p_list_dir : P → string → M (result ListDir TransportError);
  p_create_dir : P → string → M (result unit TransportError);
  p_metadata : P → string → M (result Metadata TransportError);
  p_remove_file : P → string → M (result unit TransportError);
  p_remove_dir_all : P → string → M (result unit TransportError);
  p_chdir : P → string → P
}.

Module Local.
Section local.
Context `{Ext} `{BuildCfg}.

(** [full_path(relpath)] *)
Definition full_path (self : Transport) (relpath : string) : M Path :=
  _ ← debug_assert (negb (contains_str "/../" relpath));
  mret (path_join (tr_path self) relpath).

(** [try_block]: open, ask for the length, read to the end. *)
Definition try_block (path : Path) : M (result string IoKind) :=
  file ←? sys_open path;
  _ ←? sys_read (λ w, fs_stat path (w_fs w));
  sys_read (λ _, Ok (rd_rest file)).

Definition read_file (self : Transport) (relpath : string) : M (result string TransportError) :=
  path ← full_path self relpath;
  r ← try_block path;
  mret (map_err (io_error path) r).

(** [write_file]: a failure to write removes the file again. *)
Definition write_file (self : Transport) (relpath : string) (content : string) (mode : WriteMode) :
    M (result unit TransportError) :=
  path ← full_path self relpath;
  r ← match mode with CreateNew => sys_open_new path | Overwrite => sys_open_truncate path end;
  match r with
  | Err err => mret (Err (io_error path err))
  | Ok _ =>
      r ← sys_write_all path content;
      match r with
      | Err err => _ ← sys_remove_file path; mret (Err (io_error path err))
      | Ok _ => mret (Ok tt)
      end
  end.

(** The loop of [list_dir]: other kinds of entries and names that are not UTF-8
    are passed over. *)
Fixpoint classify (entries : list (string * Node)) (names : ListDir) : ListDir :=
  match entries with
  | [] => names
  | (name, node) :: entries =>
      classify entries
        (if utf8_valid name then
           match node_type node with
           | ft_dir => MkListDir (ld_files names) (ld_dirs names ++ [name])
           | ft_file => MkListDir (ld_files names ++ [name]) (ld_dirs names)
           | _ => names
           end
         else names)
  end.

Definition list_dir (self : Transport) (relpath : string) : M (result ListDir TransportError) :=
  path ← full_path self relpath;
  r ← sys_read_dir path;
  mret (match r with
        | Err err => Err (io_error path err)
        | Ok entries => Ok (classify entries (MkListDir [] []))
        end).

Definition create_dir (self : Transport) (relpath : string) : M (result unit TransportError) :=
  path ← full_path self relpath;
  r ← sys_create_dir path;
  mret (match r with
        | Ok _ => Ok tt
        | Err Io_AlreadyExists => Ok tt
        | Err err => Err (io_error path err)
        end).

Definition node_len (n : Node) : N :=
  match n with NFile c _ => N.of_nat (String.length c) | _ => 0%N end.

Definition metadata (self : Transport) (relpath : string) : M (result Metadata TransportError) :=
  path ← full_path self relpath;
  r ← sys_stat path;
  mret (match r with
        | Err err => Err (io_error path err)
        | Ok node => Ok (MkMetadata (node_len node) (Kind_from (node_type node)) (m_mtime (node_meta node)))
        end).

Definition remove_file (self : Transport) (relpath : string) : M (result unit TransportError) :=
  path ← full_path self relpath;
  r ← sys_remove_file path;
  mret (map_err (io_error path) r).

Definition remove_dir_all (self : Transport) (relpath : string) : M (result unit TransportError) :=
  path ← full_path self relpath;
  r ← sys_remove_dir_all path;
  mret (map_err (io_error path) r).

Definition chdir (self : Transport) (relpath : string) : Transport :=
  MkTransport (path_join (tr_path self) relpath).

End local.
End Local.

#[export] Instance local_protocol `{Ext} `{BuildCfg} : Protocol Transport := {
  p_read_file := Local.read_file;
  p_write_file := Local.write_file;
  p_list_dir := Local.list_dir;
  p_create_dir := Local.create_dir;
  p_metadata := Local.metadata;
  p_remove_file := Local.remove_file;
  p_remove_dir_all := Local.remove_dir_all;
  p_chdir := Local.chdir
}.

(** [Transport]: calls go to the protocol. *)
Module Transport.
Section transport.
Context `{Ext} `{BuildCfg} {P : Type} `{!Protocol P}.

Definition read_file (self : P) (path : string) := p_read_file self path.
Definition list_dir (self : P) (relpath : string) := p_list_dir self relpath.
Definition chdir (self : P) (relpath : string) : P := p_chdir self relpath.
Definition write_file (self : P) (relpath content : string) (mode : WriteMode) :=
  p_write_file self relpath content mode.
Definition create_dir (self : P) (relpath : string) := p_create_dir self relpath.
Definition metadata (self : P) (relpath : string) := p_metadata self relpath.
Definition remove_file (self : P) (relpath : string) := p_remove_file self relpath.
Definition remove_dir_all (self : P) (relpath : string) := p_remove_dir_all self relpath.

(** [is_file(path)]: anything but a missing file is an error. *)
Definition is_file (self : P) (path : string) : M (result bool TransportError) :=
  r ← metadata self path;
  mret (match r with
        | Ok m => Ok (bool_decide (md_kind m = Kind_File))
        | Err err => if is_not_found err then Ok false else Err err
        end).

End transport.
End Transport.

#[global] Arguments Transport.read_file : simpl never.
#[global] Arguments Transport.list_dir : simpl never.
#[global] Arguments Transport.write_file : simpl never.
#[global] Arguments Transport.create_dir : simpl never.
#[global] Arguments Transport.metadata : simpl never.
#[global] Arguments Transport.remove_file : simpl never.
#[global] Arguments Transport.remove_dir_all : simpl never.
#[global] Arguments Transport.is_file : simpl never.

(** ** What no disturbance of the system can do *)

(** Everything that was in the file system at a path in [P] is still there,
    unchanged. *)
Definition preserves (P : Path → Prop) : relation Fs :=
  λ fs fs', ∀ p n, P p → fs !! p = Some n → fs' !! p = Some n.

#[export] Instance preserves_preorder P : PreOrder (preserves P).
Proof. split; [by intros fs p n|]. intros a b c Hab Hbc p n Pp Hp. by apply Hbc, Hab. Qed.

(** Only new paths have appeared. *)
Definition only_adds : relation Fs := preserves (λ _, True).

#[export] Instance only_adds_preorder : PreOrder only_adds := preserves_preorder _.

(** Nothing has changed. *)
Definition same_fs : relation Fs := (=).

(** [same_fs] is contained in every reflexive relation. *)
Lemma respects_same_fs `{Ext} {A : Type} (R : relation Fs) (m : M A) :
  Reflexive R → respects (fs_rel same_fs) m → respects (fs_rel R) m.
Proof. intros Hr Hm w. specialize (Hm w). unfold fs_rel, same_fs in *. by rewrite <-Hm. Qed.

Lemma fs_create_inv p (n : Node) (fs fs' : Fs) :
  fs_create p n fs = Ok fs' → fs !! p = None ∧ is_dir_node (fs !! parent p) = true ∧ fs' = <[p := n]> fs.
Proof.
  unfold fs_create. destruct (fs !! p) eqn:E; [done|].
  destruct (is_dir_node _); [|done]. by intros [= <-].
Qed.

Lemma insert_preserves (P : Path → Prop) p (n : Node) (fs : Fs) :
  fs !! p = None ∨ ¬ P p → preserves P fs (<[p := n]> fs).
Proof.
  intros Hp q m Pq Hq. rewrite lookup_insert_ne; [done|]. intros ->. destruct Hp; [congruence|done].
Qed.

Lemma fs_create_preserves P p (n : Node) (fs fs' : Fs) : fs_create p n fs = Ok fs' → preserves P fs fs'.
Proof. intros (Hn & _ & ->)%fs_create_inv. apply insert_preserves. by left. Qed.

Lemma fs_append_preserves (P : Path → Prop) p s (fs : Fs) : ¬ P p → preserves P fs (fs_append p s fs).
Proof.
  intros Hp. unfold fs_append. destruct (fs !! p) as [[]|]; try reflexivity.
  apply insert_preserves. by right.
Qed.

Lemma delete_preserves (P : Path → Prop) p (fs : Fs) : ¬ P p → preserves P fs (delete p fs).
Proof. intros Hp q m Pq Hq. rewrite lookup_delete_ne; [done|]. by intros ->. Qed.

Lemma fs_remove_file_inv p (fs fs' : Fs) : fs_remove_file p fs = Ok fs' → fs' = delete p fs.
Proof. unfold fs_remove_file. destruct (fs !! p) as [[]|]; try done; by intros [= <-]. Qed.

(** ** Names of files *)

Lemma valid_name_intro s :
  s ≠ "" → contains_char "." s = false → contains_char "/" s = false →
  contains_char "000" s = false → valid_name s = true.
Proof.
  intros Hn Hd Hs H0. apply valid_name_iff. split; [|done]. unfold Apath.valid_part. rewrite H0.
  destruct (String.eqb_spec s ""), (String.eqb_spec s "."), (String.eqb_spec s ".."); by subst.
Qed.

Lemma path_join_names base ns : valid_names ns → path_join base (join_with "/" ns) = (base ++ ns)%list.
Proof. intros Hv. unfold path_join. by rewrite join_not_absolute, valid_names_components. Qed.

Lemma contains_str_split p s : contains_str p s = true → ∃ a b, s = a +:+ p +:+ b.
Proof.
  induction s as [|x s IH]; cbn [contains_str].
  - intros H. destruct p; [by exists "", ""|done].
  - intros [H|H]%orb_true_iff.
    + apply starts_with_spec in H as [t Ht]. by exists "", t.
    + destruct (IH H) as (a & b & ->). by exists (String x a), b.
Qed.

Lemma names_plain ns : valid_names ns → contains_str "/../" (join_with "/" ns) = false.
Proof.
  intros Hv. apply not_true_iff_false. intros (a & b & Heq)%contains_str_split.
  destruct ns as [|n ns]; [by destruct a|].
  pose proof (split_valid_names _ Hv ltac:(done)) as Hs. rewrite Heq in Hs.
  change (a +:+ "/../" +:+ b) with (a +:+ String "/" (".." +:+ String "/" b)) in Hs.
  rewrite !split_on_app in Hs. unfold valid_names in Hv. rewrite <-Hs in Hv.
  apply Forall_app in Hv as [_ Hv]. change (split_on "/" "..") with [".."] in Hv.
  by inversion_clear Hv.
Qed.

Lemma pad_decimal_valid_name w n : valid_name (pad_decimal w n) = true.
Proof.
  apply valid_name_intro; [|by apply pad_decimal_no_char..].
  unfold pad_decimal. intros H. apply (decimal_not_nil n).
  by destruct (zeros _) in H.
Qed.

Lemma bandid_valid_name b : valid_name (BandId.to_string b) = true.
Proof. apply valid_name_intro; [done|unfold BandId.to_string; simpl; by apply pad_decimal_no_char..]. Qed.

Section transport_facts.
Context `{Ext} `{BuildCfg}.

Lemma full_path_respects (R : relation Fs) t s :
  PreOrder R → respects (fs_rel R) (Local.full_path t s).
Proof.
  intros HR. unfold Local.full_path, debug_assert. apply respects_bind; [apply _| |].
  - destruct debug_assertions; [|apply respects_ret; apply _]. apply respects_assert; apply _.
  - intros _. apply respects_ret. apply _.
Qed.

Lemma read_file_respects (R : relation Fs) (t : Transport) s :
  PreOrder R → respects (fs_rel R) (Local.read_file t s).
Proof.
  intros HR. unfold Local.read_file, Local.try_block.
  apply respects_bind; [apply _|by apply full_path_respects|intros p].
  solve_respects.
Qed.

Lemma list_dir_respects (R : relation Fs) (t : Transport) s :
  PreOrder R → respects (fs_rel R) (Local.list_dir t s).
Proof.
  intros HR. unfold Local.list_dir.
  apply respects_bind; [apply _|by apply full_path_respects|intros p].
  solve_respects.
Qed.

Lemma metadata_respects (R : relation Fs) (t : Transport) s :
  PreOrder R → respects (fs_rel R) (Local.metadata t s).
Proof.
  intros HR. unfold Local.metadata.
  apply respects_bind; [apply _|by apply full_path_respects|intros p].
  solve_respects.
Qed.

Lemma is_file_respects (R : relation Fs) (t : Transport) s :
  PreOrder R → respects (fs_rel R) (Transport.is_file t s).
Proof.
  intros HR. unfold Transport.is_file. apply respects_bind; [apply _|by apply metadata_respects|].
  intros r. apply respects_ret. apply _.
Qed.

Lemma create_dir_respects P (t : Transport) s : respects (fs_rel (preserves P)) (Local.create_dir t s).
Proof.
  unfold Local.create_dir.
  apply respects_bind; [apply _|apply full_path_respects; apply _|intros p].
  apply respects_bind; [apply _| |intros r; apply respects_ret; apply _].
  apply sys_write_respects; [apply _|]. intros w fs'. apply fs_create_preserves.
Qed.

Lemma sys_write_all_respects (P : Path → Prop) p s :
  ¬ P p → respects (fs_rel (preserves P)) (sys_write_all p s).
Proof.
  intros Hp. apply syscall_respects; [apply _| |].
  - intros w [] fs' [= <-]. by apply fs_append_preserves.
  - intros n fs. by apply fs_append_preserves.
Qed.

Lemma sys_remove_file_respects (P : Path → Prop) p :
  ¬ P p → respects (fs_rel (preserves P)) (sys_remove_file p).
Proof.
  intros Hp. apply sys_write_respects; [apply _|]. intros w fs' ->%fs_remove_file_inv.
  by apply delete_preserves.
Qed.

Lemma sys_open_new_inv p w :
  (∃ fs', sys_open_new p w = (Ret (Ok tt), tick (with_fs (λ _, fs') w)) ∧ w_fs w !! p = None ∧
     is_dir_node (w_fs w !! parent p) = true ∧ fs' = <[p := NFile "" (new_meta 420 w)]> (w_fs w)) ∨
  (∃ o, sys_open_new p w = (o, tick w) ∧ ∀ u, o ≠ Ret (Ok u)).
Proof.
  unfold sys_open_new, sys_write, syscall.
  assert (∀ w : World, with_fs (λ fs, fs) w = w) as Hid by (by intros []).
  destruct (w_faults w (w_tick w)); [|right; eexists; rewrite Hid; split; [done|naive_solver]..].
  destruct (fs_create _ _ _) as [fs'|k] eqn:E; simpl.
  - left. apply fs_create_inv in E as (Hn & Hd & ->). eauto 10.
  - right. eexists. split; [done|]. naive_solver.
Qed.

Lemma write_tail_respects P p content err :
  ¬ P p →
  respects (fs_rel (preserves P))
    (r ← sys_write_all p content;
     match r with
     | Err e => _ ← sys_remove_file p; mret (Err (io_error err e) : result unit TransportError)
     | Ok _ => mret (Ok tt)
     end).
Proof.
  intros Hp. apply respects_bind; [apply _|by apply sys_write_all_respects|].
  intros [[]|e]; [apply respects_ret; apply _|].
  apply respects_bind; [apply _|by apply sys_remove_file_respects|].
  intros _. apply respects_ret. apply _.
Qed.

(** Writing a new file leaves everything else alone, however it ends. *)
Lemma write_new_respects P (t : Transport) s content :
  respects (fs_rel (preserves P)) (Local.write_file t s content CreateNew).
Proof.
  unfold Local.write_file.
  apply respects_bind; [apply _|apply full_path_respects; apply _|intros p].
  intros w. unfold mbind, ST_bind at 1.
  destruct (sys_open_new_inv p w) as [(fs' & -> & Hn & _ & ->)|(o & -> & Ho)].
  - pose proof (write_tail_respects (λ q, P q ∧ q ≠ p) p content p ltac:(naive_solver)
      (tick (with_fs (λ _, <[p:=NFile "" (new_meta 420 w)]> (w_fs w)) w))) as Ht.
    intros q n Pq Hq. unfold fs_rel in Ht. assert (q ≠ p) by (intros ->; congruence).
    apply (Ht q n); [done|]. simpl. by rewrite lookup_insert_ne.
  - destruct o as [[u|k]| | |]; simpl; [by destruct (Ho u)|by intros q n Pq Hq..].
Qed.
(** Every operation of the protocol respects a relation that does not look at
    the file system. *)
Lemma local_blind R `{!Mute R} (t : Transport) s :
  respects R (Local.full_path t s) ∧ respects R (Local.read_file t s) ∧
  respects R (Local.list_dir t s) ∧ respects R (Local.metadata t s) ∧
  respects R (Local.create_dir t s) ∧ (∀ c m, respects R (Local.write_file t s c m)) ∧
  respects R (Local.remove_file t s) ∧ respects R (Local.remove_dir_all t s).
Proof.
  assert (respects R (Local.full_path t s)) as Hp.
  { unfold Local.full_path, debug_assert. destruct debug_assertions; solve_respects. }
  split; [exact Hp|].
  split_and!; try intros c m;
    unfold Local.read_file, Local.list_dir, Local.metadata, Local.create_dir, Local.write_file,
      Local.remove_file, Local.remove_dir_all, Local.try_block;
    (apply respects_bind; [apply _|exact Hp|intros p]);
    repeat first [apply syscall_blind; apply _|respects_step].
Qed.

Lemma local_terminates (t : Transport) s :
  terminates (Local.read_file t s) ∧ terminates (Local.list_dir t s) ∧ terminates (Local.metadata t s) ∧
  terminates (Local.create_dir t s) ∧ (∀ c m, terminates (Local.write_file t s c m)) ∧
  terminates (Local.remove_file t s) ∧ terminates (Local.remove_dir_all t s).
Proof.
  split_and!; try (lazymatch goal with |- ∀ _ _, terminates _ => intros c m end);
    unfold Local.read_file, Local.list_dir, Local.metadata, Local.create_dir, Local.write_file,
      Local.remove_file, Local.remove_dir_all, Local.try_block, Local.full_path;
    repeat first [apply syscall_terminates|solve [eauto 2 with terminates]|terminates_step].
Qed.

(** ** Runs without failures *)

(** A relative path that the debug assertion of [full_path] accepts. *)
Definition plain (s : string) : Prop := contains_str "/../" s = false.

Lemma full_path_run (t : Transport) s (w : World) :
  plain s → Local.full_path t s w = (Ret (path_join (tr_path t) s), w).
Proof.
  intros Hs. unfold Local.full_path. rewrite Hs. by erewrite bind_run by apply debug_assert_true.
Qed.

Lemma read_file_run (t : Transport) s (w : World) :
  plain s → fault_free w →
  ∃ w', Local.read_file t s w
        = (Ret (map_err (io_error (path_join (tr_path t) s)) (fs_read_file (path_join (tr_path t) s) (w_fs w))), w')
    ∧ w_fs w' = w_fs w ∧ frame w w'.
Proof.
  intros Hs Hf. unfold Local.read_file. rewrite (bind_run _ _ _ _ _ (full_path_run t s w Hs)).
  set (p := path_join (tr_path t) s). unfold Local.try_block, sys_open, try, mbind, ST_bind.
  rewrite sys_read_run by done. destruct (fs_read_file p (w_fs w)) as [c|k] eqn:E; simpl; [|by eexists].
  rewrite sys_read_run by done. simpl. unfold fs_read_file in E. unfold fs_stat.
  destruct (w_fs w !! p) as [[]|]; simplify_eq. simpl.
  rewrite sys_read_run by done. simpl. by eexists.
Qed.

Lemma metadata_run (t : Transport) s (w : World) :
  plain s → fault_free w →
  ∃ w', Local.metadata t s w
        = (Ret (match fs_stat (path_join (tr_path t) s) (w_fs w) with
                | Ok node => Ok (MkMetadata (Local.node_len node) (Kind_from (node_type node))
                                   (m_mtime (node_meta node)))
                | Err err => Err (io_error (path_join (tr_path t) s) err)
                end), w')
    ∧ w_fs w' = w_fs w ∧ frame w w'.
Proof.
  intros Hs Hf. unfold Local.metadata. rewrite (bind_run _ _ _ _ _ (full_path_run t s w Hs)).
  unfold sys_stat, mbind, ST_bind. rewrite sys_read_run by done. simpl.
  destruct (fs_stat _ _); by eexists.
Qed.

Lemma list_dir_run (t : Transport) s (w : World) :
  plain s → fault_free w →
  ∃ w', Local.list_dir t s w
        = (Ret (match fs_read_dir (path_join (tr_path t) s) (w_fs w) with
                | Ok es => Ok (Local.classify (permute (w_order w (w_tick w)) es) (MkListDir [] []))
                | Err err => Err (io_error (path_join (tr_path t) s) err)
                end), w')
    ∧ w_fs w' = w_fs w ∧ frame w w'.
Proof.
  intros Hs Hf. unfold Local.list_dir. rewrite (bind_run _ _ _ _ _ (full_path_run t s w Hs)).
  unfold sys_read_dir, mbind, ST_bind. rewrite sys_read_run by done. simpl.
  destruct (fs_read_dir _ _); by eexists.
Qed.

Lemma create_dir_run (t : Transport) s (w : World) :
  plain s → fault_free w →
  let p := path_join (tr_path t) s in
  ∃ w' fs', Local.create_dir t s w
        = (Ret (match fs_create p (NDir (new_meta 493 w)) (w_fs w) with
                | Ok _ | Err Io_AlreadyExists => Ok tt
                | Err k => Err (io_error p k)
                end), w')
    ∧ w_fs w' = fs' ∧ frame w w' ∧
    fs' = match fs_create p (NDir (new_meta 493 w)) (w_fs w) with Ok fs' => fs' | Err _ => w_fs w end.
Proof.
  intros Hs Hf p. unfold Local.create_dir. rewrite (bind_run _ _ _ _ _ (full_path_run t s w Hs)).
  fold p. unfold sys_create_dir, mbind, ST_bind. rewrite sys_write_run by done.
  destruct (fs_create p _ _) as [fs'|k]; simpl; [by eexists _, _|]. destruct k; by eexists _, _.
Qed.

(** A directory is removed with all that is in it. *)
Lemma remove_dir_all_run (t : Transport) s (w : World) m :
  plain s → fault_free w → w_fs w !! path_join (tr_path t) s = Some (NDir m) →
  ∃ w', Local.remove_dir_all t s w = (Ret (Ok tt), w') ∧ frame w w' ∧
    w_fs w' = fs_delete_all (fs_subtree (path_join (tr_path t) s) (w_fs w)) (w_fs w).
Proof.
  intros Hs Hf Hd. unfold Local.remove_dir_all. rewrite (bind_run _ _ _ _ _ (full_path_run t s w Hs)).
  unfold sys_remove_dir_all, mbind, ST_bind. rewrite syscall_run by apply Hf.
  unfold fs_remove_dir_all. rewrite Hd. by eexists.
Qed.

(** A new file is written whole. *)
Lemma write_new_run (t : Transport) s content (w : World) :
  plain s → fault_free w →
  let p := path_join (tr_path t) s in
  w_fs w !! p = None → is_dir_node (w_fs w !! parent p) = true →
  ∃ w' m, Local.write_file t s content CreateNew w = (Ret (Ok tt), w')
    ∧ w_fs w' = <[p := NFile content m]> (w_fs w) ∧ frame w w'.
Proof.
  intros Hs Hf p Hp Hd. unfold Local.write_file. rewrite (bind_run _ _ _ _ _ (full_path_run t s w Hs)).
  fold p. unfold sys_open_new, sys_write_all, mbind, ST_bind. rewrite sys_write_run by done.
  unfold fs_create. rewrite Hp, Hd. simpl. rewrite syscall_run by apply Hf. simpl.
  eexists _, _. split; [done|]. simpl. split; [|done].
  unfold fs_append. rewrite lookup_insert_eq. by rewrite insert_insert_eq.
Qed.

(** A file that exists is not written. *)
Lemma write_new_exists_run (t : Transport) s content n (w : World) :
  plain s → fault_free w → w_fs w !! path_join (tr_path t) s = Some n →
  Local.write_file t s content CreateNew w
  = (Ret (Err (io_error (path_join (tr_path t) s) Io_AlreadyExists)), tick w).
Proof.
  intros Hs Hf Hp. unfold Local.write_file. rewrite (bind_run _ _ _ _ _ (full_path_run t s w Hs)).
  unfold sys_open_new, mbind, ST_bind. rewrite sys_write_run by done.
  unfold fs_create. by rewrite Hp.
Qed.

Lemma sys_write_all_ok p s (w w' : World) :
  sys_write_all p s w = (Ret (Ok tt), w') → w_fs w' = fs_append p s (w_fs w).
Proof.
  unfold sys_write_all, syscall. destruct (w_faults w (w_tick w)); simpl; [|done..]. by intros [= <-].
Qed.

(** C36: creating a file never changes or removes anything else, whatever fails and
    even if the process dies; when it reports success, the path was unused and
    now holds exactly the content. *)
Theorem write_file_create_new (t : Transport) (s content : string) (w : World) :
  let p := path_join (tr_path t) s in
  let '(o, w') := Local.write_file t s content CreateNew w in
  only_adds (w_fs w) (w_fs w') ∧
  match o with
  | Ret (Ok _) => w_fs w !! p = None ∧ is_dir_node (w_fs w !! parent p) = true ∧
                  ∃ m, w_fs w' = <[p := NFile content m]> (w_fs w)
  | _ => True
  end.
Proof.
  pose proof (write_new_respects (λ _, True) t s content w) as Hr. unfold fs_rel in Hr.
  destruct (Local.write_file t s content CreateNew w) as [o w'] eqn:E. split; [exact Hr|]. clear Hr.
  destruct o as [[u|e]| | |]; try done.
  unfold Local.write_file, mbind, ST_bind in E.
  destruct (Local.full_path t s w) as [[p| | |] w1] eqn:Ep; try done.
  assert (p = path_join (tr_path t) s ∧ w1 = w) as [-> ->].
  { unfold Local.full_path, debug_assert, mbind, ST_bind in Ep.
    destruct debug_assertions; [destruct (negb (contains_str "/../" s))|]; unfold mret, ST_ret in Ep; simpl in Ep; split; congruence. }
  set (p := path_join (tr_path t) s) in *.
  destruct (sys_open_new_inv p w) as [(fs' & Ho & Hn & Hd & ->)|(o & Ho & Hno)]; rewrite Ho in E.
  2: { destruct o as [[v|k]| | |]; simplify_eq. by destruct (Hno v). }
  cbn beta iota in E. split; [done|]. split; [done|].
  destruct (sys_write_all p content _) as [[[u'|k]| | |] w2] eqn:E2; simplify_eq.
  - destruct u'. apply sys_write_all_ok in E2. exists (new_meta 420 w).
    injection E as _ <-. rewrite E2. simpl. unfold fs_append. rewrite lookup_insert_eq.
    by rewrite insert_insert_eq.
  - destruct (sys_remove_file p w2) as [[] ?]; simplify_eq.
Qed.

End transport_facts.

(** The calls through the protocol go to the local one. *)
Section dispatch.
Context `{Ext} `{BuildCfg} (t : Transport) (s : string).
Lemma tr_read_file : Transport.read_file t s = Local.read_file t s.
Proof. done. Qed.
Lemma tr_list_dir : Transport.list_dir t s = Local.list_dir t s.
Proof. done. Qed.
Lemma tr_metadata : Transport.metadata t s = Local.metadata t s.
Proof. done. Qed.
Lemma tr_create_dir : Transport.create_dir t s = Local.create_dir t s.
Proof. done. Qed.
Lemma tr_remove_file : Transport.remove_file t s = Local.remove_file t s.
Proof. done. Qed.
Lemma tr_remove_dir_all : Transport.remove_dir_all t s = Local.remove_dir_all t s.
Proof. done. Qed.
Lemma tr_write_file c m : Transport.write_file t s c m = Local.write_file t s c m.
Proof. done. Qed.
End dispatch.

(** The same for the calls through the protocol *)
Section transport_respects.
Context `{Ext} `{BuildCfg} (t : Transport) (s : string).

Lemma t_read_file_respects (R : relation Fs) `{!PreOrder R} :
  respects (fs_rel R) (Transport.read_file t s).
Proof. by apply read_file_respects. Qed.
Lemma t_list_dir_respects (R : relation Fs) `{!PreOrder R} :
  respects (fs_rel R) (Transport.list_dir t s).
Proof. by apply list_dir_respects. Qed.
Lemma t_metadata_respects (R : relation Fs) `{!PreOrder R} :
  respects (fs_rel R) (Transport.metadata t s).
Proof. by apply metadata_respects. Qed.
Lemma t_create_dir_respects P : respects (fs_rel (preserves P)) (Transport.create_dir t s).
Proof. apply create_dir_respects. Qed.
Lemma t_write_new_respects P c : respects (fs_rel (preserves P)) (Transport.write_file t s c CreateNew).
Proof. apply write_new_respects. Qed.
End transport_respects.

#[export] Hint Resolve t_read_file_respects t_list_dir_respects t_metadata_respects
  t_create_dir_respects t_write_new_respects : respects.
#[export] Hint Extern 1 (PreOrder _) => typeclasses eauto : respects.
#[export] Hint Resolve full_path_respects read_file_respects list_dir_respects metadata_respects
  is_file_respects create_dir_respects write_new_respects : respects.

Section transport_terminates.
Context `{Ext} `{BuildCfg} (t : Transport) (s : string).

Lemma t_read_file_terminates : terminates (Transport.read_file t s).
Proof. apply (local_terminates t s). Qed.
Lemma t_list_dir_terminates : terminates (Transport.list_dir t s).
Proof. apply (local_terminates t s). Qed.
Lemma t_metadata_terminates : terminates (Transport.metadata t s).
Proof. apply (local_terminates t s). Qed.
Lemma t_create_dir_terminates : terminates (Transport.create_dir t s).
Proof. apply (local_terminates t s). Qed.
Lemma t_write_file_terminates c m : terminates (Transport.write_file t s c m).
Proof. apply (local_terminates t s). Qed.
Lemma t_remove_file_terminates : terminates (Transport.remove_file t s).
Proof. apply (local_terminates t s). Qed.
Lemma t_remove_dir_all_terminates : terminates (Transport.remove_dir_all t s).
Proof. apply (local_terminates t s). Qed.
Lemma t_is_file_terminates : terminates (Transport.is_file t s).
Proof. apply terminates_bind; [apply t_metadata_terminates|done]. Qed.
End transport_terminates.

#[export] Hint Resolve t_read_file_terminates t_list_dir_terminates t_metadata_terminates
  t_create_dir_terminates t_write_file_terminates t_remove_file_terminates
  t_remove_dir_all_terminates t_is_file_terminates : terminates.

(** ** What a successful answer says *)

Section answers.
Context `{Ext} `{BuildCfg}.

Lemma full_path_inv (t : Transport) s (w w' : World) p :
  Local.full_path t s w = (Ret p, w') → p = path_join (tr_path t) s ∧ w' = w.
Proof.
  unfold Local.full_path. intros Hr. inv_run Hr. inv_run Hr. split; [done|].
  unfold debug_assert in Hrun. destruct debug_assertions; [|by apply ret_inv in Hrun as [_ ->]].
  apply assert_inv in Hrun as [_ ->]. done.
Qed.

Lemma sys_read_inv {A : Type} (op : World → result A IoKind) w a w' :
  sys_read op w = (Ret (Ok a), w') → op w = Ok a ∧ w_fs w' = w_fs w.
Proof.
  unfold sys_read, syscall. destruct (w_faults w (w_tick w)); [|done..].
  destruct (op w) as [b|]; simpl; [|done]. by intros [= -> <-].
Qed.

(** A listing that succeeds is that of the directory, in some order. *)
Lemma list_dir_inv (t : Transport) s (w : World) l w' :
  Transport.list_dir t s w = (Ret (Ok l), w') →
  ∃ es code, fs_read_dir (path_join (tr_path t) s) (w_fs w) = Ok es ∧
    l = Local.classify (permute code es) (MkListDir [] []) ∧ w_fs w' = w_fs w.
Proof.
  rewrite tr_list_dir. unfold Local.list_dir. intros Hr. inv_run Hr.
  apply full_path_inv in Hrun as [-> ->]. inv_run Hr. destruct a as [es|]; [|by inv_run Hr].
  inv_run Hr. apply sys_read_inv in Hrun as [Hop Hfs].
  destruct (fs_read_dir _ _) as [es'|] eqn:E; [|done]. injection Hop as <-. by eauto 10.
Qed.

(** A positive answer about a file is true; a negative one is too, unless the
    system says that something is not found that is there. *)
Lemma is_file_inv (t : Transport) s (w : World) w' :
  Transport.is_file t s w = (Ret (Ok true), w') →
  (∃ c m, w_fs w !! path_join (tr_path t) s = Some (NFile c m)) ∧ w_fs w' = w_fs w.
Proof.
  unfold Transport.is_file. rewrite tr_metadata. intros Hr. inv_run Hr.
  unfold Local.metadata in Hrun. inv_run Hrun. apply full_path_inv in Hrun0 as [-> ->].
  inv_run Hrun. destruct a0 as [node|e]; inv_run Hrun; [|by destruct (is_not_found _) in Hr; inv_run Hr].
  apply sys_read_inv in Hrun0 as [Hop Hfs]. unfold fs_stat in Hop.
  inv_run Hr. destruct (w_fs w !! path_join (tr_path t) s) as [[]|]; simplify_eq/=. by eauto.
Qed.

Lemma is_file_run (t : Transport) s (w : World) :
  plain s → fault_free w →
  ∃ w', Transport.is_file t s w
        = (Ret (match w_fs w !! path_join (tr_path t) s with
                | Some (NFile _ _) => Ok true
                | Some (NSymlink _ _) => Err (io_error (path_join (tr_path t) s) Io_Other)
                | Some _ => Ok false
                | None => if decide (absent_kind (w_fs w) (path_join (tr_path t) s) = Io_NotFound)
                          then Ok false
                          else Err (io_error (path_join (tr_path t) s) Io_NotADirectory)
                end), w')
    ∧ w_fs w' = w_fs w ∧ frame w w'.
Proof.
  intros Hs Hf. destruct (metadata_run t s w Hs Hf) as (w' & Hr & Hfs & Hfr).
  exists w'. split; [|done]. unfold Transport.is_file. rewrite tr_metadata, (bind_run _ _ _ _ _ Hr).
  unfold fs_stat. destruct (w_fs w !! path_join (tr_path t) s) as [[]|]; try done.
  unfold absent_kind. by destruct (existsb _ _).
Qed.

Lemma t_is_file_respects (R : relation Fs) `{!PreOrder R} (t : Transport) s :
  respects (fs_rel R) (Transport.is_file t s).
Proof. by apply is_file_respects. Qed.

(** A file that was written new *)
Lemma write_new_inv (t : Transport) s c (w w' : World) :
  Transport.write_file t s c CreateNew w = (Ret (Ok tt), w') →
  w_fs w !! path_join (tr_path t) s = None ∧
  ∃ m, w_fs w' = <[path_join (tr_path t) s := NFile c m]> (w_fs w).
Proof.
  rewrite tr_write_file. unfold Local.write_file. intros Hr. inv_run Hr.
  apply full_path_inv in Hrun as [-> ->]. set (p := path_join (tr_path t) s) in *. inv_run Hr.
  destruct (sys_open_new_inv p w) as [(fs' & Ho & Hn & Hd & ->)|(o & Ho & Hno)]; rewrite Ho in Hrun.
  2: { injection Hrun as -> _. destruct a as [u|e]; [by destruct (Hno u)|inv_run Hr]. }
  simplify_eq. inv_run Hr. destruct a as [[]|e].
  - inv_run Hr. apply sys_write_all_ok in Hrun. split; [done|]. exists (new_meta 420 w).
    rewrite Hrun. simpl. unfold fs_append. rewrite lookup_insert_eq. by rewrite insert_insert_eq.
  - inv_run Hr. by inv_run Hr.
Qed.
End answers.

#[export] Hint Resolve t_is_file_respects : respects.

(** Relations that do not look at the file system *)
Section transport_blind.
Context `{Ext} `{BuildCfg} (R : relation World) `{!Mute R} (t : Transport) (s : string).

Lemma read_file_blind : respects R (Transport.read_file t s).
Proof. apply (local_blind R t s). Qed.
Lemma list_dir_blind : respects R (Transport.list_dir t s).
Proof. apply (local_blind R t s). Qed.
Lemma metadata_blind : respects R (Transport.metadata t s).
Proof. apply (local_blind R t s). Qed.
Lemma create_dir_blind : respects R (Transport.create_dir t s).
Proof. apply (local_blind R t s). Qed.
Lemma write_file_blind c m : respects R (Transport.write_file t s c m).
Proof. apply (local_blind R t s). Qed.
Lemma remove_file_blind : respects R (Transport.remove_file t s).
Proof. apply (local_blind R t s). Qed.
Lemma remove_dir_all_blind : respects R (Transport.remove_dir_all t s).
Proof. apply (local_blind R t s). Qed.
Lemma is_file_blind : respects R (Transport.is_file t s).
Proof. apply respects_bind; [apply _|apply metadata_blind|intros r; apply respects_ret; apply _]. Qed.
End transport_blind.

#[export] Hint Resolve read_file_blind list_dir_blind metadata_blind create_dir_blind write_file_blind
  remove_file_blind remove_dir_all_blind is_file_blind
  monitor_count_blind monitor_error_blind now_blind : respects.
#[export] Hint Extern 1 (Mute _) => typeclasses eauto : respects.
#[export] Hint Extern 1 (Blind _) => typeclasses eauto : respects.

(** ** Relations kept by programs that only read an archive *)

(** First without, then with telling the monitor of errors *)
Class Looking `{Ext} `{BuildCfg} (R : relation World) : Prop := {
  reading_preorder :: PreOrder R;
  reading_read_file : ∀ (t : Transport) s, respects R (Transport.read_file t s);
  reading_list_dir : ∀ (t : Transport) s, respects R (Transport.list_dir t s);
  reading_is_file : ∀ (t : Transport) s, respects R (Transport.is_file t s);
  reading_count : ∀ c n, respects R (monitor_count c n)
}.

Class Reading `{Ext} `{BuildCfg} (R : relation World) : Prop := {
  reading_looking :: Looking R;
  reading_error : ∀ e, respects R (monitor_error e)
}.

#[export] Instance fs_rel_reading `{Ext} `{BuildCfg} (R : relation Fs) : PreOrder R → Reading (fs_rel R).
Proof.
  intros HR. split; [split|]; intros; [apply _|apply t_read_file_respects|apply t_list_dir_respects
    |apply t_is_file_respects|apply monitor_count_respects|apply monitor_error_respects]; apply _.
Qed.

#[export] Instance mute_looking `{Ext} `{BuildCfg} (R : relation World) : Mute R → Looking R.
Proof.
  intros HR. split; intros; [apply _|apply read_file_blind|apply list_dir_blind|apply is_file_blind
    |apply monitor_count_blind]; apply _.
Qed.

#[export] Instance blind_reading `{Ext} `{BuildCfg} (R : relation World) : Blind R → Reading R.
Proof.
  intros HR. split; [apply _|]. intros e. apply monitor_error_blind, HR.
Qed.

#[export] Hint Extern 1 (PreOrder _) => typeclasses eauto : reading.
#[export] Hint Extern 1 (Looking _) => typeclasses eauto : reading.
#[export] Hint Extern 1 (Reading _) => typeclasses eauto : reading.
#[export] Hint Resolve reading_read_file reading_list_dir reading_is_file reading_count reading_error : reading.

(** The schedule of failures never changes. *)
Definition same_faults `{Ext} : relation World := λ w w', w_faults w' = w_faults w.

#[export] Instance same_faults_blind `{Ext} : Blind same_faults.
Proof.
  split; [split; [|done..]|done]. split; [by intros w|]. intros a b c Hab Hbc. unfold same_faults in *. congruence.
Qed.

Lemma same_faults_free `{Ext} w w' : same_faults w w' → fault_free w → fault_free w'.
Proof. intros Hs Hf t. by rewrite Hs. Qed.

(** Where a program that only reads ends *)
Lemma reading_ends `{Ext} {A : Type} (m : M A) w o w' :
  respects (fs_rel same_fs) m → respects same_faults m → m w = (o, w') →
  w_fs w' = w_fs w ∧ (fault_free w → fault_free w').
Proof.
  intros Hm Hf Hr. specialize (Hm w). specialize (Hf w). rewrite Hr in Hm, Hf. simpl in *.
  split; [by symmetry|]. by apply same_faults_free.
Qed.
