(* ===== verification/Excludes.v ===== *)
(** * Exclusions (src/excludes.rs)

    Sets of globs that exclude apaths, and the semantics the program adds to
    the glob library: suffix matching and matching of whole subtrees. *)

From Stdlib Require Import Ascii.
From S2P Require Import Prelude Text Apath Externals Ids Counters Errors World.
From stdpp Require Import list gmap strings.

(** ** Lines and white space *)

(** The characters that [str::trim] removes, given by their bytes. *)
Definition is_whitespace (g : string) : bool :=
  match g with
  | String a "" =>
      let n := N_of_ascii a in (((9 <=? n) && (n <=? 13)) || (n =? 32))%N
  | String a (String b "") =>
      ((N_of_ascii a =? 194) && ((N_of_ascii b =? 133) || (N_of_ascii b =? 160)))%N
  | String a (String b (String c "")) =>
      let x := N_of_ascii a in let y := N_of_ascii b in let z := N_of_ascii c in
      (((x =? 225) && (y =? 154) && (z =? 128)) ||
       ((x =? 226) && (y =? 128) && (((128 <=? z) && (z <=? 138)) || (z =? 168) || (z =? 169) || (z =? 175))) ||
       ((x =? 226) && (y =? 129) && (z =? 159)) ||
       ((x =? 227) && (y =? 128) && (z =? 128)))%N
  | _ => false
  end.

Fixpoint drop_whitespace (gs : list string) : list string :=
  match gs with
  | [] => []
  | g :: gs' => if is_whitespace g then drop_whitespace gs' else gs
  end.

Definition concat_strings (gs : list string) : string := foldr String.append "" gs.

(** [s.trim()] *)
Definition trim (s : string) : string :=
  concat_strings (reverse (drop_whitespace (reverse (drop_whitespace (chars s))))).

(** A line without its final carriage return. *)
Fixpoint strip_cr (s : string) : string :=
  match s with
  | EmptyString => ""
  | String "013" EmptyString => ""
  | String a s => String a (strip_cr s)
  end.

(** [s.lines()]: a final line feed does not start another line. *)
Definition lines (s : string) : list string :=
  let ls := split_on "010" s in
  let ls := match last ls with Some "" => removelast ls | _ => ls end in
  strip_cr <$> ls.

(** ** Exclude *)

Section exclude.
Context `{Ext}.

Record Exclude : Type := MkExclude { globset : GlobSet }.

(** The builder is the list of globs added so far. *)
Definition GlobSetBuilder : Type := list Glob.

(** [GlobBuilder::new(p).literal_separator(true).build()] with its error mapped *)
Definition build_glob (pattern : string) : result Glob Error :=
  ok_or ParseGlob (glob_build true pattern).

(** The two globs of a pattern: itself, and everything below it. *)
Definition anchored (pattern : string) : string :=
  if starts_with "/" pattern then pattern else "**/" +:+ pattern.

Definition add_pattern (gsb : GlobSetBuilder) (pattern : string) : result GlobSetBuilder Error :=
  let pattern := anchored pattern in
  match build_glob pattern with
  | Err e => Err e
  | Ok g1 =>
      match build_glob (pattern +:+ "/**") with
      | Err e => Err e
      | Ok g2 => Ok (gsb ++ [g1; g2])%list
      end
  end.

Fixpoint add_patterns (gsb : GlobSetBuilder) (pats : list string) : result GlobSetBuilder Error :=
  match pats with
  | [] => Ok gsb
  | pat :: pats => match add_pattern gsb pat with Ok gsb => add_patterns gsb pats | Err e => Err e end
  end.

(** The patterns in the text of a file: comments and blank lines are dropped. *)
Definition patterns_of_text (text : string) : list string :=
  filter (λ s, starts_with "#" s = false ∧ s ≠ "") (trim <$> lines text).

(** [fs::read_to_string(path)] *)
Definition read_to_string (path : Path) : M (result string IoKind) :=
  file ←? sys_open path;
  s ←? sys_read (λ _, Ok (rd_rest file));
  mret (if utf8_valid s then Ok s else Err Io_InvalidData).

Definition add_patterns_from_file (gsb : GlobSetBuilder) (path : Path) :
    M (result GlobSetBuilder Error) :=
  r ← read_to_string path;
  mret (match r with
        | Err e => Err (IOError e)
        | Ok text => add_patterns gsb (patterns_of_text text)
        end).

End exclude.

Module Exclude.
Section exclude_ops.
Context `{Ext}.

Definition from_patterns_and_files (exclude : list string) (exclude_from : list Path) :
    M (result Exclude Error) :=
  match add_patterns [] exclude with
  | Err e => mret (Err e)
  | Ok gsb =>
      gsb ←? try_fold add_patterns_from_file gsb exclude_from;
      mret (match globset_build gsb with Some gs => Ok (MkExclude gs) | None => Err ParseGlob end)
  end.

Definition from_strings (excludes : list string) : M (result Exclude Error) :=
  from_patterns_and_files excludes [].

Definition nothing : Exclude := MkExclude globset_empty.

(** [matches(apath)]: the argument is converted with [Apath::from(&str)], which
    asserts that it is valid. *)
Definition matches {W} (self : Exclude) (apath : string) : ST W bool :=
  a ← Apath.from apath;
  mret (globset_is_match (globset self) (apath_str a)).

End exclude_ops.
End Exclude.

Section exclude_facts.
Context `{Ext}.

(** ** Facts *)

(** The empty set matches nothing. *)
Class GlobLaws : Prop := {
  globset_empty_match : ∀ s, globset_is_match globset_empty s = false;
  globset_build_empty : globset_build [] = Some globset_empty
}.

Lemma matches_ret_inv {W} (x : Exclude) s (w : W) b w' :
  Exclude.matches x s w = (Ret b, w') →
  Apath.is_valid s = true ∧ w' = w ∧ b = globset_is_match (globset x) s.
Proof.
  unfold Exclude.matches, Apath.from, mbind, ST_bind.
  destruct (Apath.is_valid s) eqn:E; simpl; [|done]. intros [= <- <-]. done.
Qed.

Lemma matches_run {W} (x : Exclude) s (w : W) :
  Apath.is_valid s = true → Exclude.matches x s w = (Ret (globset_is_match (globset x) s), w).
Proof. intros Hv. unfold Exclude.matches, Apath.from, mbind, ST_bind. by rewrite Hv. Qed.

Lemma matches_respects (R : relation World) (x : Exclude) s :
  PreOrder R → respects R (Exclude.matches x s).
Proof. intros HR. unfold Exclude.matches, Apath.from. solve_respects. Qed.

(** Adding patterns gives exactly two globs for each, in order: the pattern,
    anchored at any depth unless it starts with a slash, and the same followed by
    [/**]; one that does not parse fails the whole. *)
Theorem add_patterns_globs (gsb : GlobSetBuilder) (pats : list string) (gs : GlobSetBuilder) :
  add_patterns gsb pats = Ok gs ↔
  ∃ new, gs = (gsb ++ new)%list ∧
    Forall2 (λ p g, glob_build true p = Some g)
      (pats ≫= λ p, [anchored p; anchored p +:+ "/**"]) new.
Proof.
  revert gsb gs. induction pats as [|p pats IH]; intros gsb gs; simpl.
  - split; [intros [= ->]; exists []; by rewrite app_nil_r|].
    intros (new & -> & ->%Forall2_nil_inv_l). by rewrite app_nil_r.
  - unfold add_pattern, build_glob, ok_or. split.
    + destruct (glob_build true (anchored p)) as [g1|] eqn:E1; simpl; [|done].
      destruct (glob_build true (anchored p +:+ "/**")) as [g2|] eqn:E2; simpl; [|done].
      rewrite IH. intros (new & -> & Hn). exists (g1 :: g2 :: new).
      split; [by rewrite <-app_assoc|]. by repeat constructor.
    + intros (new & -> & Hn). inversion_clear Hn as [|? g1 ? ? H1 Hn'].
      inversion_clear Hn' as [|? g2 ? new' H2 Hn]. rewrite H1, H2. apply IH.
      exists new'. split; [by rewrite <-app_assoc|done].
Qed.

End exclude_facts.

#[export] Hint Resolve matches_respects : respects.
#[export] Hint Resolve matches_respects : reading.
