(* ===== verification/Jsonio.v ===== *)
(** * Archive formats

    The JSON structures of the archive (the header of src/archive.rs, the head
    and tail of src/band.rs), JSON files (src/jsonio.rs), the compression of
    src/compress/snappy.rs and the constants of src/lib.rs. *)

From Stdlib Require Import Ascii.
From S2P Require Import Prelude Text Apath Externals Ids Entry Counters Errors World Transport.
From stdpp Require Import list gmap strings.

(** ** Constants *)

Definition VERSION : string := "23.11.0".
Definition ARCHIVE_VERSION : string := "0.6".
Definition BAND_HEAD_FILENAME : string := "BANDHEAD".
Definition BAND_TAIL_FILENAME : string := "BANDTAIL".
Definition HEADER_FILENAME : string := "CONSERVE".
Definition BLOCK_DIR : string := "d".
Definition INDEX_DIR : string := "i".
Definition GC_LOCK : string := "GC_LOCK".

(** ** Structures *)

Record ArchiveHeader : Type := MkArchiveHeader { conserve_archive_version : string }.

Record Head : Type := MkHead {
  start_time : Z;
  head_band_format_version : option string;
  head_format_flags : list string
}.

Record Tail : Type := MkTail { end_time : Z; index_hunk_count : option N }.

#[export] Instance ArchiveHeader_countable_eq : EqDecision ArchiveHeader.
Proof. solve_decision. Defined.
#[export] Instance ArchiveHeader_countable : Countable ArchiveHeader.
Proof. apply (inj_countable' conserve_archive_version MkArchiveHeader). by intros []. Defined.
#[export] Instance Head_eq_dec : EqDecision Head.
Proof. solve_decision. Defined.
#[export] Instance Head_countable : Countable Head.
Proof.
  apply (inj_countable' (λ h, (start_time h, head_band_format_version h, head_format_flags h))
    (λ p, MkHead p.1.1 p.1.2 p.2)). by intros [].
Defined.
#[export] Instance Tail_eq_dec : EqDecision Tail.
Proof. solve_decision. Defined.
#[export] Instance Tail_countable : Countable Tail.
Proof. apply (inj_countable' (λ t, (end_time t, index_hunk_count t)) (λ p, MkTail p.1 p.2)). by intros []. Defined.

(** The derived serializers of what is stored. *)
Class Codecs : Type := {
  serde_header :: Serde ArchiveHeader;
  serde_head :: Serde Head;
  serde_tail :: Serde Tail;
  serde_hunk :: Serde (list IndexEntry)
}.

Class CodecLaws `{Codecs} : Prop := {
  header_laws :: SerdeLaws ArchiveHeader;
  head_laws :: SerdeLaws Head;
  tail_laws :: SerdeLaws Tail;
  hunk_laws :: SerdeLaws (list IndexEntry)
}.

(** The derived serializers do not fail on these structures. *)
Class CodecTotal `{Codecs} : Prop := {
  header_total : ∀ h : ArchiveHeader, is_Some (to_json h);
  head_total : ∀ h : Head, is_Some (to_json h);
  tail_total : ∀ t : Tail, is_Some (to_json t);
  hunk_total : ∀ es : list IndexEntry, is_Some (to_json es)
}.

(** ** Compression *)

Section formats.
Context `{Ext} `{BuildCfg}.

(** [Compressor::compress], [Decompressor::decompress] *)
Definition compress (input : string) : result string Error :=
  ok_or SnapCompressionError (snap_compress input).
Definition decompress (input : string) : result string Error :=
  ok_or SnapCompressionError (snap_decompress input).

(** ** JSON files *)

Definition newline : string := String "010" "".

Definition write_json {T} `{Serde T} (transport : Transport) (relpath : string) (obj : T) :
    M (result unit JsonioError) :=
  match to_json obj with
  | None => mret (Err (JE_Json relpath))
  | Some s =>
      r ← Transport.write_file transport relpath (s +:+ newline) CreateNew;
      mret (map_err JE_Transport r)
  end.

Definition read_json {T} `{Serde T} (transport : Transport) (path : string) :
    M (result (option T) JsonioError) :=
  r ← Transport.read_file transport path;
  mret (match r with
        | Err err => if is_not_found err then Ok None else Err (JE_Transport err)
        | Ok bytes => match from_json bytes with
                      | Some t => Ok (Some t)
                      | None => Err (JE_Json path)
                      end
        end).

(** ** Facts *)

Lemma write_json_respects {T} `{Serde T} P t s (obj : T) :
  respects (fs_rel (preserves P)) (write_json t s obj).
Proof.
  unfold write_json. destruct (to_json obj); [|apply respects_ret; apply _].
  apply respects_bind; [apply _|apply write_new_respects|]. intros r. apply respects_ret. apply _.
Qed.

Lemma read_json_respects {T} `{Serde T} (R : relation Fs) t s :
  PreOrder R → respects (fs_rel R) (read_json (T:=T) t s).
Proof.
  intros HR. unfold read_json. apply respects_bind; [apply _|by apply read_file_respects|].
  intros r. apply respects_ret. apply _.
Qed.

End formats.

#[export] Hint Resolve write_json_respects read_json_respects : respects.
