(* ===== verification/SampleWorld.v ===== *)
(** * Sample worlds

    The rest of the sample instance: serializers of what archives store, and
    worlds for the examples to run in. *)

From Stdlib Require Import Ascii.
From S2P Require Import Prelude Text Apath Externals Sample Ids Entry Counters Errors World Transport.
From S2P Require Import Excludes Jsonio.
From stdpp Require Import list gmap strings.

#[local] Existing Instances sample_ext sample_build.

#[local] Instance sample_glob_laws : GlobLaws.
Proof. by split. Qed.

(** Hunks of plain entries are stored as their paths when those can be read back, others
    in bits. *)
Definition sample_entry (a : string) : IndexEntry :=
  MkIndexEntry (MkApath a) Kind_File 10 (UnixMode.from 420) (MkOwner None None) 0 [] None.

Fixpoint strip_newline (s : string) : string :=
  match s with
  | EmptyString => ""
  | String "010" EmptyString => ""
  | String a s => String a (strip_newline s)
  end.

Definition hunk_decode (s : string) : option (list IndexEntry) :=
  match s with
  | String "#" s => of_bits s ≫= decode
  | _ => Some (sample_entry <$> split_on "," (strip_newline s))
  end.

Definition hunk_encode (es : list IndexEntry) : string :=
  let paths := join_with "," ((λ e, apath_str (ie_apath e)) <$> es) in
  if decide (hunk_decode paths = Some es ∧ hunk_decode (paths +:+ newline) = Some es) then paths
  else String "#" (bits_of (encode es)).

#[local] Instance sample_hunk_serde : Serde (list IndexEntry) := {
  to_json es := Some (hunk_encode es);
  from_json := hunk_decode
}.

#[local] Instance sample_hunk_serde_laws : SerdeLaws (list IndexEntry).
Proof.
  split; simpl; intros es s [= <-]; unfold hunk_encode; case_decide as Hd; try apply Hd; simpl.
  - rewrite <-(string_app_nil_r (bits_of _)), of_bits_of. simpl. apply decode_encode.
  - rewrite of_bits_of. simpl. apply decode_encode.
Qed.

#[local] Instance sample_codecs : Codecs :=
  {| serde_header := sample_serde; serde_head := sample_serde; serde_tail := sample_serde;
     serde_hunk := sample_hunk_serde |}.

#[local] Instance sample_codec_laws : CodecLaws.
Proof. split; [apply sample_serde_laws..|apply sample_hunk_serde_laws]. Qed.

#[local] Instance sample_codec_total : CodecTotal.
Proof. by split; eexists. Qed.

(** ** Worlds *)

Definition sample_meta : Meta := MkMeta 420 (MkTime 0 0) 0 0.

Definition no_blockdir : BlockDirState := MkBlockDirState _ (MkBlockDirStats 0 0 0 0) [] [].

Definition new_console : Console := MkConsole "" (λ _, MkBufWriter [] "") 0.

(** A world in which nothing fails, with a given file system. *)
Definition world_of (fs : Fs) : World :=
  MkWorld _ fs 0 (λ _, NoFault) (λ _, None) (λ _, []) (λ _, 100%Z) [] Counters.new
    (λ _, no_blockdir) 0 new_console.

(** A world in which the system call at one tick fails *)
Definition failing_at (t : nat) (k : IoKind) (fs : Fs) : World :=
  MkWorld _ fs 0 (λ t', if decide (t' = t) then FailIo k 0 else NoFault) (λ _, None) (λ _, []) (λ _, 100%Z) []
    Counters.new (λ _, no_blockdir) 0 new_console.

(** An empty directory at [/a]. *)
Definition empty_archive_fs : Fs := <[ ["a"] := NDir sample_meta ]> {[ [] := NDir sample_meta ]}.

Lemma empty_archive_fs_wf : fs_wf empty_archive_fs.
Proof. apply fs_wf_insert; [apply fs_wf_root|done|reflexivity|by left]. Qed.

Definition sample_transport : Transport := MkTransport ["a"].
