(* ===== verification/BlockDir.v ===== *)
(** * Block directories (src/blockdir.rs)

    Content-addressed storage of blocks: storing with deduplication, reading with
    verification, listing, deleting and validating, over a transport and the
    two caches of the open block directory. *)

From Stdlib Require Import Ascii.
From S2P Require Import Prelude Text Apath Externals Sample Ids Entry Counters Errors World Transport.
From S2P Require Import Excludes Jsonio SampleWorld.
From stdpp Require Import list gmap strings.

(** ** Definitions *)

Definition SUBDIR_NAME_CHARS : nat := 3.
Definition BLOCK_CACHE_SIZE : N := 100.
Definition EXISTENCE_CACHE_SIZE : N := 1048576.

(** A reference to an open block directory: its transport, and its shared state
    in the world. *)
Record BlockDir : Type := MkBlockDir { bd_transport : Transport; bd_handle : nat }.

Module BlockDir.
Section blockdir.
Context `{Ext} `{BuildCfg}.

(** [&block_hash[..SUBDIR_NAME_CHARS]] *)
Definition subdir_relpath {W} (block_hash : string) : ST W string :=
  expect (slice_to SUBDIR_NAME_CHARS block_hash).

Definition block_relpath {W} (hash : BlockHash) : ST W string :=
  let hash_hex := BlockHash.to_string hash in
  d ← subdir_relpath hash_hex;
  mret (d +:+ "/" +:+ hash_hex).

Definition open (transport : Transport) : M BlockDir :=
  h ← gets w_next_blockdir;
  _ ← modify (alloc_blockdir (MkBlockDirState _ (MkBlockDirStats 0 0 0 0)
                (lru_new BLOCK_CACHE_SIZE) (lru_new EXISTENCE_CACHE_SIZE)));
  mret (MkBlockDir transport h).

Definition create (transport : Transport) : M (result BlockDir Error) :=
  r ← Transport.create_dir transport "";
  match r with
  | Err e => mret (Err (TransportErr e))
  | Ok _ => bd ← open transport; mret (Ok bd)
  end.

(** The shared state *)
Definition state (self : BlockDir) : M BlockDirState := gets (λ w, w_blockdirs w (bd_handle self)).

Definition update (self : BlockDir) (f : BlockDirState → BlockDirState) : M unit :=
  modify (with_blockdir (bd_handle self) f).

Definition with_stats (f : BlockDirStats → BlockDirStats) (s : BlockDirState) : BlockDirState :=
  MkBlockDirState _ (f (bds_stats s)) (bds_cache s) (bds_exists s).
Definition with_cache (f : Lru BlockHash string → Lru BlockHash string) (s : BlockDirState) :=
  MkBlockDirState _ (bds_stats s) (f (bds_cache s)) (bds_exists s).
Definition with_exists (f : Lru BlockHash unit → Lru BlockHash unit) (s : BlockDirState) :=
  MkBlockDirState _ (bds_stats s) (bds_cache s) (f (bds_exists s)).

Definition count_cache_hit (s : BlockDirStats) : BlockDirStats :=
  MkBlockDirStats (read_blocks s) (read_block_compressed_bytes s) (read_block_uncompressed_bytes s)
    (wrapping_add (cache_hit s) 1).

Definition count_read (compressed uncompressed : N) (s : BlockDirStats) : BlockDirStats :=
  MkBlockDirStats (wrapping_add (read_blocks s) 1)
    (wrapping_add (read_block_compressed_bytes s) compressed)
    (wrapping_add (read_block_uncompressed_bytes s) uncompressed) (cache_hit s).

(** [contains(hash)]: from the caches, or a file of nonzero length. *)
Definition contains (self : BlockDir) (hash : BlockHash) : M (result bool Error) :=
  s ← state self;
  if lru_contains (bds_cache s) hash || lru_contains (bds_exists s) hash then
    _ ← monitor_count BlockExistenceCacheHit 1;
    _ ← update self (with_stats count_cache_hit);
    mret (Ok true)
  else
    _ ← monitor_count BlockExistenceCacheMiss 1;
    relpath ← block_relpath hash;
    r ← Transport.metadata (bd_transport self) relpath;
    match r with
    | Err err => if is_not_found err then mret (Ok false) else mret (Err (TransportErr err))
    | Ok m =>
        if bool_decide (md_kind m = Kind_File) && (0 <? md_len m)%N then
          _ ← update self (with_exists (λ c, lru_put c hash tt)); mret (Ok true)
        else mret (Ok false)
    end.

Definition len (s : string) : N := N.of_nat (String.length s).

(** The part of [store_or_deduplicate] after a block has been found missing. *)
Definition store_new (self : BlockDir) (hash : BlockHash) (block_data : string) (stats : BackupStats) :
    M (result (BlockHash * BackupStats) Error) :=
  match compress block_data with
  | Err e => mret (Err e)
  | Ok compressed =>
      _ ← monitor_count BlockWriteUncompressedBytes (len block_data);
      let hex_hash := BlockHash.to_string hash in
      relpath ← block_relpath hash;
      subdir ← subdir_relpath hex_hash;
      r ← Transport.create_dir (bd_transport self) subdir;
      match r with
      | Err e => mret (Err (TransportErr e))
      | Ok _ =>
          r ← Transport.write_file (bd_transport self) relpath compressed CreateNew;
          match (match r with
                 | Ok _ => None
                 | Err err => if decide (te_kind err = TE_AlreadyExists) then None else Some err
                 end) with
          | Some err => mret (Err (TransportErr err))
          | None =>
              _ ← monitor_count BlockWrites 1;
              _ ← monitor_count BlockWriteCompressedBytes (len compressed);
              _ ← update self (with_cache (λ c, lru_put c hash block_data));
              _ ← update self (with_exists (λ c, lru_push c hash tt));
              mret (Ok (hash, BackupStats.add_compressed_bytes (len compressed)
                                (BackupStats.add_uncompressed_bytes (len block_data)
                                   (BackupStats.add_written_blocks 1 stats))))
          end
      end
  end.

(** [store_or_deduplicate]: on an error the statistics are unchanged. *)
Definition store_or_deduplicate (self : BlockDir) (block_data : string) (stats : BackupStats) :
    M (result (BlockHash * BackupStats) Error) :=
  let hash := BlockHash.hash_bytes block_data in
  present ←? contains self hash;
  if (present : bool) then
    _ ← monitor_count DeduplicatedBlocks 1;
    _ ← monitor_count DeduplicatedBlockBytes (len block_data);
    mret (Ok (hash, BackupStats.add_deduplicated_bytes (len block_data)
                      (BackupStats.add_deduplicated_blocks 1 stats)))
  else store_new self hash block_data stats.

Definition compressed_size (self : BlockDir) (hash : BlockHash) : M (result N Error) :=
  relpath ← block_relpath hash;
  r ← Transport.metadata (bd_transport self) relpath;
  mret (match r with Ok m => Ok (md_len m) | Err e => Err (TransportErr e) end).

(** [get_block_content(hash)] *)
Definition get_block_content (self : BlockDir) (hash : BlockHash) : M (result string Error) :=
  s ← state self;
  let '(hit, cache) := lru_get (bds_cache s) hash in
  _ ← update self (with_cache (λ _, cache));
  match hit with
  | Some hit =>
      _ ← monitor_count BlockContentCacheHit 1;
      _ ← update self (with_stats count_cache_hit);
      mret (Ok hit)
  | None =>
      _ ← monitor_count BlockContentCacheMiss 1;
      relpath ← block_relpath hash;
      r ← Transport.read_file (bd_transport self) relpath;
      match r with
      | Err e => mret (Err (TransportErr e))
      | Ok compressed_bytes =>
          match decompress compressed_bytes with
          | Err e => mret (Err e)
          | Ok decompressed_bytes =>
              let actual_hash := BlockHash.hash_bytes decompressed_bytes in
              if decide (actual_hash = hash) then
                _ ← update self (with_cache (λ c, lru_put c hash decompressed_bytes));
                _ ← update self (with_exists (λ c, lru_put c hash tt));
                _ ← update self (with_stats (count_read (len compressed_bytes) (len decompressed_bytes)));
                _ ← monitor_count BlockReads 1;
                _ ← monitor_count BlockReadCompressedBytes (len compressed_bytes);
                _ ← monitor_count BlockReadUncompressedBytes (len decompressed_bytes);
                mret (Ok decompressed_bytes)
              else mret (Err (BlockCorrupt hash))
          end
      end
  end.

(** [bytes.slice(start..end)]: panics outside the bytes. *)
Definition slice {W} (bytes : string) (start end_ : N) : ST W string :=
  if ((start <=? end_) && (end_ <=? len bytes))%N then
    mret (string_take (N.to_nat (end_ - start)) (string_drop (N.to_nat start) bytes))
  else panic.

Definition read_address (self : BlockDir) (address : Address) : M (result string Error) :=
  bytes ←? get_block_content self (a_hash address);
  end_ ← add_u64 (a_start address) (a_len address);
  if (len bytes <? end_)%N then
    mret (Err (BlockTooShort (a_hash address) (len bytes) (a_len address)))
  else s ← slice bytes (a_start address) end_; mret (Ok s).

Definition delete_block (self : BlockDir) (hash : BlockHash) : M (result unit Error) :=
  _ ← update self (with_cache (λ c, lru_pop c hash));
  _ ← update self (with_exists (λ c, lru_pop c hash));
  relpath ← block_relpath hash;
  r ← Transport.remove_file (bd_transport self) relpath;
  mret (map_err TransportErr r).

(** [subdirs()]: directories with a name of the right length *)
Definition subdirs (self : BlockDir) : M (result (list string) Error) :=
  r ← Transport.list_dir (bd_transport self) "";
  mret (match r with
        | Err e => Err (TransportErr e)
        | Ok l => Ok (filter (λ d, String.length d = SUBDIR_NAME_CHARS) (ld_dirs l))
        end).

(** The names in the file lists that are block hashes *)
Definition parse_names (files : list string) : list BlockHash :=
  omap (λ name, result_ok (BlockHash.from_str name)) files.

(** [blocks()]: a subdirectory that cannot be listed is reported and skipped. *)
Definition blocks (self : BlockDir) : M (result (list BlockHash) Error) :=
  subdirs ←? subdirs self;
  l ← fold_st (λ acc subdir_name,
         r ← Transport.list_dir (bd_transport self) subdir_name;
         match r with
         | Err source => _ ← monitor_error (ListBlocks source); mret acc
         | Ok l => mret (acc ++ parse_names (ld_files l))%list
         end) [] subdirs;
  mret (Ok l).

(** [validate()]: the readable blocks with the length of their content *)
Definition validate (self : BlockDir) : M (result (gmap BlockHash N) Error) :=
  blocks ←? blocks self;
  lens ← fold_st (λ acc hash,
           r ← get_block_content self hash;
           match r with
           | Ok bytes => mret (<[hash := len bytes]> acc)
           | Err err => _ ← monitor_error err; mret acc
           end) ∅ (elements (list_to_set blocks : gset BlockHash));
  mret (Ok lens).

End blockdir.
End BlockDir.

(** ** Where blocks are *)

Section paths.
Context `{Ext, !HashLaws, !HexLaws} `{BuildCfg}.

Definition block_names (hash : BlockHash) : list string :=
  [string_take SUBDIR_NAME_CHARS (BlockHash.to_string hash); BlockHash.to_string hash].

Definition block_path (self : BlockDir) (hash : BlockHash) : Path :=
  (tr_path (bd_transport self) ++ block_names hash)%list.

Definition subdir_path (self : BlockDir) (hash : BlockHash) : Path :=
  (tr_path (bd_transport self) ++ [string_take SUBDIR_NAME_CHARS (BlockHash.to_string hash)])%list.

Lemma all_hex_no_char c s : all_hex s = true → is_hex_digit c = false → contains_char c s = false.
Proof.
  intros Hs Hc. induction s as [|a s IH]; simpl in *; [done|].
  apply andb_true_iff in Hs as [Ha Hs]. rewrite IH by done.
  destruct (Ascii.eqb_spec a c) as [->|]; [congruence|done].
Qed.

Lemma all_hex_take n s : all_hex s = true → all_hex (string_take n s) = true.
Proof.
  revert s. induction n as [|n IH]; intros [|a s]; simpl; try done.
  intros [-> Hs]%andb_true_iff. by rewrite IH.
Qed.

Lemma all_hex_drop n s : all_hex s = true → all_hex (string_drop n s) = true.
Proof.
  revert s. induction n as [|n IH]; intros [|a s]; simpl; try done.
  intros [_ Hs]%andb_true_iff. by apply IH.
Qed.

Lemma all_hex_valid_name s : all_hex s = true → s ≠ "" → valid_name s = true.
Proof. intros Hs Hn. apply valid_name_intro; [done|by apply all_hex_no_char..]. Qed.

Lemma all_hex_no_continuation s : all_hex s = true → starts_with_continuation s = false.
Proof.
  destruct s as [|a s]; simpl; [done|]. intros [Ha _]%andb_true_iff.
  apply ascii_not_continuation. unfold is_hex_digit in Ha. apply N.ltb_lt.
  apply orb_true_iff in Ha as [[_ Ha%N.leb_le]%andb_true_iff|[_ Ha%N.leb_le]%andb_true_iff]; lia.
Qed.

Lemma hash_length h : BlockHash.fits h → String.length (BlockHash.to_string h) = 128.
Proof.
  intros Hh. unfold BlockHash.to_string, BlockHash.fits, BLAKE_HASH_SIZE_BYTES in *.
  rewrite hex_encode_length. lia.
Qed.

Lemma block_names_valid h : BlockHash.fits h → valid_names (block_names h).
Proof.
  intros Hh. pose proof (hash_length h Hh) as Hl. pose proof (hex_encode_digits (bin h)) as Hx.
  repeat constructor; apply all_hex_valid_name; try done; [by apply all_hex_take|..].
  - intros Ht. apply (f_equal String.length) in Ht. rewrite string_length_take, Hl in Ht. done.
  - intros Ht. unfold BlockHash.to_string in *. by rewrite Ht in Hl.
Qed.

Lemma subdir_relpath_run {W} h (w : W) : BlockHash.fits h →
  BlockDir.subdir_relpath (BlockHash.to_string h) w
  = (Ret (string_take SUBDIR_NAME_CHARS (BlockHash.to_string h)), w).
Proof.
  intros Hh. unfold BlockDir.subdir_relpath. apply expect_run. unfold slice_to.
  rewrite hash_length by done. change (128 <? SUBDIR_NAME_CHARS)%nat with false. cbn iota.
  rewrite all_hex_no_continuation, substring_take; [done|]. apply all_hex_drop, hex_encode_digits.
Qed.

Lemma block_relpath_run {W} h (w : W) : BlockHash.fits h →
  BlockDir.block_relpath h w = (Ret (join_with "/" (block_names h)), w).
Proof.
  intros Hh. unfold BlockDir.block_relpath.
  by rewrite (bind_run _ _ _ _ _ (subdir_relpath_run h w Hh)).
Qed.

(** A path below the block directory, given by valid names *)
Lemma bd_join (self : BlockDir) ns :
  valid_names ns → path_join (tr_path (bd_transport self)) (join_with "/" ns)
                   = (tr_path (bd_transport self) ++ ns)%list.
Proof. apply path_join_names. Qed.

(** Different blocks have different files. *)
Lemma block_path_inj self h k :
  BlockHash.fits h → BlockHash.fits k → block_path self h = block_path self k → h = k.
Proof.
  intros Hh Hk. unfold block_path, block_names. intros [= _ Heq]%app_inv_head.
  by apply blockhash_to_string_inj.
Qed.

Lemma parent_snoc (p : Path) n : parent (p ++ [n]) = p.
Proof. unfold parent. by rewrite removelast_last. Qed.

Lemma block_path_parent self h : parent (block_path self h) = subdir_path self h.
Proof.
  unfold block_path, block_names, subdir_path.
  change (?p ++ [?a; ?b])%list with (p ++ ([a] ++ [b]))%list. rewrite app_assoc. apply parent_snoc.
Qed.

Lemma subdir_path_parent self h : parent (subdir_path self h) = tr_path (bd_transport self).
Proof. apply parent_snoc. Qed.

Lemma subdir_path_ne_block self h k : subdir_path self h ≠ block_path self k.
Proof. unfold subdir_path, block_path, block_names. by intros [=]%app_inv_head. Qed.

End paths.

(** ** What the operations leave alone *)

Section respects.
Context `{Ext} `{BuildCfg}.

Lemma block_relpath_respects (R : relation World) `{!PreOrder R} h :
  respects R (BlockDir.block_relpath h).
Proof. unfold BlockDir.block_relpath, BlockDir.subdir_relpath. solve_respects. Qed.

Lemma subdir_relpath_respects (R : relation World) `{!PreOrder R} s :
  respects R (BlockDir.subdir_relpath s).
Proof. unfold BlockDir.subdir_relpath. solve_respects. Qed.

Hint Resolve block_relpath_respects subdir_relpath_respects : respects.

Section reading.
Context (R : relation Fs) `{!PreOrder R}.

Lemma update_respects self f : respects (fs_rel R) (BlockDir.update self f).
Proof. unfold BlockDir.update. apply with_blockdir_respects. apply _. Qed.

Lemma state_respects self : respects (fs_rel R) (BlockDir.state self).
Proof. unfold BlockDir.state. apply respects_gets. apply _. Qed.

Hint Resolve update_respects state_respects : respects.

Lemma contains_respects self h : respects (fs_rel R) (BlockDir.contains self h).
Proof. unfold BlockDir.contains. solve_respects. Qed.

Lemma get_block_content_respects self h : respects (fs_rel R) (BlockDir.get_block_content self h).
Proof. unfold BlockDir.get_block_content. solve_respects. Qed.

Lemma slice_respects b s e : respects (fs_rel R) (BlockDir.slice b s e).
Proof. unfold BlockDir.slice. solve_respects. Qed.

Hint Resolve contains_respects get_block_content_respects slice_respects : respects.

Lemma read_address_respects self a : respects (fs_rel R) (BlockDir.read_address self a).
Proof. unfold BlockDir.read_address. solve_respects. Qed.

Lemma compressed_size_respects self h : respects (fs_rel R) (BlockDir.compressed_size self h).
Proof. unfold BlockDir.compressed_size. solve_respects. Qed.

Lemma blocks_respects self : respects (fs_rel R) (BlockDir.blocks self).
Proof.
  unfold BlockDir.blocks, BlockDir.subdirs. solve_respects.
Qed.

Hint Resolve blocks_respects : respects.

Lemma bd_validate_respects self : respects (fs_rel R) (BlockDir.validate self).
Proof. unfold BlockDir.validate. solve_respects. Qed.
End reading.

(** Storing only adds files. *)
Lemma store_new_respects P self h data stats :
  respects (fs_rel (preserves P)) (BlockDir.store_new self h data stats).
Proof.
  unfold BlockDir.store_new.
  pose proof update_respects. solve_respects.
Qed.

Lemma store_respects P self data stats :
  respects (fs_rel (preserves P)) (BlockDir.store_or_deduplicate self data stats).
Proof.
  unfold BlockDir.store_or_deduplicate.
  pose proof contains_respects. pose proof store_new_respects. solve_respects.
Qed.

Lemma bd_create_respects P t : respects (fs_rel (preserves P)) (BlockDir.create t).
Proof.
  unfold BlockDir.create, BlockDir.open. solve_respects.
Qed.

Lemma bd_open_respects (R : relation Fs) `{!PreOrder R} t : respects (fs_rel R) (BlockDir.open t).
Proof. unfold BlockDir.open. solve_respects. Qed.

Lemma respects_bind_run {W A B} (R : relation W) (m : ST W A) a (k : A → ST W B) :
  (∀ w, m w = (Ret a, w)) → respects R (k a) → respects R (m ≫= k).
Proof. intros Hm Hk w. rewrite (bind_run _ _ _ _ _ (Hm w)). apply Hk. Qed.

Lemma remove_file_respects (P : Path → Prop) (t : Transport) s :
  ¬ P (path_join (tr_path t) s) → respects (fs_rel (preserves P)) (Local.remove_file t s).
Proof.
  intros HP. unfold Local.remove_file, Local.full_path, debug_assert.
  assert (respects (fs_rel (preserves P))
    (r ← sys_remove_file (path_join (tr_path t) s);
     mret (map_err (io_error (path_join (tr_path t) s)) r))) as Hr.
  { apply respects_bind; [apply _|by apply sys_remove_file_respects|intros r; apply respects_ret; apply _]. }
  intros w. destruct debug_assertions; [destruct (negb (contains_str "/../" s))|]; [|reflexivity|]; apply Hr.
Qed.

(** Deleting a block removes no other file. *)
Lemma delete_block_respects `{!HashLaws, !HexLaws} (P : Path → Prop) self h :
  BlockHash.fits h → ¬ P (block_path self h) →
  respects (fs_rel (preserves P)) (BlockDir.delete_block self h).
Proof.
  intros Hh HP. unfold BlockDir.delete_block.
  apply respects_bind; [apply _|apply update_respects; apply _|intros _].
  apply respects_bind; [apply _|apply update_respects; apply _|intros _].
  eapply respects_bind_run; [intros w; by apply block_relpath_run|].
  apply respects_bind; [apply _| |intros r; apply respects_ret; apply _].
  apply remove_file_respects. by rewrite bd_join by by apply block_names_valid.
Qed.
End respects.

#[export] Hint Resolve block_relpath_respects subdir_relpath_respects update_respects state_respects
  contains_respects get_block_content_respects slice_respects read_address_respects
  compressed_size_respects blocks_respects bd_validate_respects store_new_respects store_respects
  bd_create_respects bd_open_respects : respects.

(** ** The caches *)

Section caches.
Context `{Ext, !LruLaws} `{BuildCfg}.

Definition cached (self : BlockDir) (w : World) (h : BlockHash) : option string :=
  lru_peek (bds_cache (w_blockdirs w (bd_handle self))) h.

Definition known (self : BlockDir) (w : World) (h : BlockHash) : bool :=
  lru_contains (bds_cache (w_blockdirs w (bd_handle self))) h
  || lru_contains (bds_exists (w_blockdirs w (bd_handle self))) h.

(** What the content cache holds under a hash has that hash. *)
Definition cache_ok (self : BlockDir) (w : World) : Prop :=
  ∀ h c, cached self w h = Some c → BlockHash.hash_bytes c = h.

(** The state of block directories is the same. *)
Definition same_blockdirs : relation World := λ w w', w_blockdirs w' = w_blockdirs w.

#[export] Instance cache_ok_blind self : Blind (keeps (cache_ok self)).
Proof. split; [split; [apply _|..]|]; intros; intros Hw; exact Hw. Qed.

#[export] Instance same_blockdirs_blind : Blind same_blockdirs.
Proof.
  split; [split; [|done..]|done]. split; [by intros w|]. intros a b c Hab Hbc. unfold same_blockdirs in *. congruence.
Qed.

Lemma update_cached self f w h :
  cached self (with_blockdir (bd_handle self) f w) h
  = lru_peek (bds_cache (f (w_blockdirs w (bd_handle self)))) h.
Proof. unfold cached. simpl. by rewrite decide_True. Qed.

(** Updates that leave the content cache alone *)
Lemma update_keeps self f :
  (∀ s, bds_cache (f s) = bds_cache s) → respects (keeps (cache_ok self)) (BlockDir.update self f).
Proof.
  intros Hf w Hc h c. simpl. rewrite update_cached, Hf. apply Hc.
Qed.

Lemma update_put_keeps self (f : Lru BlockHash string → Lru BlockHash string) :
  (∀ l h c, lru_peek (f l) h = Some c → BlockHash.hash_bytes c = h ∨ lru_peek l h = Some c) →
  respects (keeps (cache_ok self)) (BlockDir.update self (BlockDir.with_cache f)).
Proof.
  intros Hf w Hc h c. simpl. rewrite update_cached. simpl. intros [?|Hp]%Hf; [done|]. by apply Hc.
Qed.

Lemma put_ok h data l h' c' :
  BlockHash.hash_bytes data = h →
  lru_peek (lru_put l h data) h' = Some c' → BlockHash.hash_bytes c' = h' ∨ lru_peek l h' = Some c'.
Proof. intros Hh. intros [[-> ->]|[_ ?]]%lru_peek_put; auto. Qed.

Lemma block_relpath_keeps (R : relation World) `{!PreOrder R} h : respects R (BlockDir.block_relpath h).
Proof. apply block_relpath_respects. apply _. Qed.

Hint Resolve block_relpath_keeps : respects.
Hint Extern 2 (respects (keeps (cache_ok _)) (BlockDir.update _ _)) => by apply update_keeps : respects.

Lemma contains_keeps self h : respects (keeps (cache_ok self)) (BlockDir.contains self h).
Proof. unfold BlockDir.contains, BlockDir.state. solve_respects. Qed.

Lemma store_new_keeps self data stats :
  respects (keeps (cache_ok self)) (BlockDir.store_new self (BlockHash.hash_bytes data) data stats).
Proof.
  unfold BlockDir.store_new.
  assert (respects (keeps (cache_ok self))
    (BlockDir.update self (BlockDir.with_cache (λ c, lru_put c (BlockHash.hash_bytes data) data)))).
  { apply update_put_keeps. intros l h c. by apply put_ok. }
  solve_respects.
Qed.

(** Taking the state and updating the cache by a lookup *)
Lemma cached_get self w h :
  let s := w_blockdirs w (bd_handle self) in
  let w1 := with_blockdir (bd_handle self) (BlockDir.with_cache (λ _, (lru_get (bds_cache s) h).2)) w in
  ∀ h', cached self w1 h' = cached self w h'.
Proof. intros s w1 h'. unfold w1. rewrite update_cached. simpl. by rewrite lru_peek_get. Qed.

Lemma get_block_content_wp self h w :
  cache_ok self w →
  wp (BlockDir.get_block_content self h)
    (λ r w', cache_ok self w' ∧ match r with Ok c => BlockHash.hash_bytes c = h | Err _ => True end)
    (λ w', cache_ok self w' ∧ True) w.
Proof.
  intros Hc. unfold BlockDir.get_block_content, BlockDir.state. apply wp_bind. unfold wp at 1. simpl.
  pose proof (cached_get self w h) as Hg. cbv zeta in Hg.
  pose proof (lru_get_peek (bds_cache (w_blockdirs w (bd_handle self))) h) as Hp.
  destruct (lru_get _ _) as [hit cache]. simpl in Hg, Hp. apply wp_bind. unfold wp at 1. simpl.
  set (w1 := with_blockdir _ _ w) in *.
  assert (cache_ok self w1) as Hc1 by (intros h' c'; rewrite Hg; apply Hc).
  assert (∀ w', cache_ok self w' → cache_ok self w' ∧ True) by done.
  destruct hit as [hit|].
  { apply (wp_keep_bind (cache_ok self)); [solve_respects|done|done|intros _ w2 Hc2].
    apply (wp_keep_bind (cache_ok self)); [solve_respects|done|done|intros _ w3 Hc3].
    wp_ret. split; [done|]. by apply Hc. }
  apply (wp_keep_bind (cache_ok self)); [solve_respects|done|done|intros _ w2 Hc2].
  apply (wp_keep_bind (cache_ok self)); [solve_respects|done|done|intros rp w3 Hc3].
  apply (wp_keep_bind (cache_ok self)); [solve_respects|done|done|intros r w4 Hc4].
  destruct r as [compressed|]; [|by wp_ret].
  destruct (decompress compressed) as [data|]; [|by wp_ret].
  destruct (decide (BlockHash.hash_bytes data = h)) as [Hh|]; [|by wp_ret].
  apply (wp_keep_bind (cache_ok self)); [|done|done|intros _ w5 Hc5].
  { apply update_put_keeps. intros l h' c'. by apply put_ok. }
  do 5 (apply (wp_keep_bind (cache_ok self)); [solve_respects|done|done|intros _ ? ?]).
  wp_ret. done.
Qed.

(** C24: reading a block verifies it: whatever fails, content that is returned for
    a hash has that hash, provided that this holds of the content cache; that
    invariant is kept, and reading changes no file. *)
Theorem get_block_content_verified (self : BlockDir) (h : BlockHash) (w : World) (Hc : cache_ok self w) :
  let '(o, w') := BlockDir.get_block_content self h w in
  w_fs w' = w_fs w ∧ cache_ok self w' ∧
  match o with Ret (Ok c) => BlockHash.hash_bytes c = h | _ => True end.
Proof.
  pose proof (get_block_content_respects same_fs self h w) as Hfs. unfold fs_rel, same_fs in Hfs.
  pose proof (get_block_content_wp self h w Hc) as Hw. unfold wp in Hw.
  destruct (BlockDir.get_block_content self h w) as [[[c|e]| | |] w'];
    destruct Hw; split_and!; done.
Qed.

End caches.

(** ** Storing and reading without failures *)

Section storing.
Context `{Ext, !LruLaws, !HashLaws, !HexLaws} `{BuildCfg}.

Lemma contains_run self h w :
  BlockHash.fits h → fault_free w → known self w h = false →
  ∃ w', BlockDir.contains self h w
        = (Ret (match fs_stat (block_path self h) (w_fs w) with
                | Ok (NFile c _) => Ok (negb (String.eqb c ""))
                | Ok _ => Ok false
                | Err Io_NotFound => Ok false
                | Err k => Err (TransportErr (io_error (block_path self h) k))
                end), w')
    ∧ w_fs w' = w_fs w ∧ fault_free w'.
Proof.
  intros Hh Hf Hk. unfold BlockDir.contains, BlockDir.state.
  erewrite bind_run by done. unfold known in Hk. cbv beta. rewrite Hk.
  erewrite bind_run by apply modify_run.
  rewrite (bind_run _ _ _ _ _ (block_relpath_run h _ Hh)).
  destruct (metadata_run (bd_transport self) (join_with "/" (block_names h))
    (with_counters (λ s, Counters.count s BlockExistenceCacheMiss 1) w)) as (w1 & Hm & Hfs & Hfr).
  { by apply names_plain, block_names_valid. }
  { done. }
  rewrite bd_join in Hm by by apply block_names_valid.
  change (_ ++ block_names h)%list with (block_path self h) in Hm.
  rewrite tr_metadata. erewrite bind_run by exact Hm.
  assert (fault_free w1) as Hf1 by by eapply fault_free_frame.
  simpl in Hfs |- *. unfold fs_stat. destruct (w_fs w !! block_path self h) as [[c m|m|t m|m]|] eqn:En; simpl.
  - destruct c as [|a c]; simpl; [by eexists|]. erewrite bind_run by apply modify_run.
    eexists. split; [done|]. done.
  - by eexists.
  - by eexists.
  - by eexists.
  - destruct (absent_kind _ _); by eexists.
Qed.

(** The file system after a new block has been written *)
Definition dir_ready (w : World) (self : BlockDir) (h : BlockHash) : Prop :=
  is_dir_node (w_fs w !! tr_path (bd_transport self)) = true ∧
  (w_fs w !! subdir_path self h = None ∨ is_dir_node (w_fs w !! subdir_path self h) = true).

Lemma subdir_join self h :
  BlockHash.fits h →
  path_join (tr_path (bd_transport self)) (string_take SUBDIR_NAME_CHARS (BlockHash.to_string h))
  = subdir_path self h.
Proof.
  intros Hh. pose proof (block_names_valid h Hh) as Hv. unfold block_names in Hv.
  apply Forall_cons in Hv as [Hv _].
  apply (bd_join self [string_take SUBDIR_NAME_CHARS (BlockHash.to_string h)]). by repeat constructor.
Qed.

Lemma subdir_plain h :
  BlockHash.fits h → plain (string_take SUBDIR_NAME_CHARS (BlockHash.to_string h)).
Proof.
  intros Hh. pose proof (block_names_valid h Hh) as Hv. unfold block_names in Hv.
  apply Forall_cons in Hv as [Hv _].
  apply (names_plain [string_take SUBDIR_NAME_CHARS (BlockHash.to_string h)]). by repeat constructor.
Qed.

Lemma not_found self h w :
  fs_wf (w_fs w) → dir_ready w self h → w_fs w !! block_path self h = None →
  fs_stat (block_path self h) (w_fs w) = Err Io_NotFound.
Proof.
  intros Hwf [Hd Hs] Hn. unfold fs_stat. rewrite Hn. f_equal. apply absent_below; [done..|].
  intros [|[|k]] Hk; simpl in *; [|by apply Hs|lia].
  rewrite app_nil_r. by right.
Qed.

(** Making the subdirectory *)
Lemma make_subdir_run self h w :
  BlockHash.fits h → fault_free w → dir_ready w self h →
  ∃ w', Transport.create_dir (bd_transport self) (string_take SUBDIR_NAME_CHARS (BlockHash.to_string h)) w
        = (Ret (Ok tt), w')
    ∧ is_dir_node (w_fs w' !! subdir_path self h) = true ∧ frame w w'
    ∧ only_adds (w_fs w) (w_fs w') ∧ (∀ p, p ≠ subdir_path self h → w_fs w' !! p = w_fs w !! p)
    ∧ (fs_closed (w_fs w) → fs_closed (w_fs w')).
Proof.
  intros Hh Hf [Hd Hs].
  destruct (create_dir_run (bd_transport self) _ w (subdir_plain h Hh) Hf) as (w' & fs' & Hr & Hfs & Hfr & ->).
  rewrite subdir_join in Hr, Hfs by done. rewrite tr_create_dir, Hr.
  exists w'. rewrite Hfs. clear Hr Hfs. unfold fs_create.
  destruct (w_fs w !! subdir_path self h) as [n|] eqn:En.
  - destruct Hs as [|Hs]; [done|]. rewrite En. by split_and!.
  - rewrite subdir_path_parent, Hd. rewrite lookup_insert_eq. split_and!; try done.
    + apply insert_preserves. by left.
    + intros p Hp. by rewrite lookup_insert_ne.
    + intros Hwf. apply fs_closed_insert; [done|done| |by rewrite subdir_path_parent].
      unfold subdir_path. by destruct (tr_path (bd_transport self)).
Qed.

Lemma store_new_run self data stats w c :
  let h := BlockHash.hash_bytes data in
  fault_free w → dir_ready w self h → w_fs w !! block_path self h = None →
  snap_compress data = Some c →
  ∃ w' m, BlockDir.store_new self h data stats w
    = (Ret (Ok (h, BackupStats.add_compressed_bytes (BlockDir.len c)
                     (BackupStats.add_uncompressed_bytes (BlockDir.len data)
                        (BackupStats.add_written_blocks 1 stats)))), w')
    ∧ fault_free w' ∧ w_fs w' !! block_path self h = Some (NFile c m)
    ∧ is_dir_node (w_fs w' !! subdir_path self h) = true
    ∧ (∀ p, p ≠ subdir_path self h → p ≠ block_path self h → w_fs w' !! p = w_fs w !! p)
    ∧ only_adds (w_fs w) (w_fs w') ∧ (fs_closed (w_fs w) → fs_closed (w_fs w')).
Proof.
  intros h Hf Hd Hn Hc. assert (BlockHash.fits h) as Hh by apply hash_bytes_fits.
  unfold BlockDir.store_new, compress. rewrite Hc. cbn [ok_or]. cbv beta iota zeta.
  erewrite bind_run by apply modify_run. set (w0 := with_counters _ w).
  rewrite (bind_run _ _ _ _ _ (block_relpath_run h w0 Hh)).
  rewrite (bind_run _ _ _ _ _ (subdir_relpath_run h w0 Hh)).
  destruct (make_subdir_run self h w0 Hh Hf Hd) as (w1 & Hr & Hsd & Hfr & Hadd & Hsame & Hwf).
  assert (w_fs w1 !! block_path self h = None) as Hn1.
  { rewrite Hsame; [done|]. intros Heq. apply (subdir_path_ne_block self h h). by symmetry. }
  rewrite (bind_run _ _ _ _ _ Hr). cbn iota.
  pose proof (fault_free_frame _ _ Hfr Hf) as Hf1.
  pose proof (bd_join self _ (block_names_valid h Hh)) as Hj.
  destruct (write_new_run (bd_transport self) (join_with "/" (block_names h)) c w1) as (w2 & m & Hw & Hfs2 & Hfr2).
  { by apply names_plain, block_names_valid. }
  { done. }
  { by rewrite Hj. }
  { rewrite Hj. change (_ ++ block_names h)%list with (block_path self h). by rewrite block_path_parent. }
  rewrite tr_write_file. rewrite (bind_run _ _ _ _ _ Hw). cbn iota.
  do 4 erewrite bind_run by apply modify_run.
  eexists _, m. split; [done|]. split; [exact (fault_free_frame _ _ Hfr2 Hf1)|]. simpl.
  rewrite Hfs2, Hj. change (_ ++ block_names h)%list with (block_path self h). clear Hw Hfs2 Hfr2.
  assert (subdir_path self h ≠ block_path self h) as Hne by apply subdir_path_ne_block.
  split; [apply lookup_insert_eq|]. split; [by rewrite lookup_insert_ne by done|].
  split; [intros p Hp Hb; rewrite lookup_insert_ne by done; by apply Hsame|]. split.
  - etrans; [exact Hadd|]. apply insert_preserves. by left.
  - intros Hwf0. apply fs_closed_insert; [by apply Hwf|done| |by rewrite block_path_parent].
    unfold block_path, block_names. by destruct (tr_path _).
Qed.

Lemma get_block_content_disk self h w c m data :
  BlockHash.fits h → fault_free w → cached self w h = None →
  w_fs w !! block_path self h = Some (NFile c m) → snap_decompress c = Some data →
  BlockHash.hash_bytes data = h →
  ∃ w', BlockDir.get_block_content self h w = (Ret (Ok data), w') ∧ fault_free w' ∧ w_fs w' = w_fs w ∧
    ∀ h' c', cached self w' h' = Some c' → (h' = h ∧ c' = data) ∨ cached self w h' = Some c'.
Proof.
  intros Hh Hf Hc Hn Hs Hd. unfold BlockDir.get_block_content, BlockDir.state.
  erewrite bind_run by done. cbv beta.
  pose proof (lru_get_peek (bds_cache (w_blockdirs w (bd_handle self))) h) as Hp.
  pose proof (λ h', lru_peek_get (bds_cache (w_blockdirs w (bd_handle self))) h h') as Hg.
  unfold cached in Hc. rewrite Hc in Hp. destruct (lru_get _ _) as [hit cache]. simpl in Hp, Hg. subst hit.
  erewrite bind_run by apply modify_run. cbn iota. erewrite bind_run by apply modify_run.
  match goal with |- context [ (_ ≫= _) ?x ] => set (w1 := x) end.
  rewrite (bind_run _ _ _ _ _ (block_relpath_run h w1 Hh)).
  destruct (read_file_run (bd_transport self) (join_with "/" (block_names h)) w1) as (w2 & Hr & Hfs & Hfr).
  { by apply names_plain, block_names_valid. }
  { done. }
  rewrite bd_join in Hr by by apply block_names_valid.
  change (_ ++ block_names h)%list with (block_path self h) in Hr.
  rewrite tr_read_file. rewrite (bind_run _ _ _ _ _ Hr).
  unfold fs_read_file. change (w_fs w1) with (w_fs w). rewrite Hn. simpl.
  unfold decompress. rewrite Hs. simpl. rewrite decide_True by done.
  do 6 erewrite bind_run by apply modify_run.
  eexists. split; [done|]. split; [exact (fault_free_frame _ _ Hfr Hf)|]. split; [exact Hfs|].
  intros h' c'. unfold cached. simpl. rewrite !decide_True by done. simpl.
  rewrite (frame_blockdirs _ _ Hfr). simpl. rewrite decide_True by done. simpl. unfold BlockDir.with_cache. simpl.
  intros [[-> ->]|[_ Hp]]%lru_peek_put; [by left|right]. 
  rewrite <-Hp. symmetry. apply Hg.
Qed.

(** C15: what is stored can be read back: storing new content without failures
    succeeds with the hash of the content and counts one written block, and then
    every block directory at the same place that has not cached the block reads
    exactly the content from the disk. *)
Theorem store_then_read `{!SnapLaws} (self : BlockDir) (data c : string) (stats : BackupStats) (w : World)
    (Hf : fault_free w) (Hk : known self w (BlockHash.hash_bytes data) = false)
    (Hwf : fs_wf (w_fs w)) (Hd : dir_ready w self (BlockHash.hash_bytes data))
    (Hn : w_fs w !! block_path self (BlockHash.hash_bytes data) = None)
    (Hc : snap_compress data = Some c) :
  ∃ stats' w',
    BlockDir.store_or_deduplicate self data stats w = (Ret (Ok (BlockHash.hash_bytes data, stats')), w') ∧
    bs_written_blocks stats' = (bs_written_blocks stats + 1)%N ∧
    ∀ self2 w2, bd_transport self2 = bd_transport self → w_fs w2 = w_fs w' → fault_free w2 →
      cached self2 w2 (BlockHash.hash_bytes data) = None →
      ∃ w3, BlockDir.get_block_content self2 (BlockHash.hash_bytes data) w2 = (Ret (Ok data), w3).
Proof.
  set (h := BlockHash.hash_bytes data) in *.
  assert (BlockHash.fits h) as Hh by apply hash_bytes_fits.
  destruct (contains_run self h w Hh Hf Hk) as (w1 & Hr & Hfs & Hf1).
  rewrite (not_found self h w Hwf Hd Hn) in Hr.
  destruct (store_new_run self data stats w1 c Hf1) as (w2 & m & Hs & Hf2 & Hb & _).
  { unfold dir_ready. by rewrite Hfs. }
  { by rewrite Hfs. }
  { done. }
  eexists _, w2. unfold BlockDir.store_or_deduplicate. fold h.
  erewrite try_run by exact Hr. cbn iota. split; [exact Hs|]. split; [by destruct stats|].
  intros self2 w3 Ht Hfs3 Hf3 Hc3.
  destruct (get_block_content_disk self2 h w3 c m data) as (w4 & Hg & _); try done.
  - unfold block_path. rewrite Ht, Hfs3. exact Hb.
  - by apply snap_round_trip.
  - by eexists.
Qed.

(** An uncached block is reported present exactly when its file exists and is
    not empty; a missing file is no error, and asking changes no file. *)
Theorem contains_spec (self : BlockDir) (h : BlockHash) (w : World)
    (Hh : BlockHash.fits h) (Hf : fault_free w) (Hk : known self w h = false) :
  ∃ o w', BlockDir.contains self h w = (Ret o, w') ∧ w_fs w' = w_fs w ∧
    (o = Ok true ↔ ∃ c m, w_fs w !! block_path self h = Some (NFile c m) ∧ c ≠ "") ∧
    (w_fs w !! block_path self h = None → absent_kind (w_fs w) (block_path self h) = Io_NotFound →
     o = Ok false).
Proof.
  destruct (contains_run self h w Hh Hf Hk) as (w' & Hr & Hfs & _).
  eexists _, w'. split; [exact Hr|]. split; [done|]. unfold fs_stat.
  destruct (w_fs w !! block_path self h) as [[c m|m|t m|m]|] eqn:En.
  - split; [|done]. destruct (String.eqb_spec c "") as [->|Hc]; simpl; split; try done; naive_solver.
  - split; [|done]. split; [done|naive_solver].
  - split; [|done]. split; [done|naive_solver].
  - split; [|done]. split; [done|naive_solver].
  - split; [|by intros _ ->]. split; [|naive_solver]. by destruct (absent_kind _ _).
Qed.

End storing.

(** ** Reading addresses *)

Section addresses.
Context `{Ext, !LruLaws} `{BuildCfg}.

Lemma get_block_content_cached self h w c :
  cached self w h = Some c →
  ∃ w', BlockDir.get_block_content self h w = (Ret (Ok c), w') ∧ w_fs w' = w_fs w ∧
    (fault_free w → fault_free w') ∧ ∀ h', cached self w' h' = cached self w h'.
Proof.
  intros Hc. unfold BlockDir.get_block_content, BlockDir.state.
  erewrite bind_run by done. cbv beta.
  pose proof (lru_get_peek (bds_cache (w_blockdirs w (bd_handle self))) h) as Hp.
  pose proof (λ h', lru_peek_get (bds_cache (w_blockdirs w (bd_handle self))) h h') as Hg.
  unfold cached in Hc. rewrite Hc in Hp. destruct (lru_get _ _) as [hit cache]. simpl in Hp, Hg. subst hit.
  erewrite bind_run by apply modify_run. cbn iota.
  do 2 erewrite bind_run by apply modify_run. eexists. split; [done|]. split; [done|]. split; [done|].
  intros h'. unfold cached. simpl. rewrite !decide_True by done. simpl. apply Hg.
Qed.

(** C39: reading an address of a cached block gives exactly its bytes when it lies
    inside the block, and otherwise the error that says how long the block is;
    an end that overflows is caught too: with debug assertions the addition
    panics, and without them the wrapped end either exceeds the block or lies
    before the start, where slicing panics. *)
Theorem read_address_exact (self : BlockDir) (a : Address) (w : World) (c : string)
    (Hc : cached self w (a_hash a) = Some c) (Hl : (BlockDir.len c < u64_modulus)%N)
    (Hs : (a_start a < u64_modulus)%N) (Hn : (a_len a < u64_modulus)%N) :
  let end_ := (a_start a + a_len a)%N in
  ∃ w', w_fs w' = w_fs w ∧
    BlockDir.read_address self a w =
      (if (end_ <=? BlockDir.len c)%N
       then Ret (Ok (string_take (N.to_nat (a_len a)) (string_drop (N.to_nat (a_start a)) c)))
       else if (end_ <? u64_modulus)%N || negb debug_assertions && (BlockDir.len c <? end_ - u64_modulus)%N
       then Ret (Err (BlockTooShort (a_hash a) (BlockDir.len c) (a_len a)))
       else Panic, w').
Proof.
  intros end_. destruct (get_block_content_cached self _ w c Hc) as (w' & Hr & Hfs & _).
  exists w'. split; [done|]. unfold BlockDir.read_address. erewrite try_run by exact Hr.
  unfold add_u64. fold end_. destruct (N.leb_spec end_ (BlockDir.len c)) as [Hle|Hgt].
  - destruct (N.ltb_spec end_ u64_modulus) as [_|]; [|lia].
    erewrite bind_run by done. destruct (N.ltb_spec (BlockDir.len c) end_) as [|_]; [lia|].
    unfold BlockDir.slice. destruct (N.leb_spec (a_start a) end_) as [_|]; [|lia].
    destruct (N.leb_spec end_ (BlockDir.len c)) as [_|]; [|lia]. simpl.
    erewrite bind_run by done. unfold end_. by replace (a_start a + a_len a - a_start a)%N with (a_len a) by lia.
  - destruct (N.ltb_spec end_ u64_modulus) as [Hlt|Hge].
    + erewrite bind_run by done. by destruct (N.ltb_spec (BlockDir.len c) end_); [|lia].
    + destruct debug_assertions; [done|]. erewrite bind_run by done. simpl.
      assert (end_ mod u64_modulus = end_ - u64_modulus)%N as ->.
      { symmetry. apply (N.mod_unique _ _ 1); lia. }
      destruct (_ <? _)%N; [done|]. unfold BlockDir.slice.
      by destruct (N.leb_spec (a_start a) (end_ - u64_modulus)) as [|_]; [lia|].
Qed.

End addresses.

(** ** Intact blocks *)

Section intact.
Context `{Ext, !LruLaws, !HashLaws, !HexLaws} `{BuildCfg}.

(** The file of the block holds the content that the hash says. *)
Definition intact (self : BlockDir) (fs : Fs) (h : BlockHash) (data : string) : Prop :=
  BlockHash.fits h ∧ BlockHash.hash_bytes data = h ∧
  ∃ c m, fs !! block_path self h = Some (NFile c m) ∧ snap_decompress c = Some data ∧ c ≠ "".

(** Nothing fails, and what is cached of intact blocks is what is on the disk. *)
Definition serving (self : BlockDir) (w : World) : Prop :=
  fault_free w ∧ ∀ h c d, cached self w h = Some c → intact self (w_fs w) h d → c = d.

Lemma read_intact self h d w :
  serving self w → intact self (w_fs w) h d →
  ∃ w', BlockDir.get_block_content self h w = (Ret (Ok d), w') ∧ w_fs w' = w_fs w ∧ serving self w'.
Proof.
  intros [Hf Hs] Hi. destruct (cached self w h) as [c|] eqn:Ec.
  - rewrite (Hs h c d Ec Hi) in Ec.
    destruct (get_block_content_cached self h w d Ec) as (w' & Hr & Hfs & Hf' & Hc).
    exists w'. split; [done|]. split; [done|]. split; [by apply Hf'|].
    intros h' c' d'. rewrite Hc, Hfs. apply Hs.
  - pose proof Hi as (Hh & Hd & c & m & Hn & Hc & _).
    destruct (get_block_content_disk self h w c m d Hh Hf Ec Hn Hc Hd) as (w' & Hr & Hf' & Hfs & Hca).
    exists w'. split; [done|]. split; [done|]. split; [done|].
    intros h' c' d' Hc' Hi'. rewrite Hfs in Hi'.
    destruct (Hca _ _ Hc') as [[-> ->]|Hc1]; [|by eapply Hs].
    destruct Hi as (_ & _ & c1 & m1 & Hn1 & Hc1 & _), Hi' as (_ & _ & c2 & m2 & Hn2 & Hc2 & _). congruence.
Qed.

(** The bytes that an address means, and those of a list of addresses, given the
    content of the blocks *)
Definition part (a : Address) (d : string) : string :=
  string_take (N.to_nat (a_len a)) (string_drop (N.to_nat (a_start a)) d).

Fixpoint parts (addrs : list Address) (ds : list string) : string :=
  match addrs, ds with
  | a :: addrs, d :: ds => part a d +:+ parts addrs ds
  | _, _ => ""
  end.

(** The address lies inside an intact block. *)
Definition part_ok (self : BlockDir) (fs : Fs) (a : Address) (d : string) : Prop :=
  intact self fs (a_hash a) d ∧ (a_start a + a_len a <= BlockDir.len d)%N ∧
  (a_start a + a_len a < u64_modulus)%N.

Lemma part_length self fs a d : part_ok self fs a d → String.length (part a d) = N.to_nat (a_len a).
Proof.
  intros (_ & Hle & _). unfold part, BlockDir.len in *. rewrite string_length_take, string_length_drop. lia.
Qed.

Lemma slice_part {W} a d (w : W) :
  (a_start a + a_len a <= BlockDir.len d)%N →
  BlockDir.slice d (a_start a) (a_start a + a_len a) w = (Ret (part a d), w).
Proof.
  intros Hle. unfold BlockDir.slice. destruct (N.leb_spec (a_start a) (a_start a + a_len a)) as [_|]; [|lia].
  destruct (N.leb_spec (a_start a + a_len a) (BlockDir.len d)) as [_|]; [|lia]. simpl.
  by replace (a_start a + a_len a - a_start a)%N with (a_len a) by lia.
Qed.

(** A part of an intact block *)
Lemma read_address_intact self a d w :
  serving self w → part_ok self (w_fs w) a d →
  ∃ w', BlockDir.read_address self a w = (Ret (Ok (part a d)), w') ∧ w_fs w' = w_fs w ∧ serving self w'.
Proof.
  intros Hs (Hi & Hle & Hlt). destruct (read_intact self _ d w Hs Hi) as (w' & Hr & Hfs & Hs').
  exists w'. split; [|done]. unfold BlockDir.read_address. erewrite try_run by exact Hr.
  unfold add_u64. destruct (N.ltb_spec (a_start a + a_len a) u64_modulus) as [_|]; [|lia].
  erewrite bind_run by done. destruct (N.ltb_spec (BlockDir.len d) (a_start a + a_len a)) as [|_]; [lia|].
  by erewrite bind_run by by apply slice_part.
Qed.
End intact.

(** ** Termination *)

Section terminates.
Context `{Ext} `{BuildCfg}.

Lemma block_relpath_terminates h : terminates (BlockDir.block_relpath h : M string).
Proof. unfold BlockDir.block_relpath, BlockDir.subdir_relpath. solve_terminates. Qed.
Lemma update_terminates self f : terminates (BlockDir.update self f).
Proof. apply terminates_modify. Qed.
Lemma slice_terminates b s e : terminates (BlockDir.slice b s e : M string).
Proof. unfold BlockDir.slice. solve_terminates. Qed.
Hint Resolve block_relpath_terminates update_terminates slice_terminates : terminates.

Lemma contains_terminates self h : terminates (BlockDir.contains self h).
Proof. unfold BlockDir.contains, BlockDir.state. solve_terminates. Qed.
Lemma get_block_content_terminates self h : terminates (BlockDir.get_block_content self h).
Proof. unfold BlockDir.get_block_content, BlockDir.state. solve_terminates. Qed.
Hint Resolve contains_terminates get_block_content_terminates : terminates.

Lemma read_address_terminates self a : terminates (BlockDir.read_address self a).
Proof. unfold BlockDir.read_address. solve_terminates. Qed.
Lemma store_terminates self data stats : terminates (BlockDir.store_or_deduplicate self data stats).
Proof.
  unfold BlockDir.store_or_deduplicate, BlockDir.store_new, BlockDir.subdir_relpath. solve_terminates.
Qed.
Lemma compressed_size_terminates self h : terminates (BlockDir.compressed_size self h).
Proof. unfold BlockDir.compressed_size. solve_terminates. Qed.
Lemma delete_block_terminates self h : terminates (BlockDir.delete_block self h).
Proof. unfold BlockDir.delete_block. solve_terminates. Qed.
Lemma blocks_terminates self : terminates (BlockDir.blocks self).
Proof. unfold BlockDir.blocks, BlockDir.subdirs. solve_terminates. Qed.
Hint Resolve blocks_terminates : terminates.
Lemma bd_validate_terminates self : terminates (BlockDir.validate self).
Proof. unfold BlockDir.validate. solve_terminates. Qed.
End terminates.

#[export] Hint Resolve block_relpath_terminates update_terminates slice_terminates contains_terminates
  get_block_content_terminates read_address_terminates store_terminates compressed_size_terminates
  delete_block_terminates blocks_terminates bd_validate_terminates : terminates.

(** ** Examples *)

#[local] Existing Instances sample_ext sample_build sample_lru_laws sample_hash_laws sample_hex_laws
  sample_snap_laws.

(** A block directory at [/a/d] *)
Definition sample_blockdir : BlockDir := MkBlockDir (MkTransport ["a"; "d"]) 0.

Definition sample_blockdir_fs : Fs :=
  <[ ["a"; "d"] := NDir sample_meta ]> empty_archive_fs.

Definition sample_hash : BlockHash := BlockHash.hash_bytes "hello".

Lemma sample_known : known sample_blockdir (world_of sample_blockdir_fs) sample_hash = false.
Proof. vm_compute. reflexivity. Defined.

Lemma sample_blockdir_fs_wf : fs_wf sample_blockdir_fs.
Proof.
  apply fs_wf_insert; [apply empty_archive_fs_wf|done|reflexivity|by left].
Qed.

(** The directory of the sample block is ready for it. *)
Lemma sample_dir_ready fs :
  is_dir_node (fs !! ["a"; "d"]) = true →
  (fs !! subdir_path sample_blockdir sample_hash = None ∨
   is_dir_node (fs !! subdir_path sample_blockdir sample_hash) = true) →
  dir_ready (world_of fs) sample_blockdir sample_hash.
Proof. by split. Qed.

Lemma get_block_content_verified_witness :
  let '(o, w') := BlockDir.get_block_content sample_blockdir sample_hash (world_of sample_blockdir_fs) in
  w_fs w' = sample_blockdir_fs ∧ cache_ok sample_blockdir w' ∧
  match o with Ret (Ok c) => BlockHash.hash_bytes c = sample_hash | _ => True end.
Proof.
  apply (get_block_content_verified sample_blockdir sample_hash (world_of sample_blockdir_fs)).
  intros h c. discriminate.
Defined.

Lemma store_then_read_witness :
  ∃ stats' w',
    BlockDir.store_or_deduplicate sample_blockdir "hello" BackupStats.zero (world_of sample_blockdir_fs)
      = (Ret (Ok (sample_hash, stats')), w') ∧
    bs_written_blocks stats' = 1%N ∧
    ∀ self2 w2, bd_transport self2 = bd_transport sample_blockdir → w_fs w2 = w_fs w' → fault_free w2 →
      cached self2 w2 sample_hash = None →
      ∃ w3, BlockDir.get_block_content self2 sample_hash w2 = (Ret (Ok "hello"), w3).
Proof.
  apply (store_then_read sample_blockdir "hello" "zhello" BackupStats.zero (world_of sample_blockdir_fs)).
  - done.
  - exact sample_known.
  - exact sample_blockdir_fs_wf.
  - apply sample_dir_ready; [reflexivity|left; reflexivity].
  - reflexivity.
  - reflexivity.
Defined.

Lemma contains_spec_witness :
  ∃ o w', BlockDir.contains sample_blockdir sample_hash (world_of sample_blockdir_fs) = (Ret o, w') ∧
    w_fs w' = sample_blockdir_fs ∧
    (o = Ok true ↔ ∃ c m, sample_blockdir_fs !! block_path sample_blockdir sample_hash = Some (NFile c m) ∧ c ≠ "") ∧
    (sample_blockdir_fs !! block_path sample_blockdir sample_hash = None →
     absent_kind sample_blockdir_fs (block_path sample_blockdir sample_hash) = Io_NotFound → o = Ok false).
Proof.
  apply (contains_spec sample_blockdir sample_hash (world_of sample_blockdir_fs)).
  - reflexivity.
  - done.
  - exact sample_known.
Defined.

(** The same with an empty file where the block should be *)
Definition sample_empty_block_fs : Fs :=
  <[ block_path sample_blockdir sample_hash := NFile "" sample_meta ]>
    (<[ subdir_path sample_blockdir sample_hash := NDir sample_meta ]> sample_blockdir_fs).


(** A world whose block directory has a block in its cache *)
Definition sample_cached_world : World :=
  with_blockdir 0 (BlockDir.with_cache (λ c, lru_put c sample_hash "hello")) (world_of sample_blockdir_fs).

Lemma read_address_exact_witness :
  ∃ w', w_fs w' = sample_blockdir_fs ∧
    BlockDir.read_address sample_blockdir (MkAddress sample_hash 1 3) sample_cached_world
      = (Ret (Ok "ell"), w').
Proof.
  apply (read_address_exact sample_blockdir (MkAddress sample_hash 1 3) sample_cached_world "hello");
    vm_compute; reflexivity.
Defined.

(** A directory with the sample block in it *)
Definition sample_block_fs : Fs :=
  <[ block_path sample_blockdir sample_hash := NFile "zhello" sample_meta ]> sample_blockdir_fs.

Lemma sample_intact : intact sample_blockdir sample_block_fs sample_hash "hello".
Proof.
  split; [apply hash_bytes_fits|]. split; [done|]. exists "zhello", sample_meta.
  split; [apply lookup_insert_eq|done].
Qed.

Lemma sample_serving fs : serving sample_blockdir (world_of fs).
Proof. split; [done|]. intros h c d. discriminate. Qed.

(** A file in two parts of that block *)
Definition sample_parts : list Address := [MkAddress sample_hash 0 2; MkAddress sample_hash 2 3].

Lemma sample_parts_ok : Forall2 (part_ok sample_blockdir sample_block_fs) sample_parts ["hello"; "hello"].
Proof. repeat constructor; try apply sample_intact; vm_compute; done. Qed.
