(* ===== verification/BlockStore.v ===== *)
(** * Block directories that can be trusted

    The invariant that a block directory keeps while nothing fails, for the contents
    that a program stores in it: every block that counts as present holds the content
    of its hash (src/blockdir.rs). Storing keeps it, and what has been stored stays. *)

From Stdlib Require Import Ascii.
From S2P Require Import Prelude Text Apath Externals Sample Ids Entry Counters Errors World Transport.
From S2P Require Import Excludes Jsonio SampleWorld BlockDir.
From stdpp Require Import list gmap strings.

Section caches.
Context `{Ext, !LruLaws} `{BuildCfg} (self : BlockDir).

(** What may have been added to the caches: under the hash [h], only [data] in the
    content cache. *)
Definition grows (h : BlockHash) (data : string) : relation World := λ w w',
  (∀ h' c, cached self w' h' = Some c → (h' = h ∧ c = data) ∨ cached self w h' = Some c) ∧
  (∀ h', known self w' h' = true → h' = h ∨ known self w h' = true).

(** Only the knowledge that [h] exists has been added. *)
Definition learns (h : BlockHash) : relation World := λ w w',
  (∀ h', cached self w' h' = cached self w h') ∧
  (∀ h', known self w' h' = true → h' = h ∨ known self w h' = true).

#[export] Instance grows_preorder h data : PreOrder (grows h data).
Proof.
  split; [split; auto|]. intros w1 w2 w3 [Hc Hk] [Hc' Hk']. split.
  - intros h' c Hx. destruct (Hc' _ _ Hx); auto.
  - intros h' Hx. destruct (Hk' _ Hx); auto.
Qed.

#[export] Instance learns_preorder h : PreOrder (learns h).
Proof.
  split; [split; auto|]. intros w1 w2 w3 [Hc Hk] [Hc' Hk']. split.
  - intros h'. by rewrite Hc', Hc.
  - intros h' Hx. destruct (Hk' _ Hx); auto.
Qed.

#[export] Instance grows_blind h data : Blind (grows h data).
Proof. split; [split; [apply _|..]|]; split; auto. Qed.
#[export] Instance learns_blind h : Blind (learns h).
Proof. split; [split; [apply _|..]|]; split; auto. Qed.

Lemma known_peek w h :
  known self w h = true ↔
  is_Some (cached self w h) ∨ is_Some (lru_peek (bds_exists (w_blockdirs w (bd_handle self))) h).
Proof. unfold known, cached. by rewrite orb_true_iff, !lru_contains_peek. Qed.

Lemma update_exists_peek f w h :
  lru_peek (bds_exists (w_blockdirs (with_blockdir (bd_handle self) f w) (bd_handle self))) h
  = lru_peek (bds_exists (f (w_blockdirs w (bd_handle self)))) h.
Proof. simpl. by rewrite decide_True. Qed.

(** Statistics *)
Lemma stats_learns h f : respects (learns h) (BlockDir.update self (BlockDir.with_stats f)).
Proof.
  intros w. simpl. split; [intros h'; by rewrite update_cached|].
  intros h'. rewrite !known_peek, update_cached, update_exists_peek. simpl. auto.
Qed.

(** The existence cache *)
Lemma exists_learns h f :
  (∀ l k v, lru_peek (f l) k = Some v → k = h ∨ lru_peek l k = Some v) →
  respects (learns h) (BlockDir.update self (BlockDir.with_exists f)).
Proof.
  intros Hf w. simpl. split; [intros h'; by rewrite update_cached|].
  intros h'. rewrite !known_peek, update_cached, update_exists_peek. simpl.
  intros [Hx|[v Hx]]; [by right; left|]. apply Hf in Hx as [->|Hx]; [by left|]. right; right. by eexists.
Qed.

Lemma put_learns h (l : Lru BlockHash unit) k v : lru_peek (lru_put l h tt) k = Some v → k = h ∨ lru_peek l k = Some v.
Proof. intros [[-> _]|[_ ?]]%lru_peek_put; auto. Qed.
Lemma push_learns h (l : Lru BlockHash unit) k v : lru_peek (lru_push l h tt) k = Some v → k = h ∨ lru_peek l k = Some v.
Proof. intros [[-> _]|[_ ?]]%lru_peek_push; auto. Qed.

Lemma learns_grows {A : Type} h data (m : M A) : respects (learns h) m → respects (grows h data) m.
Proof. intros Hm w. destruct (Hm w) as [Hc Hk]. split; [|done]. intros h' c. rewrite Hc. auto. Qed.

Lemma cache_put_grows h data :
  respects (grows h data) (BlockDir.update self (BlockDir.with_cache (λ c, lru_put c h data))).
Proof.
  intros w. simpl. split.
  - intros h' c. rewrite update_cached. simpl. intros [[-> ->]|[_ Hx]]%lru_peek_put; auto.
  - intros h'. rewrite !known_peek, update_cached, update_exists_peek. simpl.
    intros [[v Hx]|Hx]; [|auto]. apply lru_peek_put in Hx as [[-> _]|[_ Hx]]; [auto|].
    right; left. by eexists.
Qed.

Lemma contains_learns h : respects (learns h) (BlockDir.contains self h).
Proof.
  unfold BlockDir.contains, BlockDir.state. pose proof (stats_learns h).
  pose proof (exists_learns h _ (put_learns h)). pose proof (block_relpath_respects (learns h) h). solve_respects.
Qed.

Lemma store_new_grows h data stats : respects (grows h data) (BlockDir.store_new self h data stats).
Proof.
  unfold BlockDir.store_new. pose proof (cache_put_grows h data).
  pose proof (learns_grows h data _ (exists_learns h _ (push_learns h))).
  pose proof (block_relpath_respects (grows h data) h).
  pose proof (subdir_relpath_respects (grows h data)). solve_respects.
Qed.
End caches.

(** ** The invariant *)

Section sound.
Context `{Ext, !LruLaws, !HashLaws, !HexLaws, !SnapLaws} `{BuildCfg}.

(** The contents that the program is going to store: different ones have different
    hashes, and each can be compressed. *)
Record storable (D : string → Prop) : Prop := {
  storable_inj : ∀ x y, D x → D y → BlockHash.hash_bytes x = BlockHash.hash_bytes y → x = y;
  storable_compress : ∀ x, D x → is_Some (snap_compress x)
}.

(** The directory is there, with nothing in the way of its subdirectories; and each
    of the contents is there intact, or neither there nor thought to be. *)
Record sound (D : string → Prop) (self : BlockDir) (w : World) : Prop := {
  sound_serving : serving self w;
  sound_closed : fs_closed (w_fs w);
  sound_dir : is_dir_node (w_fs w !! tr_path (bd_transport self)) = true;
  sound_subdirs : ∀ h, w_fs w !! subdir_path self h = None ∨ is_dir_node (w_fs w !! subdir_path self h) = true;
  sound_blocks : ∀ data, D data →
    intact self (w_fs w) (BlockHash.hash_bytes data) data ∨
    (w_fs w !! block_path self (BlockHash.hash_bytes data) = None ∧
     known self w (BlockHash.hash_bytes data) = false)
}.

Lemma intact_adds self fs fs' h d : only_adds fs fs' → intact self fs h d → intact self fs' h d.
Proof. intros Ha (Hh & Hd & c & m & Hp & Hc). split; [done|]. split; [done|]. exists c, m. auto. Qed.

Lemma intact_fun self fs h d d' : intact self fs h d → intact self fs h d' → d = d'.
Proof. intros (_ & _ & c & m & Hp & Hc & _) (_ & _ & c' & m' & Hp' & Hc' & _). congruence. Qed.

(** Learning that an intact block exists *)
Lemma sound_learns D self w w' data :
  sound D self w → intact self (w_fs w) (BlockHash.hash_bytes data) data →
  w_fs w' = w_fs w → fault_free w' → learns self (BlockHash.hash_bytes data) w w' → sound D self w'.
Proof.
  intros [[Hf Hs] Hcl Hd Hsd Hb] Hi Hfs Hf' [Hc Hk]. split; rewrite ?Hfs; try done.
  - split; [done|]. intros h c d. rewrite Hc, Hfs. apply Hs.
  - intros data' Hd'. destruct (Hb data' Hd') as [|[Hn Hu]]; [by left|right].
    split; [done|]. apply not_true_iff_false. intros [Heq|Hx]%Hk; [|congruence].
    destruct Hi as (_ & _ & c & m & Hp & _). congruence.
Qed.

Lemma contains_known_run self h w :
  known self w h = true → ∃ w', BlockDir.contains self h w = (Ret (Ok true), w') ∧ w_fs w' = w_fs w ∧
    (fault_free w → fault_free w').
Proof.
  intros Hk. unfold BlockDir.contains, BlockDir.state. erewrite bind_run by done.
  unfold known in Hk. cbv beta. rewrite Hk. do 2 erewrite bind_run by apply modify_run. by eexists.
Qed.

(** An intact block is found present. *)
Lemma contains_intact D self w data :
  sound D self w → intact self (w_fs w) (BlockHash.hash_bytes data) data →
  ∃ w', BlockDir.contains self (BlockHash.hash_bytes data) w = (Ret (Ok true), w') ∧ w_fs w' = w_fs w ∧
    sound D self w'.
Proof.
  intros Hs Hi. pose proof (contains_learns self (BlockHash.hash_bytes data) w) as Hl.
  pose proof Hs as [[Hf _] _ _ _ _].
  assert (∃ w', BlockDir.contains self (BlockHash.hash_bytes data) w = (Ret (Ok true), w') ∧
    w_fs w' = w_fs w ∧ fault_free w') as (w' & Hr & Hfs & Hf').
  { destruct (known self w (BlockHash.hash_bytes data)) eqn:Hk.
    - destruct (contains_known_run self _ w Hk) as (w' & ? & ? & ?). exists w'. auto.
    - destruct (contains_run self _ w (hash_bytes_fits data) Hf Hk) as (w' & Hr & Hfs & Hf').
      exists w'. split; [|done]. rewrite Hr. destruct Hi as (_ & _ & c & m & Hp & Hc & Hne).
      unfold fs_stat. rewrite Hp. by destruct (String.eqb_spec c ""). }
  rewrite Hr in Hl. exists w'. split; [done|]. split; [done|].
  by apply (sound_learns D self w w' data).
Qed.

(** A content that is not there is found missing. *)
Lemma contains_absent D self w h :
  sound D self w → BlockHash.fits h → w_fs w !! block_path self h = None → known self w h = false →
  ∃ w', BlockDir.contains self h w = (Ret (Ok false), w') ∧ w_fs w' = w_fs w ∧ fault_free w' ∧
    learns self h w w'.
Proof.
  intros [[Hf _] Hcl Hd Hsd _] Hh Hn Hk. pose proof (contains_learns self h w) as Hl.
  destruct (contains_run self h w Hh Hf Hk) as (w' & Hr & Hfs & Hf'). rewrite Hr in Hl. exists w'.
  split; [|done]. rewrite Hr, (not_found self h w); [done|by apply fs_closed_wf|by split|done].
Qed.

(** A new block, and what is learnt of it *)
Lemma sound_grows D self w w1 w2 data :
  sound D self w → storable D → D data → known self w (BlockHash.hash_bytes data) = false →
  fault_free w2 → intact self (w_fs w2) (BlockHash.hash_bytes data) data →
  is_dir_node (w_fs w2 !! subdir_path self (BlockHash.hash_bytes data)) = true →
  (∀ p, p ≠ subdir_path self (BlockHash.hash_bytes data) → p ≠ block_path self (BlockHash.hash_bytes data) →
     w_fs w2 !! p = w_fs w !! p) →
  only_adds (w_fs w) (w_fs w2) → (fs_closed (w_fs w) → fs_closed (w_fs w2)) →
  learns self (BlockHash.hash_bytes data) w w1 → grows self (BlockHash.hash_bytes data) data w1 w2 →
  sound D self w2.
Proof.
  set (h := BlockHash.hash_bytes data).
  intros [[Hf Hs] Hcl Hd Hsd Hb] HD Hdata Hk Hf2 Hi Hsd2 Hsame Hadd Hcl2 [Hlc Hlk] [Hgc Hgk].
  assert (∀ h', BlockHash.fits h' → h' ≠ h → w_fs w2 !! block_path self h' = w_fs w !! block_path self h') as Hother.
  { intros h' Hh' Hne. apply Hsame; [intros Heq; by apply (subdir_path_ne_block self h h')|].
    intros Heq. apply Hne. apply (block_path_inj self); [done|apply hash_bytes_fits|done]. }
  split.
  - split; [done|]. intros h' c d Hc Hi'. destruct (decide (h' = h)) as [->|Hne].
    + apply Hgc in Hc as [[_ ->]|Hc]; [by eapply intact_fun|].
      rewrite Hlc in Hc. assert (known self w h = true) as Hk'; [|congruence].
      apply known_peek. left. by eexists.
    + apply Hgc in Hc as [[? _]|Hc]; [done|]. rewrite Hlc in Hc. apply (Hs h' c d Hc).
      destruct Hi' as (Hh' & Hd' & c' & m' & Hp' & ?). split; [done|]. split; [done|].
      exists c', m'. by rewrite <-Hother.
  - by apply Hcl2.
  - destruct (w_fs w !! tr_path (bd_transport self)) as [nd|] eqn:E; [|done]. by rewrite (Hadd _ nd).
  - intros h'. destruct (decide (subdir_path self h' = subdir_path self h)) as [->|Hne]; [by right|].
    rewrite Hsame; [apply Hsd|done|apply subdir_path_ne_block].
  - intros data' Hd'. destruct (decide (BlockHash.hash_bytes data' = h)) as [Heq|Hne].
    + left. by rewrite (storable_inj D HD data' data).
    + destruct (Hb data' Hd') as [Hi'|[Hn Hu]]; [left; by eapply intact_adds|right].
      rewrite Hother by (done || apply hash_bytes_fits). split; [done|].
      apply not_true_iff_false. intros [|[|]%Hlk]%Hgk; congruence.
Qed.

(** Storing one of the contents: whether it is there already or not, it succeeds with
    the hash, and then it is there; what was there before stays, and so does the
    invariant. *)
Lemma store_sound D self data stats w :
  storable D → sound D self w → D data →
  ∃ stats' w', BlockDir.store_or_deduplicate self data stats w
      = (Ret (Ok (BlockHash.hash_bytes data, stats')), w') ∧
    sound D self w' ∧ only_adds (w_fs w) (w_fs w') ∧
    intact self (w_fs w') (BlockHash.hash_bytes data) data.
Proof.
  intros HD Hs Hdata. unfold BlockDir.store_or_deduplicate.
  pose proof (sound_blocks _ _ _ Hs data Hdata) as Hpres.
  set (h := BlockHash.hash_bytes data) in *.
  assert (BlockHash.fits h) as Hh by apply hash_bytes_fits. cbv zeta.
  destruct Hpres as [Hi|[Hn Hk]].
  { destruct (contains_intact D self w data Hs Hi) as (w' & Hr & Hfs & Hs').
    erewrite try_run by exact Hr. cbn iota. do 2 erewrite bind_run by apply modify_run.
    eexists _, _. split; [done|]. split; [by destruct Hs'; split|]. cbn. rewrite Hfs. by split. }
  pose proof Hs as [Hsv Hcl Hd Hsd Hb]. destruct (storable_compress D HD data Hdata) as [z Hz].
  destruct (contains_absent D self w h Hs Hh Hn Hk) as (w1 & Hr & Hfs1 & Hf1 & Hl).
  erewrite try_run by exact Hr. cbn iota.
  pose proof (store_new_grows self h data stats w1) as Hg.
  destruct (store_new_run self data stats w1 z Hf1) as (w2 & m & Hs2 & Hf2 & Hp & Hsd2 & Hsame & Hadd & Hcl2).
  { split; rewrite Hfs1; [done|apply Hsd]. }
  { by rewrite Hfs1. }
  { done. }
  change (BlockHash.hash_bytes data) with h in Hs2, Hp, Hsd2, Hsame. rewrite Hs2 in Hg |- *. cbn [snd] in Hg. rewrite Hfs1 in *.
  eexists _, w2. split; [done|].
  assert (intact self (w_fs w2) h data) as Hi.
  { split; [done|]. split; [done|]. exists z, m. split; [done|]. split; [by apply snap_round_trip|].
    by eapply snap_not_empty. }
  split; [|by split]. by apply (sound_grows D self w w1 w2 data).
Qed.
End sound.
