(* ===== verification/Index.v ===== *)
(** * Indexes (src/index.rs)

    Writing the hunks of a band's index, reading them back, and the two
    iterators over hunks and entries. *)

From Stdlib Require Import Ascii.
From S2P Require Import Prelude Text Apath Externals Ids Entry Counters Errors World Transport.
From S2P Require Import Sample Excludes Jsonio SampleWorld BlockDir.
From stdpp Require Import list gmap strings.

(** ** Definitions *)

Definition HUNKS_PER_SUBDIR : N := 10000.

(** [self.sequence += 1] on [u32] *)
Definition add_u32 {W} `{BuildCfg} (a b : N) : ST W N :=
  let n := (a + b)%N in
  if (n <=? u32_max)%N then mret n
  else if debug_assertions then panic else mret (n mod (u32_max + 1))%N.

(** [subdir_relpath(hunk_number)] and [hunk_relpath(hunk_number)] *)
Definition subdir_relpath (hunk_number : N) : string :=
  pad_decimal 5 (hunk_number / HUNKS_PER_SUBDIR).
Definition hunk_relpath (hunk_number : N) : string :=
  pad_decimal 5 (hunk_number / HUNKS_PER_SUBDIR) +:+ "/" +:+ pad_decimal 9 hunk_number.

(** [IndexWriter]; its compressor has no state that shows. *)
Record IndexWriter : Type := MkIndexWriter {
  iw_transport : Transport;
  iw_entries : list IndexEntry;
  iw_sequence : N;
  iw_hunks_written : N;
  iw_check_order : CheckOrder.t
}.

(** The order in which a hunk is sorted. *)
Definition entry_cmp (a b : IndexEntry) : comparison := Apath.cmp (ie_apath a) (ie_apath b).

Module IndexWriter.
Section index_writer.
Context `{Ext} `{BuildCfg} `{Codecs}.

Definition new (transport : Transport) : IndexWriter :=
  MkIndexWriter transport [] 0 0 CheckOrder.new.

Definition with_entries (es : list IndexEntry) (self : IndexWriter) : IndexWriter :=
  MkIndexWriter (iw_transport self) es (iw_sequence self) (iw_hunks_written self) (iw_check_order self).
Definition with_check_order (c : CheckOrder.t) (self : IndexWriter) : IndexWriter :=
  MkIndexWriter (iw_transport self) (iw_entries self) (iw_sequence self) (iw_hunks_written self) c.

Definition push_entry (self : IndexWriter) (entry : IndexEntry) : IndexWriter :=
  with_entries (iw_entries self ++ [entry]) self.

(** [append_entries(&mut entries)] empties its argument. *)
Definition append_entries (self : IndexWriter) (entries : list IndexEntry) : IndexWriter :=
  with_entries (iw_entries self ++ entries) self.

(** Sorting, with the assertion in the comparison: the sort compares all
    neighbours of the result, so it meets every pair of equal paths. *)
Definition sort_entries {W} (es : list IndexEntry) : ST W (list IndexEntry) :=
  _ ← debug_assert (bool_decide (NoDup (ie_apath <$> es)));
  mret (sort_by entry_cmp es).

(** The two calls of [check_order.check] on the sorted entries *)
Definition check_hunk {W} (c : CheckOrder.t) (es : list IndexEntry) : ST W CheckOrder.t :=
  first ← expect (head es);
  c ← DebugCheckOrder.check c (ie_apath first);
  if (1 <? length es)%nat then
    l ← expect (last es);
    DebugCheckOrder.check c (ie_apath l)
  else mret c.

(** The part of [finish_hunk] that writes the sorted, checked entries. *)
Definition write_hunk (self : IndexWriter) : M (result unit Error * IndexWriter) :=
  let relpath := hunk_relpath (iw_sequence self) in
  match to_json (iw_entries self) with
  | None => mret (Err SerializeJson, self)
  | Some json =>
      r ← (if (iw_sequence self mod HUNKS_PER_SUBDIR =? 0)%N
           then Transport.create_dir (iw_transport self) (subdir_relpath (iw_sequence self))
           else mret (Ok tt));
      match r with
      | Err e => mret (Err (TransportErr e), self)
      | Ok _ =>
          match compress json with
          | Err e => mret (Err e, self)
          | Ok compressed_bytes =>
              r ← Transport.write_file (iw_transport self) relpath compressed_bytes CreateNew;
              match r with
              | Err e => mret (Err (TransportErr e), self)
              | Ok _ =>
                  _ ← monitor_count IndexWrites 1;
                  _ ← monitor_count IndexWriteCompressedBytes (BlockDir.len compressed_bytes);
                  _ ← monitor_count IndexWriteUncompressedBytes (BlockDir.len json);
                  seq ← add_u32 (iw_sequence self) 1;
                  mret (Ok tt, MkIndexWriter (iw_transport self) [] seq
                                 (iw_hunks_written self + 1)%N (iw_check_order self))
              end
          end
      end
  end.

Definition finish_hunk (self : IndexWriter) : M (result unit Error * IndexWriter) :=
  match iw_entries self with
  | [] => mret (Ok tt, self)
  | _ :: _ =>
      es ← sort_entries (iw_entries self);
      c ← check_hunk (iw_check_order self) es;
      write_hunk (with_check_order c (with_entries es self))
  end.

(** [finish()]: the number of hunks written *)
Definition finish (self : IndexWriter) : M (result N Error) :=
  '(r, self) ← finish_hunk self;
  mret (map_ok (λ _, iw_hunks_written self) r).

End index_writer.
End IndexWriter.

(** ** Reading *)

(** [IndexRead] *)
Record IndexRead : Type := MkIndexRead { ir_transport : Transport; ir_stats : IndexReadStats }.

Module IndexRead.
Section index_read.
Context `{Ext} `{BuildCfg} `{Codecs}.

Definition open (transport : Transport) : IndexRead :=
  MkIndexRead transport (MkIndexReadStats 0 0 0 0).

Definition duplicate (self : IndexRead) : IndexRead := open (ir_transport self).

Definition count_hunk (compressed : N) (self : IndexRead) : IndexRead :=
  let s := ir_stats self in
  MkIndexRead (ir_transport self)
    (MkIndexReadStats (index_hunks s + 1) (uncompressed_index_bytes s)
       (compressed_index_bytes s + compressed) (index_errors s)).

Definition count_uncompressed (n : N) (self : IndexRead) : IndexRead :=
  let s := ir_stats self in
  MkIndexRead (ir_transport self)
    (MkIndexReadStats (index_hunks s) (uncompressed_index_bytes s + n)
       (compressed_index_bytes s) (index_errors s)).

Definition count_error (self : IndexRead) : IndexRead :=
  let s := ir_stats self in
  MkIndexRead (ir_transport self)
    (MkIndexReadStats (index_hunks s) (uncompressed_index_bytes s)
       (compressed_index_bytes s) (index_errors s + 1)).

(** [read_hunk(hunk_number)]: a missing hunk is [Ok None]. *)
Definition read_hunk (self : IndexRead) (hunk_number : N) :
    M (result (option (list IndexEntry)) Error * IndexRead) :=
  let path := hunk_relpath hunk_number in
  r ← Transport.read_file (ir_transport self) path;
  match r with
  | Err err => mret (if is_not_found err then Ok None else Err (TransportErr err), self)
  | Ok compressed_bytes =>
      let self := count_hunk (BlockDir.len compressed_bytes) self in
      match decompress compressed_bytes with
      | Err e => mret (Err e, self)
      | Ok index_bytes =>
          let self := count_uncompressed (BlockDir.len index_bytes) self in
          match from_json index_bytes with
          | None => mret (Err (DeserializeJson path), self)
          | Some entries => mret (Ok (Some entries), self)
          end
      end
  end.

(** [hunks_available()]: directories that cannot be listed are passed over. *)
Definition hunks_available (self : IndexRead) : M (result (list N) Error) :=
  r ← Transport.list_dir (ir_transport self) "";
  match r with
  | Err e => mret (Err (TransportErr e))
  | Ok l =>
      let subdirs := sort_by String.compare (ld_dirs l) in
      files ← fold_st (λ acc dir,
                r ← Transport.list_dir (ir_transport self) dir;
                mret (match r with Ok l => acc ++ ld_files l | Err _ => acc end)%list) [] subdirs;
      mret (Ok (sort_by N.compare (omap parse_u32 files)))
  end.

End index_read.
End IndexRead.

(** ** Iteration over hunks *)

(** [IndexHunkIter] *)
Record IndexHunkIter : Type := MkIndexHunkIter {
  hi_hunks : list N;
  hi_index : IndexRead;
  hi_after : option Apath
}.

(** What [IndexEntryIter] asks of its source of hunks: the next one; and, for
    the loops of the model, how many there can still be. *)
Class HunkIter `{Ext} (HI : Type) : Type := {
  next_hunk : HI → M (option (list IndexEntry) * HI);
  hunks_bound : HI → World → nat
}.

Module IndexHunkIter.
Section hunk_iter.
Context `{Ext} `{BuildCfg} `{Codecs}.

(** [iter_available_hunks()]: panics if the index directory cannot be listed. *)
Definition iter_available_hunks (index : IndexRead) : M IndexHunkIter :=
  r ← IndexRead.hunks_available index;
  hunks ← expect_ok r;
  mret (MkIndexHunkIter hunks index None).

Definition iter_hunks (index : IndexRead) (hunks : list N) : IndexHunkIter :=
  MkIndexHunkIter hunks index None.

(** [apath <= after] and [apath > after] *)
Definition apath_le (a b : Apath) : bool := match Apath.cmp a b with Gt => false | _ => true end.
Definition apath_gt (a b : Apath) : bool := match Apath.cmp a b with Gt => true | _ => false end.

(** What one hunk yields under [after]: nothing, or entries together with the
    new value of [after]. *)
Definition select (entries : list IndexEntry) (after : option Apath) :
    option (list IndexEntry * option Apath) :=
  match after with
  | Some a =>
      if (match last entries with Some l => apath_le (ie_apath l) a | None => false end) then None
      else if (match head entries with Some f => apath_gt (ie_apath f) a | None => false end)
      then Some (entries, None)
      else
        let idx := match binary_search_by (λ e, Apath.cmp (ie_apath e) a) entries with
                   | Ok idx => idx + 1
                   | Err idx => idx
                   end in
        Some (drop idx entries, after)
  | None => match entries with [] => None | _ => Some (entries, None) end
  end.

(** The loop of [next], on the hunk numbers that are left *)
Fixpoint next_loop (hunks : list N) (index : IndexRead) (after : option Apath) :
    M (option (list IndexEntry) * IndexHunkIter) :=
  match hunks with
  | [] => mret (None, MkIndexHunkIter [] index after)
  | hunk_number :: hunks =>
      '(r, index) ← IndexRead.read_hunk index hunk_number;
      match r with
      | Ok None => mret (None, MkIndexHunkIter hunks index after)
      | Err _ => next_loop hunks (IndexRead.count_error index) after
      | Ok (Some entries) =>
          match select entries after with
          | None => next_loop hunks index after
          | Some (es, after) => mret (Some es, MkIndexHunkIter hunks index after)
          end
      end
  end.

Definition next (self : IndexHunkIter) : M (option (list IndexEntry) * IndexHunkIter) :=
  next_loop (hi_hunks self) (hi_index self) (hi_after self).

Definition advance_to_after (self : IndexHunkIter) (apath : Apath) : IndexHunkIter :=
  MkIndexHunkIter (hi_hunks self) (hi_index self) (Some apath).

End hunk_iter.
End IndexHunkIter.

#[export] Instance index_hunk_iter `{Ext} `{BuildCfg} `{Codecs} : HunkIter IndexHunkIter := {
  next_hunk := IndexHunkIter.next;
  hunks_bound it _ := length (hi_hunks it)
}.

(** ** Iteration over entries *)

(** [IndexEntryIter<HI>] *)
Record IndexEntryIter `{Ext} (HI : Type) : Type := MkIndexEntryIter {
  ei_buffered_entries : list IndexEntry;
  ei_hunk_iter : HI;
  ei_subtree : Apath;
  ei_exclude : Exclude
}.
Arguments MkIndexEntryIter {_ HI}.
Arguments ei_buffered_entries {_ HI}.
Arguments ei_hunk_iter {_ HI}.
Arguments ei_subtree {_ HI}.
Arguments ei_exclude {_ HI}.

Module IndexEntryIter.
Section entry_iter.
Context `{Ext} `{BuildCfg} {HI : Type} `{!HunkIter HI}.

Definition new (hunk_iter : HI) (subtree : Apath) (exclude : Exclude) : IndexEntryIter HI :=
  MkIndexEntryIter [] hunk_iter subtree exclude.

Definition with_buffer (es : list IndexEntry) (self : IndexEntryIter HI) : IndexEntryIter HI :=
  MkIndexEntryIter es (ei_hunk_iter self) (ei_subtree self) (ei_exclude self).

(** [refill_entry_buffer_or_warn()]: asserts that the buffer is empty. *)
Definition refill_entry_buffer_or_warn (self : IndexEntryIter HI) : M (bool * IndexEntryIter HI) :=
  _ ← rust_assert (match ei_buffered_entries self with [] => true | _ => false end);
  '(r, hi) ← next_hunk (ei_hunk_iter self);
  mret (match r with
        | Some new_entries => (true, MkIndexEntryIter new_entries hi (ei_subtree self) (ei_exclude self))
        | None => (false, MkIndexEntryIter [] hi (ei_subtree self) (ei_exclude self))
        end).

(** Whether [next] yields an entry of the buffer or passes over it. *)
Definition wanted (self : IndexEntryIter HI) (entry : IndexEntry) : M bool :=
  if negb (Apath.is_prefix_of (ei_subtree self) (ie_apath entry)) then mret false
  else x ← Exclude.matches (ei_exclude self) (apath_str (ie_apath entry)); mret (negb x).

(** The rounds of [next] that only consume the buffer *)
Fixpoint next_buffered (self : IndexEntryIter HI) (buffer : list IndexEntry) :
    M (option IndexEntry * list IndexEntry) :=
  match buffer with
  | [] => mret (None, [])
  | entry :: buffer =>
      b ← wanted self entry;
      if (b : bool) then mret (Some entry, buffer) else next_buffered self buffer
  end.

(** [next()]; the bound counts the refills. *)
Fixpoint next_loop (fuel : nat) (self : IndexEntryIter HI) : M (option IndexEntry * IndexEntryIter HI) :=
  '(r, buffer) ← next_buffered self (ei_buffered_entries self);
  match r with
  | Some entry => mret (Some entry, with_buffer buffer self)
  | None =>
      '(more, self) ← refill_entry_buffer_or_warn (with_buffer [] self);
      if (more : bool) then
        match fuel with O => no_fuel | S fuel => next_loop fuel self end
      else mret (None, self)
  end.

Definition next (self : IndexEntryIter HI) : M (option IndexEntry * IndexEntryIter HI) :=
  bound ← gets (hunks_bound (ei_hunk_iter self));
  next_loop bound self.

(** The rounds of [advance_to] on the buffer: [None] when it is used up. *)
Fixpoint advance_buffered (apath : Apath) (buffer : list IndexEntry) :
    option (option IndexEntry) * list IndexEntry :=
  match buffer with
  | [] => (None, [])
  | cand :: rest =>
      match Apath.cmp (ie_apath cand) apath with
      | Lt => advance_buffered apath rest
      | Eq => (Some (Some cand), rest)
      | Gt => (Some None, buffer)
      end
  end.

Fixpoint advance_loop (fuel : nat) (self : IndexEntryIter HI) (apath : Apath) :
    M (option IndexEntry * IndexEntryIter HI) :=
  let '(r, buffer) := advance_buffered apath (ei_buffered_entries self) in
  match r with
  | Some found => mret (found, with_buffer buffer self)
  | None =>
      '(more, self) ← refill_entry_buffer_or_warn (with_buffer [] self);
      if (more : bool) then
        match fuel with O => no_fuel | S fuel => advance_loop fuel self apath end
      else mret (None, self)
  end.

(** [advance_to(apath)] *)
Definition advance_to (self : IndexEntryIter HI) (apath : Apath) :
    M (option IndexEntry * IndexEntryIter HI) :=
  bound ← gets (hunks_bound (ei_hunk_iter self));
  advance_loop bound self apath.

(** A [for] loop over the entries, with a body that can leave by [?]: the
    entries of the buffer, then those of each further hunk. *)
Fixpoint for_buffered {S} (self : IndexEntryIter HI) (body : S → IndexEntry → M (result S Error))
    (s : S) (buffer : list IndexEntry) : M (result S Error) :=
  match buffer with
  | [] => mret (Ok s)
  | entry :: buffer =>
      b ← wanted self entry;
      if (b : bool) then s ←? body s entry; for_buffered self body s buffer
      else for_buffered self body s buffer
  end.

Fixpoint for_loop {S} (fuel : nat) (body : S → IndexEntry → M (result S Error)) (s : S)
    (self : IndexEntryIter HI) : M (result S Error) :=
  s ←? for_buffered self body s (ei_buffered_entries self);
  '(more, self) ← refill_entry_buffer_or_warn (with_buffer [] self);
  if (more : bool) then
    match fuel with O => no_fuel | Datatypes.S fuel => for_loop fuel body s self end
  else mret (Ok s).

Definition for_entries {S} (body : S → IndexEntry → M (result S Error)) (s : S)
    (self : IndexEntryIter HI) : M (result S Error) :=
  bound ← gets (hunks_bound (ei_hunk_iter self));
  for_loop bound body s self.

(** [collect()] *)
Definition collect (self : IndexEntryIter HI) : M (result (list IndexEntry) Error) :=
  for_entries (λ acc e, mret (Ok (acc ++ [e])%list)) [] self.

End entry_iter.
End IndexEntryIter.

(** [IndexRead::iter_entries()] *)
Definition index_iter_entries `{Ext} `{BuildCfg} `{Codecs} (index : IndexRead) :
    M (IndexEntryIter IndexHunkIter) :=
  it ← IndexHunkIter.iter_available_hunks index;
  mret (IndexEntryIter.new it Apath.root Exclude.nothing).

(** ** Sorted entries *)

(** In strictly increasing archive order *)
Definition entry_lt (x y : IndexEntry) : Prop := Apath.lt (ie_apath x) (ie_apath y).
Definition sorted_entries (es : list IndexEntry) : Prop := StronglySorted entry_lt es.

#[export] Instance entry_lt_trans : Transitive entry_lt.
Proof. intros x y z. apply (cmp_lt_strict Apath.cmp). Qed.

Lemma apath_lt_irrefl a : ¬ Apath.lt a a.
Proof. unfold Apath.lt, cmp_lt. by rewrite (cmp_refl Apath.cmp). Qed.

Lemma entry_cmp_antisym x y : entry_cmp y x = CompOpp (entry_cmp x y).
Proof. apply (cmp_antisym (cmp:=Apath.cmp)). Qed.

Lemma entry_cmp_trans x y z : entry_cmp x y ≠ Gt → entry_cmp y z ≠ Gt → entry_cmp x z ≠ Gt.
Proof. apply (cmp_le_trans Apath.cmp). Qed.

Lemma sorted_entries_NoDup es : sorted_entries es → NoDup (ie_apath <$> es).
Proof.
  induction 1 as [|x l Hl IH Hx]; simpl; constructor; [|done].
  intros (y & Hy & Hin)%list_elem_of_fmap. eapply Forall_forall in Hx; [|exact Hin].
  unfold entry_lt in Hx. rewrite Hy in Hx. by apply (cmp_lt_strict Apath.cmp) in Hx.
Qed.

Lemma sort_entries_sorted es : NoDup (ie_apath <$> es) → sorted_entries (sort_by entry_cmp es).
Proof.
  intros Hnd.
  assert (NoDup (ie_apath <$> sort_by entry_cmp es)) as Hnd' by by rewrite sort_by_perm.
  pose proof (sort_by_sorted entry_cmp entry_cmp_antisym entry_cmp_trans es) as Hs.
  induction Hs as [|x l Hl IH Hx]; [constructor|].
  simpl in Hnd'. apply NoDup_cons in Hnd' as [Hn Hnd']. constructor; [by apply IH|].
  apply Forall_forall. intros y Hy. eapply Forall_forall in Hx; [|exact Hy].
  unfold entry_lt, Apath.lt, cmp_lt. unfold entry_cmp in Hx.
  destruct (Apath.cmp (ie_apath x) (ie_apath y)) eqn:E; [|done|done].
  apply (cmp_eq_iff (cmp:=Apath.cmp)) in E. destruct Hn. rewrite E. by apply list_elem_of_fmap_2.
Qed.

Lemma sorted_lookup {A : Type} (R : relation A) l i j x y :
  StronglySorted R l → i < j → l !! i = Some x → l !! j = Some y → R x y.
Proof.
  intros Hs. revert i j. induction Hs as [|z l Hl IH Hz]; intros i j Hij Hi Hj; [done|].
  destruct j as [|j]; [lia|]. destruct i as [|i]; simpl in *; simplify_eq.
  - eapply Forall_forall in Hz; [exact Hz|]. by eapply list_elem_of_lookup_2.
  - eapply IH; [|done..]. lia.
Qed.

(** The position of a path in sorted entries *)
Lemma sorted_partitioned es a :
  sorted_entries es → partitioned (λ e, Apath.cmp (ie_apath e) a) es.
Proof.
  intros Hs i j x y Hij Hx Hy.
  assert (entry_lt x y) as Hlt by (by eapply (sorted_lookup entry_lt)).
  split; intros H; [apply (cmp_gt_iff Apath.cmp) in H; apply (cmp_gt_iff Apath.cmp)|].
  - by eapply (cmp_lt_trans (cmp:=Apath.cmp)).
  - by eapply (cmp_lt_trans (cmp:=Apath.cmp)).
Qed.

(** ** [advance_to_after] *)

Definition after (a : Apath) (e : IndexEntry) : Prop := Apath.lt a (ie_apath e).

#[export] Instance after_dec a e : Decision (after a e).
Proof. unfold after, Apath.lt, cmp_lt. apply _. Defined.

Lemma filter_all {A : Type} (P : A → Prop) `{∀ x, Decision (P x)} l : Forall P l → filter P l = l.
Proof. induction 1; [done|]. rewrite filter_cons_True by done. by f_equal. Qed.

Lemma filter_none {A : Type} (P : A → Prop) `{∀ x, Decision (P x)} l : Forall (λ x, ¬ P x) l → filter P l = [].
Proof. induction 1; [done|]. by rewrite filter_cons_False. Qed.

(** Dropping the first elements is filtering when they are the ones that fail. *)
Lemma drop_filter {A : Type} (P : A → Prop) `{∀ x, Decision (P x)} n (l : list A) :
  (∀ i x, i < n → l !! i = Some x → ¬ P x) → (∀ i x, n ≤ i → l !! i = Some x → P x) →
  drop n l = filter P l.
Proof.
  intros Hlo Hhi. rewrite <-(take_drop n l) at 2. rewrite filter_app, (filter_none _ (take n l)).
  - simpl. symmetry. apply filter_all. apply Forall_lookup. intros i x Hi.
    rewrite lookup_drop in Hi. eapply Hhi; [|exact Hi]. lia.
  - apply Forall_lookup. intros i x Hi. apply lookup_take_Some in Hi as [Hi Hlt]. by eapply Hlo.
Qed.

Lemma last_least es l a x :
  sorted_entries es → last es = Some l → ¬ after a l → x ∈ es → ¬ after a x.
Proof.
  intros Hs Hl Hna [i Hx]%list_elem_of_lookup. rewrite last_lookup in Hl.
  destruct (decide (i = pred (length es))) as [->|]; [by simplify_eq|].
  assert (i < length es) by (by eapply lookup_lt_Some).
  assert (entry_lt x l) as Hlt.
  { apply (sorted_lookup entry_lt es i (pred (length es)) x l); [done|lia|done|done]. }
  intros Ha. apply Hna. by eapply (cmp_lt_trans (cmp:=Apath.cmp)).
Qed.

Lemma head_greatest es f a x :
  sorted_entries es → head es = Some f → after a f → x ∈ es → after a x.
Proof.
  intros Hs Hf Ha Hx. destruct es as [|f' es]; [done|]. injection Hf as ->.
  apply elem_of_cons in Hx as [->|Hx]; [done|].
  inversion_clear Hs as [|? ? _ Hall]. eapply Forall_forall in Hall; [|exact Hx].
  by eapply (cmp_lt_trans (cmp:=Apath.cmp)).
Qed.

(** Where the binary search leads *)
Lemma drop_after es a :
  sorted_entries es →
  drop (match binary_search_by (λ e, Apath.cmp (ie_apath e) a) es with Ok i => i + 1 | Err i => i end) es
  = filter (after a) es.
Proof.
  intros Hs. pose proof (binary_search_by_spec _ es (sorted_partitioned es a Hs)) as Hb.
  assert (∀ e, Apath.cmp (ie_apath e) a = Gt ↔ after a e) as Hafter by (intros e; apply cmp_gt_iff; apply _).
  destruct (binary_search_by _ es) as [i|i]; apply drop_filter; intros j x Hj Hx; rewrite <-Hafter.
  - destruct Hb as (y & Hy & Heq). destruct (decide (j = i)) as [->|Hne]; [congruence|].
    pose proof (sorted_partitioned es a Hs j i x y ltac:(lia) Hx Hy) as [H1 _]. intros Hg%H1. congruence.
  - destruct Hb as (y & Hy & Heq). apply (cmp_eq_iff (cmp:=Apath.cmp)) in Heq. subst a.
    apply (cmp_gt_iff Apath.cmp). apply (sorted_lookup entry_lt es i j y x); [done|lia|done|done].
  - destruct Hb as (_ & Hb & _). rewrite (Hb j x) by done. done.
  - destruct Hb as (_ & _ & Hb). by apply (Hb j x).
Qed.

(** What one hunk yields under [after] *)
Lemma select_after_spec_aux (es : list IndexEntry) (a : Apath) (Hs : sorted_entries es) :
  match IndexHunkIter.select es (Some a) with
  | Some (out, after') => out = filter (after a) es ∧
                          (after' = Some a ∨ after' = None ∧ Forall (after a) es)
  | None => filter (after a) es = []
  end.
Proof.
  unfold IndexHunkIter.select, IndexHunkIter.apath_le, IndexHunkIter.apath_gt.
  destruct (last es) as [l|] eqn:El.
  2: { apply last_None in El as ->. simpl. split; [done|by left]. }
  destruct (Apath.cmp (ie_apath l) a) eqn:Ecl; cbn iota.
  1,2: apply filter_none, Forall_forall; intros x Hx; eapply last_least; try done;
    unfold after, Apath.lt, cmp_lt; rewrite (cmp_antisym (cmp:=Apath.cmp)), Ecl; done.
  destruct (head es) as [f|] eqn:Ef; [|by destruct es].
  assert (Apath.cmp (ie_apath f) a = Gt → Forall (after a) es) as Hall.
  { intros Hgt%(cmp_gt_iff Apath.cmp). apply Forall_forall. intros x Hx. by eapply head_greatest. }
  destruct (Apath.cmp (ie_apath f) a) eqn:Ecf; cbn iota.
  3: { split; [|by right; auto]. symmetry. by apply filter_all, Hall. }
  all: split; [|by left]; by apply drop_after.
Qed.

(** Resuming after a path: a sorted hunk yields exactly the entries after
    the path, or is skipped when it has none, and the search is over only when
    the whole hunk was after it. *)
Theorem select_after_spec (es : list IndexEntry) (a : Apath) (Hs : sorted_entries es) :
  match IndexHunkIter.select es (Some a) with
  | Some (out, after') => out = filter (after a) es ∧
                          (after' = Some a ∨ after' = None ∧ Forall (after a) es)
  | None => filter (after a) es = []
  end.
Proof. by apply select_after_spec_aux. Qed.

(** Seeking a path in the buffer of a sorted iterator consumes everything up
    to it: the entry is found exactly if it is there, what stays are the entries
    after it, and only a buffer that lies before the path altogether asks for
    another hunk. *)
Theorem advance_buffered_spec (es : list IndexEntry) (p : Apath) (Hs : sorted_entries es) :
  let '(r, rest) := IndexEntryIter.advance_buffered p es in
  rest = filter (after p) es ∧
  match r with
  | Some (Some e) => e ∈ es ∧ ie_apath e = p
  | Some None => (∀ e, e ∈ es → ie_apath e ≠ p) ∧ rest ≠ []
  | None => Forall (λ e, Apath.lt (ie_apath e) p) es
  end.
Proof.
  induction Hs as [|x l Hl IH Hx]; simpl; [done|].
  destruct (Apath.cmp (ie_apath x) p) eqn:E.
  - apply (cmp_eq_iff (cmp:=Apath.cmp)) in E. subst p.
    rewrite filter_cons_False by apply apath_lt_irrefl.
    rewrite filter_all by exact Hx. split; [done|]. split; [by left|done].
  - rewrite filter_cons_False.
    2: { intros Ha. apply (apath_lt_irrefl (ie_apath x)). by eapply (cmp_lt_trans (cmp:=Apath.cmp)). }
    destruct (IndexEntryIter.advance_buffered p l) as [r rest]. destruct IH as [-> Hr]. split; [done|].
    destruct r as [[e|]|].
    + destruct Hr as [Hin ?]. split; [by right|done].
    + destruct Hr as [Hne Hr]. split; [|done]. intros e [->|He]%elem_of_cons; [|by apply Hne].
      intros Heq. rewrite Heq in E. rewrite (cmp_refl Apath.cmp) in E. done.
    + by constructor.
  - apply (cmp_gt_iff Apath.cmp) in E. assert (Forall (after p) (x :: l)) as Hall.
    { constructor; [exact E|]. eapply Forall_impl; [exact Hx|]. intros y Hy.
      by eapply (cmp_lt_trans (cmp:=Apath.cmp)). }
    rewrite filter_all by done. split; [done|]. split; [|done].
    intros e He Heq. eapply Forall_forall in Hall; [|exact He]. unfold after in Hall. rewrite Heq in Hall.
    by apply apath_lt_irrefl in Hall.
Qed.

(** ** Iterating over any source of hunks *)

Lemma foldl_snoc {A : Type} (acc l : list A) : foldl (λ acc e, (acc ++ [e])%list) acc l = (acc ++ l)%list.
Proof.
  revert acc. induction l as [|e l IH]; intros acc; cbn [foldl]; [by rewrite app_nil_r|].
  by rewrite IH, <-app_assoc.
Qed.

Section iteration.
Context `{Ext} `{BuildCfg} {HI : Type} `{!HunkIter HI}.

(** From [w], the source yields the hunks [hs] and ends in [w']. *)
Inductive drains : HI → World → list (list IndexEntry) → World → Prop :=
  | drains_end hi w hi' w' :
      next_hunk hi w = (Ret (None, hi'), w') → drains hi w [] w'
  | drains_hunk hi w h hi' w1 hs w' :
      next_hunk hi w = (Ret (Some h, hi'), w1) → drains hi' w1 hs w' → drains hi w (h :: hs) w'.

(** The entries an iterator is meant to yield *)
Definition is_wanted (subtree : Apath) (exclude : Exclude) (e : IndexEntry) : bool :=
  Apath.is_prefix_of subtree (ie_apath e)
  && negb (globset_is_match (globset exclude) (apath_str (ie_apath e))).

(** Entries that [Exclude::matches] accepts *)
Definition valid_entries (es : list IndexEntry) : Prop :=
  Forall (λ e, Apath.is_valid (apath_str (ie_apath e)) = true) es.

Lemma wanted_run (self : IndexEntryIter HI) e (w : World) :
  Apath.is_valid (apath_str (ie_apath e)) = true →
  IndexEntryIter.wanted self e w = (Ret (is_wanted (ei_subtree self) (ei_exclude self) e), w).
Proof.
  intros Hv. unfold IndexEntryIter.wanted, is_wanted.
  destruct (Apath.is_prefix_of _ _); simpl; [|done].
  by rewrite (bind_run _ _ _ _ _ (matches_run _ _ w Hv)).
Qed.

(** A body that always continues, with a value it computes from the entry *)
Definition pure_body {S} (f : S → IndexEntry → S) : S → IndexEntry → M (result S Error) :=
  λ s e, mret (Ok (f s e)).

Lemma for_buffered_run {S} (f : S → IndexEntry → S) (self : IndexEntryIter HI) s es (w : World) :
  valid_entries es →
  IndexEntryIter.for_buffered self (pure_body f) s es w
  = (Ret (Ok (foldl f s (filter (λ e, is_wanted (ei_subtree self) (ei_exclude self) e = true) es))), w).
Proof.
  intros Hv. revert s. induction Hv as [|e es He Hv IH]; intros s; [done|]. cbn [IndexEntryIter.for_buffered].
  rewrite (bind_run _ _ _ _ _ (wanted_run self e w He)). cbn beta. rewrite filter_cons.
  destruct (is_wanted (ei_subtree self) (ei_exclude self) e); simpl.
  - unfold pure_body at 1. erewrite try_run by done. apply IH.
  - apply IH.
Qed.

Lemma refill_run hi hi' w w' r subtree exclude :
  next_hunk hi w = (Ret (r, hi'), w') →
  IndexEntryIter.refill_entry_buffer_or_warn (MkIndexEntryIter [] hi subtree exclude) w
  = (Ret (match r with Some _ => true | None => false end,
          MkIndexEntryIter (default [] r) hi' subtree exclude), w').
Proof.
  intros Hn. unfold IndexEntryIter.refill_entry_buffer_or_warn. simpl.
  erewrite bind_run by done. rewrite (bind_run _ _ _ _ _ Hn). by destruct r.
Qed.

Lemma for_loop_run {S} (f : S → IndexEntry → S) hs hi w w' fuel buffer subtree exclude s :
  drains hi w hs w' → valid_entries buffer → valid_entries (concat hs) → length hs ≤ fuel →
  IndexEntryIter.for_loop fuel (pure_body f) s (MkIndexEntryIter buffer hi subtree exclude) w
  = (Ret (Ok (foldl f s (filter (λ e, is_wanted subtree exclude e = true) (buffer ++ concat hs)))), w').
Proof.
  intros Hd. revert fuel buffer s.
  induction Hd as [hi w hi' w' Hn|hi w h hi' w1 hs w' Hn Hd IH]; intros fuel buffer s Hb Hv Hf.
  - destruct fuel; cbn [IndexEntryIter.for_loop];
      rewrite (try_run _ _ _ _ _ (for_buffered_run f _ s buffer w Hb));
      rewrite (bind_run _ _ _ _ _ (refill_run hi hi' w w' None subtree exclude Hn));
      simpl; by rewrite app_nil_r.
  - destruct fuel as [|fuel]; simpl in Hf; [lia|]. simpl in Hv. apply Forall_app in Hv as [Hh Hv].
    cbn [IndexEntryIter.for_loop].
    rewrite (try_run _ _ _ _ _ (for_buffered_run f _ s buffer w Hb)).
    rewrite (bind_run _ _ _ _ _ (refill_run hi hi' w w1 (Some h) subtree exclude Hn)).
    cbn iota beta. rewrite IH by (done || lia).
    simpl. by rewrite !filter_app, !foldl_app.
Qed.

Lemma collect_run (hi : HI) (subtree : Apath) (exclude : Exclude) (w w' : World)
    (hs : list (list IndexEntry))
    (Hd : drains hi w hs w') (Hv : valid_entries (concat hs)) (Hb : length hs ≤ hunks_bound hi w) :
  IndexEntryIter.collect (IndexEntryIter.new hi subtree exclude) w
  = (Ret (Ok (filter (λ e, is_wanted subtree exclude e = true) (concat hs))), w').
Proof.
  unfold IndexEntryIter.collect, IndexEntryIter.for_entries.
  erewrite bind_run by done. cbv beta.
  change (λ acc e, mret (Ok (acc ++ [e])%list))
    with (pure_body (λ (acc : list IndexEntry) e, (acc ++ [e])%list)).
  unfold IndexEntryIter.new. rewrite (for_loop_run _ hs _ _ w') by (done || constructor).
  by rewrite foldl_snoc.
Qed.

(** Conversely, what a run that ends well has read and kept *)
Lemma wanted_inv (self : IndexEntryIter HI) e w b w' :
  IndexEntryIter.wanted self e w = (Ret b, w') →
  w' = w ∧ b = is_wanted (ei_subtree self) (ei_exclude self) e.
Proof.
  unfold IndexEntryIter.wanted, is_wanted. destruct (Apath.is_prefix_of _ _); simpl; intros Hr; [|by inv_run Hr].
  destruct (Apath.is_valid (apath_str (ie_apath e))) eqn:Hv.
  - erewrite bind_run in Hr by by apply matches_run. by inv_run Hr.
  - unfold Exclude.matches, Apath.from in Hr. rewrite Hv in Hr. do 3 inv_run Hr.
Qed.

Lemma for_buffered_inv {S} (f : S → IndexEntry → S) (self : IndexEntryIter HI) s buffer w s' w' :
  IndexEntryIter.for_buffered self (pure_body f) s buffer w = (Ret (Ok s'), w') →
  w' = w ∧ s' = foldl f s (filter (λ e, is_wanted (ei_subtree self) (ei_exclude self) e = true) buffer).
Proof.
  revert s. induction buffer as [|e buffer IH]; intros s Hr; cbn [IndexEntryIter.for_buffered] in Hr.
  { by inv_run Hr. }
  inv_run Hr. apply wanted_inv in Hrun as [-> ->]. rewrite filter_cons.
  destruct (is_wanted _ _ e) eqn:Ew; [|by apply IH].
  rewrite decide_True by done. inv_run Hr. unfold pure_body in Hrun. inv_run Hrun. by apply IH in Hr.
Qed.

Lemma refill_inv hi subtree exclude w more self w' :
  IndexEntryIter.refill_entry_buffer_or_warn (MkIndexEntryIter [] hi subtree exclude) w = (Ret (more, self), w') →
  ∃ r hi', next_hunk hi w = (Ret (r, hi'), w') ∧ more = match r with Some _ => true | None => false end ∧
    self = MkIndexEntryIter (default [] r) hi' subtree exclude.
Proof.
  unfold IndexEntryIter.refill_entry_buffer_or_warn. simpl. erewrite bind_run by done. intros Hr.
  inv_run Hr. destruct a as [r hi']. inv_run Hr. exists r, hi'. by destruct r; simplify_eq.
Qed.

Lemma for_loop_inv {S} (f : S → IndexEntry → S) fuel hi subtree exclude buffer s w s' w' :
  IndexEntryIter.for_loop fuel (pure_body f) s (MkIndexEntryIter buffer hi subtree exclude) w = (Ret (Ok s'), w') →
  ∃ hs, drains hi w hs w' ∧
    s' = foldl f s (filter (λ e, is_wanted subtree exclude e = true) (buffer ++ concat hs)).
Proof.
  revert hi buffer s w. induction fuel as [|fuel IH]; intros hi buffer s w Hr;
    cbn [IndexEntryIter.for_loop] in Hr; inv_run Hr; apply for_buffered_inv in Hrun as [-> ->];
    cbn [ei_subtree ei_exclude] in Hr; inv_run Hr; destruct a as [more self];
    apply refill_inv in Hrun as ([h|] & hi' & Hn & -> & ->); cbn iota beta in Hr; try done.
  1, 3: inv_run Hr; exists []; simpl; rewrite app_nil_r; split; [by econstructor|done].
  apply IH in Hr as (hs & Hd & ->). exists (h :: hs). split; [by econstructor|].
  simpl. by rewrite !filter_app, !foldl_app.
Qed.

Lemma collect_inv (hi : HI) subtree exclude w es w' :
  IndexEntryIter.collect (IndexEntryIter.new hi subtree exclude) w = (Ret (Ok es), w') →
  ∃ hs, drains hi w hs w' ∧ es = filter (λ e, is_wanted subtree exclude e = true) (concat hs).
Proof.
  unfold IndexEntryIter.collect, IndexEntryIter.for_entries. erewrite bind_run by done. cbv beta.
  change (λ acc e, mret (Ok (acc ++ [e])%list)) with (pure_body (λ (acc : list IndexEntry) e, (acc ++ [e])%list)).
  intros Hr. apply for_loop_inv in Hr as (hs & Hd & ->). exists hs. by rewrite foldl_snoc.
Qed.

(** Collecting an iterator over entries yields, in order, exactly the entries
    of the hunks of its source that are under the subtree and not excluded, for
    every source whose bound is not less than the number of hunks that come. *)
Theorem collect_exact (hi : HI) (subtree : Apath) (exclude : Exclude) (w w' : World)
    (hs : list (list IndexEntry))
    (Hd : drains hi w hs w') (Hv : valid_entries (concat hs)) (Hb : length hs ≤ hunks_bound hi w) :
  IndexEntryIter.collect (IndexEntryIter.new hi subtree exclude) w
  = (Ret (Ok (filter (λ e, is_wanted subtree exclude e = true) (concat hs))), w').
Proof. by apply collect_run. Qed.
End iteration.

(** ** Writing a hunk and reading it *)

Definition hunk_names (n : N) : list string :=
  [pad_decimal 5 (n / HUNKS_PER_SUBDIR); pad_decimal 9 n].

Lemma hunk_names_valid n : valid_names (hunk_names n).
Proof. repeat constructor; apply pad_decimal_valid_name. Qed.

Lemma hunk_relpath_names n : hunk_relpath n = join_with "/" (hunk_names n).
Proof. done. Qed.

Definition hunk_path (t : Transport) (n : N) : Path := (tr_path t ++ hunk_names n)%list.
Definition hunk_subdir (t : Transport) (n : N) : Path := (tr_path t ++ [subdir_relpath n])%list.

Lemma hunk_path_inj t n m : hunk_path t n = hunk_path t m → n = m.
Proof. unfold hunk_path, hunk_names. intros [= _ H]%app_inv_head. by apply pad_decimal_inj in H. Qed.

Lemma hunk_path_parent t n : parent (hunk_path t n) = hunk_subdir t n.
Proof.
  unfold hunk_path, hunk_names, hunk_subdir.
  change (?p ++ [?a; ?b])%list with (p ++ ([a] ++ [b]))%list. rewrite app_assoc. apply parent_snoc.
Qed.

Lemma hunk_path_not_subdir t n : hunk_path t n ≠ hunk_subdir t n.
Proof. unfold hunk_path, hunk_subdir, hunk_names. by intros [=]%app_inv_head. Qed.

Lemma hunk_subdir_parent t n : parent (hunk_subdir t n) = tr_path t.
Proof. apply parent_snoc. Qed.

Section writing.
Context `{Ext} `{BuildCfg} `{Codecs}.

Lemma sort_entries_run {W} es (w : W) :
  NoDup (ie_apath <$> es) → IndexWriter.sort_entries es w = (Ret (sort_by entry_cmp es), w).
Proof.
  intros Hn. unfold IndexWriter.sort_entries. rewrite bool_decide_true by done.
  by erewrite bind_run by apply debug_assert_true.
Qed.

Lemma check_run {W} (c : CheckOrder.t) a (w : W) :
  (∀ l, CheckOrder.last_apath c = Some l → Apath.lt l a) →
  ∃ c', DebugCheckOrder.check c a w = (Ret c', w) ∧
        (CheckOrder.last_apath c' = Some a ∨ c' = c).
Proof.
  intros Hl. unfold DebugCheckOrder.check. destruct debug_assertions; [|by eauto].
  exists (CheckOrder.Mk (Some a)). split; [|by left]. unfold CheckOrder.check.
  destruct (CheckOrder.last_apath c) as [l|]; [|done].
  specialize (Hl l eq_refl). unfold Apath.lt, cmp_lt in Hl. by rewrite Hl.
Qed.

(** The entries continue the index in order. *)
Definition follows (c : CheckOrder.t) (es : list IndexEntry) : Prop :=
  ∀ l e, CheckOrder.last_apath c = Some l → e ∈ es → Apath.lt l (ie_apath e).

Lemma check_hunk_run {W} (c : CheckOrder.t) es (w : W) :
  es ≠ [] → sorted_entries es → follows c es →
  ∃ c', IndexWriter.check_hunk c es w = (Ret c', w) ∧
    ∀ l, CheckOrder.last_apath c' = Some l → CheckOrder.last_apath c = Some l ∨ ∃ e, e ∈ es ∧ ie_apath e = l.
Proof.
  intros Hn Hs Hf. destruct es as [|x es]; [done|]. unfold IndexWriter.check_hunk.
  erewrite bind_run by (by apply expect_run).
  destruct (check_run c (ie_apath x) w) as (c1 & Hc1 & Hl1).
  { intros l Hl. apply Hf; [done|by left]. }
  rewrite (bind_run _ _ _ _ _ Hc1).
  assert (∀ l, CheckOrder.last_apath c1 = Some l →
    CheckOrder.last_apath c = Some l ∨ ∃ e, e ∈ x :: es ∧ ie_apath e = l) as Hold.
  { intros l Hl. destruct Hl1 as [Hl1| ->]; [|by left]. rewrite Hl in Hl1. injection Hl1 as ->. right. exists x. split; [by left|done]. }
  destruct (Nat.ltb_spec 1 (length (x :: es))) as [Hlen|]; [|by eauto].
  destruct (last (x :: es)) as [y|] eqn:Ey; [|by apply last_None in Ey].
  erewrite bind_run by (by apply expect_run).
  assert (entry_lt x y) as Hxy.
  { rewrite last_lookup in Ey. apply (sorted_lookup entry_lt (x :: es) 0 (pred (length (x :: es)))); try done.
    lia. }
  assert (y ∈ x :: es) as Hy by (rewrite last_lookup in Ey; by eapply list_elem_of_lookup_2).
  destruct (check_run c1 (ie_apath y) w) as (c2 & Hc2 & Hl2).
  - intros l Hl. destruct Hl1 as [Hl1| ->]; [|by apply Hf]. rewrite Hl in Hl1. injection Hl1 as ->. exact Hxy.
  - exists c2. split; [done|]. intros l Hl. destruct Hl2 as [Hl2| ->]; [|by apply Hold].
    rewrite Hl in Hl2. injection Hl2 as ->. right. by exists y.
Qed.

(** The index directory can take hunk [n]. *)
Definition index_ready (w : World) (t : Transport) (n : N) : Prop :=
  is_dir_node (w_fs w !! tr_path t) = true ∧ w_fs w !! hunk_path t n = None ∧
  ((n mod HUNKS_PER_SUBDIR = 0)%N ∧ w_fs w !! hunk_subdir t n = None ∨
   is_dir_node (w_fs w !! hunk_subdir t n) = true).

Lemma make_hunk_dir_run t n (w : World) :
  fault_free w → index_ready w t n →
  ∃ w', (if (n mod HUNKS_PER_SUBDIR =? 0)%N then Transport.create_dir t (subdir_relpath n)
         else mret (Ok tt)) w = (Ret (Ok tt), w')
    ∧ frame w w' ∧ is_dir_node (w_fs w' !! hunk_subdir t n) = true
    ∧ w_fs w' !! hunk_path t n = None
    ∧ (w_fs w' = w_fs w ∨ ∃ m, w_fs w !! hunk_subdir t n = None ∧ w_fs w' = <[hunk_subdir t n := NDir m]> (w_fs w)).
Proof.
  intros Hf (Hd & Hn & Hs). destruct (N.eqb_spec (n mod HUNKS_PER_SUBDIR) 0) as [Hz|Hz].
  2: { exists w. destruct Hs as [[? _]|Hs]; [done|]. split_and!; try done. by left. }
  assert (valid_names [subdir_relpath n]) as Hv by (repeat constructor; apply pad_decimal_valid_name).
  destruct (create_dir_run t (subdir_relpath n) w (names_plain _ Hv) Hf) as (w' & fs' & Hr & Hfs & Hfr & ->).
  assert (path_join (tr_path t) (subdir_relpath n) = hunk_subdir t n) as Hj by apply (path_join_names _ _ Hv).
  rewrite Hj in Hr, Hfs. exists w'. rewrite tr_create_dir, Hr, Hfs. clear Hr Hfs. unfold fs_create.
  pose proof (hunk_path_not_subdir t n) as Hne.
  destruct (w_fs w !! hunk_subdir t n) as [nd|] eqn:En.
  - destruct Hs as [[_ ?]|Hs]; [done|]. rewrite En. split_and!; try done. by left.
  - rewrite hunk_subdir_parent, Hd. rewrite lookup_insert_eq, lookup_insert_ne by done.
    split_and!; try done. right. by eexists.
Qed.

Lemma read_hunk_disk (index : IndexRead) n (w : World) c m json es :
  fault_free w → w_fs w !! hunk_path (ir_transport index) n = Some (NFile c m) →
  snap_decompress c = Some json → from_json json = Some es →
  ∃ index' w', IndexRead.read_hunk index n w = (Ret (Ok (Some es), index'), w') ∧ w_fs w' = w_fs w ∧ frame w w'.
Proof.
  intros Hf Hn Hc Hj. unfold IndexRead.read_hunk. rewrite hunk_relpath_names.
  destruct (read_file_run (ir_transport index) _ w (names_plain _ (hunk_names_valid n)) Hf) as (w' & Hr & Hfs & Hfr).
  rewrite path_join_names in Hr by apply hunk_names_valid.
  change (_ ++ hunk_names n)%list with (hunk_path (ir_transport index) n) in Hr.
  rewrite tr_read_file, (bind_run _ _ _ _ _ Hr). unfold fs_read_file. rewrite Hn. simpl.
  unfold decompress. rewrite Hc. simpl. rewrite Hj. by eexists _, w'.
Qed.

Lemma finish_hunk_nonempty iw :
  iw_entries iw ≠ [] →
  IndexWriter.finish_hunk iw =
    (es ← IndexWriter.sort_entries (iw_entries iw);
     c ← IndexWriter.check_hunk (iw_check_order iw) es;
     IndexWriter.write_hunk (IndexWriter.with_check_order c (IndexWriter.with_entries es iw))).
Proof. intros Hne. unfold IndexWriter.finish_hunk. by destruct (iw_entries iw). Qed.

(** Finishing a hunk: the sorted entries are written as the next hunk, nothing else
    changes but that its directory may be new, and the writer goes on after them. *)
Lemma finish_hunk_run (iw : IndexWriter) (json c : string) (w : World) :
  let t := iw_transport iw in let n := iw_sequence iw in
  fault_free w → iw_entries iw ≠ [] → NoDup (ie_apath <$> iw_entries iw) →
  follows (iw_check_order iw) (iw_entries iw) → index_ready w t n → (n < u32_max)%N →
  to_json (sort_by entry_cmp (iw_entries iw)) = Some json → snap_compress json = Some c →
  ∃ c' m w', IndexWriter.finish_hunk iw w
      = (Ret (Ok tt, MkIndexWriter t [] (n + 1) (iw_hunks_written iw + 1) c'), w') ∧ frame w w' ∧
    (∀ l, CheckOrder.last_apath c' = Some l →
       CheckOrder.last_apath (iw_check_order iw) = Some l ∨ ∃ e, e ∈ iw_entries iw ∧ ie_apath e = l) ∧
    w_fs w' !! hunk_path t n = Some (NFile c m) ∧ is_dir_node (w_fs w' !! hunk_subdir t n) = true ∧
    (∀ p, p ≠ hunk_path t n → p ≠ hunk_subdir t n → w_fs w' !! p = w_fs w !! p) ∧
    (fs_closed (w_fs w) → fs_closed (w_fs w')).
Proof.
  cbv zeta. set (es := sort_by entry_cmp (iw_entries iw)). set (t := iw_transport iw). set (n := iw_sequence iw).
  intros Hf Hne Hnd Hord Hready Hseq Hjson Hc.
  assert (es ≡ₚ iw_entries iw) as Hperm by apply sort_by_perm.
  assert (sorted_entries es) as Hsort by by apply sort_entries_sorted.
  assert (es ≠ []) as Hes by (intros Hz; apply Hne, Permutation_nil; by rewrite <-Hperm, Hz).
  destruct (check_hunk_run (iw_check_order iw) es w Hes Hsort) as (c' & Hchk & Hlast).
  { intros l e Hl He. apply Hord; [done|]. by rewrite <-Hperm. }
  destruct (make_hunk_dir_run t n w Hf Hready) as (w1 & Hmk & Hfr1 & Hsd & Hn1 & Hfs1).
  pose proof (fault_free_frame _ _ Hfr1 Hf) as Hf1.
  pose proof (path_join_names (tr_path t) _ (hunk_names_valid n)) as Hj.
  change (_ ++ hunk_names n)%list with (hunk_path t n) in Hj.
  destruct (write_new_run t _ c w1 (names_plain _ (hunk_names_valid n)) Hf1) as (w2 & m & Hw & Hfs2 & Hfr2).
  { by rewrite Hj. }
  { by rewrite Hj, hunk_path_parent. }
  rewrite Hj in Hfs2. pose proof (hunk_path_not_subdir t n) as Hsub.
  eexists c', m, _. split; [|split; [|split; [|split; [|split; [|split]]]]].
  - rewrite finish_hunk_nonempty by done.
    rewrite (bind_run _ _ _ _ _ (sort_entries_run (iw_entries iw) w Hnd)). fold es.
    rewrite (bind_run _ _ _ _ _ Hchk).
    unfold IndexWriter.write_hunk, IndexWriter.with_check_order, IndexWriter.with_entries.
    cbn [iw_entries iw_sequence iw_transport iw_hunks_written iw_check_order].
    rewrite Hjson. fold n t. rewrite (bind_run _ _ _ _ _ Hmk). unfold compress. rewrite Hc. cbn [ok_or]. cbv beta iota zeta.
    rewrite hunk_relpath_names, tr_write_file, (bind_run _ _ _ _ _ Hw). cbn iota.
    do 3 erewrite bind_run by apply modify_run.
    unfold add_u32. destruct (N.leb_spec (n + 1) u32_max) as [_|]; [|lia]. by erewrite bind_run by done.
  - etrans; [exact Hfr1|]. etrans; [exact Hfr2|]. done.
  - intros l [?|(e & He & ?)]%Hlast; [by left|right]. exists e. by rewrite <-Hperm.
  - cbn. rewrite Hfs2. apply lookup_insert_eq.
  - cbn. by rewrite Hfs2, lookup_insert_ne.
  - intros p Hp Hp'. cbn. rewrite Hfs2, lookup_insert_ne by done.
    destruct Hfs1 as [-> |(md & _ & ->)]; [done|]. by rewrite lookup_insert_ne.
  - cbn. rewrite Hfs2. intros Hcl. apply fs_closed_insert; [|done|unfold hunk_path, hunk_names; by destruct (tr_path t)|by rewrite hunk_path_parent].
    destruct Hfs1 as [-> |(md & Hno & ->)]; [done|]. destruct Hready as (Hd & _).
    apply fs_closed_insert; [done|done|unfold hunk_subdir; by destruct (tr_path t)|by rewrite hunk_subdir_parent].
Qed.

(** C14: a finished hunk can be read back: without failures, entries of distinct
    paths that come after everything written before are written as the next
    hunk, the writer is left empty with its counts advanced, and reading that
    hunk gives the same entries in strictly increasing order. *)
Theorem finish_hunk_then_read `{!SnapLaws} `{!CodecLaws} (iw : IndexWriter) (json c : string) (w : World)
    (Hf : fault_free w) (Hne : iw_entries iw ≠ []) (Hnd : NoDup (ie_apath <$> iw_entries iw))
    (Hord : follows (iw_check_order iw) (iw_entries iw))
    (Hready : index_ready w (iw_transport iw) (iw_sequence iw))
    (Hseq : (iw_sequence iw < u32_max)%N)
    (Hjson : to_json (sort_by entry_cmp (iw_entries iw)) = Some json)
    (Hc : snap_compress json = Some c) :
  ∃ iw' w' es, IndexWriter.finish_hunk iw w = (Ret (Ok tt, iw'), w') ∧
    iw_entries iw' = [] ∧ iw_sequence iw' = (iw_sequence iw + 1)%N ∧
    iw_hunks_written iw' = (iw_hunks_written iw + 1)%N ∧
    es ≡ₚ iw_entries iw ∧ sorted_entries es ∧
    ∀ index w2, ir_transport index = iw_transport iw → w_fs w2 = w_fs w' → fault_free w2 →
      ∃ index' w3, IndexRead.read_hunk index (iw_sequence iw) w2 = (Ret (Ok (Some es), index'), w3).
Proof.
  destruct (finish_hunk_run iw json c w Hf Hne Hnd Hord Hready Hseq Hjson Hc)
    as (c' & m & w' & Hr & Hfr & _ & Hp & _).
  eexists _, w', (sort_by entry_cmp (iw_entries iw)). split; [exact Hr|]. do 3 (split; [done|]).
  split; [apply sort_by_perm|]. split; [by apply sort_entries_sorted|]. intros index w2 Ht Hfs2 Hf2.
  destruct (read_hunk_disk index (iw_sequence iw) w2 c m json (sort_by entry_cmp (iw_entries iw))) as (index' & w3 & Hr3 & _);
    [done|by rewrite Ht, Hfs2|by apply snap_round_trip|by apply json_round_trip|]. by eauto.
Qed.
End writing.

(** ** Reading an index changes nothing *)

Section reading.
Context `{Ext} `{BuildCfg} `{Codecs} (R : relation World) `{!Looking R}.

Lemma read_hunk_reading index n : respects R (IndexRead.read_hunk index n).
Proof. unfold IndexRead.read_hunk. solve_reading. Qed.

Lemma hunks_available_reading index : respects R (IndexRead.hunks_available index).
Proof. unfold IndexRead.hunks_available. solve_reading. Qed.

Lemma iter_available_hunks_reading index : respects R (IndexHunkIter.iter_available_hunks index).
Proof. unfold IndexHunkIter.iter_available_hunks. pose proof hunks_available_reading. solve_reading. Qed.

Lemma hunk_iter_next_reading it : respects R (IndexHunkIter.next it).
Proof.
  unfold IndexHunkIter.next. destruct it as [hunks index a]. simpl. revert index a.
  pose proof read_hunk_reading.
  induction hunks as [|n hunks IH]; intros index a; cbn [IndexHunkIter.next_loop]; solve_reading; apply IH.
Qed.
End reading.

#[export] Hint Resolve read_hunk_reading hunks_available_reading iter_available_hunks_reading
  hunk_iter_next_reading : reading.

(** Writing one only adds files. *)
Section writing_respects.
Context `{Ext} `{BuildCfg} `{Codecs}.

Lemma finish_hunk_respects P iw : respects (fs_rel (preserves P)) (IndexWriter.finish_hunk iw).
Proof.
  unfold IndexWriter.finish_hunk, IndexWriter.sort_entries, IndexWriter.check_hunk, IndexWriter.write_hunk,
    DebugCheckOrder.check, CheckOrder.check, debug_assert, add_u32. solve_respects.
Qed.

Lemma finish_respects P iw : respects (fs_rel (preserves P)) (IndexWriter.finish iw).
Proof. unfold IndexWriter.finish. pose proof finish_hunk_respects. solve_respects. Qed.

Lemma finish_hunk_terminates iw : terminates (IndexWriter.finish_hunk iw).
Proof.
  unfold IndexWriter.finish_hunk, IndexWriter.sort_entries, IndexWriter.check_hunk, IndexWriter.write_hunk,
    DebugCheckOrder.check, CheckOrder.check, add_u32. solve_terminates.
Qed.

Lemma read_hunk_terminates index n : terminates (IndexRead.read_hunk index n).
Proof. unfold IndexRead.read_hunk. solve_terminates. Qed.

Lemma hunks_available_terminates index : terminates (IndexRead.hunks_available index).
Proof. unfold IndexRead.hunks_available. solve_terminates. Qed.

Hint Resolve read_hunk_terminates hunks_available_terminates : terminates.

Lemma iter_available_hunks_terminates index : terminates (IndexHunkIter.iter_available_hunks index).
Proof. unfold IndexHunkIter.iter_available_hunks. solve_terminates. Qed.

Lemma hunk_iter_next_terminates it : terminates (IndexHunkIter.next it).
Proof.
  unfold IndexHunkIter.next. destruct it as [hunks index a]. simpl. revert index a.
  induction hunks as [|n hunks IH]; intros index a; cbn [IndexHunkIter.next_loop]; [apply terminates_ret|].
  solve_terminates; apply IH.
Qed.
End writing_respects.

#[export] Hint Resolve finish_hunk_respects finish_respects : respects.
#[export] Hint Resolve finish_hunk_terminates read_hunk_terminates hunks_available_terminates
  iter_available_hunks_terminates hunk_iter_next_terminates : terminates.

(** ** What a source of hunks promises *)

(** The laws of [HunkIter]: asking for a hunk ends, only reads, and each
    hunk lowers the bound, which depends on the file system alone. *)
Class HunkIterLaws `{Ext} `{BuildCfg} (HI : Type) `{!HunkIter HI} : Prop := {
  next_hunk_terminates : ∀ hi, terminates (next_hunk hi);
  next_hunk_reading : ∀ R, Reading R → ∀ hi, respects R (next_hunk hi);
  next_hunk_bound : ∀ hi w h hi' w', next_hunk hi w = (Ret (Some h, hi'), w') →
    S (hunks_bound hi' w') ≤ hunks_bound hi w;
  hunks_bound_fs : ∀ hi w w', w_fs w = w_fs w' → hunks_bound hi w = hunks_bound hi w'
}.

Lemma hunk_iter_next_shorter `{Ext} `{BuildCfg} `{Codecs} hunks index a w h it w' :
  IndexHunkIter.next_loop hunks index a w = (Ret (Some h, it), w') →
  S (length (hi_hunks it)) ≤ length hunks.
Proof.
  revert index a w. induction hunks as [|n hunks IH]; intros index a w; cbn [IndexHunkIter.next_loop].
  { intros Hr. inv_run Hr. }
  intros Hr. inv_run Hr. destruct a0 as [[[es|]|e] index'].
  - destruct (IndexHunkIter.select es a) as [[out a']|].
    + inv_run Hr. simpl. lia.
    + apply IH in Hr. simpl. lia.
  - inv_run Hr.
  - apply IH in Hr. simpl. lia.
Qed.

#[export] Instance index_hunk_iter_laws `{Ext} `{BuildCfg} `{Codecs} : HunkIterLaws IndexHunkIter.
Proof.
  split; simpl.
  - apply hunk_iter_next_terminates.
  - intros R HR hi. apply hunk_iter_next_reading, _.
  - intros hi w h hi' w'. apply hunk_iter_next_shorter.
  - done.
Qed.

Section termination.
Context `{Ext} `{BuildCfg} {HI : Type} `{!HunkIter HI, !HunkIterLaws HI}.

Lemma wanted_reading R `{!Reading R} (self : IndexEntryIter HI) e : respects R (IndexEntryIter.wanted self e).
Proof. unfold IndexEntryIter.wanted. solve_reading. Qed.

Lemma wanted_terminates (self : IndexEntryIter HI) e : terminates (IndexEntryIter.wanted self e).
Proof. unfold IndexEntryIter.wanted, Exclude.matches, Apath.from. solve_terminates. Qed.

Lemma refill_reading R `{!Reading R} (self : IndexEntryIter HI) :
  respects R (IndexEntryIter.refill_entry_buffer_or_warn self).
Proof.
  unfold IndexEntryIter.refill_entry_buffer_or_warn. pose proof next_hunk_reading. solve_reading.
Qed.

Lemma refill_terminates (self : IndexEntryIter HI) :
  terminates (IndexEntryIter.refill_entry_buffer_or_warn self).
Proof.
  unfold IndexEntryIter.refill_entry_buffer_or_warn. pose proof next_hunk_terminates. solve_terminates.
Qed.

(** A refill that finds a hunk lowers the bound. *)
Lemma refill_bound (self : IndexEntryIter HI) w self' w' :
  IndexEntryIter.refill_entry_buffer_or_warn self w = (Ret (true, self'), w') →
  S (hunks_bound (ei_hunk_iter self') w') ≤ hunks_bound (ei_hunk_iter self) w.
Proof.
  unfold IndexEntryIter.refill_entry_buffer_or_warn. intros Hr. inv_run Hr.
  assert (w = w0) as <-.
  { destruct (ei_buffered_entries self); [by apply ret_inv in Hrun as [_ ->]|done]. }
  inv_run Hr. destruct a0 as [[h|] hi']; inv_run Hr. simpl. by eapply next_hunk_bound.
Qed.

Lemma next_buffered_terminates (self : IndexEntryIter HI) buffer :
  terminates (IndexEntryIter.next_buffered self buffer).
Proof.
  induction buffer; cbn [IndexEntryIter.next_buffered]; [done|].
  pose proof wanted_terminates. solve_terminates.
Qed.

Lemma next_buffered_reading R `{!Reading R} (self : IndexEntryIter HI) buffer :
  respects R (IndexEntryIter.next_buffered self buffer).
Proof.
  induction buffer; cbn [IndexEntryIter.next_buffered]; [by apply respects_ret; apply _|].
  pose proof wanted_reading. solve_reading.
Qed.

(** The value after a step that does not exhaust a bound *)
Lemma bind_terminates_at {A B} (m : M A) (k : A → M B) w :
  (m w).1 ≠ NoFuel → (∀ a w', m w = (Ret a, w') → (k a w').1 ≠ NoFuel) → ((m ≫= k) w).1 ≠ NoFuel.
Proof.
  intros Hm Hk. unfold mbind, ST_bind. destruct (m w) as [[a| | |] w'] eqn:E; simpl in *; auto.
Qed.

Lemma next_loop_terminates fuel (self : IndexEntryIter HI) w :
  hunks_bound (ei_hunk_iter self) w ≤ fuel → (IndexEntryIter.next_loop fuel self w).1 ≠ NoFuel.
Proof.
  revert self w. induction fuel as [|fuel IH]; intros self w Hb; cbn [IndexEntryIter.next_loop];
    (apply bind_terminates_at; [apply next_buffered_terminates|]);
    intros [[e|] buffer] w1 H1; try done;
    pose proof (next_buffered_reading (fs_rel same_fs) self (ei_buffered_entries self) w) as Hfs;
    rewrite H1 in Hfs; unfold fs_rel, same_fs in Hfs; simpl in Hfs;
    (apply bind_terminates_at; [apply refill_terminates|]);
    intros [[] self'] w2 H2; try done;
    apply refill_bound in H2; simpl in H2;
    rewrite (hunks_bound_fs (ei_hunk_iter self) w1 w) in H2 by done; [lia|apply IH; lia].
Qed.

Lemma advance_loop_terminates fuel (self : IndexEntryIter HI) p w :
  hunks_bound (ei_hunk_iter self) w ≤ fuel → (IndexEntryIter.advance_loop fuel self p w).1 ≠ NoFuel.
Proof.
  revert self w. induction fuel as [|fuel IH]; intros self w Hb; cbn [IndexEntryIter.advance_loop];
    destruct (IndexEntryIter.advance_buffered p (ei_buffered_entries self)) as [[r|] buffer]; try done;
    (apply bind_terminates_at; [apply refill_terminates|]);
    intros [[] self'] w2 H2; try done; apply refill_bound in H2; simpl in H2; [lia|apply IH; lia].
Qed.

(** A loop body that ends and does not make room for more hunks *)
Definition steady {S} (body : S → IndexEntry → M (result S Error)) : Prop :=
  (∀ s e, terminates (body s e)) ∧
  (∀ s e w (hi : HI), hunks_bound hi (body s e w).2 ≤ hunks_bound hi w).

Lemma for_buffered_terminates {S} (body : S → IndexEntry → M (result S Error))
    (self : IndexEntryIter HI) s buffer :
  steady body → terminates (IndexEntryIter.for_buffered self body s buffer).
Proof.
  intros [Hb _]. revert s. pose proof wanted_terminates.
  induction buffer; intros s; cbn [IndexEntryIter.for_buffered]; [done|]. solve_terminates.
Qed.

Lemma for_buffered_steady {S} (body : S → IndexEntry → M (result S Error))
    (self : IndexEntryIter HI) s buffer w (hi : HI) :
  steady body →
  hunks_bound hi (IndexEntryIter.for_buffered self body s buffer w).2 ≤ hunks_bound hi w.
Proof.
  intros [_ Hb].
  assert (PreOrder (λ w w', hunks_bound hi w' ≤ hunks_bound hi w)) as HR by (split; [by intros ?|intros ???; lia]).
  assert (respects (λ w w', hunks_bound hi w' ≤ hunks_bound hi w)
    (IndexEntryIter.for_buffered self body s buffer)) as Hr; [|apply Hr].
  assert (∀ s e, respects (λ w w', hunks_bound hi w' ≤ hunks_bound hi w) (body s e)) by (intros s' e w'; apply Hb).
  assert (∀ e, respects (λ w w', hunks_bound hi w' ≤ hunks_bound hi w) (IndexEntryIter.wanted self e)).
  { intros e w'. rewrite (hunks_bound_fs hi _ w'); [done|]. symmetry. apply (wanted_reading (fs_rel same_fs)). }
  revert s. induction buffer; intros s; cbn [IndexEntryIter.for_buffered]; solve_respects.
Qed.

Lemma for_loop_terminates {S} (body : S → IndexEntry → M (result S Error)) fuel
    (self : IndexEntryIter HI) s w :
  steady body → hunks_bound (ei_hunk_iter self) w ≤ fuel →
  (IndexEntryIter.for_loop fuel body s self w).1 ≠ NoFuel.
Proof.
  intros Hs. revert self s w. induction fuel as [|fuel IH]; intros self s w Hb;
    cbn [IndexEntryIter.for_loop]; unfold try;
    (apply bind_terminates_at; [by apply for_buffered_terminates|]);
    intros [s'|e] w1 H1; try done;
    pose proof (for_buffered_steady body self s (ei_buffered_entries self) w (ei_hunk_iter self) Hs) as Hle;
    rewrite H1 in Hle; simpl in Hle;
    (apply bind_terminates_at; [apply refill_terminates|]);
    intros [[] self'] w2 H2; try done; apply refill_bound in H2; simpl in H2; [lia|apply IH; lia].
Qed.

(** Iterating over the entries of an index always comes to an end: for every
    lawful source of hunks, under every schedule of failures, taking the next
    entry, seeking a path, and running a loop whose body ends and adds no hunks
    never exhaust the bounds of the model. *)
Theorem entry_iteration_terminates (self : IndexEntryIter HI) (p : Apath) (w : World) :
  (IndexEntryIter.next self w).1 ≠ NoFuel ∧
  (IndexEntryIter.advance_to self p w).1 ≠ NoFuel ∧
  ∀ S (body : S → IndexEntry → M (result S Error)) (s : S), steady body →
    (IndexEntryIter.for_entries body s self w).1 ≠ NoFuel.
Proof.
  split; [|split].
  - unfold IndexEntryIter.next. erewrite bind_run by done. by apply next_loop_terminates.
  - unfold IndexEntryIter.advance_to. erewrite bind_run by done. by apply advance_loop_terminates.
  - intros S body s Hs. unfold IndexEntryIter.for_entries. erewrite bind_run by done.
    by apply for_loop_terminates.
Qed.
End termination.

(** ** What iterating over entries leaves alone *)

Section iteration_respects.
Context `{Ext} `{BuildCfg} {HI : Type} `{!HunkIter HI, !HunkIterLaws HI} (R : relation World) `{!Reading R}.

Hint Resolve refill_reading wanted_reading next_buffered_reading : reading.

Lemma entry_iter_next_reading (self : IndexEntryIter HI) : respects R (IndexEntryIter.next self).
Proof.
  unfold IndexEntryIter.next. apply respects_bind; [apply _|apply respects_gets; apply _|].
  intros fuel. revert self.
  induction fuel as [|fuel IH]; intros self; cbn [IndexEntryIter.next_loop]; solve_reading; apply IH.
Qed.

Lemma advance_to_reading (self : IndexEntryIter HI) p : respects R (IndexEntryIter.advance_to self p).
Proof.
  unfold IndexEntryIter.advance_to. apply respects_bind; [apply _|apply respects_gets; apply _|].
  intros fuel. revert self.
  induction fuel as [|fuel IH]; intros self; cbn [IndexEntryIter.advance_loop];
    destruct (IndexEntryIter.advance_buffered p (ei_buffered_entries self)) as [[r|] buffer];
    solve_reading; apply IH.
Qed.

(** A loop respects what its body respects. *)
Lemma for_entries_reading {S} (body : S → IndexEntry → M (result S Error)) s (self : IndexEntryIter HI) :
  (∀ s e, respects R (body s e)) → respects R (IndexEntryIter.for_entries body s self).
Proof.
  intros Hb. unfold IndexEntryIter.for_entries.
  apply respects_bind; [apply _|apply respects_gets; apply _|]. intros fuel.
  assert (∀ (self : IndexEntryIter HI) s buffer, respects R (IndexEntryIter.for_buffered self body s buffer)).
  { intros self' s' buffer. revert s'. induction buffer; intros s'; cbn [IndexEntryIter.for_buffered]; solve_reading. }
  revert self s. induction fuel as [|fuel IH]; intros self s; cbn [IndexEntryIter.for_loop];
    solve_reading; apply IH.
Qed.
End iteration_respects.

#[export] Hint Resolve entry_iter_next_reading advance_to_reading : reading.

(** ** Loops whose body relies on the entries being valid *)

Section guarded.
Context `{Ext} `{BuildCfg} {HI : Type} `{!HunkIter HI, !HunkIterLaws HI} (R : relation World) `{!Reading R}.
Context {S : Type} (P : S → Prop).

(** Every run stays in [R], and a value that it yields satisfies [P]. *)
Definition guarded (m : M (result S Error)) : Prop :=
  ∀ w, R w (m w).2 ∧ ∀ s, (m w).1 = Ret (Ok s) → P s.

Lemma guarded_ok s : P s → guarded (mret (Ok s)).
Proof. intros Hs w. split; [reflexivity|]. by intros s' [= <-]. Qed.

Lemma guarded_bind {A} (m : M A) (k : A → M (result S Error)) :
  respects R m → (∀ a w w', m w = (Ret a, w') → guarded (k a)) → guarded (m ≫= k).
Proof.
  intros Hm Hk w. specialize (Hm w). unfold mbind, ST_bind. destruct (m w) as [[a| | |] w'] eqn:E; simpl in *.
  - destruct (Hk a w w' E w') as [Hr Hp]. split; [by etrans|done].
  - by split.
  - by split.
  - by split.
Qed.

Lemma guarded_try (m : M (result S Error)) (k : S → M (result S Error)) :
  guarded m → (∀ s, P s → guarded (k s)) → guarded (try m k).
Proof.
  intros Hm Hk w. specialize (Hm w) as [Hr Hp]. unfold try, mbind, ST_bind.
  destruct (m w) as [[[s|e]| | |] w'] eqn:E; simpl in *; try by split.
  destruct (Hk s (Hp s eq_refl) w') as [Hr' Hp']. split; [by etrans|done].
Qed.

Lemma wanted_true_valid (self : IndexEntryIter HI) e (w w' : World) :
  IndexEntryIter.wanted self e w = (Ret true, w') → Apath.is_valid (apath_str (ie_apath e)) = true.
Proof.
  unfold IndexEntryIter.wanted. destruct (negb _); [by intros Hr; inv_run Hr|].
  intros Hr. inv_run Hr. by apply matches_ret_inv in Hrun as (? & _).
Qed.

Section body.
Context (body : S → IndexEntry → M (result S Error))
  (Hb : ∀ s e, P s → Apath.is_valid (apath_str (ie_apath e)) = true → guarded (body s e)).

Lemma for_buffered_guarded (self : IndexEntryIter HI) s buffer :
  P s → guarded (IndexEntryIter.for_buffered self body s buffer).
Proof.
  revert s. induction buffer as [|e buffer IH]; intros s' Hs'; cbn [IndexEntryIter.for_buffered];
    [by apply guarded_ok|].
  apply guarded_bind; [apply (wanted_reading R)|]. intros [] w1 w2 Hw; [|by apply IH].
  apply guarded_try; [|by intros; apply IH]. apply Hb; [done|]. by eapply wanted_true_valid.
Qed.

Lemma for_entries_guarded s (self : IndexEntryIter HI) : P s → guarded (IndexEntryIter.for_entries body s self).
Proof.
  intros Hs. unfold IndexEntryIter.for_entries. pose proof for_buffered_guarded.
  apply guarded_bind; [apply respects_gets; apply _|]. intros fuel _ _ _.
  revert self s Hs. induction fuel as [|fuel IH]; intros self s Hs; cbn [IndexEntryIter.for_loop];
    (apply guarded_try; [auto|]); intros s' Hs';
    (apply guarded_bind; [apply (refill_reading R)|]); intros [[] self'] w1 w2 _; try by apply guarded_ok.
  - intros w. by split.
  - by apply IH.
Qed.
End body.
End guarded.

(** A loop ends when a measure of the source of hunks bounds it, for as long as the body
    keeps what the measure depends on. *)
Section measured.
Context `{Ext} `{BuildCfg} {HI : Type} `{!HunkIter HI, !HunkIterLaws HI} {S : Type}.
Context (K : S → Prop) (J : HI → Prop) (P : Fs → Prop) (measure : HI → nat).
Context (body : S → IndexEntry → M (result S Error)).

#[local] Abbreviation Keeps := (fs_rel (λ fs fs', P fs → P fs')).

#[local] Instance keeping_preorder : PreOrder (λ fs fs' : Fs, P fs → P fs').
Proof. split; [by intros fs|]. intros a b c Hab Hbc Ha. auto. Qed.

Context (Hnext : ∀ hi w h hi' w', J hi → P (w_fs w) → next_hunk hi w = (Ret (Some h, hi'), w') →
           J hi' ∧ measure hi' < measure hi)
  (Hends : ∀ s e, terminates (body s e))
  (Hbody : ∀ s e, K s → Apath.is_valid (apath_str (ie_apath e)) = true → guarded Keeps K (body s e)).

Lemma for_loop_ends fuel (self : IndexEntryIter HI) s w :
  K s → J (ei_hunk_iter self) → P (w_fs w) → measure (ei_hunk_iter self) ≤ fuel →
  (IndexEntryIter.for_loop fuel body s self w).1 ≠ NoFuel.
Proof.
  assert (∀ (self : IndexEntryIter HI) s buffer, terminates (IndexEntryIter.for_buffered self body s buffer)) as Hbt.
  { intros self' s' buffer. revert s'. pose proof (wanted_terminates self').
    induction buffer; intros s'; cbn [IndexEntryIter.for_buffered]; solve_terminates. }
  revert self s w. induction fuel as [|fuel IH]; intros self s w HK HJ HP Hm; cbn [IndexEntryIter.for_loop]; unfold try;
    (apply bind_terminates_at; [apply Hbt|]); intros [s'|e] w1 H1; try done;
    destruct (for_buffered_guarded Keeps K body Hbody self s (ei_buffered_entries self) HK w) as [HP1 HK1];
    rewrite H1 in HP1, HK1; specialize (HP1 HP); cbn [fst snd] in HP1, HK1;
    (apply bind_terminates_at; [apply refill_terminates|]); intros [[] self'] w2 H2; try done;
    apply refill_inv in H2 as ([h|] & hi' & H2 & ? & ->); try done;
    pose proof (Hnext _ _ _ _ _ HJ HP1 H2) as [HJ' Hm']; [lia|].
  apply IH; [by apply HK1|done| |cbn; lia].
  pose proof (next_hunk_reading Keeps _ (ei_hunk_iter self) w1) as Hr. rewrite H2 in Hr. by apply Hr.
Qed.
End measured.

(** ** Examples *)

#[local] Existing Instances sample_ext sample_build sample_codecs sample_codec_laws sample_snap_laws.

Definition sample_entries : list IndexEntry := [sample_entry "/a"; sample_entry "/b"; sample_entry "/b/c"].

Lemma sample_entries_sorted : sorted_entries sample_entries.
Proof. repeat constructor. Qed.

Lemma select_after_spec_witness :
  match IndexHunkIter.select sample_entries (Some (MkApath "/a")) with
  | Some (out, after') => out = filter (after (MkApath "/a")) sample_entries ∧
      (after' = Some (MkApath "/a") ∨ after' = None ∧ Forall (after (MkApath "/a")) sample_entries)
  | None => filter (after (MkApath "/a")) sample_entries = []
  end.
Proof. apply (select_after_spec sample_entries (MkApath "/a")). apply sample_entries_sorted. Defined.

Lemma advance_buffered_spec_witness :
  let '(r, rest) := IndexEntryIter.advance_buffered (MkApath "/b") sample_entries in
  rest = filter (after (MkApath "/b")) sample_entries ∧
  match r with
  | Some (Some e) => e ∈ sample_entries ∧ ie_apath e = MkApath "/b"
  | Some None => (∀ e, e ∈ sample_entries → ie_apath e ≠ MkApath "/b") ∧ rest ≠ []
  | None => Forall (λ e, Apath.lt (ie_apath e) (MkApath "/b")) sample_entries
  end.
Proof. apply (advance_buffered_spec sample_entries (MkApath "/b")). apply sample_entries_sorted. Defined.

Definition sample_writer : IndexWriter :=
  MkIndexWriter sample_transport [sample_entry "/b"] 0 0 CheckOrder.new.

Definition sample_json : string := "/b".

Lemma finish_hunk_then_read_witness :
  ∃ iw' w' es, IndexWriter.finish_hunk sample_writer (world_of empty_archive_fs) = (Ret (Ok tt, iw'), w') ∧
    iw_entries iw' = [] ∧ iw_sequence iw' = 1%N ∧ iw_hunks_written iw' = 1%N ∧
    es ≡ₚ [sample_entry "/b"] ∧ sorted_entries es ∧
    ∀ index w2, ir_transport index = sample_transport → w_fs w2 = w_fs w' → fault_free w2 →
      ∃ index' w3, IndexRead.read_hunk index 0 w2 = (Ret (Ok (Some es), index'), w3).
Proof.
  apply (finish_hunk_then_read sample_writer sample_json (String "z" sample_json) (world_of empty_archive_fs)).
  - done.
  - done.
  - apply NoDup_singleton.
  - by intros l e [=].
  - split; [reflexivity|]. split; [reflexivity|]. left. by split.
  - reflexivity.
  - reflexivity.
  - reflexivity.
Defined.

(** One stored hunk *)
Definition sample_index_fs : Fs :=
  <[ hunk_path sample_transport 0 := NFile "z/a,/b,/b/c" sample_meta ]>
    (<[ hunk_subdir sample_transport 0 := NDir sample_meta ]> empty_archive_fs).

Definition sample_hunk_iter : IndexHunkIter :=
  MkIndexHunkIter [0%N] (IndexRead.open sample_transport) None.

Lemma sample_drains : ∃ w', drains sample_hunk_iter (world_of sample_index_fs) [sample_entries] w'.
Proof.
  destruct (read_hunk_disk (IndexRead.open sample_transport) 0 (world_of sample_index_fs)
    "z/a,/b,/b/c" sample_meta "/a,/b,/b/c" sample_entries)
    as (index' & w' & Hr & _).
  - done.
  - apply lookup_insert_eq.
  - done.
  - vm_compute. reflexivity.
  - exists w'.
    apply (drains_hunk _ _ sample_entries (MkIndexHunkIter [] index' None) w' [] w').
    + change (next_hunk sample_hunk_iter)
        with (IndexHunkIter.next_loop [0%N] (IndexRead.open sample_transport) None).
      cbn [IndexHunkIter.next_loop]. rewrite (bind_run _ _ _ _ _ Hr). reflexivity.
    + apply (drains_end _ _ (MkIndexHunkIter [] index' None)). reflexivity.
Qed.

Lemma collect_exact_witness :
  ∃ w', IndexEntryIter.collect (IndexEntryIter.new sample_hunk_iter (MkApath "/b") Exclude.nothing)
          (world_of sample_index_fs)
        = (Ret (Ok (filter (λ e, is_wanted (MkApath "/b") Exclude.nothing e = true) sample_entries)), w').
Proof.
  destruct sample_drains as [w' Hd]. exists w'.
  apply (collect_exact sample_hunk_iter (MkApath "/b") Exclude.nothing (world_of sample_index_fs) w'
    [sample_entries] Hd).
  - repeat constructor.
  - reflexivity.
Defined.

Lemma entry_iteration_terminates_witness :
  let it := IndexEntryIter.new sample_hunk_iter Apath.root Exclude.nothing in
  (IndexEntryIter.next it (world_of sample_index_fs)).1 ≠ NoFuel ∧
  (IndexEntryIter.advance_to it (MkApath "/b") (world_of sample_index_fs)).1 ≠ NoFuel ∧
  ∀ S (body : S → IndexEntry → M (result S Error)) (s : S), steady (HI:=IndexHunkIter) body →
    (IndexEntryIter.for_entries body s it (world_of sample_index_fs)).1 ≠ NoFuel.
Proof.
  apply (entry_iteration_terminates (IndexEntryIter.new sample_hunk_iter Apath.root Exclude.nothing)
    (MkApath "/b") (world_of sample_index_fs)).
Defined.
