(* ===== verification/Archive.v ===== *)
(** * Archives, bands and the garbage collection lock

    Creating, opening and listing (src/archive.rs), bands (src/band.rs) and the
    lock that excludes backups during deletion (src/gc_lock.rs). *)

From Stdlib Require Import Ascii.
From S2P Require Import Prelude Text Apath Externals Ids Entry Counters Errors World Transport.
From S2P Require Import Sample Excludes Jsonio SampleWorld BlockDir Index.
From stdpp Require Import list gmap strings.

(** [Archive]: clones share the block directory. *)
Record Archive : Type := MkArchive { ar_block_dir : BlockDir; ar_transport : Transport }.

(** [Band] *)
Record Band : Type := MkBand { b_band_id : BandId; b_transport : Transport; b_head : Head }.

(** [BandSelectionPolicy] *)
Inductive BandSelectionPolicy : Type :=
  | LatestClosed
  | Latest
  | Specified (band_id : BandId).

(** [band::Info] *)
Record Info : Type := MkInfo {
  i_id : BandId;
  i_is_closed : bool;
  i_start_time : OffsetDateTime;
  i_end_time : option OffsetDateTime;
  i_index_hunk_count : option N
}.

Module Archive.
Section archive.
Context `{Ext} `{BuildCfg} `{Codecs}.

Definition create (transport : Transport) : M (result Archive Error) :=
  r ← Transport.create_dir transport "";
  match r with
  | Err e => mret (Err (TransportErr e))
  | Ok _ =>
      r ← Transport.list_dir transport "";
      match r with
      | Err e => mret (Err (TransportErr e))
      | Ok names =>
          match ld_files names, ld_dirs names with
          | [], [] =>
              block_dir ←? BlockDir.create (Transport.chdir transport BLOCK_DIR);
              r ← write_json transport HEADER_FILENAME (MkArchiveHeader ARCHIVE_VERSION);
              match r with
              | Err e => mret (Err (Error_from_jsonio e))
              | Ok _ => mret (Ok (MkArchive block_dir transport))
              end
          | _, _ => mret (Err NewArchiveDirectoryNotEmpty)
          end
      end
  end.

Definition open (transport : Transport) : M (result Archive Error) :=
  r ← read_json (T:=ArchiveHeader) transport HEADER_FILENAME;
  match r with
  | Err e => mret (Err (Error_from_jsonio e))
  | Ok None => mret (Err NotAnArchive)
  | Ok (Some header) =>
      if String.eqb (conserve_archive_version header) ARCHIVE_VERSION then
        block_dir ← BlockDir.open (Transport.chdir transport BLOCK_DIR);
        mret (Ok (MkArchive block_dir transport))
      else mret (Err (UnsupportedArchiveVersion (conserve_archive_version header)))
  end.

Definition band_exists (self : Archive) (band_id : BandId) : M (result bool Error) :=
  r ← Transport.is_file (ar_transport self) (BandId.to_string band_id +:+ "/" +:+ BAND_HEAD_FILENAME);
  mret (map_err TransportErr r).

Definition band_is_closed (self : Archive) (band_id : BandId) : M (result bool Error) :=
  r ← Transport.is_file (ar_transport self) (BandId.to_string band_id +:+ "/" +:+ BAND_TAIL_FILENAME);
  mret (map_err TransportErr r).

(** The band ids among directory names *)
Definition parse_band_ids (dirs : list string) : list BandId :=
  omap (λ dir_name, result_ok (BandId.from_str dir_name))
    (filter (λ dir_name, dir_name ≠ BLOCK_DIR) dirs).

Definition iter_band_ids_unsorted (self : Archive) : M (result (list BandId) Error) :=
  r ← Transport.list_dir (ar_transport self) "";
  mret (match r with
        | Err e => Err (TransportErr e)
        | Ok l => Ok (parse_band_ids (ld_dirs l))
        end).

Definition list_band_ids (self : Archive) : M (result (list BandId) Error) :=
  r ← iter_band_ids_unsorted self;
  mret (map_ok (sort_by BandId.cmp) r).

(** [Iterator::max] *)
Definition max_band_id (ids : list BandId) : option BandId :=
  foldl (λ m b, match m with
                | None => Some b
                | Some a => match BandId.cmp a b with Gt => Some a | _ => Some b end
                end) None ids.

Definition last_band_id (self : Archive) : M (result (option BandId) Error) :=
  r ← iter_band_ids_unsorted self;
  mret (map_ok max_band_id r).

End archive.
End Archive.

Module Band.
Section band.
Context `{Ext} `{BuildCfg} `{Codecs}.

(** [flags::DEFAULT] and [flags::SUPPORTED] *)
Definition flags_DEFAULT : list string := [].
Definition flags_SUPPORTED : list string := [].

(** [band_version_requirement()] and [band_version_supported(version)]: both
    parses are unwrapped. *)
Definition band_version_requirement {W} : ST W semver_VersionReq :=
  expect (semver_req_parse ("<=" +:+ VERSION)).

Definition band_version_supported {W} (version : string) : ST W bool :=
  match semver_parse version with
  | None => panic
  | Some sv => req ← band_version_requirement; mret (semver_matches req sv)
  end.

Definition create_with_flags (archive : Archive) (format_flags : list string) : M (result Band Error) :=
  _ ← for_each format_flags (λ f, rust_assert (bool_decide (f ∈ flags_SUPPORTED)));
  last ←? Archive.last_band_id archive;
  band_id ← match last with
            | None => mret BandId.zero
            | Some b => BandId.next_sibling b
            end;
  let transport := Transport.chdir (ar_transport archive) (BandId.to_string band_id) in
  r ← Transport.create_dir transport "";
  match r with
  | Err e => mret (Err (TransportErr e))
  | Ok _ =>
      r ← Transport.create_dir transport INDEX_DIR;
      match r with
      | Err e => mret (Err (TransportErr e))
      | Ok _ =>
          let band_format_version :=
            match format_flags with [] => Some "0.6.3" | _ => Some "23.2.0" end in
          now ← now_utc_timestamp;
          let head := MkHead now band_format_version format_flags in
          r ← write_json transport BAND_HEAD_FILENAME head;
          match r with
          | Err e => mret (Err (Error_from_jsonio e))
          | Ok _ => mret (Ok (MkBand band_id transport head))
          end
      end
  end.

Definition create (archive : Archive) : M (result Band Error) :=
  create_with_flags archive flags_DEFAULT.

Definition close (self : Band) (hunk_count : N) : M (result unit Error) :=
  now ← now_utc_timestamp;
  r ← write_json (b_transport self) BAND_TAIL_FILENAME (MkTail now (Some hunk_count));
  mret (map_err Error_from_jsonio r).

Definition open (archive : Archive) (band_id : BandId) : M (result Band Error) :=
  let transport := Transport.chdir (ar_transport archive) (BandId.to_string band_id) in
  r ← read_json (T:=Head) transport BAND_HEAD_FILENAME;
  match r with
  | Err e => mret (Err (Error_from_jsonio e))
  | Ok None => mret (Err (BandHeadMissing band_id))
  | Ok (Some head) =>
      supported ← match head_band_format_version head with
                  | Some version => band_version_supported version
                  | None => mret true
                  end;
      if negb supported then
        mret (Err (UnsupportedBandVersion band_id (default "" (head_band_format_version head))))
      else
        let unsupported_flags := filter (λ f, f ∉ flags_SUPPORTED) (head_format_flags head) in
        match unsupported_flags with
        | _ :: _ => mret (Err (UnsupportedBandFormatFlags band_id unsupported_flags))
        | [] => mret (Ok (MkBand band_id transport head))
        end
  end.

Definition delete (archive : Archive) (band_id : BandId) : M (result unit Error) :=
  r ← Transport.remove_dir_all (ar_transport archive) (BandId.to_string band_id);
  mret (map_err (λ err, if is_not_found err then BandNotFound band_id else TransportErr err) r).

Definition is_closed (self : Band) : M (result bool Error) :=
  r ← Transport.is_file (b_transport self) BAND_TAIL_FILENAME;
  mret (map_err TransportErr r).

Definition id (self : Band) : BandId := b_band_id self.
Definition band_format_version (self : Band) : option string := head_band_format_version (b_head self).
Definition format_flags (self : Band) : list string := head_format_flags (b_head self).

Definition index_builder (self : Band) : IndexWriter :=
  IndexWriter.new (Transport.chdir (b_transport self) INDEX_DIR).

Definition index (self : Band) : IndexRead :=
  IndexRead.open (Transport.chdir (b_transport self) INDEX_DIR).

(** [get_info()] *)
Definition get_info (self : Band) : M (result Info Error) :=
  r ← read_json (T:=Tail) (b_transport self) BAND_TAIL_FILENAME;
  mret (match r with
        | Err e => Err (Error_from_jsonio e)
        | Ok tail_option =>
            match time_from_unix_timestamp (start_time (b_head self)) with
            | None => Err (InvalidMetadata "Invalid band start timestamp")
            | Some start =>
                match (match tail_option with
                       | None => Ok None
                       | Some tail => match time_from_unix_timestamp (end_time tail) with
                                      | Some t => Ok (Some t)
                                      | None => Err (InvalidMetadata "Invalid band end timestamp")
                                      end
                       end) with
                | Err e => Err e
                | Ok end_ =>
                    Ok (MkInfo (b_band_id self) (bool_decide (is_Some tail_option)) start end_
                          (tail_option ≫= index_hunk_count))
                end
            end
        end).

(** [validate()]: unexpected files and directories are only logged. *)
Definition validate (self : Band) : M (result unit Error) :=
  r ← Transport.list_dir (b_transport self) "";
  match r with
  | Err e => mret (Err (TransportErr e))
  | Ok l =>
      _ ← (if bool_decide (BAND_HEAD_FILENAME ∈ ld_files l) then mret tt
           else monitor_error (BandHeadMissing (b_band_id self)));
      let files := remove_item (remove_item (ld_files l) BAND_HEAD_FILENAME) BAND_TAIL_FILENAME in
      mret (Ok tt)
  end.

End band.
End Band.

(** ** Choosing a band *)

Module Select.
Section select.
Context `{Ext} `{BuildCfg} `{Codecs}.

(** The loop of [last_complete_band], over the ids from the last to the first *)
Fixpoint last_complete_loop (archive : Archive) (ids : list BandId) : M (result (option Band) Error) :=
  match ids with
  | [] => mret (Ok None)
  | band_id :: ids =>
      b ←? Band.open archive band_id;
      closed ←? Band.is_closed b;
      if (closed : bool) then mret (Ok (Some b)) else last_complete_loop archive ids
  end.

Definition last_complete_band (self : Archive) : M (result (option Band) Error) :=
  ids ←? Archive.list_band_ids self;
  last_complete_loop self (reverse ids).

Definition resolve_band_id (self : Archive) (band_selection : BandSelectionPolicy) :
    M (result BandId Error) :=
  match band_selection with
  | LatestClosed =>
      b ←? last_complete_band self;
      mret (ok_or NoCompleteBands (Band.id <$> b))
  | Specified band_id => mret (Ok band_id)
  | Latest =>
      b ←? Archive.last_band_id self;
      mret (ok_or ArchiveEmpty b)
  end.

End select.
End Select.

(** ** The lock *)

(** [GarbageCollectionLock] *)
Record GarbageCollectionLock : Type := MkGcLock { gl_archive : Archive; gl_band_id : option BandId }.

Module GarbageCollectionLock.
Section gc_lock.
Context `{Ext} `{BuildCfg} `{Codecs}.

Definition lock_content : string := "{}" +:+ newline.

Definition new (archive : Archive) : M (result GarbageCollectionLock Error) :=
  band_id ←? Archive.last_band_id archive;
  _ ←? match band_id with
       | Some b =>
           closed ←? Archive.band_is_closed archive b;
           mret (if (closed : bool) then Ok tt else Err (DeleteWithIncompleteBackup b))
       | None => mret (Ok tt)
       end;
  r ← Transport.is_file (ar_transport archive) GC_LOCK;
  if unwrap_or true r then mret (Err GarbageCollectionLockHeld)
  else
    r ← Transport.write_file (ar_transport archive) GC_LOCK lock_content CreateNew;
    match r with
    | Err e => mret (Err (TransportErr e))
    | Ok _ => mret (Ok (MkGcLock archive band_id))
    end.

Definition is_locked (archive : Archive) : M (result bool Error) :=
  r ← Transport.is_file (ar_transport archive) GC_LOCK;
  mret (map_err TransportErr r).

Definition break_lock (archive : Archive) : M (result GarbageCollectionLock Error) :=
  locked ←? is_locked archive;
  r ← (if (locked : bool) then Transport.remove_file (ar_transport archive) GC_LOCK else mret (Ok tt));
  match r with
  | Err e => mret (Err (TransportErr e))
  | Ok _ => new archive
  end.

Definition check (self : GarbageCollectionLock) : M (result unit Error) :=
  current_last_band_id ←? Archive.last_band_id (gl_archive self);
  mret (if decide (gl_band_id self = current_last_band_id) then Ok tt
        else Err GarbageCollectionLockHeldDuringBackup).

(** [drop]: a failure to remove the lock is only printed. *)
Definition drop (self : GarbageCollectionLock) : M unit :=
  _ ← Transport.remove_file (ar_transport (gl_archive self)) GC_LOCK; mret tt.

End gc_lock.
End GarbageCollectionLock.

(** ** What the operations leave alone *)

Section reading.
Context `{Ext} `{BuildCfg} `{Codecs} (R : relation World) `{!Looking R}.

Lemma read_json_reading {T} `{Serde T} t s : respects R (read_json (T:=T) t s).
Proof. unfold read_json. solve_reading. Qed.
Hint Resolve read_json_reading : reading.
Lemma iter_band_ids_reading a : respects R (Archive.iter_band_ids_unsorted a).
Proof. unfold Archive.iter_band_ids_unsorted. solve_reading. Qed.
Hint Resolve iter_band_ids_reading : reading.
Lemma last_band_id_reading a : respects R (Archive.last_band_id a).
Proof. unfold Archive.last_band_id. solve_reading. Qed.
Lemma list_band_ids_reading a : respects R (Archive.list_band_ids a).
Proof. unfold Archive.list_band_ids. solve_reading. Qed.
Lemma band_exists_reading a b : respects R (Archive.band_exists a b).
Proof. unfold Archive.band_exists. solve_reading. Qed.
Lemma band_is_closed_reading a b : respects R (Archive.band_is_closed a b).
Proof. unfold Archive.band_is_closed. solve_reading. Qed.
Lemma is_closed_reading b : respects R (Band.is_closed b).
Proof. unfold Band.is_closed. solve_reading. Qed.
Lemma is_locked_reading a : respects R (GarbageCollectionLock.is_locked a).
Proof. unfold GarbageCollectionLock.is_locked. solve_reading. Qed.
Hint Resolve last_band_id_reading list_band_ids_reading is_closed_reading : reading.
Lemma lock_check_reading g : respects R (GarbageCollectionLock.check g).
Proof. unfold GarbageCollectionLock.check. solve_reading. Qed.
Lemma band_open_reading a b : respects R (Band.open a b).
Proof.
  unfold Band.open, Band.band_version_supported, Band.band_version_requirement. solve_reading.
Qed.
Hint Resolve band_open_reading : reading.
Lemma band_validate_reading `{!Reading R} b : respects R (Band.validate b).
Proof. unfold Band.validate. solve_reading. Qed.
Lemma get_info_reading b : respects R (Band.get_info b).
Proof. unfold Band.get_info. solve_reading. Qed.
Lemma last_complete_loop_reading a ids : respects R (Select.last_complete_loop a ids).
Proof. induction ids; cbn [Select.last_complete_loop]; solve_reading. Qed.
Hint Resolve last_complete_loop_reading : reading.
Lemma resolve_band_id_reading a p : respects R (Select.resolve_band_id a p).
Proof. unfold Select.resolve_band_id, Select.last_complete_band. solve_reading. Qed.
End reading.

#[export] Hint Resolve read_json_reading last_band_id_reading list_band_ids_reading band_exists_reading
  band_is_closed_reading is_closed_reading is_locked_reading lock_check_reading band_open_reading
  band_validate_reading get_info_reading last_complete_loop_reading resolve_band_id_reading : reading.

Section adding.
Context `{Ext} `{BuildCfg} `{Codecs} (P : Path → Prop).

(** Creating bands and locks only adds files. *)
Lemma band_create_respects a flags : respects (fs_rel (preserves P)) (Band.create_with_flags a flags).
Proof.
  unfold Band.create_with_flags, BandId.next_sibling.
  pose proof (last_band_id_reading (fs_rel (preserves P))). solve_respects.
Qed.

Lemma band_close_respects b n : respects (fs_rel (preserves P)) (Band.close b n).
Proof. unfold Band.close. solve_respects. Qed.

Lemma lock_new_respects a : respects (fs_rel (preserves P)) (GarbageCollectionLock.new a).
Proof.
  unfold GarbageCollectionLock.new.
  pose proof (last_band_id_reading (fs_rel (preserves P))).
  pose proof (band_is_closed_reading (fs_rel (preserves P))). solve_respects.
Qed.

Lemma archive_create_respects t : respects (fs_rel (preserves P)) (Archive.create t).
Proof. unfold Archive.create. solve_respects. Qed.
End adding.

#[export] Hint Resolve band_create_respects band_close_respects lock_new_respects
  archive_create_respects : respects.

Section terminates.
Context `{Ext} `{BuildCfg} `{Codecs}.

Lemma write_json_terminates {T} `{Serde T} t s (obj : T) : terminates (write_json t s obj).
Proof. unfold write_json. solve_terminates. Qed.
Lemma read_json_terminates {T} `{Serde T} t s : terminates (read_json (T:=T) t s).
Proof. unfold read_json. solve_terminates. Qed.
Hint Resolve write_json_terminates read_json_terminates : terminates.
Lemma last_band_id_terminates a : terminates (Archive.last_band_id a).
Proof. unfold Archive.last_band_id, Archive.iter_band_ids_unsorted. solve_terminates. Qed.
Lemma list_band_ids_terminates a : terminates (Archive.list_band_ids a).
Proof. unfold Archive.list_band_ids, Archive.iter_band_ids_unsorted. solve_terminates. Qed.
Lemma band_exists_terminates a b : terminates (Archive.band_exists a b).
Proof. unfold Archive.band_exists. solve_terminates. Qed.
Lemma band_is_closed_terminates a b : terminates (Archive.band_is_closed a b).
Proof. unfold Archive.band_is_closed. solve_terminates. Qed.
Lemma band_open_terminates a b : terminates (Band.open a b).
Proof. unfold Band.open, Band.band_version_supported, Band.band_version_requirement. solve_terminates. Qed.
Hint Resolve last_band_id_terminates list_band_ids_terminates band_open_terminates : terminates.
Lemma last_complete_loop_terminates a ids : terminates (Select.last_complete_loop a ids).
Proof. induction ids; cbn [Select.last_complete_loop]; unfold Band.is_closed; solve_terminates. Qed.
Hint Resolve last_complete_loop_terminates : terminates.
Lemma resolve_band_id_terminates a p : terminates (Select.resolve_band_id a p).
Proof. unfold Select.resolve_band_id, Select.last_complete_band. solve_terminates. Qed.
Lemma band_create_terminates a flags : terminates (Band.create_with_flags a flags).
Proof. unfold Band.create_with_flags, BandId.next_sibling. solve_terminates. Qed.
End terminates.

#[export] Hint Resolve write_json_terminates read_json_terminates last_band_id_terminates
  list_band_ids_terminates band_exists_terminates band_is_closed_terminates band_open_terminates
  last_complete_loop_terminates resolve_band_id_terminates band_create_terminates : terminates.

(** ** Which bands there are *)

Definition archive_path (a : Archive) : Path := tr_path (ar_transport a).

(** A directory of the archive that names the band. The number may be written
    with fewer digits or with a plus sign. *)
Definition listed (a : Archive) (fs : Fs) (b : BandId) : Prop :=
  ∃ name m, fs !! (archive_path a ++ [name])%list = Some (NDir m) ∧ utf8_valid name = true ∧
    BandId.from_str name = Ok b.

Definition tail_path (a : Archive) (b : BandId) : Path :=
  (archive_path a ++ [BandId.to_string b; BAND_TAIL_FILENAME])%list.
Definition head_path (a : Archive) (b : BandId) : Path :=
  (archive_path a ++ [BandId.to_string b; BAND_HEAD_FILENAME])%list.
Definition lock_path (a : Archive) : Path := (archive_path a ++ [GC_LOCK])%list.

(** The band was finished: it has a tail. *)
Definition closed (a : Archive) (fs : Fs) (b : BandId) : Prop :=
  ∃ c m, fs !! tail_path a b = Some (NFile c m).

Section bands.
Context `{Ext} `{BuildCfg} `{Codecs}.

Lemma classify_dirs es names n :
  n ∈ ld_dirs (Local.classify es names) ↔
  n ∈ ld_dirs names ∨ ∃ node, (n, node) ∈ es ∧ utf8_valid n = true ∧ node_type node = ft_dir.
Proof.
  revert names. induction es as [|[x node] es IH]; intros names; cbn [Local.classify].
  { split; [by left|]. intros [?|(? & []%not_elem_of_nil & _)]; done. }
  rewrite IH. clear IH. destruct (utf8_valid x) eqn:Eu.
  - destruct (node_type node) eqn:Et; simpl; rewrite ?elem_of_app, ?list_elem_of_singleton;
      split; intros Hn; try (destruct Hn as [Hn|(nd & Hin & ?)]; [|right; exists nd; by split; [right|]]).
    all: try (by left). all: try (destruct Hn as [Hn| ->]; [by left|right; exists node; split; [by left|done]]).
    all: destruct Hn as [Hn|(nd & [[= -> ->]|Hin]%elem_of_cons & Hu & Hk)]; try (by left); try (by left; left);
      try (by right; exists nd); try (by left; right); congruence.
  - split; intros [Hn|(nd & Hin & ?)]; try (by left); right; exists nd.
    + split; [by right|done].
    + apply elem_of_cons in Hin as [[= -> ->]|Hin]; [|done]. naive_solver congruence.
Qed.

Lemma path_join_empty p : path_join p "" = p.
Proof. unfold path_join. simpl. unfold path_components. simpl. by rewrite app_nil_r. Qed.

Lemma d_is_no_band : ∀ b, BandId.from_str BLOCK_DIR ≠ Ok b.
Proof. by vm_compute. Qed.

(** The ids that a successful listing gives are those of the bands there are. *)
Lemma band_ids_inv a w ids w' :
  Archive.iter_band_ids_unsorted a w = (Ret (Ok ids), w') →
  w_fs w' = w_fs w ∧ ∀ b, b ∈ ids ↔ listed a (w_fs w) b.
Proof.
  unfold Archive.iter_band_ids_unsorted. intros Hr. inv_run Hr.
  destruct a0 as [l|]; inv_run Hr. apply list_dir_inv in Hrun as (es & code & Hes & -> & Hfs).
  split; [done|]. intros b. rewrite path_join_empty in Hes.
  unfold fs_read_dir in Hes. destruct (w_fs w !! tr_path (ar_transport a)) as [[]|]; simplify_eq.
  unfold Archive.parse_band_ids. rewrite list_elem_of_omap. unfold listed. split.
  - intros (name & Hn & Hb). apply list_elem_of_filter in Hn as [_ Hn].
    apply classify_dirs in Hn as [?%not_elem_of_nil|(node & Hin & Hu & Ht)]; [done|].
    rewrite permute_perm in Hin. apply elem_of_fs_children in Hin.
    destruct node as [| m| |]; simplify_eq/=. exists name, m. split; [done|]. split; [done|].
    destruct (BandId.from_str name); simplify_eq/=; done.
  - intros (name & m & Hl & Hu & Hb). exists name. split; [|by rewrite Hb].
    apply list_elem_of_filter. split; [intros ->; by apply d_is_no_band in Hb|].
    apply classify_dirs. right. exists (NDir m). split; [|done].
    rewrite permute_perm. by apply elem_of_fs_children.
Qed.

Lemma max_band_id_from ids acc :
  let m := foldl (λ m b, match m with
                         | None => Some b
                         | Some a => match BandId.cmp a b with Gt => Some a | _ => Some b end
                         end) acc ids in
  (∀ b, b ∈ ids ∨ acc = Some b → ∃ x, m = Some x ∧ (band_num b <= band_num x)%N) ∧
  (∀ x, m = Some x → x ∈ ids ∨ acc = Some x).
Proof.
  revert acc. induction ids as [|y ids IH]; intros acc; simpl.
  { split; [|by right]. intros b [[]%not_elem_of_nil| ->]. eexists. split; [done|]. lia. }
  destruct (IH (match acc with
                | None => Some y
                | Some a => match BandId.cmp a y with Gt => Some a | _ => Some y end
                end)) as [IH1 IH2]. split.
  - intros b Hb.
    assert (b ∈ ids ∨ ∃ z, (match acc with
                | None => Some y
                | Some a => match BandId.cmp a y with Gt => Some a | _ => Some y end
                end) = Some z ∧ (band_num b <= band_num z)%N) as [Hin|(z & Hz & Hle)].
    { unfold BandId.cmp. destruct Hb as [[->|Hb]%elem_of_cons| ->]; [right|by left|right].
      - destruct acc as [a|]; [|by eexists].
        destruct (N.compare_spec (band_num a) (band_num y)); eexists; (split; [done|]); lia.
      - destruct (N.compare_spec (band_num b) (band_num y)); eexists; (split; [done|]); lia. }
    + apply IH1. by left.
    + destruct (IH1 z ltac:(by right)) as (x & Hx & Hle'). exists x. split; [done|]. lia.
  - intros x Hx. apply IH2 in Hx as [Hx|Hx]; [left; by right|].
    destruct acc as [a|]; [destruct (BandId.cmp a y)|]; simplify_eq; (by left; left) || by right.
Qed.

Lemma max_band_id_spec ids :
  match Archive.max_band_id ids with
  | Some x => x ∈ ids ∧ ∀ b, b ∈ ids → (band_num b <= band_num x)%N
  | None => ids = []
  end.
Proof.
  destruct (max_band_id_from ids None) as [Hm1 Hm2]. unfold Archive.max_band_id in *.
  destruct (foldl _ None ids) as [x|] eqn:E.
  - split; [destruct (Hm2 x eq_refl); done|]. intros b Hb.
    destruct (Hm1 b ltac:(by left)) as (x' & [= <-] & ?). done.
  - destruct ids as [|y ids]; [done|]. destruct (Hm1 y ltac:(by left; left)) as (x & ? & _). done.
Qed.

Lemma last_band_id_inv a w o w' :
  Archive.last_band_id a w = (Ret (Ok o), w') →
  w_fs w' = w_fs w ∧
  match o with
  | Some x => listed a (w_fs w) x ∧ ∀ b, listed a (w_fs w) b → (band_num b <= band_num x)%N
  | None => ∀ b, ¬ listed a (w_fs w) b
  end.
Proof.
  unfold Archive.last_band_id. intros Hr. inv_run Hr. inv_run Hr. destruct a0 as [ids|]; simplify_eq/=.
  apply band_ids_inv in Hrun as [Hfs Hids]. split; [done|].
  pose proof (max_band_id_spec ids) as Hm. destruct (Archive.max_band_id ids) as [x|].
  - destruct Hm as [Hin Hle]. split; [by apply Hids|]. intros b Hb. by apply Hle, Hids.
  - intros b Hb%Hids. subst ids. by apply not_elem_of_nil in Hb.
Qed.

(** C25: a new band never takes the place of another: whatever fails, creating one
    only adds files, and when it succeeds its number is greater than that of
    every band there was, except that without debug assertions the number after
    the last one wraps around to zero. *)
Theorem band_create_fresh (a : Archive) (w : World) :
  let '(o, w') := Band.create a w in
  only_adds (w_fs w) (w_fs w') ∧
  match o with
  | Ret (Ok band) =>
      (∀ b, listed a (w_fs w) b → (band_num b < band_num (b_band_id band))%N) ∨
      debug_assertions = false ∧ listed a (w_fs w) (MkBandId u32_max) ∧ b_band_id band = BandId.zero
  | _ => True
  end.
Proof.
  pose proof (band_create_respects (λ _, True) a Band.flags_DEFAULT w) as Hr. unfold fs_rel in Hr.
  fold (Band.create a) in Hr. destruct (Band.create a w) as [o w'] eqn:E. split; [exact Hr|]. clear Hr.
  destruct o as [[band|]| | |]; try done. unfold Band.create, Band.create_with_flags in E.
  inv_run E. simpl in Hrun. apply ret_inv in Hrun as [_ <-]. inv_run E.
  apply last_band_id_inv in Hrun as [_ Hlast]. inv_run E. inv_run E.
  destruct a3 as [u1|]; [|inv_run E]. inv_run E. destruct a3 as [u2|]; [|inv_run E].
  inv_run E. inv_run E. destruct a4 as [u3|]; [|inv_run E]. inv_run E. simpl. destruct a1 as [x|].
  - destruct Hlast as [Hx Hle]. unfold BandId.next_sibling in Hrun.
    destruct (N.leb_spec (band_num x + 1) u32_max) as [Hn|Hn].
    + apply ret_inv in Hrun as [<- _]. left. intros b Hb%Hle. simpl. lia.
    + destruct debug_assertions; [done|]. apply ret_inv in Hrun as [<- _]. right.
      split; [done|]. split; [|done]. destruct Hx as (name & m & Hl & Hu & Hb).
      pose proof (bandid_from_str_fits _ _ Hb) as Hfit. unfold BandId.fits in Hfit.
      assert (x = MkBandId u32_max) as <- by (destruct x; simpl in *; f_equal; lia).
      by exists name, m.
  - left. intros b Hb. by apply Hlast in Hb.
Qed.

End bands.

(** ** The lock and the choice of a band *)

Section selection.
Context `{Ext} `{BuildCfg} `{Codecs}.

Lemma band_file_path (a : Archive) b name :
  valid_name name = true →
  path_join (tr_path (ar_transport a)) (BandId.to_string b +:+ "/" +:+ name)
  = (archive_path a ++ [BandId.to_string b; name])%list.
Proof.
  intros Hn. apply (path_join_names _ [BandId.to_string b; name]).
  repeat constructor; [apply bandid_valid_name|done].
Qed.

Lemma band_dir_path (a : Archive) b :
  tr_path (Transport.chdir (ar_transport a) (BandId.to_string b))
  = (archive_path a ++ [BandId.to_string b])%list.
Proof. apply (path_join_names _ [BandId.to_string b]). repeat constructor. apply bandid_valid_name. Qed.

Lemma tail_path_join (a : Archive) b :
  path_join (tr_path (Transport.chdir (ar_transport a) (BandId.to_string b))) BAND_TAIL_FILENAME
  = tail_path a b.
Proof.
  rewrite band_dir_path. unfold tail_path.
  rewrite (path_join_names _ [BAND_TAIL_FILENAME]) by (repeat constructor). by rewrite <-app_assoc.
Qed.

Lemma band_is_closed_inv a b w w' :
  Archive.band_is_closed a b w = (Ret (Ok true), w') → closed a (w_fs w) b ∧ w_fs w' = w_fs w.
Proof.
  unfold Archive.band_is_closed. intros Hr. inv_run Hr. inv_run Hr. destruct a0 as [[]|]; try discriminate.
  apply is_file_inv in Hrun as [(c & m & Hp) Hfs]. split; [|done]. exists c, m.
  by rewrite band_file_path in Hp.
Qed.

(** C27: the lock is exclusive and guards complete archives: taking it only adds
    files, whatever fails, and it succeeds only when no lock file was there, the
    newest band, which it remembers, is finished, and the lock file is the only
    change. *)
Theorem gc_lock_exclusive (a : Archive) (w : World) :
  let '(o, w') := GarbageCollectionLock.new a w in
  only_adds (w_fs w) (w_fs w') ∧
  match o with
  | Ret (Ok lock) =>
      w_fs w !! lock_path a = None ∧
      (∃ m, w_fs w' = <[lock_path a := NFile GarbageCollectionLock.lock_content m]> (w_fs w)) ∧
      gl_archive lock = a ∧
      match gl_band_id lock with
      | Some b => listed a (w_fs w) b ∧ (∀ c, listed a (w_fs w) c → (band_num c <= band_num b)%N) ∧
                  closed a (w_fs w) b
      | None => ∀ c, ¬ listed a (w_fs w) c
      end
  | _ => True
  end.
Proof.
  pose proof (lock_new_respects (λ _, True) a w) as Hr. unfold fs_rel in Hr.
  destruct (GarbageCollectionLock.new a w) as [o w'] eqn:E. split; [exact Hr|]. clear Hr.
  destruct o as [[lock|]| | |]; try done. unfold GarbageCollectionLock.new in E.
  inv_run E. apply last_band_id_inv in Hrun as [Hfs Hlast]. inv_run E.
  assert (w_fs w1 = w_fs w ∧ match a0 with Some b => closed a (w_fs w) b | None => True end) as [Hfs1 Hcl].
  { destruct a0 as [b|]; cbn iota in Hrun; [|by apply ret_inv in Hrun as [_ <-]].
    inv_run Hrun. inv_run Hrun. destruct a0; simplify_eq. apply band_is_closed_inv in Hrun0 as [Hc Hfs1].
    rewrite Hfs1, Hfs in *. split; [done|]. destruct Hc as (c & m & Hc). by exists c, m. }
  inv_run E. destruct a2 as [[|]|e]; cbn [unwrap_or] in E; [inv_run E| |inv_run E].
  assert (w_fs w2 = w_fs w) as Hfs2.
  { pose proof (t_is_file_respects same_fs (ar_transport a) GC_LOCK w1) as Hs. rewrite Hrun0 in Hs.
    unfold fs_rel, same_fs in Hs. simpl in Hs. congruence. }
  inv_run E. destruct a2 as [[]|]; inv_run E. apply write_new_inv in Hrun1 as [Hn (m & Hm)].
  rewrite Hfs2 in *. unfold lock_path, archive_path. simpl.
  assert (path_join (tr_path (ar_transport a)) GC_LOCK = (tr_path (ar_transport a) ++ [GC_LOCK])%list) as Hj.
  { apply (path_join_names _ [GC_LOCK]). by repeat constructor. }
  rewrite Hj in *. split; [done|]. split; [by eexists|]. split; [done|].
  destruct a0 as [b|]; [|done]. by destruct Hlast.
Qed.

Lemma band_open_inv a b w band w' :
  Band.open a b w = (Ret (Ok band), w') →
  b_band_id band = b ∧ b_transport band = Transport.chdir (ar_transport a) (BandId.to_string b).
Proof.
  unfold Band.open. intros Hr. inv_run Hr. destruct a0 as [[hd|]|]; [|inv_run Hr..].
  inv_run Hr. destruct (negb _); [inv_run Hr|]. destruct (filter _ _); inv_run Hr. done.
Qed.

(** Without failures, the answer about a tail is right. *)
Lemma is_closed_run a b band w r w' :
  fault_free w → b_transport band = Transport.chdir (ar_transport a) (BandId.to_string b) →
  Band.is_closed band w = (Ret (Ok r), w') → (r = true ↔ closed a (w_fs w) b).
Proof.
  intros Hf Ht. unfold Band.is_closed. rewrite Ht.
  destruct (is_file_run (Transport.chdir (ar_transport a) (BandId.to_string b)) BAND_TAIL_FILENAME w)
    as (w1 & Hr1 & _); [done|done|].
  rewrite (bind_run _ _ _ _ _ Hr1). rewrite tail_path_join. intros Hr. inv_run Hr. unfold closed.
  destruct (w_fs w !! tail_path a b) as [[c m|m|t m|m]|]; simplify_eq/=; try naive_solver.
  case_decide; simplify_eq/=. naive_solver.
Qed.

Lemma last_complete_loop_spec a ids w o w' :
  fault_free w → Select.last_complete_loop a ids w = (Ret (Ok o), w') →
  match o with
  | Some band => ∃ newer older, ids = newer ++ b_band_id band :: older ∧ closed a (w_fs w) (b_band_id band) ∧
                   Forall (λ c, ¬ closed a (w_fs w) c) newer
  | None => Forall (λ c, ¬ closed a (w_fs w) c) ids
  end.
Proof.
  revert w. induction ids as [|b ids IH]; intros w Hf Hr; cbn [Select.last_complete_loop] in Hr.
  { inv_run Hr. constructor. }
  inv_run Hr. pose proof (band_open_inv _ _ _ _ _ Hrun) as [Hid Ht].
  apply reading_ends in Hrun as [Hfs0 Hf0]; [|apply band_open_reading; apply _..]. specialize (Hf0 Hf).
  inv_run Hr. pose proof (is_closed_run a b a0 w0 a1 w1 Hf0 Ht Hrun) as Hcl. rewrite Hfs0 in Hcl.
  apply reading_ends in Hrun as [Hfs1 Hf1]; [|apply is_closed_reading; apply _..].
  destruct a1.
  - inv_run Hr. exists [], ids. split; [done|]. split; [by apply Hcl|constructor].
  - assert (w_fs w1 = w_fs w) as Hfs by congruence. apply IH in Hr; [|by apply Hf1]. rewrite Hfs in Hr.
    assert (¬ closed a (w_fs w) b) as Hnb by (intros Hc; by apply Hcl in Hc).
    destruct o as [band|]; [|by constructor].
    destruct Hr as (newer & older & -> & Hc & Hn). exists (b :: newer), older. by repeat constructor.
Qed.

Lemma bandid_cmp_trans x y z : BandId.cmp x y ≠ Gt → BandId.cmp y z ≠ Gt → BandId.cmp x z ≠ Gt.
Proof. unfold BandId.cmp. rewrite !N.compare_gt_iff. lia. Qed.

(** Without failures, the band chosen by [LatestClosed] is the newest finished
    one: it is finished, no newer one is, and [None] means that none is. *)
Theorem last_complete_band_spec (a : Archive) (w : World) (Hf : fault_free w) :
  match Select.last_complete_band a w with
  | (Ret (Ok (Some band)), _) =>
      listed a (w_fs w) (b_band_id band) ∧ closed a (w_fs w) (b_band_id band) ∧
      ∀ c, listed a (w_fs w) c → closed a (w_fs w) c → (band_num c <= band_num (b_band_id band))%N
  | (Ret (Ok None), _) => ∀ c, listed a (w_fs w) c → ¬ closed a (w_fs w) c
  | _ => True
  end.
Proof.
  destruct (Select.last_complete_band a w) as [[[o|]| | |] w'] eqn:E; try done.
  unfold Select.last_complete_band in E. inv_run E. unfold Archive.list_band_ids in Hrun. inv_run Hrun.
  inv_run Hrun. destruct a1 as [ids|]; simplify_eq/=.
  pose proof (band_ids_inv _ _ _ _ Hrun0) as [Hfs Hids].
  apply reading_ends in Hrun0 as [_ Hf0]; [|apply iter_band_ids_reading; apply _..].
  apply last_complete_loop_spec in E; [|by apply Hf0]. rewrite Hfs in E.
  assert (∀ c, c ∈ reverse (sort_by BandId.cmp ids) ↔ listed a (w_fs w) c) as Hin.
  { intros c. by rewrite elem_of_reverse, sort_by_perm, Hids. }
  destruct o as [band|].
  - destruct E as (newer & older & Heq & Hc & Hn).
    assert (b_band_id band ∈ reverse (sort_by BandId.cmp ids)) as Hb.
    { rewrite Heq. apply elem_of_app. right. by left. }
    split; [by apply Hin|]. split; [done|]. intros c Hl Hcc.
    apply Hin in Hl. rewrite Heq in Hl. apply elem_of_app in Hl as [Hl|[->|Hl]%elem_of_cons]; [|lia|].
    { eapply Forall_forall in Hn; [|exact Hl]. done. }
    pose proof (sort_by_sorted BandId.cmp (cmp_antisym (cmp:=BandId.cmp)) bandid_cmp_trans ids) as Hs.
    apply (f_equal reverse) in Heq. rewrite reverse_involutive, reverse_app, reverse_cons in Heq.
    rewrite Heq, <-app_assoc in Hs.
    apply list_elem_of_lookup_1 in Hl as [i Hi].
    assert (BandId.cmp c (b_band_id band) ≠ Gt) as Hle.
    { assert (c ∈ reverse older) as [j Hj]%list_elem_of_lookup_1.
      { apply elem_of_reverse. by eapply list_elem_of_lookup_2. }
      refine (sorted_lookup (λ x y, BandId.cmp x y ≠ Gt) _ j (length (reverse older)) c (b_band_id band) Hs _ _ _).
      - by apply lookup_lt_Some in Hj.
      - by rewrite lookup_app_l by by eapply lookup_lt_Some.
      - by apply list_lookup_middle. }
    unfold BandId.cmp in Hle. rewrite N.compare_gt_iff in Hle. lia.
  - intros c Hl Hc. apply Hin in Hl. eapply Forall_forall in E; [|exact Hl]. done.
Qed.

End selection.

(** ** Examples *)

#[local] Existing Instances sample_ext sample_build sample_codecs.

(** An archive at [/a] with a finished band and a newer one that is not finished *)
Definition sample_archive : Archive := MkArchive (MkBlockDir (MkTransport ["a"; "d"]) 0) sample_transport.

Definition sample_bands_fs : Fs :=
  <[ ["a"; "b0000"; "BANDTAIL"] := NFile "" sample_meta ]>
  (<[ ["a"; "b0000"; "BANDHEAD"] := NFile (bits_of (encode (MkHead 5 None []))) sample_meta ]>
  (<[ ["a"; "b0001"; "BANDHEAD"] := NFile (bits_of (encode (MkHead 6 None []))) sample_meta ]>
  (<[ ["a"; "b0000"] := NDir sample_meta ]> (<[ ["a"; "b0001"] := NDir sample_meta ]> empty_archive_fs)))).

(** The choice is not vacuous there. *)
Example sample_last_complete :
  match Select.last_complete_band sample_archive (world_of sample_bands_fs) with
  | (Ret (Ok (Some band)), _) => b_band_id band = MkBandId 0
  | _ => False
  end.
Proof. vm_compute. reflexivity. Qed.

Lemma last_complete_band_spec_witness :
  match Select.last_complete_band sample_archive (world_of sample_bands_fs) with
  | (Ret (Ok (Some band)), _) =>
      listed sample_archive sample_bands_fs (b_band_id band) ∧
      closed sample_archive sample_bands_fs (b_band_id band) ∧
      ∀ c, listed sample_archive sample_bands_fs c → closed sample_archive sample_bands_fs c →
        (band_num c <= band_num (b_band_id band))%N
  | (Ret (Ok None), _) => ∀ c, listed sample_archive sample_bands_fs c → ¬ closed sample_archive sample_bands_fs c
  | _ => True
  end.
Proof. apply (last_complete_band_spec sample_archive (world_of sample_bands_fs)). done. Defined.
