(* ===== verification/Footprint.v ===== *)
(** * Where operations write

    The paths that an operation can change. [only_in W] relates two file systems that
    differ at paths in [W] only: what is elsewhere stays, and nothing appears there.
    Each operation that writes is shown to stay within the directory that it is given,
    however it ends. *)

From Stdlib Require Import Ascii.
From S2P Require Import Prelude Text Apath Externals Ids Entry Counters Errors World Transport.
From S2P Require Import Excludes Jsonio BlockDir Index Archive.
From stdpp Require Import list gmap strings.

(** ** File systems that differ at some paths only *)

Definition only_in (W : Path → Prop) : relation Fs := λ fs fs', ∀ q, ¬ W q → fs' !! q = fs !! q.

#[export] Instance only_in_preorder W : PreOrder (only_in W).
Proof. split; [by intros fs q|]. intros a b c Hab Hbc q Hq. by rewrite Hbc, Hab. Qed.

(** At one path *)
Definition only_at (p : Path) : relation Fs := only_in (λ q, q = p).

#[export] Instance only_at_preorder p : PreOrder (only_at p) := only_in_preorder _.

(** At a directory or below it *)
Definition only_below (d : Path) : relation Fs := only_in (λ q, d `prefix_of` q).

#[export] Instance only_below_preorder d : PreOrder (only_below d) := only_in_preorder _.

Lemma only_in_mono (W W' : Path → Prop) fs fs' : (∀ q, W q → W' q) → only_in W fs fs' → only_in W' fs fs'.
Proof. intros HW Ho q Hq. apply Ho. by intros Hq'%HW. Qed.

Lemma only_in_preserves (W P : Path → Prop) fs fs' : (∀ q, P q → ¬ W q) → only_in W fs fs' → preserves P fs fs'.
Proof. intros HW Ho q n Pq Hq. rewrite Ho; [done|]. by apply HW. Qed.

(** Neither path is above the other. *)
Definition separate (a b : Path) : Prop := ¬ a `prefix_of` b ∧ ¬ b `prefix_of` a.

(** The nodes at and below a directory are the same. *)
Definition same_below (d : Path) : relation Fs := λ fs fs', ∀ p : Path, d `prefix_of` p → fs' !! p = fs !! p.

Lemma same_below_sym (d : Path) (fs fs' : Fs) : same_below d fs fs' → same_below d fs' fs.
Proof. intros Hx p Hp. symmetry. by apply Hx. Qed.

Lemma separate_not a b p : separate a b → a `prefix_of` p → ¬ b `prefix_of` p.
Proof. intros [Hab Hba] Ha Hb. by destruct (prefix_weak_total a b p Ha Hb). Qed.

Lemma only_below_separate a b fs fs' : separate a b → only_below b fs fs' → same_below a fs fs'.
Proof.
  intros Hs Ho p Hp. apply Ho. by eapply separate_not.
Qed.

(** A relation that allows any change at the paths in [P] *)
Class Writable (R : relation Fs) (P : Path → Prop) : Prop := {
  writable_preorder :: PreOrder R;
  writable_insert : ∀ p n fs, P p → R fs (<[p := n]> fs);
  writable_delete : ∀ p fs, P p → R fs (delete p fs)
}.

#[export] Instance only_in_writable (W : Path → Prop) : Writable (only_in W) W.
Proof.
  split; [apply _|intros p n fs Hp q Hq..|intros p fs Hp q Hq]; [rewrite lookup_insert_ne|rewrite lookup_delete_ne];
    try done; by intros ->.
Qed.

#[export] Instance only_below_writable d : Writable (only_below d) (λ q, d `prefix_of` q) := only_in_writable _.

#[export] Instance only_at_writable p : Writable (only_at p) (λ q, q = p) := only_in_writable _.

#[export] Instance preserves_writable (Q : Path → Prop) : Writable (preserves Q) (λ p, ¬ Q p).
Proof.
  split; [apply _|intros p n fs Hp; apply insert_preserves; by right|intros p fs Hp; by apply delete_preserves].
Qed.

Lemma writable_mono R (P P' : Path → Prop) : (∀ q, P' q → P q) → Writable R P → Writable R P'.
Proof.
  intros HP Hw. split; [apply _|intros p n fs Hp; apply (writable_insert (P:=P)); auto|].
  intros p fs Hp. apply (writable_delete (P:=P)). auto.
Qed.

Section sets.
Context (R : relation Fs) (P : Path → Prop) `{!Writable R P}.

Lemma append_writable p s (fs : Fs) : P p → R fs (fs_append p s fs).
Proof. intros Hp. unfold fs_append. destruct (fs !! p) as [[]|]; try reflexivity. by apply writable_insert. Qed.

Lemma make_dirs_writable ps m (fs : Fs) : Forall P ps → R fs (fs_make_dirs ps m fs).
Proof.
  unfold fs_make_dirs. intros Hps. revert fs. induction Hps as [|p ps Hp _ IH]; intros fs; [reflexivity|].
  simpl. etrans; [by apply writable_insert|apply IH].
Qed.

Lemma create_dir_all_writable (p : Path) m (fs fs' : Fs) :
  (∀ n, P (take n p)) → fs_create_dir_all p m fs = Ok fs' → R fs fs'.
Proof.
  intros Hp. unfold fs_create_dir_all. destruct (fs !! p) as [[]|]; try done; [by intros [= <-]|].
  destruct (absent_kind fs p); try done. intros [= <-]. apply make_dirs_writable.
  apply Forall_forall. intros k [_ (n & -> & _)%list_elem_of_fmap]%list_elem_of_filter. apply Hp.
Qed.
End sets.

(** ** System calls and transports *)

Section operations.
Context `{Ext} `{BuildCfg} (R : relation Fs) (P : Path → Prop) `{!Writable R P}.

#[local] Abbreviation Within := (fs_rel R).

Section path.
Context (p : Path) (Hp : P p).

Lemma sys_create_within (f : World → Node) : respects Within (sys_write (λ w, fs_create p (f w) (w_fs w))).
Proof. apply sys_write_respects; [apply _|]. intros w fs' (_ & _ & ->)%fs_create_inv. by apply (writable_insert (P:=P)). Qed.

Lemma sys_open_truncate_within : respects Within (sys_open_truncate p).
Proof.
  apply sys_write_respects; [apply _|]. intros w fs'. unfold fs_open_truncate.
  destruct (w_fs w !! p) as [[]|]; try done; [|destruct (is_dir_node _); [|done]];
    intros [= <-]; by apply (writable_insert (P:=P)).
Qed.

Lemma sys_write_all_within s : respects Within (sys_write_all p s).
Proof.
  apply syscall_respects; [apply _| |intros; by apply (append_writable R P)]. intros w [] fs' [= <-]. by apply (append_writable R P).
Qed.

Lemma sys_remove_file_within : respects Within (sys_remove_file p).
Proof. apply sys_write_respects; [apply _|]. intros w fs' ->%fs_remove_file_inv. by apply (writable_delete (P:=P)). Qed.

Lemma sys_set_meta_within f : respects Within (sys_write (λ w, fs_set_meta p (f w) (w_fs w))).
Proof.
  apply sys_write_respects; [apply _|]. intros w fs'. unfold fs_set_meta.
  destruct (w_fs w !! p); [|done]. intros [= <-]. by apply (writable_insert (P:=P)).
Qed.
End path.

(** Making directories, with those above that are missing *)
Lemma sys_create_dir_all_within (p : Path) : (∀ n, P (take n p)) → respects Within (sys_create_dir_all p).
Proof.
  intros Hp. apply syscall_respects; [apply _| |reflexivity]. intros w [] fs'. unfold map_ok.
  destruct (fs_create_dir_all _ _ _) as [fs1|] eqn:E; [|done]. intros [= <-]. by eapply (create_dir_all_writable R P).
Qed.

(** The path that an operation uses *)
Lemma full_path_bind {A} (Q : relation World) `{!PreOrder Q} (t : Transport) s (k : Path → M A) :
  respects Q (k (path_join (tr_path t) s)) → respects Q (Local.full_path t s ≫= k).
Proof.
  intros Hk w. unfold Local.full_path, debug_assert.
  destruct debug_assertions; [destruct (negb (contains_str "/../" s))|]; [apply Hk|simpl; reflexivity|apply Hk].
Qed.

Section transport.
Context (t : Transport) (s : string) (Hp : P (path_join (tr_path t) s)).

Lemma write_file_within c mode : respects Within (Transport.write_file t s c mode).
Proof.
  rewrite tr_write_file. unfold Local.write_file, sys_open_new. apply full_path_bind; [apply _|].
  pose proof (sys_create_within _ Hp). pose proof (sys_open_truncate_within _ Hp).
  pose proof (sys_write_all_within _ Hp c). pose proof (sys_remove_file_within _ Hp). solve_respects.
Qed.

Lemma create_dir_within : respects Within (Transport.create_dir t s).
Proof.
  rewrite tr_create_dir. unfold Local.create_dir, sys_create_dir. apply full_path_bind; [apply _|].
  pose proof (sys_create_within _ Hp). solve_respects.
Qed.

Lemma remove_file_within : respects Within (Transport.remove_file t s).
Proof.
  rewrite tr_remove_file. unfold Local.remove_file. apply full_path_bind; [apply _|].
  pose proof (sys_remove_file_within _ Hp). solve_respects.
Qed.

Lemma write_json_within {T} `{Serde T} (obj : T) : respects Within (write_json t s obj).
Proof. unfold write_json. pose proof write_file_within. solve_respects. Qed.
End transport.
End operations.

(** ** Components that write below a directory *)

(** A relative path leads below the directory that it is joined to. *)
Lemma join_below d base s : d `prefix_of` base → starts_with "/" s = false → d `prefix_of` path_join base s.
Proof. intros Hd Hs. unfold path_join. rewrite Hs. by apply prefix_app_r. Qed.

Lemma valid_name_relative n : valid_name n = true → starts_with "/" n = false.
Proof. intros Hn. apply (join_not_absolute [n]). by repeat constructor. Qed.

Lemma pad_decimal_relative w n s : starts_with "/" (pad_decimal w n +:+ s) = false.
Proof.
  pose proof (pad_decimal_valid_name w n) as [Hv _]%valid_name_iff. pose proof (pad_decimal_no_char "/" w n eq_refl) as Hc.
  destruct (pad_decimal w n) as [|c d]; [done|]. apply not_true_iff_false. intros [t Ht]%starts_with_spec.
  injection Ht as -> _. done.
Qed.

Section below.
Context `{Ext, !HashLaws, !HexLaws} `{BuildCfg} `{Codecs} (d : Path).

#[local] Abbreviation Below := (fs_rel (only_below d)).

(** Storing a block *)
Lemma store_below (bd : BlockDir) data stats :
  d `prefix_of` tr_path (bd_transport bd) → respects Below (BlockDir.store_or_deduplicate bd data stats).
Proof.
  intros Hd. unfold BlockDir.store_or_deduplicate. set (h := BlockHash.hash_bytes data).
  assert (BlockHash.fits h) as Hh by apply blake2b_length.
  assert (respects Below (BlockDir.store_new bd h data stats)); [|solve_respects].
  unfold BlockDir.store_new. destruct (compress data) as [c|]; [|solve_respects].
  apply respects_bind; [apply _|solve_respects|intros _]. cbv zeta.
  eapply respects_bind_run; [intros w; by apply block_relpath_run|].
  eapply respects_bind_run; [intros w; by apply subdir_relpath_run|].
  pose proof (create_dir_within (only_below d) (λ q, d `prefix_of` q) (bd_transport bd)
    (string_take SUBDIR_NAME_CHARS (BlockHash.to_string h))) as Hc.
  pose proof (write_file_within (only_below d) (λ q, d `prefix_of` q) (bd_transport bd) (join_with "/" (block_names h))) as Hw.
  rewrite bd_join in Hw by by apply block_names_valid. specialize (Hw (prefix_app_r _ _ _ Hd)).
  rewrite subdir_join in Hc by done. specialize (Hc (prefix_app_r _ _ _ Hd)).
 solve_respects.
Qed.

(** Writing a hunk *)
Definition index_below (iw : IndexWriter) : Prop := d `prefix_of` tr_path (iw_transport iw).

Lemma finish_hunk_below iw : index_below iw → held Below (λ r, index_below r.2) (IndexWriter.finish_hunk iw).
Proof.
  intros Hd. unfold IndexWriter.finish_hunk. destruct (iw_entries iw) as [|e es]; [by apply held_ret; [apply _|]|].
  apply held_then; [apply _|unfold IndexWriter.sort_entries, debug_assert; solve_respects|]. intros l.
  apply held_then; [apply _|unfold IndexWriter.check_hunk, DebugCheckOrder.check, CheckOrder.check; solve_respects|].
  intros c. unfold IndexWriter.write_hunk. cbn [iw_sequence iw_entries iw_transport].
  destruct (to_json _); [|by apply held_ret; [apply _|]].
  apply held_then; [apply _| |].
  { case_match; [|solve_respects]. apply (create_dir_within _ (λ q, d `prefix_of` q)). apply join_below; [done|].
    unfold subdir_relpath. rewrite <-(string_app_nil_r (pad_decimal _ _)). apply pad_decimal_relative. }
  intros [[]|err]; [|by apply held_ret; [apply _|]].
  destruct (compress _); [|by apply held_ret; [apply _|]].
  apply held_then; [apply _| |].
  { apply (write_file_within _ (λ q, d `prefix_of` q)). apply join_below; [done|]. apply pad_decimal_relative. }
  intros [[]|err]; [|by apply held_ret; [apply _|]].
  do 4 (apply held_then; [apply _|unfold add_u32; solve_respects|intros ?]). by apply held_ret; [apply _|].
Qed.

Lemma finish_below iw : index_below iw → respects Below (IndexWriter.finish iw).
Proof.
  intros Hd. unfold IndexWriter.finish. pose proof (held_respects _ _ _ (finish_hunk_below iw Hd)). solve_respects.
Qed.

(** Creating and closing a band *)
Definition band_below (b : Band) : Prop := d `prefix_of` tr_path (b_transport b).

Lemma band_create_below a flags : d `prefix_of` tr_path (ar_transport a) →
  held Below (λ r, ∀ b, r = Ok b → band_below b) (Band.create_with_flags a flags).
Proof.
  intros Hd. unfold Band.create_with_flags. apply held_then; [apply _|solve_respects|intros _].
  unfold try. apply held_then; [apply _|apply last_band_id_reading; apply _|]. intros [last|err]; [|by apply held_ret; [apply _|]].
  apply held_then; [apply _|unfold BandId.next_sibling; solve_respects|]. intros b. cbv zeta.
  set (t := Transport.chdir _ _).
  assert (d `prefix_of` tr_path t) as Ht.
  { by apply join_below. }
  apply held_then; [apply _|apply (create_dir_within _ (λ q, d `prefix_of` q)); by apply join_below|].
  intros [[]|err]; [|by apply held_ret; [apply _|]].
  apply held_then; [apply _|apply (create_dir_within _ (λ q, d `prefix_of` q)); by apply join_below|].
  intros [[]|err]; [|by apply held_ret; [apply _|]].
  apply held_then; [apply _|solve_respects|]. intros now.
  apply held_then; [apply _|apply (write_json_within _ (λ q, d `prefix_of` q)); by apply join_below|].
  intros [[]|err]; apply held_ret; [apply _| |apply _|]; naive_solver.
Qed.

Lemma band_close_below b n : band_below b → respects Below (Band.close b n).
Proof.
  intros Hd. unfold Band.close. apply respects_bind; [apply _|solve_respects|]. intros now.
  apply respects_bind; [apply _|apply (write_json_within _ (λ q, d `prefix_of` q)); by apply join_below|solve_respects].
Qed.
End below.
