(* ===== verification/Stitch.v ===== *)
(** * Stitched indexes and stored trees

    The state machine that reads the index of a possibly incomplete band and
    continues with older bands (src/stitch.rs), stored trees
    (src/stored_tree.rs) and the measuring of trees (src/tree.rs). *)

From Stdlib Require Import Ascii.
From S2P Require Import Prelude Text Apath Externals Ids Entry Counters Errors World Transport.
From S2P Require Import Sample Excludes Jsonio SampleWorld BlockDir Index Archive Footprint.
From stdpp Require Import list gmap strings.

(** ** Definitions *)

(** The states of the iterator *)
Inductive StitchState : Type :=
  | Done
  | BeforeBand (band_id : BandId)
  | InBand (band_id : BandId) (index_hunks : IndexHunkIter)
  | AfterBand (band_id : BandId).

(** [IterStitchedIndexHunks] *)
Record IterStitchedIndexHunks : Type := MkIterStitched {
  st_last_apath : option Apath;
  st_archive : Archive;
  st_state : StitchState
}.

Module Stitch.
Section stitch.
Context `{Ext} `{BuildCfg} `{Codecs}.

Definition new (archive : Archive) (band_id : BandId) : IterStitchedIndexHunks :=
  MkIterStitched None archive (BeforeBand band_id).

Definition empty (archive : Archive) : IterStitchedIndexHunks := MkIterStitched None archive Done.

(** [previous_existing_band]: the loop runs at most as often as the number says. *)
Fixpoint previous_loop (fuel : nat) (archive : Archive) (band_id : BandId) : M (option BandId) :=
  match BandId.previous band_id with
  | Some prev_band_id =>
      match fuel with
      | O => no_fuel
      | S fuel =>
          r ← Archive.band_exists archive prev_band_id;
          if unwrap_or false r then mret (Some prev_band_id)
          else previous_loop fuel archive prev_band_id
      end
  | None => mret None
  end.

Definition previous_existing_band (archive : Archive) (band_id : BandId) : M (option BandId) :=
  previous_loop (N.to_nat (band_num band_id)) archive band_id.

(** The transition from a state to the next one, when it yields nothing *)
Definition step_before (self : IterStitchedIndexHunks) (band_id : BandId) : M StitchState :=
  r ← Band.open (st_archive self) band_id;
  match r with
  | Ok band =>
      index_hunks ← IndexHunkIter.iter_available_hunks (Band.index band);
      mret (InBand band_id (match st_last_apath self with
                            | Some l => IndexHunkIter.advance_to_after index_hunks l
                            | None => index_hunks
                            end))
  | Err err => _ ← monitor_error err; mret (AfterBand band_id)
  end.

Definition step_after (self : IterStitchedIndexHunks) (band_id : BandId) : M StitchState :=
  r ← Archive.band_is_closed (st_archive self) band_id;
  if unwrap_or false r then mret Done
  else
    prev ← previous_existing_band (st_archive self) band_id;
    mret (match prev with Some p => BeforeBand p | None => Done end).

Definition with_state (s : StitchState) (self : IterStitchedIndexHunks) : IterStitchedIndexHunks :=
  MkIterStitched (st_last_apath self) (st_archive self) s.

Definition last_apath_of (hunk : list IndexEntry) (old : option Apath) : option Apath :=
  match last hunk with Some e => Some (ie_apath e) | None => old end.

(** One round of the loop of [next]: a result, or another round. *)
Definition step (self : IterStitchedIndexHunks) :
    M (option (option (list IndexEntry)) * IterStitchedIndexHunks) :=
  match st_state self with
  | Done => mret (Some None, self)
  | InBand band_id index_hunks =>
      '(r, index_hunks) ← IndexHunkIter.next index_hunks;
      match r with
      | Some hunk =>
          mret (Some (Some hunk),
                MkIterStitched (last_apath_of hunk (st_last_apath self)) (st_archive self)
                  (InBand band_id index_hunks))
      | None => mret (None, with_state (AfterBand band_id) self)
      end
  | BeforeBand band_id => s ← step_before self band_id; mret (None, with_state s self)
  | AfterBand band_id => s ← step_after self band_id; mret (None, with_state s self)
  end.

Fixpoint next_loop (fuel : nat) (self : IterStitchedIndexHunks) :
    M (option (list IndexEntry) * IterStitchedIndexHunks) :=
  match fuel with
  | O => no_fuel
  | S fuel =>
      '(r, self) ← step self;
      match r with
      | Some result => mret (result, self)
      | None => next_loop fuel self
      end
  end.

(** How many more rounds there can be: each passes to the next phase of a band
    or to an older band. *)
Definition rounds (s : StitchState) : nat :=
  match s with
  | Done => 1
  | AfterBand b => 3 * N.to_nat (band_num b) + 2
  | InBand b _ => 3 * N.to_nat (band_num b) + 3
  | BeforeBand b => 3 * N.to_nat (band_num b) + 4
  end.

Definition next (self : IterStitchedIndexHunks) :
    M (option (list IndexEntry) * IterStitchedIndexHunks) :=
  next_loop (rounds (st_state self)) self.

(** How many more hunks there can be, when no index has as many as [files]: those
    listed already, and those of each older band. *)
Definition bound_at (files : nat) (self : IterStitchedIndexHunks) : nat :=
  match st_state self with
  | Done => 0
  | AfterBand b => N.to_nat (band_num b) * files
  | InBand b it => length (hi_hunks it) + N.to_nat (band_num b) * files
  | BeforeBand b => S (N.to_nat (band_num b)) * files
  end.

(** No index has more hunks than there are directories times files. *)
Definition bound (self : IterStitchedIndexHunks) (w : World) : nat :=
  bound_at (S (size (w_fs w) * size (w_fs w))) self.

End stitch.
End Stitch.

#[export] Instance stitched_hunk_iter `{Ext} `{BuildCfg} `{Codecs} : HunkIter IterStitchedIndexHunks := {
  next_hunk := Stitch.next;
  hunks_bound := Stitch.bound
}.

(** ** Stored trees *)

(** [StoredTree] *)
Record StoredTree : Type := MkStoredTree {
  sto_band : Band;
  sto_archive : Archive;
  sto_block_dir : BlockDir
}.

Module StoredTree.
Section stored_tree.
Context `{Ext} `{BuildCfg} `{Codecs}.

Definition open (archive : Archive) (band_id : BandId) : M (result StoredTree Error) :=
  band ←? Band.open archive band_id;
  mret (Ok (MkStoredTree band archive (ar_block_dir archive))).

Definition is_closed (self : StoredTree) : M (result bool Error) := Band.is_closed (sto_band self).

Definition iter_entries (self : StoredTree) (subtree : Apath) (exclude : Exclude) :
    IndexEntryIter IterStitchedIndexHunks :=
  IndexEntryIter.new (Stitch.new (sto_archive self) (Band.id (sto_band self))) subtree exclude.

(** [ReadTree::size(exclude)] for a stored tree *)
Definition size (self : StoredTree) (exclude : Exclude) : M (result N Error) :=
  IndexEntryIter.for_entries (λ file_bytes e,
    s ← Entry.size e;
    match s with
    | Some bytes =>
        _ ← monitor_count Files 1;
        _ ← monitor_count FileBytes bytes;
        n ← add_u64 file_bytes bytes;
        mret (Ok n)
    | None => mret (Ok file_bytes)
    end) 0%N (iter_entries self Apath.root exclude).

End stored_tree.
End StoredTree.

(** [Archive::open_stored_tree] and [Archive::iter_entries] *)
Definition open_stored_tree `{Ext} `{BuildCfg} `{Codecs} (self : Archive)
    (band_selection : BandSelectionPolicy) : M (result StoredTree Error) :=
  band_id ←? Select.resolve_band_id self band_selection;
  StoredTree.open self band_id.

Definition archive_iter_entries `{Ext} `{BuildCfg} `{Codecs} (self : Archive)
    (band_selection : BandSelectionPolicy) (subtree : Apath) (exclude : Exclude) :
    M (result (IndexEntryIter IterStitchedIndexHunks) Error) :=
  st ←? open_stored_tree self band_selection;
  mret (Ok (StoredTree.iter_entries st subtree exclude)).

(** ** Reading and termination *)

Section reading.
Context `{Ext} `{BuildCfg} `{Codecs} (R : relation World) `{!Reading R}.

Lemma previous_loop_reading fuel a b : respects R (Stitch.previous_loop fuel a b).
Proof.
  revert b. induction fuel as [|fuel IH]; intros b; cbn [Stitch.previous_loop]; solve_reading; apply IH.
Qed.

Lemma previous_existing_band_reading a b : respects R (Stitch.previous_existing_band a b).
Proof. apply previous_loop_reading. Qed.

Lemma step_reading self : respects R (Stitch.step self).
Proof.
  unfold Stitch.step, Stitch.step_before, Stitch.step_after.
  pose proof previous_existing_band_reading. solve_reading.
Qed.

Lemma stitch_next_loop_reading fuel self : respects R (Stitch.next_loop fuel self).
Proof.
  revert self. pose proof step_reading.
  induction fuel as [|fuel IH]; intros self; cbn [Stitch.next_loop]; solve_reading; apply IH.
Qed.

Lemma stitch_next_reading self : respects R (Stitch.next self).
Proof. apply stitch_next_loop_reading. Qed.

Lemma stored_tree_open_reading a b : respects R (StoredTree.open a b).
Proof. unfold StoredTree.open. solve_reading. Qed.

Lemma open_stored_tree_reading a p : respects R (open_stored_tree a p).
Proof. unfold open_stored_tree. pose proof stored_tree_open_reading. solve_reading. Qed.
End reading.

#[export] Hint Resolve stitch_next_reading previous_existing_band_reading stored_tree_open_reading
  open_stored_tree_reading : reading.

Section termination.
Context `{Ext} `{BuildCfg} `{Codecs}.

Lemma previous_loop_terminates fuel a b : N.to_nat (band_num b) ≤ fuel → terminates (Stitch.previous_loop fuel a b).
Proof.
  revert b. induction fuel as [|fuel IH]; intros b Hb; cbn [Stitch.previous_loop];
    destruct (BandId.previous b) as [p|] eqn:Ep; try apply terminates_ret;
    apply bandid_previous_lt in Ep; [lia|].
  apply terminates_bind; [apply band_exists_terminates|]. intros r.
  destruct (unwrap_or false r); [apply terminates_ret|apply IH; lia].
Qed.

Lemma previous_loop_lt fuel a b w p w' :
  Stitch.previous_loop fuel a b w = (Ret (Some p), w') → (band_num p < band_num b)%N.
Proof.
  revert b w. induction fuel as [|fuel IH]; intros b w; cbn [Stitch.previous_loop];
    destruct (BandId.previous b) as [q|] eqn:Eq; intros Hr; try done; try (by inv_run Hr).
  apply bandid_previous_lt in Eq. inv_run Hr. destruct (unwrap_or false _); [inv_run Hr; done|].
  apply IH in Hr. lia.
Qed.

(** A round that yields nothing brings the end nearer. *)
Lemma step_rounds self w self' w' :
  Stitch.step self w = (Ret (None, self'), w') →
  S (Stitch.rounds (st_state self')) ≤ Stitch.rounds (st_state self).
Proof.
  unfold Stitch.step. intros Hr. destruct (st_state self) as [|b|b it|b].
  - inv_run Hr.
  - inv_run Hr. inv_run Hr. simpl. unfold Stitch.step_before in Hrun. inv_run Hrun.
    destruct a0 as [band|err]; inv_run Hrun; inv_run Hrun; simpl; lia.
  - inv_run Hr. destruct a as [[h|] it']; inv_run Hr. simpl. lia.
  - inv_run Hr. inv_run Hr. simpl. unfold Stitch.step_after in Hrun. inv_run Hrun.
    destruct (unwrap_or false _); [inv_run Hrun; simpl; lia|].
    inv_run Hrun. inv_run Hrun. destruct a1 as [p|]; simpl; [|lia].
    apply previous_loop_lt in Hrun1. lia.
Qed.

Lemma step_terminates self : terminates (Stitch.step self).
Proof.
  unfold Stitch.step, Stitch.step_before, Stitch.step_after, Stitch.previous_existing_band.
  pose proof (λ a b, previous_loop_terminates (N.to_nat (band_num b)) a b (le_n _)).
  solve_terminates.
Qed.

Lemma stitch_next_loop_terminates fuel self w :
  Stitch.rounds (st_state self) ≤ fuel → (Stitch.next_loop fuel self w).1 ≠ NoFuel.
Proof.
  revert self w. induction fuel as [|fuel IH]; intros self w Hb; cbn [Stitch.next_loop].
  { destruct (st_state self); simpl in Hb; lia. }
  apply bind_terminates_at; [apply step_terminates|].
  intros [[r|] self'] w1 Hst; [done|]. apply step_rounds in Hst. apply IH. lia.
Qed.

Lemma stitch_next_terminates self : terminates (Stitch.next self).
Proof. intros w. by apply stitch_next_loop_terminates. Qed.

(** ** How many hunks there can be *)

Lemma fs_read_dir_length p (fs : Fs) es : fs_read_dir p fs = Ok es → length es ≤ size fs.
Proof.
  unfold fs_read_dir. destruct (fs !! p) as [[]|]; intros [= <-]. apply fs_children_length.
Qed.

Lemma classify_length es names :
  length (ld_files (Local.classify es names)) ≤ length (ld_files names) + length es ∧
  length (ld_dirs (Local.classify es names)) ≤ length (ld_dirs names) + length es.
Proof.
  revert names. induction es as [|[x node] es IH]; intros names; cbn [Local.classify]; [simpl; lia|].
  destruct (IH (if utf8_valid x then
           match node_type node with
           | ft_dir => MkListDir (ld_files names) (ld_dirs names ++ [x])
           | ft_file => MkListDir (ld_files names ++ [x]) (ld_dirs names)
           | _ => names
           end
         else names)) as [Hf Hd].
  destruct (utf8_valid x); [destruct (node_type node)|]; simpl in *; rewrite ?length_app in *; simpl in *; lia.
Qed.

Lemma list_dir_length t s w l w' :
  Transport.list_dir t s w = (Ret (Ok l), w') →
  length (ld_files l) ≤ size (w_fs w) ∧ length (ld_dirs l) ≤ size (w_fs w).
Proof.
  intros (es & code & Hes & -> & _)%list_dir_inv. apply fs_read_dir_length in Hes.
  destruct (classify_length (permute code es) (MkListDir [] [])) as [Hf Hd]. simpl in *.
  assert (length (permute code es) = length es) as Hl by by rewrite permute_perm. lia.
Qed.

(** The hunks of an index whose listings are bounded: in its own directory, and in
    those of the listed subdirectories *)
Lemma hunks_available_bounded index n (rel : string → Prop) w hunks w' :
  rel "" →
  (∀ s l w1 w2, rel s → w_fs w1 = w_fs w → Transport.list_dir (ir_transport index) s w1 = (Ret (Ok l), w2) →
     length (ld_files l) ≤ n ∧ length (ld_dirs l) ≤ n ∧ Forall rel (ld_dirs l)) →
  IndexRead.hunks_available index w = (Ret (Ok hunks), w') → length hunks ≤ n * n.
Proof.
  intros Hnil Hlist. unfold IndexRead.hunks_available. intros Hr. inv_run Hr. destruct a as [l|]; [|inv_run Hr].
  pose proof (Hlist "" l w w0 Hnil eq_refl Hrun) as (_ & Hd & Hrel).
  apply reading_ends in Hrun as [Hfs _]; [|apply reading_list_dir..].
  inv_run Hr. inv_run Hr. rewrite sort_by_perm. etrans; [apply length_omap_le|].
  rewrite <-(sort_by_perm String.compare (ld_dirs l)) in Hd, Hrel.
  revert Hrun. generalize dependent (sort_by String.compare (ld_dirs l)). intros dirs Hd Hrel Hrun.
  assert (∀ dirs acc w1 r w2, Forall rel dirs → w_fs w1 = w_fs w →
    fold_st (λ acc dir, r ← Transport.list_dir (ir_transport index) dir;
              mret (match r with Ok l => acc ++ ld_files l | Err _ => acc end)%list) acc dirs w1
    = (Ret r, w2) → length r ≤ length acc + length dirs * n) as Hfold.
  { clear -Hlist. induction dirs as [|d dirs IH]; intros acc w1 r w2 Hrel Hw; cbn [fold_st]; intros Hr.
    { inv_run Hr. lia. }
    apply Forall_cons in Hrel as [Hd Hrel]. inv_run Hr. inv_run Hrun. inv_run Hrun. simpl length.
    destruct a0 as [l|].
    - pose proof (Hlist d l _ _ Hd Hw Hrun0) as (Hl & _).
      apply reading_ends in Hrun0 as [Hw1 _]; [|apply reading_list_dir..].
      apply IH in Hr; [|done|congruence]. rewrite length_app in Hr. lia.
    - pose proof (reading_list_dir (R:=fs_rel same_fs) (ir_transport index) d w1) as Hw1.
      rewrite Hrun0 in Hw1. unfold fs_rel, same_fs in Hw1. simpl in Hw1.
      apply IH in Hr; [|done|congruence]. lia. }
  apply Hfold in Hrun; [|done|done]. simpl in Hrun. nia.
Qed.

Lemma hunks_available_length index w hunks w' :
  IndexRead.hunks_available index w = (Ret (Ok hunks), w') →
  length hunks ≤ size (w_fs w) * size (w_fs w).
Proof.
  apply (hunks_available_bounded _ _ (λ _, True)); [done|]. intros s l w1 w2 _ Hw Hr.
  apply list_dir_length in Hr as [Hf Hd]. rewrite Hw in *. split_and!; [done..|]. by apply Forall_true.
Qed.

Definition index_transport (a : Archive) (b : BandId) : Transport :=
  Transport.chdir (Transport.chdir (ar_transport a) (BandId.to_string b)) INDEX_DIR.

Lemma index_transport_below a b : archive_path a `prefix_of` tr_path (index_transport a b).
Proof.
  apply join_below; [|done]. apply (join_below _ _ (BandId.to_string b)); [done|].
  apply valid_name_relative, bandid_valid_name.
Qed.

(** No index of the archive has as many hunks. *)
Definition few_hunks (files : nat) (a : Archive) (fs : Fs) : Prop :=
  ∀ b w hunks w', w_fs w = fs →
    IndexRead.hunks_available (IndexRead.open (index_transport a b)) w = (Ret (Ok hunks), w') → length hunks < files.

(** One round uses up the bound. *)
Lemma step_bound_at files self w r self' w' :
  few_hunks files (st_archive self) (w_fs w) →
  Stitch.step self w = (Ret (r, self'), w') →
  st_archive self' = st_archive self ∧
  match r with
  | Some (Some h) => S (Stitch.bound_at files self') ≤ Stitch.bound_at files self
  | _ => Stitch.bound_at files self' ≤ Stitch.bound_at files self
  end.
Proof.
  intros Hfiles. unfold Stitch.step, Stitch.bound_at. intros Hr. destruct (st_state self) as [|b|b it|b] eqn:Es.
  - inv_run Hr. by rewrite Es.
  - inv_run Hr. inv_run Hr. simpl. split; [done|]. unfold Stitch.step_before in Hrun. inv_run Hrun.
    destruct a0 as [band|err].
    + pose proof Hrun0 as Hopen. apply reading_ends in Hrun0 as [Hfs _]; [|apply band_open_reading; apply _..].
      inv_run Hrun. unfold IndexHunkIter.iter_available_hunks in Hrun0. inv_run Hrun0. inv_run Hrun0.
      destruct a1 as [hunks|]; [|done]. apply ret_inv in Hrun2 as [<- _].
      assert (length hunks < files) as Hlt.
      { apply band_open_inv in Hopen as [_ Ht]. unfold Band.index in Hrun1. rewrite Ht in Hrun1. by eapply Hfiles. }
      inv_run Hrun0. inv_run Hrun. simpl. destruct (st_last_apath self); simpl; lia.
    + inv_run Hrun. inv_run Hrun. simpl. lia.
  - inv_run Hr. destruct a as [[h|] it']; inv_run Hr; simpl; (split; [done|]); [|lia].
    apply hunk_iter_next_shorter in Hrun. lia.
  - inv_run Hr. inv_run Hr. simpl. split; [done|]. unfold Stitch.step_after in Hrun. inv_run Hrun.
    destruct (unwrap_or false _); [inv_run Hrun; simpl; lia|].
    inv_run Hrun. inv_run Hrun. destruct a1 as [p|]; simpl; [|lia].
    apply previous_loop_lt in Hrun1.
    assert (S (N.to_nat (band_num p)) ≤ N.to_nat (band_num b)) as Hp by lia. nia.
Qed.

Lemma bound_fs self w w' : w_fs w = w_fs w' → Stitch.bound self w = Stitch.bound self w'.
Proof. intros Hw. unfold Stitch.bound. by rewrite Hw. Qed.

(** Taking a hunk uses up the bound. *)
Lemma stitch_next_bound_at files self w h self' w' :
  few_hunks files (st_archive self) (w_fs w) → Stitch.next self w = (Ret (Some h, self'), w') →
  st_archive self' = st_archive self ∧ Stitch.bound_at files self' < Stitch.bound_at files self.
Proof.
  unfold Stitch.next. generalize (Stitch.rounds (st_state self)). intros fuel. revert self w.
  induction fuel as [|fuel IH]; intros self w Hfew; cbn [Stitch.next_loop]; [done|].
  intros Hr. inv_run Hr. destruct a as [r self1].
  pose proof (step_bound_at files _ _ _ _ _ Hfew Hrun) as [Ha Hb].
  apply reading_ends in Hrun as [Hfs _]; [|apply step_reading; apply _..].
  destruct r as [[h'|]|]; [inv_run Hr|inv_run Hr|].
  - by split.
  - apply IH in Hr as [Ha' Hb']; [|by rewrite Ha, Hfs]. split; [congruence|lia].
Qed.

Lemma few_hunks_size a (fs : Fs) : few_hunks (S (size fs * size fs)) a fs.
Proof. intros b w hunks w' <- Hr. apply hunks_available_length in Hr. lia. Qed.

Lemma stitch_next_bound self w h self' w' :
  Stitch.next self w = (Ret (Some h, self'), w') → S (Stitch.bound self' w') ≤ Stitch.bound self w.
Proof.
  intros Hr. pose proof Hr as Hfs. apply reading_ends in Hfs as [Hfs _]; [|apply stitch_next_reading; apply _..].
  rewrite (bound_fs self' w' w) by done.
  by apply (stitch_next_bound_at _ _ _ _ _ _ (few_hunks_size _ _)) in Hr as [_ ?].
Qed.

End termination.

(** The stitched index is a lawful source of hunks. *)
#[export] Instance stitched_hunk_iter_laws `{Ext} `{BuildCfg} `{Codecs} : HunkIterLaws IterStitchedIndexHunks.
Proof.
  split; simpl.
  - apply stitch_next_terminates.
  - intros R HR hi. by apply stitch_next_reading.
  - apply stitch_next_bound.
  - apply bound_fs.
Qed.

(** ** The state machine *)

Section machine.
Context `{Ext} `{BuildCfg} `{Codecs}.

(** Asking the stitched index for a hunk always comes to an end, whatever
    fails: the number of rounds that the state allows is never exhausted. It
    changes no file, and each hunk lowers the bound on those that remain. *)
Theorem stitch_next_total (self : IterStitchedIndexHunks) (w : World) :
  let '(o, w') := Stitch.next self w in
  o ≠ NoFuel ∧ w_fs w' = w_fs w ∧
  match o with
  | Ret (Some _, self') => Stitch.bound self' w' < Stitch.bound self w
  | _ => True
  end.
Proof.
  pose proof (stitch_next_terminates self w) as Ht.
  pose proof (stitch_next_reading (fs_rel same_fs) self w) as Hfs.
  destruct (Stitch.next self w) as [o w'] eqn:E. split; [exact Ht|]. split; [by symmetry|].
  destruct o as [[[h|] self']| | |]; try done. by apply stitch_next_bound in E.
Qed.

(** ** Looking for an older band *)

Definition has_head (a : Archive) (fs : Fs) (b : BandId) : Prop :=
  ∃ c m, fs !! head_path a b = Some (NFile c m).

Lemma band_exists_run a b w :
  fault_free w →
  ∃ r w', Archive.band_exists a b w = (Ret r, w') ∧ w_fs w' = w_fs w ∧ fault_free w' ∧
    (unwrap_or false r = true ↔ has_head a (w_fs w) b).
Proof.
  intros Hf. unfold Archive.band_exists.
  assert (valid_names [BandId.to_string b; BAND_HEAD_FILENAME]) as Hv.
  { repeat constructor. apply bandid_valid_name. }
  destruct (is_file_run (ar_transport a) (BandId.to_string b +:+ "/" +:+ BAND_HEAD_FILENAME) w
    (names_plain _ Hv) Hf) as (w' & Hr & Hfs & Hfr).
  rewrite (bind_run _ _ _ _ _ Hr). rewrite band_file_path by done.
  eexists _, w'. split; [done|]. split; [done|]. split; [by eapply fault_free_frame|].
  change (archive_path a ++ [BandId.to_string b; BAND_HEAD_FILENAME])%list with (head_path a b).
  unfold has_head. clear Hr. destruct (w_fs w !! head_path a b) as [[c m|m|t m|m]|]; cbn [map_err unwrap_or].
  - split; [intros _; by exists c, m|done].
  - split; [done|by intros (? & ? & ?)].
  - split; [done|by intros (? & ? & ?)].
  - split; [done|by intros (? & ? & ?)].
  - split; [|by intros (? & ? & ?)]. case_decide; cbn; done.
Qed.

(** Without failures, [previous_existing_band] finds the newest older band
    that has a head, and [None] means that there is none. *)
Theorem previous_existing_band_spec (a : Archive) (b : BandId) (w : World) (Hf : fault_free w) :
  match Stitch.previous_existing_band a b w with
  | (Ret (Some p), _) =>
      (band_num p < band_num b)%N ∧ has_head a (w_fs w) p ∧
      ∀ c, (band_num p < band_num c < band_num b)%N → ¬ has_head a (w_fs w) c
  | (Ret None, _) => ∀ c, (band_num c < band_num b)%N → ¬ has_head a (w_fs w) c
  | _ => False
  end.
Proof.
  unfold Stitch.previous_existing_band.
  assert (N.to_nat (band_num b) ≤ N.to_nat (band_num b)) as Hle by done. revert Hle.
  generalize (N.to_nat (band_num b)) at 2 3. intros fuel. revert b w Hf.
  induction fuel as [|fuel IH]; intros b w Hf Hle; cbn [Stitch.previous_loop];
    unfold BandId.previous; destruct (N.eqb_spec (band_num b) 0) as [Hz|Hz]; try lia;
    try (intros c Hc; lia).
  set (p := MkBandId (band_num b - 1)).
  destruct (band_exists_run a p w Hf) as (r & w' & Hr & Hfs & Hf' & Hh).
  rewrite (bind_run _ _ _ _ _ Hr). destruct (unwrap_or false r).
  - simpl. split; [lia|]. split; [by apply Hh|]. intros c Hc. lia.
  - specialize (IH p w' Hf' ltac:(simpl; lia)). rewrite Hfs in IH.
    assert (¬ has_head a (w_fs w) p) as Hnp by (intros Hp; by apply Hh in Hp).
    assert (∀ c, (band_num c < band_num b)%N → (band_num c < band_num p)%N ∨ c = p) as Hcase.
    { intros [c] Hc. simpl in *. destruct (decide (c = band_num b - 1)%N) as [->|]; [by right|left; lia]. }
    destruct (Stitch.previous_loop fuel a p w') as [[[q|]| | |] w2]; try done.
    + destruct IH as (Hq & Hhq & Hbetween). split; [simpl in *; lia|]. split; [done|].
      intros c [Hc1 Hc2]. destruct (Hcase c Hc2) as [Hlt| ->]; [by apply Hbetween|done].
    + intros c Hc. destruct (Hcase c Hc) as [Hlt| ->]; [by apply IH|done].
Qed.
End machine.

(** ** Stored indexes *)

Section stored.
Context `{Ext} `{BuildCfg} `{Codecs}.

(** The file of hunk [n] holds these entries. *)
Definition stored_hunk (fs : Fs) (t : Transport) (n : N) (es : list IndexEntry) : Prop :=
  ∃ c m json, fs !! hunk_path t n = Some (NFile c m) ∧ snap_decompress c = Some json ∧
    from_json json = Some es.

(** A well-formed index: each file that is listed as a hunk has the name the
    writer gives it, the entries of a hunk are sorted, and those of later hunks come
    after those of earlier ones. *)
Record index_ok (fs : Fs) (t : Transport) : Prop := {
  ok_names : ∀ d md f c m n, fs !! (tr_path t ++ [d])%list = Some (NDir md) →
    fs !! (path_join (tr_path t) d ++ [f])%list = Some (NFile c m) → parse_u32 f = Some n → d = subdir_relpath n ∧ f = pad_decimal 9 n;
  ok_sorted : ∀ n es, stored_hunk fs t n es → sorted_entries es;
  ok_increasing : ∀ n n' es es' e e', (n < n')%N → stored_hunk fs t n es → stored_hunk fs t n' es' →
    e ∈ es → e' ∈ es' → entry_lt e e'
}.

Lemma stored_hunk_fun fs t n es es' : stored_hunk fs t n es → stored_hunk fs t n es' → es = es'.
Proof. intros (c & m & j & Hp & Hc & Hj) (c' & m' & j' & Hp' & Hc' & Hj'). congruence. Qed.

Lemma read_hunk_inv index n w r index' w' :
  IndexRead.read_hunk index n w = (Ret (r, index'), w') →
  ir_transport index' = ir_transport index ∧ w_fs w' = w_fs w ∧
  match r with Ok (Some es) => stored_hunk (w_fs w) (ir_transport index) n es | _ => True end.
Proof.
  intros Hr. pose proof (read_hunk_reading (fs_rel same_fs) index n w) as Hfs.
  rewrite Hr in Hfs. unfold fs_rel, same_fs in Hfs. simpl in Hfs.
  unfold IndexRead.read_hunk in Hr. inv_run Hr. destruct a as [c|e]; [|by inv_run Hr; destruct (is_not_found e)].
  destruct (decompress c) as [json|] eqn:Ec; [|by inv_run Hr].
  destruct (from_json json) as [es|] eqn:Ej; [|by inv_run Hr]. inv_run Hr. split; [done|]. split; [done|].
  rewrite tr_read_file in Hrun. unfold Local.read_file in Hrun. inv_run Hrun.
  apply full_path_inv in Hrun0 as [-> ->]. rewrite hunk_relpath_names in Hrun.
  rewrite path_join_names in Hrun by apply hunk_names_valid.
  inv_run Hrun. inv_run Hrun. destruct a as [c'|]; simplify_eq/=.
  unfold Local.try_block in Hrun0. inv_run Hrun0. apply sys_read_inv in Hrun as [Ho _].
  inv_run Hrun0. apply sys_read_inv in Hrun0 as [Hc _]. simplify_eq.
  destruct (fs_read_file _ (w_fs w)) as [c0|] eqn:Ef; [|done]. simpl in Ho. simplify_eq. simpl in Ec.
  apply fs_read_file_inv in Ef as [m En]. exists c0, m, json. split; [exact En|]. split; [|done].
  unfold decompress, ok_or in Ec. by destruct (snap_decompress c0); simplify_eq.
Qed.

(** The listing of a well-formed index names each hunk once, in order. *)
Lemma classify_sublist es names :
  ∃ fl dl, Local.classify es names = MkListDir (ld_files names ++ fl) (ld_dirs names ++ dl) ∧
    fl `sublist_of` es.*1 ∧ dl `sublist_of` es.*1 ∧
    (∀ f, f ∈ fl → ∃ node, (f, node) ∈ es ∧ node_type node = ft_file) ∧
    (∀ d, d ∈ dl → ∃ node, (d, node) ∈ es ∧ node_type node = ft_dir).
Proof.
  revert names. induction es as [|[x node] es IH]; intros names; cbn [Local.classify].
  { exists [], []. rewrite !app_nil_r. destruct names. split_and!; try done; by intros f ?%not_elem_of_nil. }
  assert (∀ names', (∃ fl dl, Local.classify es names' = MkListDir (ld_files names' ++ fl) (ld_dirs names' ++ dl) ∧
    fl `sublist_of` es.*1 ∧ dl `sublist_of` es.*1 ∧
    (∀ f, f ∈ fl → ∃ nd, (f, nd) ∈ (x, node) :: es ∧ node_type nd = ft_file) ∧
    (∀ f, f ∈ dl → ∃ nd, (f, nd) ∈ (x, node) :: es ∧ node_type nd = ft_dir))) as IH'.
  { intros names'. destruct (IH names') as (fl & dl & He & Hf & Hd & Hk & Hk'). exists fl, dl. split_and!; try done.
    - intros f (nd & Hin & ?)%Hk. exists nd. split; [by right|done].
    - intros f (nd & Hin & ?)%Hk'. exists nd. split; [by right|done]. }
  clear IH. destruct (utf8_valid x); [destruct (node_type node) eqn:Et|]; simpl.
  1: destruct (IH' (MkListDir (ld_files names ++ [x]) (ld_dirs names))) as (fl & dl & He & Hf & Hd & Hk & Hk');
    exists (x :: fl), dl.
  2: destruct (IH' (MkListDir (ld_files names) (ld_dirs names ++ [x]))) as (fl & dl & He & Hf & Hd & Hk & Hk');
    exists fl, (x :: dl).
  3-5: destruct (IH' names) as (fl & dl & He & Hf & Hd & Hk & Hk'); exists fl, dl.
  all: rewrite He; simpl; rewrite <-?app_assoc;
    (split_and!; [done|by (apply sublist_skip || apply sublist_cons)|by (apply sublist_skip || apply sublist_cons)|..]).
  all: try done.
  all: intros f [->|Hin]%elem_of_cons; [exists node; split; [by left|done]|by auto].
Qed.

Lemma list_dir_NoDup t s w l w' :
  Transport.list_dir t s w = (Ret (Ok l), w') →
  NoDup (ld_files l) ∧ NoDup (ld_dirs l) ∧ w_fs w' = w_fs w ∧
  (∀ f, f ∈ ld_files l → ∃ c m, w_fs w !! (path_join (tr_path t) s ++ [f])%list = Some (NFile c m)) ∧
  (∀ d, d ∈ ld_dirs l → ∃ m, w_fs w !! (path_join (tr_path t) s ++ [d])%list = Some (NDir m)).
Proof.
  intros (es & code & Hes & -> & Hfs)%list_dir_inv.
  assert (es = fs_children (path_join (tr_path t) s) (w_fs w)) as ->.
  { unfold fs_read_dir in Hes. by destruct (w_fs w !! _) as [[]|]; simplify_eq. }
  destruct (classify_sublist (permute code (fs_children (path_join (tr_path t) s) (w_fs w))) (MkListDir [] []))
    as (fl & dl & -> & Hf & Hd & Hk & Hk'). simpl.
  assert (NoDup (permute code (fs_children (path_join (tr_path t) s) (w_fs w))).*1) as Hnd.
  { rewrite permute_perm. apply fs_children_NoDup. }
  split; [by eapply sublist_NoDup; [|eassumption]|]. split; [by eapply sublist_NoDup; [|eassumption]|]. split; [done|].
  split.
  - intros f (node & Hin & Ht)%Hk. rewrite permute_perm in Hin. apply elem_of_fs_children in Hin.
    destruct node as [c m| | |]; try done. by exists c, m.
  - intros f (node & Hin & Ht)%Hk'. rewrite permute_perm in Hin. apply elem_of_fs_children in Hin.
    destruct node as [|m| |]; try done. by exists m.
Qed.
End stored.

(** ** The order of a stitched index *)

Section order.
Context `{Ext} `{BuildCfg} `{Codecs}.

(** The files of the directories that have been listed *)
Lemma listed_files index fs dirs acc w r w' :
  index_ok fs (ir_transport index) → w_fs w = fs → NoDup dirs →
  (∀ d, d ∈ dirs → ∃ m, fs !! (tr_path (ir_transport index) ++ [d])%list = Some (NDir m)) →
  NoDup (omap parse_u32 acc) →
  (∀ f n, f ∈ acc → parse_u32 f = Some n → ∀ d, d ∈ dirs → d ≠ subdir_relpath n) →
  fold_st (λ acc dir, r ← Transport.list_dir (ir_transport index) dir;
             mret (match r with Ok l => acc ++ ld_files l | Err _ => acc end)%list) acc dirs w
  = (Ret r, w') → NoDup (omap parse_u32 r).
Proof.
  intros Hok. revert acc w. induction dirs as [|d dirs IH]; intros acc w Hw Hd Hdirs Hacc Hdis; cbn [fold_st]; intros Hr.
  { inv_run Hr. done. }
  apply NoDup_cons in Hd as [Hd1 Hd]. destruct (Hdirs d ltac:(by left)) as [md Hmd].
  assert (∀ d, d ∈ dirs → ∃ m, fs !! (tr_path (ir_transport index) ++ [d])%list = Some (NDir m)) as Hdirs'.
  { intros d' Hd'. apply Hdirs. by right. }
  subst fs. inv_run Hr. inv_run Hrun. inv_run Hrun. destruct a0 as [l|].
  - apply list_dir_NoDup in Hrun0 as (Hnf & _ & Hfs & Hfiles & _).
    assert (∀ f n, f ∈ ld_files l → parse_u32 f = Some n → d = subdir_relpath n ∧ f = pad_decimal 9 n) as Hname.
    { intros f n Hf Hn. apply Hfiles in Hf as (c & m & Hf). by eapply ok_names. }
    apply IH in Hr; [done|congruence|done|done| |].
    + rewrite omap_app. apply NoDup_app. split; [done|]. split.
      * intros n (f & Hf & Hn)%list_elem_of_omap (f' & Hf' & Hn')%list_elem_of_omap.
        destruct (Hname f' n Hf' Hn') as [-> _]. eapply Hdis; [exact Hf|exact Hn|by left|done].
      * apply omap_NoDup; [done|]. intros f f' n Hf Hf' Hn Hn'.
        destruct (Hname f n Hf Hn) as [_ ->]. by destruct (Hname f' n Hf' Hn') as [_ ->].
    + intros f n [Hf|Hf]%elem_of_app Hn d' Hd' Heq.
      * eapply Hdis; [exact Hf|exact Hn|by right|done].
      * destruct (Hname f n Hf Hn) as [-> _]. by subst d'.
  - pose proof (reading_list_dir (R:=fs_rel same_fs) (ir_transport index) d w) as Hw1.
    rewrite Hrun0 in Hw1. unfold fs_rel, same_fs in Hw1. simpl in Hw1.
    apply IH in Hr; [done|congruence|done|done|done|].
    intros f n Hf Hn d' Hd'. eapply Hdis; [exact Hf|exact Hn|by right].
Qed.

Lemma N_compare_trans x y z : N.compare x y ≠ Gt → N.compare y z ≠ Gt → N.compare x z ≠ Gt.
Proof. rewrite !N.compare_gt_iff. lia. Qed.

Lemma N_compare_antisym x y : N.compare y x = CompOpp (N.compare x y).
Proof. apply N.compare_antisym. Qed.

Lemma hunks_available_sorted index w hunks w' :
  index_ok (w_fs w) (ir_transport index) →
  IndexRead.hunks_available index w = (Ret (Ok hunks), w') → StronglySorted N.lt hunks.
Proof.
  intros Hok. unfold IndexRead.hunks_available. intros Hr. inv_run Hr. destruct a as [l|]; [|inv_run Hr].
  apply list_dir_NoDup in Hrun as (_ & Hnd & Hfs & _ & Hdirs). rewrite path_join_empty in Hdirs.
  inv_run Hr. inv_run Hr.
  apply (listed_files index (w_fs w)) in Hrun; [|done|done| | | |].
  - pose proof (sort_by_sorted N.compare N_compare_antisym N_compare_trans (omap parse_u32 a)) as Hs.
    assert (NoDup (sort_by N.compare (omap parse_u32 a))) as Hn by by rewrite sort_by_perm.
    induction Hs as [|x l' Hl IH Hx]; [constructor|]. apply NoDup_cons in Hn as [Hx' Hn].
    constructor; [by apply IH|]. apply Forall_forall. intros y Hy.
    eapply Forall_forall in Hx; [|exact Hy]. rewrite N.compare_gt_iff in Hx.
    assert (x ≠ y) by (intros ->; done). lia.
  - by rewrite sort_by_perm.
  - intros d Hd. apply Hdirs. by rewrite sort_by_perm in Hd.
  - constructor.
  - intros f n []%not_elem_of_nil.
Qed.

(** What is still to come is after what has been yielded. *)
Definition beyond (last : option Apath) (e : IndexEntry) : Prop :=
  match last with Some l => after l e | None => True end.

Definition ahead (fs : Fs) (t : Transport) (hunks : list N) (aft last : option Apath) : Prop :=
  ∀ n es e, n ∈ hunks → stored_hunk fs t n es → e ∈ es → beyond aft e → beyond last e.

Lemma sorted_filter es a : sorted_entries es → sorted_entries (filter (after a) es).
Proof. apply strongly_sorted_filter. Qed.

(** What [select] yields, with what may follow *)
Lemma select_props es aft out aft' :
  sorted_entries es → IndexHunkIter.select es aft = Some (out, aft') →
  sorted_entries out ∧ (∀ e, e ∈ out → e ∈ es ∧ beyond aft e) ∧ (out = [] → aft' = aft).
Proof.
  intros Hs Hsel. destruct aft as [a|].
  - pose proof (select_after_spec_aux es a Hs) as Hspec. rewrite Hsel in Hspec.
    destruct Hspec as [-> Ha]. split; [by apply sorted_filter|]. split.
    + by intros e [He ?]%list_elem_of_filter.
    + intros Hnil. destruct Ha as [->|[-> Hall]]; [done|].
      rewrite filter_all in Hnil by done. subst es. done.
  - simpl in Hsel. destruct es as [|x es]; simplify_eq. split; [done|]. split; [by intros e|done].
Qed.
End order.

Section increasing.
Context `{Ext} `{BuildCfg} `{Codecs}.

Lemma last_apath_of_beyond out last e :
  Forall (λ x, entry_lt x e) out → beyond last e → beyond (Stitch.last_apath_of out last) e.
Proof.
  intros Hall Hb. unfold Stitch.last_apath_of. destruct (list.last out) as [x|] eqn:El; [|done].
  simpl. unfold after. eapply Forall_forall in Hall; [exact Hall|].
  rewrite last_lookup in El. by eapply list_elem_of_lookup_2.
Qed.

(** One step of the hunks of a band *)
Lemma hunk_next_increasing hunks index aft last w out it w' :
  index_ok (w_fs w) (ir_transport index) → StronglySorted N.lt hunks →
  ahead (w_fs w) (ir_transport index) hunks aft last →
  IndexHunkIter.next_loop hunks index aft w = (Ret (Some out, it), w') →
  sorted_entries out ∧ Forall (beyond last) out ∧ ir_transport (hi_index it) = ir_transport index ∧
  StronglySorted N.lt (hi_hunks it) ∧
  ahead (w_fs w) (ir_transport index) (hi_hunks it) (hi_after it) (Stitch.last_apath_of out last).
Proof.
  revert index aft w. induction hunks as [|n hunks IH]; intros index aft w Hok Hs Ha;
    cbn [IndexHunkIter.next_loop]; intros Hr; inv_run Hr.
  inversion_clear Hs as [|? ? Hs' Hlt].
  destruct a as [r index']. apply read_hunk_inv in Hrun as (Ht & Hfs & Hst).
  assert (ahead (w_fs w) (ir_transport index) hunks aft last) as Ha'.
  { intros m es e Hm. apply Ha. by right. }
  destruct r as [[es|]|e].
  - pose proof (ok_sorted _ _ Hok _ _ Hst) as Hes.
    destruct (IndexHunkIter.select es aft) as [[out' aft']|] eqn:Esel.
    + inv_run Hr. destruct (select_props es aft out aft' Hes Esel) as (Hso & Hin & Hnil).
      split; [done|]. split; [|split; [done|split; [done|]]].
      * apply Forall_forall. intros e He. destruct (Hin e He) as [He' Hb].
        eapply Ha; [by left|exact Hst|exact He'|exact Hb].
      * simpl. intros m es' e Hm Hst' He Hb.
        assert (Forall (λ x, entry_lt x e) out) as Hall.
        { apply Forall_forall. intros x Hx. destruct (Hin x Hx) as [Hx' _].
          eapply (ok_increasing _ _ Hok n m es es'); [|done..]. by eapply Forall_forall in Hlt. }
        destruct out as [|x out].
        -- rewrite (Hnil eq_refl) in Hb. simpl. by eapply Ha'.
        -- unfold Stitch.last_apath_of. destruct (list.last (x :: out)) as [y|] eqn:El;
             [|by apply last_None in El].
           simpl. eapply Forall_forall in Hall; [exact Hall|].
           rewrite last_lookup in El. by eapply list_elem_of_lookup_2.
    + rewrite <-Hfs, <-Ht in *. by apply (IH index' aft w0).
  - inv_run Hr.
  - change (ir_transport index) with (ir_transport (IndexRead.count_error index)) in *.
    rewrite <-Hfs in *. rewrite <-Ht in *. by apply (IH (IndexRead.count_error index') aft w0).
Qed.

(** Every band's index is well formed. *)
Definition indexes_ok (a : Archive) (fs : Fs) : Prop := ∀ b, index_ok fs (index_transport a b).

(** The states that the machine reaches *)
Definition stitch_inv (fs : Fs) (self : IterStitchedIndexHunks) : Prop :=
  match st_state self with
  | InBand b it =>
      ir_transport (hi_index it) = index_transport (st_archive self) b ∧
      StronglySorted N.lt (hi_hunks it) ∧
      ahead fs (index_transport (st_archive self) b) (hi_hunks it) (hi_after it) (st_last_apath self)
  | _ => True
  end.

Lemma step_increasing self w r self' w' :
  indexes_ok (st_archive self) (w_fs w) → stitch_inv (w_fs w) self →
  Stitch.step self w = (Ret (r, self'), w') →
  st_archive self' = st_archive self ∧ stitch_inv (w_fs w) self' ∧
  match r with
  | Some (Some out) => sorted_entries out ∧ Forall (beyond (st_last_apath self)) out ∧
                       st_last_apath self' = Stitch.last_apath_of out (st_last_apath self)
  | _ => st_last_apath self' = st_last_apath self
  end.
Proof.
  intros Hok Hinv. unfold Stitch.step, stitch_inv in *. intros Hr.
  destruct (st_state self) as [|b|b it|b] eqn:Es.
  - inv_run Hr. by rewrite Es.
  - inv_run Hr. inv_run Hr. simpl. split; [done|]. split; [|done].
    unfold Stitch.step_before in Hrun. inv_run Hrun. destruct a0 as [band|err].
    + pose proof (band_open_inv _ _ _ _ _ Hrun0) as [_ Ht].
      apply reading_ends in Hrun0 as [Hfs _]; [|apply band_open_reading; apply _..].
      inv_run Hrun. unfold IndexHunkIter.iter_available_hunks in Hrun0. inv_run Hrun0. inv_run Hrun0.
      destruct a1 as [hunks|]; [|done]. apply ret_inv in Hrun2 as [<- _].
      assert (ir_transport (Band.index band) = index_transport (st_archive self) b) as Hit.
      { unfold Band.index, IndexRead.open, index_transport. simpl. by rewrite Ht. }
      apply hunks_available_sorted in Hrun1; [|rewrite Hfs, Hit; apply Hok].
      inv_run Hrun0. inv_run Hrun. destruct (st_last_apath self) as [l|]; simpl.
      * split; [done|]. split; [done|]. by intros n es e _ _ _ Hb.
      * split; [done|]. split; [done|]. by intros n es e _ _ _ Hb.
    + inv_run Hrun. inv_run Hrun. done.
  - destruct Hinv as (Ht & Hs & Ha). inv_run Hr. destruct a as [o it'].
    destruct o as [out|]; inv_run Hr; simpl; [|done].
    unfold IndexHunkIter.next in Hrun.
    apply (hunk_next_increasing _ _ _ (st_last_apath self)) in Hrun as (Hso & Hb & Ht' & Hs' & Ha');
      [|rewrite Ht; apply Hok|done|by rewrite Ht].
    rewrite Ht in Ht', Ha'. by split_and!.
  - inv_run Hr. inv_run Hr. simpl. split; [done|]. split; [|done].
    unfold Stitch.step_after in Hrun. inv_run Hrun.
    destruct (unwrap_or false _); [by inv_run Hrun|]. inv_run Hrun. inv_run Hrun. by destruct a1.
Qed.

Lemma next_increasing self w out self' w' :
  indexes_ok (st_archive self) (w_fs w) → stitch_inv (w_fs w) self →
  Stitch.next self w = (Ret (Some out, self'), w') →
  st_archive self' = st_archive self ∧ stitch_inv (w_fs w) self' ∧
  sorted_entries out ∧ Forall (beyond (st_last_apath self)) out ∧
  st_last_apath self' = Stitch.last_apath_of out (st_last_apath self) ∧ w_fs w' = w_fs w.
Proof.
  unfold Stitch.next. generalize (Stitch.rounds (st_state self)). intros fuel. revert self w.
  induction fuel as [|fuel IH]; intros self w Hok Hinv; cbn [Stitch.next_loop]; [done|].
  intros Hr. inv_run Hr. destruct a as [r self1].
  pose proof (step_increasing _ _ _ _ _ Hok Hinv Hrun) as (Har & Hinv1 & Hres).
  apply reading_ends in Hrun as [Hfs _]; [|apply step_reading; apply _..].
  destruct r as [[o|]|]; [inv_run Hr; naive_solver|inv_run Hr|].
  rewrite <-Hfs, <-Har, <-Hres in *. by apply IH.
Qed.

(** The last path, after a hunk, is not before anything that came. *)
Lemma beyond_last_apath out last e :
  sorted_entries out → Forall (beyond last) out → beyond (Stitch.last_apath_of out last) e →
  beyond last e ∧ Forall (λ x, entry_lt x e) out.
Proof.
  intros Hs Hb He. unfold Stitch.last_apath_of in He. destruct (list.last out) as [y|] eqn:El.
  - simpl in He. assert (y ∈ out) as Hy.
    { rewrite last_lookup in El. by eapply list_elem_of_lookup_2. }
    split.
    + eapply Forall_forall in Hb; [|exact Hy]. destruct last as [l|]; [|done]. simpl in *.
      by eapply (cmp_lt_trans (cmp:=Apath.cmp)).
    + apply Forall_forall. intros x Hx.
      destruct (decide (after (ie_apath y) x)) as [Hyx|Hyx].
      { exfalso. apply (last_least out y (ie_apath y) x); [done..| |done|done]. apply apath_lt_irrefl. }
      unfold after, Apath.lt, cmp_lt in Hyx. unfold entry_lt, Apath.lt, cmp_lt.
      apply (cmp_not_gt_trans Apath.cmp _ (ie_apath y)); [|exact He].
      intros Hgt. by apply (cmp_gt_iff Apath.cmp) in Hgt.
  - apply last_None in El. subst out. by split.
Qed.

Lemma drains_increasing self w hs w' :
  drains self w hs w' → indexes_ok (st_archive self) (w_fs w) → stitch_inv (w_fs w) self →
  sorted_entries (concat hs) ∧ Forall (beyond (st_last_apath self)) (concat hs).
Proof.
  induction 1 as [|self w out self' w1 hs w' Hn Hd IH]; intros Hok Hinv; [by split; constructor|].
  simpl in Hn. apply next_increasing in Hn as (Har & Hinv' & Hso & Hb & Hl & Hfs); [|done..].
  rewrite Hfs, Har in IH. destruct (IH Hok Hinv') as [Hs Hbs]. rewrite Hl in Hbs. simpl.
  assert (∀ e, e ∈ concat hs → beyond (st_last_apath self) e ∧ Forall (λ x, entry_lt x e) out) as Hrest.
  { intros e He. apply beyond_last_apath; [done..|]. by eapply Forall_forall in Hbs. }
  split.
  - clear -Hso Hs Hrest. induction Hso as [|x l Hl IH Hx]; [done|]. simpl. constructor.
    + apply IH. intros e He. destruct (Hrest e He) as [? Hall]. inversion_clear Hall. done.
    + apply Forall_app. split; [done|]. apply Forall_forall. intros e He.
      destruct (Hrest e He) as [_ Hall]. by inversion_clear Hall.
  - apply Forall_app. split; [done|]. apply Forall_forall. intros e He. by apply Hrest.
Qed.

(** C6: a stitched index is in order: when the index of every band is well
    formed, the entries of all the hunks that come out, from the chosen band and
    from the older ones that complete it, are strictly increasing -- so no path
    comes twice -- whatever could not be read on the way. *)
Theorem stitched_increasing (a : Archive) (b : BandId) (w w' : World) (hs : list (list IndexEntry))
    (Hok : indexes_ok a (w_fs w)) (Hd : drains (Stitch.new a b) w hs w') :
  sorted_entries (concat hs).
Proof. by eapply (drains_increasing (Stitch.new a b)). Qed.
End increasing.

(** ** Examples *)

#[local] Existing Instances sample_ext sample_build sample_codecs sample_codec_laws.

(** A finished band with two entries, and a newer one that was interrupted after
    the first *)
Definition sample_hunk (es : list IndexEntry) : Node := NFile (String "z" (hunk_encode es)) sample_meta.
Definition sample_head (t : Z) : Node := NFile (bits_of (encode (MkHead t None []))) sample_meta.
Definition sample_dir : Node := NDir sample_meta.
Definition sample_old : list IndexEntry := [sample_entry "/a"; sample_entry "/b"].
Definition sample_new : list IndexEntry := [sample_entry "/a"].

Definition sample_stitch_files : list (Path * Node) :=
  [(["a"; "b0001"; "i"; "00000"; "000000000"], sample_hunk sample_new);
   (["a"; "b0001"; "i"; "00000"], sample_dir);
   (["a"; "b0001"; "i"], sample_dir);
   (["a"; "b0001"; "BANDHEAD"], sample_head 6);
   (["a"; "b0001"], sample_dir);
   (["a"; "b0000"; "i"; "00000"; "000000000"], sample_hunk sample_old);
   (["a"; "b0000"; "i"; "00000"], sample_dir);
   (["a"; "b0000"; "i"], sample_dir);
   (["a"; "b0000"; "BANDTAIL"], NFile "" sample_meta);
   (["a"; "b0000"; "BANDHEAD"], sample_head 5);
   (["a"; "b0000"], sample_dir);
   (["a"], sample_dir);
   ([], sample_dir)].

Definition sample_stitch_fs : Fs := list_to_map sample_stitch_files.

Lemma sample_stitch_in p n : sample_stitch_fs !! p = Some n → (p, n) ∈ sample_stitch_files.
Proof. apply elem_of_list_to_map_2. Qed.

Lemma sample_index_path b :
  tr_path (index_transport sample_archive b) = ["a"; BandId.to_string b; "i"].
Proof.
  change (path_join (tr_path (Transport.chdir (ar_transport sample_archive) (BandId.to_string b))) "i"
    = ["a"; BandId.to_string b; "i"]).
  rewrite band_dir_path. apply (path_join_names (archive_path sample_archive ++ [BandId.to_string b]) ["i"]).
  by repeat constructor.
Qed.

Lemma sample_hunk_inj es c m json es' :
  hunk_decode (hunk_encode es) = Some es →
  sample_hunk es = NFile c m → snap_decompress c = Some json → from_json json = Some es' → es' = es.
Proof. unfold sample_hunk. intros Hd [= <- <-] [= <-] Hj. cbn in Hj. congruence. Qed.

Lemma sample_stored b n es :
  stored_hunk sample_stitch_fs (index_transport sample_archive b) n es →
  n = 0%N ∧ (es = sample_old ∨ es = sample_new).
Proof.
  intros (c & m & json & Hp & Hc & Hj). unfold hunk_path in Hp. rewrite sample_index_path in Hp.
  apply sample_stitch_in in Hp. unfold sample_stitch_files in Hp.
  change (?p ++ hunk_names n)%list
    with ["a"; BandId.to_string b; "i"; pad_decimal 5 (n / HUNKS_PER_SUBDIR); pad_decimal 9 n] in Hp.
  repeat (apply elem_of_cons in Hp as [Hp|Hp]); [..|by apply not_elem_of_nil in Hp];
    apply pair_equal_spec in Hp as [Hp Hnode]; try discriminate.
  all: injection Hp as _ _ Hn; split; [by apply (pad_decimal_inj 9 n 0)|]; symmetry in Hnode.
  - right. by eapply sample_hunk_inj; [vm_compute; reflexivity|..].
  - left. by eapply sample_hunk_inj; [vm_compute; reflexivity|..].
Qed.

Lemma sample_indexes_ok : indexes_ok sample_archive sample_stitch_fs.
Proof.
  intros b. split.
  - intros d md f c m n Hd Hf Hn. rewrite sample_index_path in Hd, Hf.
    assert (d = "00000") as ->.
    { apply sample_stitch_in in Hd. unfold sample_stitch_files in Hd.
      repeat (apply elem_of_cons in Hd as [Hd|Hd]); [..|by apply not_elem_of_nil in Hd];
        injection Hd as Hd; try discriminate; by simplify_eq. }
    change (path_join ["a"; BandId.to_string b; "i"] "00000") with ["a"; BandId.to_string b; "i"; "00000"] in Hf.
    assert (f = "000000000") as ->.
    { apply sample_stitch_in in Hf. unfold sample_stitch_files in Hf.
      repeat (apply elem_of_cons in Hf as [Hf|Hf]); [..|by apply not_elem_of_nil in Hf];
        injection Hf as Hf; try discriminate; by simplify_eq. }
    vm_compute in Hn. by injection Hn as <-.
  - intros n es [_ [-> | ->]]%sample_stored; repeat constructor.
  - intros n n' es es' e e' Hlt [-> _]%sample_stored [-> _]%sample_stored. lia.
Qed.

Lemma drains_hunk_val self w out self' hs w' :
  (Stitch.next self w).1 = Ret (Some out, self') →
  drains self' (Stitch.next self w).2 hs w' → drains self w (out :: hs) w'.
Proof.
  intros Hn Hd. eapply drains_hunk; [|exact Hd]. simpl.
  destruct (Stitch.next self w). simpl in *. by subst.
Qed.

Lemma drains_end_val self w self' :
  (Stitch.next self w).1 = Ret (None, self') → drains self w [] (Stitch.next self w).2.
Proof.
  intros Hn. eapply drains_end. simpl. destruct (Stitch.next self w). simpl in *. by subst.
Qed.

Lemma sample_stitch_drains :
  ∃ w', drains (Stitch.new sample_archive (MkBandId 1)) (world_of sample_stitch_fs)
          [sample_new; [sample_entry "/b"]] w'.
Proof.
  eexists. eapply drains_hunk_val; [vm_compute; reflexivity|].
  eapply drains_hunk_val; [vm_compute; reflexivity|]. eapply drains_end_val. vm_compute. reflexivity.
Qed.

Lemma stitched_increasing_witness : sorted_entries (concat [sample_new; [sample_entry "/b"]]).
Proof.
  destruct sample_stitch_drains as [w' Hd].
  apply (stitched_increasing sample_archive (MkBandId 1) (world_of sample_stitch_fs) w'
    [sample_new; [sample_entry "/b"]]).
  - exact sample_indexes_ok.
  - exact Hd.
Defined.

Lemma previous_existing_band_spec_witness :
  match Stitch.previous_existing_band sample_archive (MkBandId 1) (world_of sample_stitch_fs) with
  | (Ret (Some p), _) =>
      (band_num p < 1)%N ∧ has_head sample_archive sample_stitch_fs p ∧
      ∀ c, (band_num p < band_num c < 1)%N → ¬ has_head sample_archive sample_stitch_fs c
  | (Ret None, _) => ∀ c, (band_num c < 1)%N → ¬ has_head sample_archive sample_stitch_fs c
  | _ => False
  end.
Proof.
  apply (previous_existing_band_spec sample_archive (MkBandId 1) (world_of sample_stitch_fs)). done.
Defined.
