(* ===== verification/Merge.v ===== *)
(** * Merging two trees (src/merge.rs)

    The zip of two ordered sequences of entries, and the changes it describes.
    An iterator is modelled by the list of what it is going to yield. *)

From Stdlib Require Import Ascii.
From S2P Require Import Prelude Text Apath Externals Ids Entry.
From stdpp Require Import list.

(** ** Definitions *)

(** [MatchedEntries] *)
Inductive MatchedEntries (AE BE : Type) : Type :=
  | Left (a : AE)
  | Right (b : BE)
  | Both (a : AE) (b : BE).
Arguments Left {AE BE}.
Arguments Right {AE BE}.
Arguments Both {AE BE}.

(** [MergeTrees { ait, bit, na, nb }] *)
Record MergeTrees (AE BE : Type) : Type := MkMergeTrees {
  mt_ait : list AE;
  mt_bit : list BE;
  mt_na : option AE;
  mt_nb : option BE
}.
Arguments MkMergeTrees {AE BE}.
Arguments mt_ait {AE BE}.
Arguments mt_bit {AE BE}.
Arguments mt_na {AE BE}.
Arguments mt_nb {AE BE}.

Module MergeTrees.
Section merge.
Context {AE BE : Type} `{EntryTrait AE} `{EntryTrait BE}.

Definition new (ait : list AE) (bit : list BE) : MergeTrees AE BE := MkMergeTrees ait bit None None.

(** [to_entry_change()] *)
Definition to_entry_change {W} `{BuildCfg} (self : MatchedEntries AE BE) : ST W EntryChange :=
  match self with
  | Both ae be => EntryChange.diff_metadata ae be
  | Left ae => EntryChange.deleted ae
  | Right be => EntryChange.added be
  end.

(** Preloading: take the next element unless one is held already. *)
Definition preload {A} (held : option A) (rest : list A) : option A * list A :=
  match held with
  | Some _ => (held, rest)
  | None => match rest with [] => (None, []) | x :: rest => (Some x, rest) end
  end.

Definition next (self : MergeTrees AE BE) : option (MatchedEntries AE BE) * MergeTrees AE BE :=
  let '(na, ait) := preload (mt_na self) (mt_ait self) in
  let '(nb, bit) := preload (mt_nb self) (mt_bit self) in
  match na, nb with
  | None, None => (None, MkMergeTrees ait bit None None)
  | Some a, None => (Some (Left a), MkMergeTrees ait bit None None)
  | None, Some b => (Some (Right b), MkMergeTrees ait bit None None)
  | Some a, Some b =>
      match Apath.cmp (apath a) (apath b) with
      | Eq => (Some (Both a b), MkMergeTrees ait bit None None)
      | Lt => (Some (Left a), MkMergeTrees ait bit None (Some b))
      | Gt => (Some (Right b), MkMergeTrees ait bit (Some a) None)
      end
  end.

(** Everything the iterator yields, with a bound on the number of rounds *)
Fixpoint collect (fuel : nat) (self : MergeTrees AE BE) : option (list (MatchedEntries AE BE)) :=
  match fuel with
  | O => None
  | S fuel =>
      match next self with
      | (None, _) => Some []
      | (Some m, self) => cons m <$> collect fuel self
      end
  end.

(** The elements left on each side *)
Definition left_of (self : MergeTrees AE BE) : list AE :=
  (match mt_na self with Some a => [a] | None => [] end) ++ mt_ait self.
Definition right_of (self : MergeTrees AE BE) : list BE :=
  (match mt_nb self with Some b => [b] | None => [] end) ++ mt_bit self.

(** ** The abstract merge *)

(** What a merge of two lists means, by recursion on both. *)
Fixpoint merge_spec (la : list AE) : list BE → list (MatchedEntries AE BE) :=
  fix go lb :=
    match la, lb with
    | [], [] => []
    | a :: _, [] => Left <$> la
    | [], b :: _ => Right <$> lb
    | a :: la', b :: lb' =>
        match Apath.cmp (apath a) (apath b) with
        | Eq => Both a b :: merge_spec la' lb'
        | Lt => Left a :: merge_spec la' lb
        | Gt => Right b :: go lb'
        end
    end.

Definition apath_of (m : MatchedEntries AE BE) : Apath :=
  match m with Left a => apath a | Right b => apath b | Both a _ => apath a end.

Definition lefts (ms : list (MatchedEntries AE BE)) : list AE :=
  omap (λ m, match m with Left a | Both a _ => Some a | Right _ => None end) ms.
Definition rights (ms : list (MatchedEntries AE BE)) : list BE :=
  omap (λ m, match m with Right b | Both _ b => Some b | Left _ => None end) ms.

Definition sorted_by_apath {E} `{EntryTrait E} (l : list E) : Prop :=
  StronglySorted (λ x y, Apath.lt (apath x) (apath y)) l.

End merge.
End MergeTrees.

(** ** The iterator computes the abstract merge *)

Section refinement.
Context {AE BE : Type} `{EntryTrait AE} `{EntryTrait BE}.
Implicit Types (la : list AE) (lb : list BE) (ms : list (MatchedEntries AE BE)).

Lemma merge_spec_nil_l lb : MergeTrees.merge_spec [] lb = @Right AE BE <$> lb.
Proof. by destruct lb. Qed.

Lemma merge_spec_nil_r la : MergeTrees.merge_spec la [] = @Left AE BE <$> la.
Proof. by destruct la. Qed.

(** What the abstract merge begins with *)
Definition spec_step la lb : option (MatchedEntries AE BE * (list AE * list BE)) :=
  match la, lb with
  | [], [] => None
  | a :: la, [] => Some (Left a, (la, []))
  | [], b :: lb => Some (Right b, ([], lb))
  | a :: la', b :: lb' =>
      Some match Apath.cmp (apath a) (apath b) with
           | Eq => (Both a b, (la', lb'))
           | Lt => (Left a, (la', lb))
           | Gt => (Right b, (la, lb'))
           end
  end.

Lemma merge_spec_unfold la lb :
  MergeTrees.merge_spec la lb =
  match spec_step la lb with
  | None => []
  | Some (m, (la, lb)) => m :: MergeTrees.merge_spec la lb
  end.
Proof.
  destruct la as [|a la], lb as [|b lb]; cbn; try done.
  - by rewrite merge_spec_nil_l.
  - by rewrite merge_spec_nil_r.
  - by destruct (Apath.cmp _ _).
Qed.

Lemma spec_step_length la lb m la' lb' :
  spec_step la lb = Some (m, (la', lb')) → length la' + length lb' < length la + length lb.
Proof.
  destruct la as [|a la], lb as [|b lb]; cbn; intros E; simplify_eq; cbn; try lia.
  destruct (Apath.cmp _ _); simplify_eq; cbn; lia.
Qed.

Lemma preload_app {A} (held : option A) rest x rest' :
  MergeTrees.preload held rest = (x, rest') →
  (match held with Some a => [a] | None => [] end ++ rest
   = match x with Some a => a :: rest' | None => [] end)%list.
Proof. destruct held, rest; cbn; by intros [= <- <-]. Qed.

(** [next] takes the first step of the merge of what is left. *)
Lemma next_refines_spec (self : MergeTrees AE BE) :
  match spec_step (MergeTrees.left_of self) (MergeTrees.right_of self) with
  | None => ∃ self', MergeTrees.next self = (None, self')
  | Some (m, (la, lb)) =>
      ∃ self', MergeTrees.next self = (Some m, self') ∧
               MergeTrees.left_of self' = la ∧ MergeTrees.right_of self' = lb
  end.
Proof.
  unfold MergeTrees.next, MergeTrees.left_of, MergeTrees.right_of.
  destruct (MergeTrees.preload (mt_na self) (mt_ait self)) as [na ait] eqn:Ea.
  destruct (MergeTrees.preload (mt_nb self) (mt_bit self)) as [nb bit] eqn:Eb.
  rewrite (preload_app _ _ _ _ Ea), (preload_app _ _ _ _ Eb).
  assert (na = None → ait = []) as Ha.
  { revert Ea. destruct (mt_na self), (mt_ait self); cbn; by intros [= <- <-]. }
  assert (nb = None → bit = []) as Hb.
  { revert Eb. destruct (mt_nb self), (mt_bit self); cbn; by intros [= <- <-]. }
  destruct na as [a|], nb as [b|]; rewrite ?Ha, ?Hb by done; cbn [spec_step].
  - destruct (Apath.cmp (apath a) (apath b)); eexists; by split_and!.
  - eexists. by split_and!.
  - eexists. by split_and!.
  - by eexists.
Qed.

Lemma collect_refines_spec fuel (self : MergeTrees AE BE) :
  length (MergeTrees.left_of self) + length (MergeTrees.right_of self) < fuel →
  MergeTrees.collect fuel self
  = Some (MergeTrees.merge_spec (MergeTrees.left_of self) (MergeTrees.right_of self)).
Proof.
  revert self. induction fuel as [|fuel IH]; intros self Hlen; [lia|]. cbn [MergeTrees.collect].
  rewrite merge_spec_unfold. pose proof (next_refines_spec self) as Hn.
  destruct (spec_step _ _) as [[m [la lb]]|] eqn:E.
  - destruct Hn as (self' & -> & <- & <-). apply spec_step_length in E. by rewrite IH by lia.
  - by destruct Hn as [self' ->].
Qed.

(** Merging two trees yields exactly the abstract merge of the two sequences
    of entries, once for each round and ending after no more rounds than there
    are entries: nothing held back in [na] or [nb] is lost or repeated. *)
Theorem merge_refines_spec la lb (fuel : nat) (Hfuel : length la + length lb < fuel) :
  MergeTrees.collect fuel (MergeTrees.new la lb) = Some (MergeTrees.merge_spec la lb).
Proof. by apply (collect_refines_spec fuel (MergeTrees.new la lb)). Qed.

(** ** What the abstract merge means *)

Lemma lefts_cons m ms :
  MergeTrees.lefts (m :: ms)
  = (match m with Left a | Both a _ => [a] | Right _ => [] end ++ MergeTrees.lefts ms)%list.
Proof. by destruct m. Qed.

Lemma rights_cons m ms :
  MergeTrees.rights (m :: ms)
  = (match m with Right b | Both _ b => [b] | Left _ => [] end ++ MergeTrees.rights ms)%list.
Proof. by destruct m. Qed.

(** Induction over the steps of the abstract merge *)
Lemma merge_ind (P : list AE → list BE → list (MatchedEntries AE BE) → Prop) :
  P [] [] [] →
  (∀ la lb m la' lb', spec_step la lb = Some (m, (la', lb')) →
     P la' lb' (MergeTrees.merge_spec la' lb') → P la lb (m :: MergeTrees.merge_spec la' lb')) →
  ∀ la lb, P la lb (MergeTrees.merge_spec la lb).
Proof.
  intros Hnil Hstep la lb. remember (length la + length lb) as n eqn:Hn. revert la lb Hn.
  induction (lt_wf n) as [n _ IH]. intros la lb ->. rewrite merge_spec_unfold.
  destruct (spec_step la lb) as [[m [la' lb']]|] eqn:E.
  - eapply Hstep; [done|]. eapply IH; [|done]. by eapply spec_step_length.
  - destruct la as [|a la], lb as [|b lb]; done.
Qed.

Lemma merge_sides la lb :
  MergeTrees.lefts (MergeTrees.merge_spec la lb) = la ∧
  MergeTrees.rights (MergeTrees.merge_spec la lb) = lb.
Proof.
  apply (merge_ind (λ la lb ms, MergeTrees.lefts ms = la ∧ MergeTrees.rights ms = lb)); [done|].
  clear. intros la lb m la' lb' E [Hl Hr]. rewrite lefts_cons, rights_cons, Hl, Hr.
  destruct la as [|a la], lb as [|b lb]; cbn in E; simplify_eq; try done.
  destruct (Apath.cmp _ _); by simplify_eq.
Qed.

(** Everything merged is one of the entries. *)
Lemma merge_all (P : Apath → Prop) la lb :
  Forall (λ a, P (apath a)) la → Forall (λ b, P (apath b)) lb →
  Forall (λ m, P (MergeTrees.apath_of m)) (MergeTrees.merge_spec la lb).
Proof.
  apply (merge_ind (λ la lb ms, Forall (λ a, P (apath a)) la → Forall (λ b, P (apath b)) lb →
    Forall (λ m, P (MergeTrees.apath_of m)) ms)); [done|].
  clear. intros la lb m la' lb' E IH Ha Hb.
  destruct la as [|a la], lb as [|b lb]; cbn in E; simplify_eq;
    try (destruct (Apath.cmp _ _); simplify_eq);
    repeat match goal with Hf : Forall _ (_ :: _) |- _ => apply Forall_cons in Hf as [? ?] end;
    constructor; try done; apply IH; auto.
Qed.

(** Two entries that come together have the same path. *)
Definition same_paths (m : MatchedEntries AE BE) : Prop :=
  match m with Both a b => apath a = apath b | _ => True end.

Lemma merge_same_paths la lb : Forall same_paths (MergeTrees.merge_spec la lb).
Proof.
  apply (merge_ind (λ _ _ ms, Forall same_paths ms)); [done|].
  clear. intros la lb m la' lb' E IH. constructor; [|done].
  destruct la as [|a la], lb as [|b lb]; cbn in E; simplify_eq; try done.
  destruct (Apath.cmp (apath a) (apath b)) eqn:Ec; simplify_eq; try done.
  by apply (cmp_eq_iff (cmp:=Apath.cmp)) in Ec.
Qed.

Lemma sorted_unique ms x y :
  StronglySorted (λ x y, Apath.lt (MergeTrees.apath_of x) (MergeTrees.apath_of y)) ms →
  x ∈ ms → y ∈ ms → MergeTrees.apath_of x = MergeTrees.apath_of y → x = y.
Proof.
  assert (∀ p, ¬ Apath.lt p p) as Hirr.
  { intros p Hp. unfold Apath.lt, cmp_lt in Hp. by rewrite (cmp_refl Apath.cmp) in Hp. }
  induction 1 as [|z ms Hs IH Hz]; intros Hx Hy Heq; [by apply not_elem_of_nil in Hx|].
  rewrite Forall_forall in Hz.
  apply elem_of_cons in Hx as [->|Hx], Hy as [->|Hy]; [done|..|by apply IH].
  - apply Hz in Hy. rewrite Heq in Hy. by apply Hirr in Hy.
  - apply Hz in Hx. rewrite Heq in Hx. by apply Hirr in Hx.
Qed.

Lemma lt_all {E} `{EntryTrait E} p q (l : list E) :
  Apath.lt p q → Forall (λ x, Apath.lt q (apath x)) l → Forall (λ x, Apath.lt p (apath x)) l.
Proof.
  intros Hpq Hl. eapply Forall_impl; [exact Hl|]. intros x Hx. by eapply (cmp_lt_trans (cmp:=Apath.cmp)).
Qed.

Lemma merge_sorted la lb :
  MergeTrees.sorted_by_apath la → MergeTrees.sorted_by_apath lb →
  StronglySorted (λ x y, Apath.lt (MergeTrees.apath_of x) (MergeTrees.apath_of y))
    (MergeTrees.merge_spec la lb).
Proof.
  apply (merge_ind (λ la lb ms, MergeTrees.sorted_by_apath la → MergeTrees.sorted_by_apath lb →
    StronglySorted (λ x y, Apath.lt (MergeTrees.apath_of x) (MergeTrees.apath_of y)) ms)); [constructor|].
  clear. intros la lb m la' lb' E IH Ha Hb.
  assert (MergeTrees.sorted_by_apath la' ∧ MergeTrees.sorted_by_apath lb' ∧
          Forall (λ a, Apath.lt (MergeTrees.apath_of m) (apath a)) la' ∧
          Forall (λ b, Apath.lt (MergeTrees.apath_of m) (apath b)) lb') as (Ha' & Hb' & Hma & Hmb).
  { destruct la as [|a la], lb as [|b lb]; cbn in E; simplify_eq.
    - by inversion_clear Hb.
    - by inversion_clear Ha.
    - destruct (Apath.cmp (apath a) (apath b)) eqn:Ec; simplify_eq; inversion Ha; inversion Hb; subst.
      + apply (cmp_eq_iff (cmp:=Apath.cmp)) in Ec. cbn. rewrite <-Ec in *. by split_and!.
      + split_and!; try done. constructor; [done|]. by eapply lt_all.
      + apply (cmp_gt_iff Apath.cmp) in Ec. split_and!; try done. constructor; [done|]. by eapply lt_all. }
  constructor; [by apply IH|].
  apply (merge_all (Apath.lt (MergeTrees.apath_of m))); done.
Qed.

(** An entry of either side is merged once, with the entry of the same path on the
    other side if there is one. *)
Lemma merge_members la lb :
  MergeTrees.sorted_by_apath la → MergeTrees.sorted_by_apath lb →
  (∀ a b, Both a b ∈ MergeTrees.merge_spec la lb ↔ a ∈ la ∧ b ∈ lb ∧ apath a = apath b) ∧
  (∀ a, Left a ∈ MergeTrees.merge_spec la lb ↔ a ∈ la ∧ ∀ b, b ∈ lb → apath a ≠ apath b) ∧
  (∀ b, Right b ∈ MergeTrees.merge_spec la lb ↔ b ∈ lb ∧ ∀ a, a ∈ la → apath a ≠ apath b).
Proof.
  intros Ha Hb. pose proof (merge_sides la lb) as [Hl Hr]. pose proof (merge_sorted la lb Ha Hb) as Hs.
  pose proof (merge_same_paths la lb) as Hp. rewrite Forall_forall in Hp.
  set (ms := MergeTrees.merge_spec la lb) in *.
  assert (∀ a, a ∈ la ↔ Left a ∈ ms ∨ ∃ b, Both a b ∈ ms) as Hla.
  { intros a. rewrite <-Hl. unfold MergeTrees.lefts. rewrite list_elem_of_omap. split.
    - intros ([a'|b|a' b] & Hin & [= ->]); [by left|right; by exists b].
    - intros [Hin|[b Hin]]; eexists; by split. }
  assert (∀ b, b ∈ lb ↔ Right b ∈ ms ∨ ∃ a, Both a b ∈ ms) as Hlb.
  { intros b. rewrite <-Hr. unfold MergeTrees.rights. rewrite list_elem_of_omap. split.
    - intros ([a|b'|a b'] & Hin & [= ->]); [by left|right; by exists a].
    - intros [Hin|[a Hin]]; eexists; by split. }
  assert (∀ x y, x ∈ ms → y ∈ ms → MergeTrees.apath_of x = MergeTrees.apath_of y → x = y) as Hu.
  { intros x y. by apply sorted_unique. }
  split_and!.
  - intros a b. split.
    + intros Hin. split_and!; [apply Hla; right; by exists b|apply Hlb; right; by exists a|by apply Hp in Hin].
    + intros ([Hx|[b' Hx]]%Hla & [Hy|[a' Hy]]%Hlb & Hab); pose proof (Hp _ Hx); pose proof (Hp _ Hy); simpl in *;
        pose proof (Hu _ _ Hx Hy) as E; simpl in E; specialize (E ltac:(congruence)); by simplify_eq.
  - intros a. split.
    + intros Hin. split; [apply Hla; by left|]. intros b [Hy|[a' Hy]]%Hlb Hab; pose proof (Hp _ Hy); simpl in *;
        pose proof (Hu _ _ Hin Hy) as E; simpl in E; specialize (E ltac:(congruence)); by simplify_eq.
    + intros [[Hx|[b Hx]]%Hla Hno]; [done|]. destruct (Hno b); [apply Hlb; right; by exists a|by apply Hp in Hx].
  - intros b. split.
    + intros Hin. split; [apply Hlb; by left|]. intros a [Hx|[b' Hx]]%Hla Hab; pose proof (Hp _ Hx); simpl in *;
        pose proof (Hu _ _ Hin Hx) as E; simpl in E; specialize (E ltac:(congruence)); by simplify_eq.
    + intros [[Hx|[a Hx]]%Hlb Hno]; [done|]. destruct (Hno a); [apply Hla; right; by exists b|by apply Hp in Hx].
Qed.

(** C31: the merge of two trees in order is complete and in order: its left sides
    are exactly the first tree and its right sides the second, its paths are
    strictly increasing, and so two entries of the same path always come together,
    as [Both]. *)
Theorem merge_complete_ordered la lb
    (Ha : MergeTrees.sorted_by_apath la) (Hb : MergeTrees.sorted_by_apath lb) :
  ∃ ms, MergeTrees.collect (S (length la + length lb)) (MergeTrees.new la lb) = Some ms ∧
    MergeTrees.lefts ms = la ∧ MergeTrees.rights ms = lb ∧
    StronglySorted (λ x y, Apath.lt (MergeTrees.apath_of x) (MergeTrees.apath_of y)) ms ∧
    ∀ a b, a ∈ la → b ∈ lb → apath a = apath b → Both a b ∈ ms.
Proof.
  exists (MergeTrees.merge_spec la lb).
  pose proof (merge_sides la lb) as [Hl Hr]. pose proof (merge_sorted la lb Ha Hb) as Hs.
  split; [apply (collect_refines_spec _ (MergeTrees.new la lb)); cbn; lia|]. split_and!; try done.
  intros a b Hal Hbl Hab. by apply (merge_members la lb Ha Hb).
Qed.
End refinement.

(** ** Examples *)

Definition sample_file (a : Apath) : EntryValue :=
  MkEntryValue a (KM_File 1) (MkTime 0 0) (MkUnixMode None) (MkOwner None None).
Definition sample_left : list EntryValue := [sample_file (MkApath "/a"); sample_file (MkApath "/b")].
Definition sample_right : list EntryValue :=
  [sample_file (MkApath "/b"); sample_file (MkApath "/a/c")].

Lemma merge_refines_spec_witness :
  MergeTrees.collect 5 (MergeTrees.new sample_left sample_right)
  = Some [Left (sample_file (MkApath "/a"));
          Both (sample_file (MkApath "/b")) (sample_file (MkApath "/b"));
          Right (sample_file (MkApath "/a/c"))].
Proof.
  etransitivity; [apply (merge_refines_spec sample_left sample_right 5); simpl; lia|].
  vm_compute. reflexivity.
Defined.

Lemma merge_complete_ordered_witness :
  ∃ ms, MergeTrees.collect 5 (MergeTrees.new sample_left sample_right) = Some ms ∧
    MergeTrees.lefts ms = sample_left ∧ MergeTrees.rights ms = sample_right ∧
    StronglySorted (λ x y, Apath.lt (MergeTrees.apath_of x) (MergeTrees.apath_of y)) ms ∧
    ∀ a b, a ∈ sample_left → b ∈ sample_right → apath a = apath b → Both a b ∈ ms.
Proof.
  apply (merge_complete_ordered sample_left sample_right);
    repeat constructor; vm_compute; reflexivity.
Defined.
