(* ===== verification/LiveTree.v ===== *)
(** * Live trees (src/live_tree.rs)

    Reading a source tree from the file system: building entries from metadata,
    and the iterator that walks the tree in apath order. *)

From Stdlib Require Import Ascii.
From S2P Require Import Prelude Text Apath Externals Ids Entry Counters Errors World Transport Excludes.
From stdpp Require Import list gmap strings.

(** ** Definitions *)

(** [cachedir::is_tagged(path)], a third-party test of a directory. *)
Class CacheDir : Type := cachedir_is_tagged : Path → Fs → result bool IoKind.

(** [LiveTree { path }] *)
Record LiveTree : Type := MkLiveTree { lt_path : Path }.

(** [live_tree::Iter] *)
Record LiveIter `{Ext} : Type := MkLiveIter {
  li_root_path : Path;
  li_dir_deque : list Apath;
  li_entry_deque : list EntryValue;
  li_check_order : CheckOrder.t;
  li_exclude : Exclude;
  li_stats : LiveTreeIterStats
}.

Module LiveTree.
Section live_tree.
Context `{Ext} `{BuildCfg} `{CacheDir}.

Definition open (path : Path) : LiveTree := MkLiveTree path.

(** [relative_path(apath)] *)
Definition relative_path (self : LiveTree) (a : Apath) : M Path := expect (Apath.below a (lt_path self)).

(** [open_file(entry)] *)
Definition open_file (self : LiveTree) (entry : EntryValue) : M (result Reader Error) :=
  _ ← rust_assert (bool_decide (kind entry = Kind_File));
  path ← relative_path self (ev_apath entry);
  r ← sys_open path;
  mret (map_err (ReadSourceFile path) r).

(** [read_link] *)
Definition sys_read_link (p : Path) : M (result string IoKind) :=
  sys_read (λ w, match fs_lstat p (w_fs w) with
                 | Ok (NSymlink t _) => Ok t
                 | Ok _ => Err Io_Other
                 | Err k => Err k
                 end).

Definition entry_from_fs_metadata (a : Apath) (source_path : Path) (metadata : Node) :
    M (result EntryValue Error) :=
  let m := node_meta metadata in
  let make kind_meta :=
    Ok (MkEntryValue a kind_meta (m_mtime m) (UnixMode.from (m_mode m)) (Owner.from_ids (m_uid m) (m_gid m))) in
  match node_type metadata with
  | ft_file => mret (make (KM_File (Local.node_len metadata)))
  | ft_dir => mret (make KM_Dir)
  | ft_symlink =>
      r ← sys_read_link source_path;
      mret (match r with
            | Err e => Err (IOError e)
            | Ok t => if utf8_valid t then make (KM_Symlink t)
                      else Err (UnsupportedTargetEncoding source_path)
            end)
  | ft_other => mret (Err (UnsupportedSourceKind source_path))
  end.

End live_tree.
End LiveTree.

Module LiveIter.
Section live_iter.
Context `{Ext} `{BuildCfg} `{CacheDir}.

(** [Iter::new(root_path, subtree, exclude)] *)
Definition new (root_path : Path) (subtree : Apath) (exclude : Exclude) : M (result LiveIter Error) :=
  start_path ← expect (Apath.below subtree root_path);
  r ← sys_lstat start_path;
  match r with
  | Err e => mret (Err (IOError e))
  | Ok start_metadata =>
      entry ←? LiveTree.entry_from_fs_metadata subtree start_path start_metadata;
      mret (Ok (MkLiveIter _ root_path [subtree] [entry] CheckOrder.new exclude
                  (MkLiveTreeIterStats 0 0 0 0)))
  end.

(** What the loop over a directory accumulates *)
Record Visit : Type := MkVisit {
  v_children : list (string * EntryValue);
  v_subdirs : list Apath;
  v_exclusions : N;
  v_metadata_errors : N
}.

Definition add_exclusion (v : Visit) : Visit :=
  MkVisit (v_children v) (v_subdirs v) (v_exclusions v + 1) (v_metadata_errors v).
Definition add_metadata_error (v : Visit) : Visit :=
  MkVisit (v_children v) (v_subdirs v) (v_exclusions v) (v_metadata_errors v + 1).
Definition add_subdir (a : Apath) (v : Visit) : Visit :=
  MkVisit (v_children v) (v_subdirs v ++ [a]) (v_exclusions v) (v_metadata_errors v).
Definition add_child (name : string) (e : EntryValue) (v : Visit) : Visit :=
  MkVisit (v_children v ++ [(name, e)]) (v_subdirs v) (v_exclusions v) (v_metadata_errors v).

(** The body of the loop over a directory, for one entry of it *)
Definition visit_entry (exclude : Exclude) (parent_apath : Apath) (dir_path : Path)
    (v : Visit) (dir_entry : string * Node) : M Visit :=
  let '(child_name, node) := dir_entry in
  if negb (utf8_valid child_name) then mret v
  else
    let child_apath := Apath.append parent_apath child_name in
    let child_path := (dir_path ++ [child_name])%list in
    x ← Exclude.matches exclude (apath_str child_apath);
    if (x : bool) then mret (add_exclusion v)
    else
      let is_dir := match node_type node with ft_dir => true | _ => false end in
      tagged ← (if is_dir then
                  r ← sys_read (λ w, cachedir_is_tagged child_path (w_fs w));
                  mret (match r with Ok true => true | _ => false end)
                else mret false);
      if (tagged : bool) then mret v
      else
        r ← sys_lstat child_path;
        match r with
        | Err e => mret (if decide (e = Io_NotFound) then v else add_metadata_error v)
        | Ok metadata =>
            let v := if is_dir then add_subdir child_apath v else v in
            r ← LiveTree.entry_from_fs_metadata child_apath child_path metadata;
            mret (match r with Ok entry => add_child child_name entry v | Err _ => v end)
        end.

Definition add_visited (s : LiveTreeIterStats) : LiveTreeIterStats :=
  MkLiveTreeIterStats (directories_visited s + 1) (exclusions s) (metadata_error s) (entries_returned s).
Definition add_visit (v : Visit) (s : LiveTreeIterStats) : LiveTreeIterStats :=
  MkLiveTreeIterStats (directories_visited s) (exclusions s + v_exclusions v)
    (metadata_error s + v_metadata_errors v) (entries_returned s).
Definition add_returned (s : LiveTreeIterStats) : LiveTreeIterStats :=
  MkLiveTreeIterStats (directories_visited s) (exclusions s) (metadata_error s) (entries_returned s + 1).

(** The order in which the children of a directory are queued *)
Definition child_cmp (a b : string * EntryValue) : comparison := String.compare a.1 b.1.

(** [visit_next_directory(parent_apath)]: a directory that cannot be read is
    passed over. *)
Definition visit_next_directory (self : LiveIter) (parent_apath : Apath) : M LiveIter :=
  let stats := add_visited (li_stats self) in
  dir_path ← expect (Apath.below parent_apath (li_root_path self));
  r ← sys_read_dir dir_path;
  match r with
  | Err _ => mret (MkLiveIter _ (li_root_path self) (li_dir_deque self) (li_entry_deque self)
                     (li_check_order self) (li_exclude self) stats)
  | Ok dir_iter =>
      v ← fold_st (visit_entry (li_exclude self) parent_apath dir_path) (MkVisit [] [] 0 0) dir_iter;
      mret (MkLiveIter _ (li_root_path self)
              (sort_by Apath.cmp (v_subdirs v) ++ li_dir_deque self)%list
              (li_entry_deque self ++ (sort_by child_cmp (v_children v)).*2)%list
              (li_check_order self) (li_exclude self) (add_visit v stats))
  end.

(** [next()]; the bound counts the directories visited. *)
Fixpoint next_loop (fuel : nat) (self : LiveIter) : M (option EntryValue * LiveIter) :=
  match li_entry_deque self with
  | entry :: entries =>
      c ← DebugCheckOrder.check (li_check_order self) (ev_apath entry);
      mret (Some entry,
            MkLiveIter _ (li_root_path self) (li_dir_deque self) entries c (li_exclude self)
              (add_returned (li_stats self)))
  | [] =>
      match li_dir_deque self with
      | [] => mret (None, self)
      | dir :: dirs =>
          match fuel with
          | O => no_fuel
          | S fuel =>
              self ← visit_next_directory
                (MkLiveIter _ (li_root_path self) dirs [] (li_check_order self) (li_exclude self)
                   (li_stats self)) dir;
              next_loop fuel self
          end
      end
  end.

(** How many nodes there are strictly below a directory of the tree *)
Definition nodes_below (root : Path) (fs : Fs) (a : Apath) : nat :=
  match Apath.below a root with
  | Some p => length (filter (λ k, p `prefix_of` k ∧ k ≠ p) (map_to_list fs).*1)
  | None => 0
  end.

(** A bound on the directories still to visit: the queued ones and all nodes
    below them. *)
Definition dirs_bound (self : LiveIter) (w : World) : nat :=
  sum_list ((λ a, S (nodes_below (li_root_path self) (w_fs w) a)) <$> li_dir_deque self).

Definition next (self : LiveIter) : M (option EntryValue * LiveIter) :=
  bound ← gets (dirs_bound self);
  next_loop bound self.

(** A bound on the entries still to come *)
Definition entries_bound (self : LiveIter) (w : World) : nat :=
  length (li_entry_deque self)
  + sum_list (nodes_below (li_root_path self) (w_fs w) <$> li_dir_deque self).

(** [collect()] *)
Fixpoint collect_loop (fuel : nat) (acc : list EntryValue) (self : LiveIter) : M (list EntryValue) :=
  '(r, self) ← next self;
  match r with
  | None => mret acc
  | Some e => match fuel with O => no_fuel | S fuel => collect_loop fuel (acc ++ [e])%list self end
  end.

Definition collect (self : LiveIter) : M (list EntryValue) :=
  bound ← gets (entries_bound self);
  collect_loop bound [] self.

End live_iter.
End LiveIter.

(** [LiveTree::iter_entries(subtree, exclude)] *)
Definition live_iter_entries `{Ext} `{BuildCfg} `{CacheDir} (self : LiveTree) (subtree : Apath)
    (exclude : Exclude) : M (result LiveIter Error) :=
  LiveIter.new (lt_path self) subtree exclude.

(** [ReadTree::size(exclude)] for a live tree *)
Definition live_size `{Ext} `{BuildCfg} `{CacheDir} (self : LiveTree) (exclude : Exclude) :
    M (result N Error) :=
  it ←? live_iter_entries self Apath.root exclude;
  es ← LiveIter.collect it;
  try_fold (λ file_bytes e,
    s ← Entry.size e;
    match s with
    | Some bytes =>
        _ ← monitor_count Files 1;
        _ ← monitor_count FileBytes bytes;
        n ← add_u64 file_bytes bytes;
        mret (Ok n)
    | None => mret (Ok file_bytes)
    end) 0%N es.

(** ** Reading a live tree changes nothing *)

Section live_respects.
Context `{Ext} `{BuildCfg} `{CacheDir} (R : relation Fs) `{!PreOrder R}.

Lemma live_below_respects a p : respects (fs_rel R) (expect (Apath.below a p)).
Proof. solve_respects. Qed.

Lemma entry_from_fs_metadata_respects a p n : respects (fs_rel R) (LiveTree.entry_from_fs_metadata a p n).
Proof. unfold LiveTree.entry_from_fs_metadata, LiveTree.sys_read_link. solve_respects. Qed.

Lemma open_file_respects lt e : respects (fs_rel R) (LiveTree.open_file lt e).
Proof. unfold LiveTree.open_file, LiveTree.relative_path, sys_open. solve_respects. Qed.

Lemma live_new_respects p a ex : respects (fs_rel R) (LiveIter.new p a ex).
Proof.
  unfold LiveIter.new, sys_lstat. pose proof entry_from_fs_metadata_respects. solve_respects.
Qed.

Lemma visit_entry_respects ex pa dp v de : respects (fs_rel R) (LiveIter.visit_entry ex pa dp v de).
Proof.
  unfold LiveIter.visit_entry, sys_lstat, Exclude.matches. pose proof entry_from_fs_metadata_respects. solve_respects.
Qed.

Lemma visit_next_directory_respects self a : respects (fs_rel R) (LiveIter.visit_next_directory self a).
Proof.
  unfold LiveIter.visit_next_directory, sys_read_dir. pose proof visit_entry_respects. solve_respects.
Qed.

Lemma live_next_loop_respects fuel self : respects (fs_rel R) (LiveIter.next_loop fuel self).
Proof.
  pose proof visit_next_directory_respects.
  revert self. induction fuel as [|fuel IH]; intros self; cbn [LiveIter.next_loop];
    unfold DebugCheckOrder.check, CheckOrder.check; solve_respects; apply IH.
Qed.

Lemma live_next_respects self : respects (fs_rel R) (LiveIter.next self).
Proof. unfold LiveIter.next. pose proof live_next_loop_respects. solve_respects. Qed.
End live_respects.

#[export] Hint Resolve entry_from_fs_metadata_respects open_file_respects live_new_respects
  live_next_respects : respects.

(** ** Examples *)

(** A test of directories for a tag file *)
#[local] Instance sample_cachedir : CacheDir := λ p fs,
  Ok (match fs !! (p ++ ["CACHEDIR.TAG"])%list with Some (NFile _ _) => true | _ => false end).
