(* ===== verification/LiveOrder.v ===== *)
(** * The walk of a live tree

    The iterator of src/live_tree.rs (modelled in [LiveTree]): it yields the entries of
    a tree in the order of the archive, its order check never fails, and it comes to an
    end. *)

From Stdlib Require Import Ascii.
From S2P Require Import Prelude Text Apath Externals Sample Ids Entry Counters Errors World Transport.
From S2P Require Import Excludes Jsonio SampleWorld BlockDir Index Archive Stitch LiveTree.
From stdpp Require Import list gmap strings.

(** ** Directories and what is below them *)

(** Names that directory listings give: Rust has checked that they are UTF-8 *)
Definition names_ok (ns : list string) : Prop := valid_names ns ∧ Forall (λ n, utf8_valid n = true) ns.

Lemma names_ok_snoc ns n : names_ok ns → valid_name n = true → utf8_valid n = true → names_ok (ns ++ [n])%list.
Proof. intros [Hv Hu] Hn Hun. split; apply Forall_app; by repeat constructor. Qed.

(** The directory [d] and the path [a], strictly below it *)
Definition under (d a : Apath) : Prop :=
  ∃ ps q, valid_names (ps ++ q) ∧ q ≠ [] ∧ d = of_names ps ∧ a = of_names (ps ++ q).

Lemma under_child ps n : valid_names (ps ++ [n]) → under (of_names ps) (of_names (ps ++ [n])).
Proof. intros Hv. by exists ps, [n]. Qed.

(** What is below a subdirectory is below the directory. *)
Lemma under_step ps n a : valid_names ps → valid_name n = true → under (of_names (ps ++ [n])) a → under (of_names ps) a.
Proof.
  intros Hps Hn (ps' & q & Hv & Hq & Hd & ->). pose proof Hv as [Hv' _]%Forall_app.
  apply of_names_inj in Hd as <-; [|apply Forall_app; by repeat constructor|done].
  exists ps, (n :: q). rewrite <-app_assoc in *. by split.
Qed.

Lemma child_cmp_names ps x y :
  valid_names (ps ++ [x]) → valid_names (ps ++ [y]) →
  Apath.cmp (of_names (ps ++ [x])) (of_names (ps ++ [y])) = String.compare x y.
Proof.
  intros Hx Hy. destruct ps as [|p ps]; simpl app in *; rewrite cmp_of_names by done; [done|].
  by rewrite cmp_loop_common.
Qed.

(** The children of a directory come before all that is below its subdirectories. *)
Lemma child_before ps x y a :
  valid_names (ps ++ [x]) → valid_name y = true → under (of_names (ps ++ [y])) a →
  Apath.lt (of_names (ps ++ [x])) a.
Proof.
  intros Hx Hy (ps' & q & Hv & Hq & Hd & ->). pose proof Hv as [Hv' _]%Forall_app.
  pose proof Hx as [Hps _]%Forall_app.
  apply of_names_inj in Hd as <-; [|apply Forall_app; by repeat constructor|done].
  destruct q as [|z zs]; [done|]. rewrite <-app_assoc in *. by apply lt_children_first.
Qed.

(** A directory comes before what is below it. *)
Lemma parent_before ps q : valid_names (ps ++ q) → q ≠ [] → Apath.lt (of_names ps) (of_names (ps ++ q)).
Proof.
  intros Hv Hq. destruct ps as [|p ps] using rev_ind.
  - destruct q as [|n q]; [done|]. by apply root_lt.
  - destruct q as [|n q]; [done|]. clear IHps. rewrite <-app_assoc in *. simpl in *.
    apply lt_children_first; [|done]. rewrite cons_middle, app_assoc in Hv. by apply Forall_app in Hv as [Hv _].
Qed.

(** What is below one subdirectory comes before what is below a later one. *)
Lemma subdirs_apart ps x y a b :
  valid_names (ps ++ [x]) → valid_names (ps ++ [y]) → String.compare x y = Lt →
  under (of_names (ps ++ [x])) a → under (of_names (ps ++ [y])) b → Apath.lt a b.
Proof.
  intros Hx Hy Hxy (ps1 & q1 & Hv1 & Hq1 & Hd1 & ->) (ps2 & q2 & Hv2 & Hq2 & Hd2 & ->).
  pose proof Hv1 as [Hv1' _]%Forall_app. pose proof Hv2 as [Hv2' _]%Forall_app.
  apply of_names_inj in Hd1 as <-; [|done..]. apply of_names_inj in Hd2 as <-; [|done..].
  destruct q1 as [|z1 q1]; [done|]. destruct q2 as [|z2 q2]; [done|].
  rewrite <-!app_assoc in *. unfold Apath.lt, cmp_lt.
  destruct ps as [|p ps]; simpl app in *; rewrite cmp_of_names by done; simpl.
  - by rewrite Hxy.
  - rewrite cmp_loop_common. simpl. by rewrite Hxy.
Qed.

(** The system path of a directory *)
Lemma below_ok ns root : names_ok ns → Apath.below (of_names ns) root = Some (root ++ ns)%list.
Proof.
  intros [Hv Hu]. unfold Apath.below, slice_from, of_names, apath_str. cbn [string_drop].
  change (String.length (String "/" ?s) <? 1)%nat with false. cbn iota.
  assert (starts_with_continuation (join_with "/" ns) = false) as ->.
  { destruct ns as [|n ns]; [done|]. apply Forall_cons in Hv as [Hn _]. apply Forall_cons in Hu as [Hun _].
    apply utf8_valid_from_boundaries in Hun as [_ Hc]; [|done]. specialize (Hc eq_refl).
    apply valid_name_not_nil in Hn. destruct n as [|c n]; [done|]. by destruct ns. }
  simpl. by rewrite path_join_names.
Qed.

(** Every node below a directory has a name that a system allows. *)
Definition named_below (root : Path) (fs : Fs) : Prop :=
  ∀ p n, root `prefix_of` p → is_Some (fs !! (p ++ [n])%list) → valid_name n = true.

(** ** Visiting a directory *)

Section visiting.
Context `{Ext} `{BuildCfg} `{CacheDir}.

(** What a visit of the directory [ps] has found among the names [ns] *)
Record visited (ps : list string) (ns : list string) (v : LiveIter.Visit) : Prop := {
  vi_children : Forall (λ c, c.1 ∈ ns ∧ ev_apath c.2 = of_names (ps ++ [c.1])) (LiveIter.v_children v);
  vi_children_distinct : NoDup (LiveIter.v_children v).*1;
  vi_subdirs : ∃ ds, LiveIter.v_subdirs v = (λ n, of_names (ps ++ [n])) <$> ds ∧ NoDup ds ∧
                 Forall (λ n, n ∈ ns ∧ utf8_valid n = true) ds
}.

Lemma visited_weaken ps ns ns' v : (∀ n, n ∈ ns → n ∈ ns') → visited ps ns v → visited ps ns' v.
Proof.
  intros Hn [Hc Hd (ds & Hs & Hnd & Hds)]. split; [|done|].
  - eapply Forall_impl; [exact Hc|]. intros c [? ?]. auto.
  - exists ds. split; [done|]. split; [done|]. eapply Forall_impl; [exact Hds|]. intros n [? ?]. auto.
Qed.

Lemma visited_add_child ps ns n e v :
  visited ps ns v → n ∉ ns → ev_apath e = of_names (ps ++ [n]) → visited ps (n :: ns) (LiveIter.add_child n e v).
Proof.
  intros Hv Hn He. pose proof (visited_weaken ps ns (n :: ns) v ltac:(by right) Hv) as [Hc _ Hs].
  destruct Hv as [Hc0 Hd _]. split; [| |done]; cbn.
  - apply Forall_app. split; [done|]. constructor; [|done]. split; [by left|done].
  - rewrite fmap_app. apply NoDup_app. split; [done|]. split; [|apply NoDup_singleton].
    intros m (c & -> & Hx)%list_elem_of_fmap Hm. simpl in Hm. apply list_elem_of_singleton in Hm.
    rewrite Forall_forall in Hc0. apply Hc0 in Hx as [Hx _]. by rewrite Hm in Hx.
Qed.

Lemma visited_add_subdir ps ns n v :
  visited ps ns v → n ∉ ns → utf8_valid n = true → visited ps (n :: ns) (LiveIter.add_subdir (of_names (ps ++ [n])) v).
Proof.
  intros Hv Hn Hu. pose proof (visited_weaken ps ns (n :: ns) v ltac:(by right) Hv) as [Hc Hd _].
  destruct Hv as [_ _ (ds & Hs & Hnd & Hds)]. split; [done|done|]; cbn.
  exists (ds ++ [n])%list. rewrite Hs, fmap_app. split; [done|]. split.
  - apply NoDup_app. split; [done|]. split; [|apply NoDup_singleton].
    intros m Hm Hx%list_elem_of_singleton. rewrite Forall_forall in Hds. apply Hds in Hm as [Hm _].
    by rewrite Hx in Hm.
  - apply Forall_app. split; [|constructor; [split; [by left|done]|done]].
    eapply Forall_impl; [exact Hds|]. intros m [? ?]. split; [by right|done].
Qed.

(** A directory that is also an entry *)
Lemma visited_add_dir_child ps ns n e v :
  visited ps ns v → n ∉ ns → utf8_valid n = true → ev_apath e = of_names (ps ++ [n]) →
  visited ps (n :: ns) (LiveIter.add_child n e (LiveIter.add_subdir (of_names (ps ++ [n])) v)).
Proof.
  intros Hv Hn Hu He. pose proof (visited_add_subdir ps ns n v Hv Hn Hu) as [_ _ Hs].
  pose proof (visited_add_child ps ns n e v Hv Hn He) as [Hc Hd _]. by split.
Qed.

Lemma entry_apath a p n w e w' :
  LiveTree.entry_from_fs_metadata a p n w = (Ret (Ok e), w') → ev_apath e = a.
Proof.
  unfold LiveTree.entry_from_fs_metadata. destruct (node_type n); intros Hr;
    [inv_run Hr; done|inv_run Hr; done| |inv_run Hr; done].
  inv_run Hr. destruct a0 as [t|]; [|inv_run Hr; done]. inv_run Hr. by destruct (utf8_valid t); simplify_eq.
Qed.

(** [m] never panics. *)
Definition safe {A} (m : M A) : Prop := ∀ w, (m w).1 ≠ Panic.

Lemma safe_ret {A} (x : A) : safe (mret x).
Proof. done. Qed.

Lemma safe_bind {A B} (m : M A) (k : A → M B) : safe m → (∀ x, safe (k x)) → safe (m ≫= k).
Proof.
  intros Hm Hk w. specialize (Hm w). unfold mbind, ST_bind. destruct (m w) as [[x| | |] w1]; try done. apply Hk.
Qed.

Lemma safe_read {A} (op : World → result A IoKind) : safe (sys_read op).
Proof. intros w. unfold sys_read, syscall. destruct (w_faults w (w_tick w)); [|done..]. by destruct (map_ok _ _) as [[]|]. Qed.

Lemma entry_safe a p n : safe (LiveTree.entry_from_fs_metadata a p n).
Proof.
  unfold LiveTree.entry_from_fs_metadata. destruct (node_type n); try apply safe_ret.
  apply safe_bind; [apply safe_read|]. intros r. apply safe_ret.
Qed.

Lemma visit_entry_safe ex ps dp v n node :
  valid_names ps → valid_name n = true → safe (LiveIter.visit_entry ex (of_names ps) dp v (n, node)).
Proof.
  intros Hps Hn w. unfold LiveIter.visit_entry. destruct (utf8_valid n) eqn:Hu; [|done]. cbn [negb].
  rewrite append_names by done. cbv zeta.
  assert (valid_names (ps ++ [n])) as Hvn by (apply Forall_app; by repeat constructor).
  rewrite (bind_run _ _ _ _ _ (matches_run ex _ w (of_names_valid _ Hvn))).
  destruct (globset_is_match _ _); [done|]. apply safe_bind.
  - destruct (node_type node); try apply safe_ret. apply safe_bind; [apply safe_read|intros r; apply safe_ret].
  - intros [|]; [apply safe_ret|]. apply safe_bind; [apply safe_read|]. intros [md|k]; [|apply safe_ret].
    apply safe_bind; [apply entry_safe|]. intros r. apply safe_ret.
Qed.

(** One entry of the listing *)
Lemma visit_entry_visited ex ps dp v ns n node w v' w' :
  valid_names ps → valid_name n = true → visited ps ns v → n ∉ ns →
  LiveIter.visit_entry ex (of_names ps) dp v (n, node) w = (Ret v', w') → visited ps (n :: ns) v'.
Proof.
  intros Hps Hn Hv Hin Hr. pose proof (visited_weaken ps ns (n :: ns) v ltac:(by right) Hv) as Hw.
  unfold LiveIter.visit_entry in Hr. destruct (utf8_valid n) eqn:Hu; cbn [negb] in Hr; [|by inv_run Hr].
  rewrite append_names in Hr by done. cbv zeta in Hr. inv_run Hr.
  destruct a; [inv_run Hr; by destruct Hw|]. inv_run Hr. destruct a; [by inv_run Hr|]. inv_run Hr.
  destruct a as [md|k]; [|inv_run Hr; case_decide; [done|by destruct Hw]].
  inv_run Hr. inv_run Hr.
  destruct a as [e|er]; [apply entry_apath in Hrun2|]; destruct (node_type node) eqn:Ht; simpl;
    try done; try (by apply visited_add_child).
  - apply visited_add_dir_child; done.
  - by apply visited_add_subdir.
Qed.
End visiting.

(** ** Sorting *)

Definition name_lt (x y : string) : Prop := String.compare x y = Lt.

(** Distinct names in order are in strict order. *)
Lemma sorted_strict (l : list string) :
  NoDup l → StronglySorted (λ x y, String.compare x y ≠ Gt) l → StronglySorted name_lt l.
Proof.
  intros Hn Hs. induction Hs as [|x l Hl IH Hx]; [constructor|]. apply NoDup_cons in Hn as [Hx' Hn].
  constructor; [by apply IH|]. rewrite Forall_forall in Hx |- *. intros y Hy. specialize (Hx y Hy). unfold name_lt.
  destruct (String.compare x y) eqn:E; [|done|done].
  apply (cmp_eq_iff (cmp:=String.compare)) in E as ->. done.
Qed.

Lemma sorted_names_of {A} (f : A → string) l :
  StronglySorted (λ x y, String.compare (f x) (f y) ≠ Gt) l → StronglySorted (λ x y, String.compare x y ≠ Gt) (f <$> l).
Proof.
  induction 1 as [|x l Hl IH Hx]; [constructor|]. constructor; [done|]. apply Forall_fmap.
  eapply Forall_impl; [exact Hx|]. done.
Qed.

(** The subdirectories, sorted *)
Lemma sort_subdirs ps ds :
  valid_names ps → Forall (λ n, valid_name n = true) ds → NoDup ds →
  ∃ ds', sort_by Apath.cmp ((λ n, of_names (ps ++ [n])) <$> ds) = (λ n, of_names (ps ++ [n])) <$> ds' ∧
    ds' ≡ₚ ds ∧ StronglySorted name_lt ds'.
Proof.
  intros Hps Hds Hnd. set (f := λ n, of_names (ps ++ [n])).
  pose proof (sort_by_perm Apath.cmp (f <$> ds)) as Hp.
  pose proof (sort_by_sorted Apath.cmp (cmp_antisym (cmp:=Apath.cmp)) (cmp_le_trans Apath.cmp) (f <$> ds)) as Hs.
  apply Permutation_map_inv in Hp as (ds' & Heq & Hp).
  exists ds'. split; [exact Heq|]. split; [by symmetry|]. apply sorted_strict; [by rewrite <-Hp|].
  rewrite Heq in Hs. assert (Forall (λ n, valid_name n = true) ds') as Hv by by rewrite <-Hp.
  clear Heq Hp Hnd Hds. induction ds' as [|x ds' IH]; [constructor|].
  apply Forall_cons in Hv as [Hx Hv]. apply StronglySorted_inv in Hs as [Hs Hxs].
  constructor; [by apply IH|]. apply Forall_forall. intros y Hy. rewrite Forall_forall in Hv.
  rewrite <-(child_cmp_names ps x y).
  - apply (proj1 (Forall_forall _ _) Hxs (f y)). by apply (list_elem_of_fmap_2 f).
  - apply Forall_app. by repeat constructor.
  - apply Forall_app. split; [done|]. constructor; [by apply Hv|done].
Qed.

(** ** A visit *)

Section visit.
Context `{Ext} `{BuildCfg} `{CacheDir}.

Lemma visit_all ex ps dp l ns v w v' w' :
  valid_names ps → NoDup l.*1 → (∀ n, n ∈ l.*1 → valid_name n = true ∧ n ∉ ns) → visited ps ns v →
  fold_st (LiveIter.visit_entry ex (of_names ps) dp) v l w = (Ret v', w') →
  ∃ ns', visited ps ns' v' ∧ ∀ n, n ∈ ns' → n ∈ ns ∨ n ∈ l.*1.
Proof.
  intros Hps. revert ns v w. induction l as [|[n node] l IH]; intros ns v w Hnd Hl Hv; cbn [fold_st]; intros Hr.
  { inv_run Hr. exists ns. split; [done|]. auto. }
  cbn in Hnd. apply NoDup_cons in Hnd as [Hn Hnd]. inv_run Hr.
  destruct (Hl n ltac:(by left)) as [Hvn Hnn].
  apply visit_entry_visited with (ns := ns) in Hrun; [|done..].
  destruct (IH (n :: ns) a w0) as (ns' & Hv' & Hns'); [done| |done|done|].
  - intros m Hm. destruct (Hl m ltac:(by right)) as [? ?]. split; [done|].
    apply not_elem_of_cons. split; [by intros ->|done].
  - exists ns'. split; [done|]. intros m [Hm|Hm]%Hns'; [|right; by right].
    apply elem_of_cons in Hm as [->|Hm]; [right; by left|by left].
Qed.

Lemma visit_fold_safe ex ps dp l v :
  valid_names ps → (∀ n, n ∈ l.*1 → valid_name n = true) →
  safe (fold_st (LiveIter.visit_entry ex (of_names ps) dp) v l).
Proof.
  intros Hps. revert v. induction l as [|[n node] l IH]; intros v Hl; cbn [fold_st]; [apply safe_ret|].
  apply safe_bind; [apply visit_entry_safe; [done|apply Hl; by left]|]. intros v'. apply IH. intros m Hm. apply Hl. by right.
Qed.

(** What a visit adds to the queues: the entries of a directory and its
    subdirectories, each sorted by name. *)
Record visit_adds (ps : list string) (fs : Fs) (self self' : LiveIter) (ns ds : list string) : Prop := {
  va_root : li_root_path self' = li_root_path self;
  va_order : li_check_order self' = li_check_order self;
  va_entries : ∃ es, li_entry_deque self' = (li_entry_deque self ++ es)%list ∧
                 ev_apath <$> es = (λ n, of_names (ps ++ [n])) <$> ns;
  va_dirs : li_dir_deque self' = (((λ n, of_names (ps ++ [n])) <$> ds) ++ li_dir_deque self)%list;
  va_entries_sorted : StronglySorted name_lt ns;
  va_dirs_sorted : StronglySorted name_lt ds;
  va_names : Forall (λ n, valid_name n = true) ns;
  va_dir_names : Forall (λ n, valid_name n = true ∧ utf8_valid n = true ∧
                   is_Some (fs !! ((li_root_path self ++ ps) ++ [n])%list)) ds;
  va_nodes : Forall (λ n, is_Some (fs !! ((li_root_path self ++ ps) ++ [n])%list)) ns
}.

Lemma named_further root ps (fs : Fs) : named_below root fs → named_below (root ++ ps) fs.
Proof. intros Hn p n Hp. apply Hn. etrans; [|exact Hp]. by apply prefix_app_r. Qed.

Lemma read_dir_names p (fs : Fs) code l :
  named_below p fs → map_ok (permute code) (fs_read_dir p fs) = Ok l →
  NoDup l.*1 ∧ ∀ n, n ∈ l.*1 → valid_name n = true ∧ is_Some (fs !! (p ++ [n])%list).
Proof.
  intros Hn. unfold fs_read_dir. destruct (fs !! p) as [[]|]; try done. intros [= <-]. split.
  - rewrite permute_perm. apply fs_children_NoDup.
  - intros n ([n' nd] & -> & Hin)%list_elem_of_fmap. rewrite permute_perm in Hin.
    apply elem_of_fs_children in Hin. simpl. split; [by apply (Hn p); [|rewrite Hin]|by rewrite Hin].
Qed.

Lemma sys_read_dir_inv p w r w' : sys_read_dir p w = (Ret (Ok r), w') →
  w_fs w' = w_fs w ∧ ∃ code, map_ok (permute code) (fs_read_dir p (w_fs w)) = Ok r.
Proof. intros [Ho Hfs]%sys_read_inv. split; [done|]. by eexists. Qed.

Lemma visit_inv self ps w self' w' :
  names_ok ps → named_below (li_root_path self) (w_fs w) →
  LiveIter.visit_next_directory self (of_names ps) w = (Ret self', w') →
  ∃ ns ds, visit_adds ps (w_fs w) self self' ns ds.
Proof.
  intros Hps Hfs. unfold LiveIter.visit_next_directory. rewrite below_ok by done. cbv zeta. cbn [expect].
  intros Hr. inv_run Hr. apply ret_inv in Hrun as [<- <-]. inv_run Hr. destruct a as [l|k].
  2: { inv_run Hr. exists [], []. split; cbn; try done; try constructor. exists []. by rewrite app_nil_r. }
  apply sys_read_dir_inv in Hrun as (_ & code & Hl). apply read_dir_names in Hl as [Hnd Hl]; [|by eapply named_further].
  inv_run Hr. inv_run Hr.
  apply (visit_all _ _ _ _ []) in Hrun as (seen & [Hc Hcd (ds & Hds & Hdd & Hdn)] & Hseen); [|by destruct Hps|done| |].
  2: { intros n Hn. split; [by apply Hl|apply not_elem_of_nil]. }
  2: { split; [constructor|constructor|]. exists []. by repeat constructor. }
  assert (∀ n, n ∈ seen → valid_name n = true ∧ is_Some (w_fs w !! ((li_root_path self ++ ps) ++ [n])%list)) as Hin.
  { intros n [Hn|Hn]%Hseen; [by apply not_elem_of_nil in Hn|by apply Hl]. }
  destruct (sort_subdirs ps ds) as (ds' & Hs' & Hp' & Hst'); [by destruct Hps| |done|].
  { eapply Forall_impl; [exact Hdn|]. intros n [Hn _]. by apply Hin. }
  pose proof (sort_by_perm LiveIter.child_cmp (LiveIter.v_children a)) as Hcp.
  assert (StronglySorted (λ x y, LiveIter.child_cmp x y ≠ Gt) (sort_by LiveIter.child_cmp (LiveIter.v_children a))) as Hcs.
  { apply sort_by_sorted; [intros x y; apply (cmp_antisym (cmp:=String.compare))|].
    intros x y z. apply (cmp_le_trans String.compare). }
  set (chl := sort_by LiveIter.child_cmp (LiveIter.v_children a)) in *.
  exists chl.*1, ds'. split; cbn; try done.
  - exists chl.*2. split; [done|]. rewrite <-!list_fmap_compose. apply list_fmap_ext. intros i c Hi.
    apply list_elem_of_lookup_2 in Hi. rewrite Hcp in Hi. rewrite Forall_forall in Hc. simpl. by apply Hc in Hi as [_ ->].
  - by rewrite Hds, Hs'.
  - apply sorted_strict; [by rewrite Hcp|]. by apply (sorted_names_of fst).
  - rewrite Hcp. apply Forall_fmap. eapply Forall_impl; [exact Hc|]. intros c [Hi _]. by apply Hin.
  - rewrite Hp'. eapply Forall_impl; [exact Hdn|]. intros n [Hn Hu]. apply Hin in Hn as [? ?]. done.
  - rewrite Hcp. apply Forall_fmap. eapply Forall_impl; [exact Hc|]. intros c [Hi _]. by apply Hin.
Qed.

Lemma visit_safe self ps :
  names_ok ps → ∀ w, named_below (li_root_path self) (w_fs w) → (LiveIter.visit_next_directory self (of_names ps) w).1 ≠ Panic.
Proof.
  intros Hps w Hfs. unfold LiveIter.visit_next_directory. rewrite below_ok by done. cbv zeta.
  rewrite (bind_run _ _ w (li_root_path self ++ ps)%list w) by done.
  unfold mbind, ST_bind at 1. pose proof (safe_read (λ w, map_ok (permute (w_order w (w_tick w)))
    (fs_read_dir (li_root_path self ++ ps) (w_fs w))) w) as Hs.
  fold (sys_read_dir (li_root_path self ++ ps)%list) in Hs.
  destruct (sys_read_dir _ w) as [[[l|k]| | |] w1] eqn:E; try done.
  apply sys_read_dir_inv in E as (_ & code & Hl). apply read_dir_names in Hl as [_ Hl]; [|by eapply named_further].
  apply safe_bind; [|intros v; apply safe_ret]. apply visit_fold_safe; [by destruct Hps|]. intros n Hn. by apply Hl.
Qed.
End visit.

(** ** Counting the directories to visit *)

Section counting.
Context `{Ext} `{BuildCfg} `{CacheDir}.

Definition strictly_in (p k : Path) : Prop := p `prefix_of` k ∧ k ≠ p.

#[local] Instance strictly_in_dec p k : Decision (strictly_in p k).
Proof. unfold strictly_in. apply _. Defined.

Definition nodes_in (fs : Fs) (p : Path) : list Path := filter (strictly_in p) (map_to_list fs).*1.

Lemma nodes_below_ok root (fs : Fs) ps :
  names_ok ps → LiveIter.nodes_below root fs (of_names ps) = length (nodes_in fs (root ++ ps)%list).
Proof. intros Hps. unfold LiveIter.nodes_below. by rewrite below_ok. Qed.

Lemma elem_of_nodes_in fs p k : k ∈ nodes_in fs p ↔ strictly_in p k ∧ is_Some (fs !! k).
Proof.
  unfold nodes_in. rewrite list_elem_of_filter. f_equiv. rewrite list_elem_of_fmap. split.
  - intros ([k' n] & -> & Hin%elem_of_map_to_list). by exists n.
  - intros [n Hn]. exists (k, n). split; [done|]. by apply elem_of_map_to_list.
Qed.

Lemma nodes_in_NoDup fs p : NoDup (nodes_in fs p).
Proof. apply NoDup_filter, NoDup_fst_map_to_list. Qed.

(** The nodes at and below different children are different, and all below the parent. *)
Lemma nodes_in_children (fs : Fs) p ds :
  NoDup ds → Forall (λ n, is_Some (fs !! (p ++ [n])%list)) ds →
  sum_list ((λ n, S (length (nodes_in fs (p ++ [n])%list))) <$> ds) ≤ length (nodes_in fs p).
Proof.
  intros Hnd Hds. set (at_ n := (p ++ [n])%list :: nodes_in fs (p ++ [n])%list).
  assert (sum_list ((λ n, S (length (nodes_in fs (p ++ [n])%list))) <$> ds) = length (concat (at_ <$> ds))) as ->.
  { clear. induction ds as [|n ds IH]; [done|]. simpl. rewrite length_app. do 2 f_equal. exact IH. }
  assert (∀ n k, k ∈ at_ n → (p ++ [n])%list `prefix_of` k) as Hpre.
  { intros n k [->|[[Hk _] _]%elem_of_nodes_in]%elem_of_cons; [reflexivity|done]. }
  apply submseteq_length, NoDup_submseteq.
  - clear Hds. induction Hnd as [|n ds Hn Hnd IH]; [constructor|]. simpl. constructor.
    + intros [[[_ Hx] _]%elem_of_nodes_in|Hin]%elem_of_app; [done|].
      apply list_elem_of_In, in_concat in Hin as (l & Hl%list_elem_of_In & Hk%list_elem_of_In).
      apply list_elem_of_fmap in Hl as (m & -> & Hm). apply Hpre in Hk as [q Hq].
      rewrite <-app_assoc in Hq. apply app_inv_head in Hq. injection Hq as -> _. done.
    + apply NoDup_app. split; [apply nodes_in_NoDup|]. split; [|done].
      intros k [[[q ->] _] _]%elem_of_nodes_in Hin.
      apply list_elem_of_In, in_concat in Hin as (l & Hl%list_elem_of_In & Hk%list_elem_of_In).
      apply list_elem_of_fmap in Hl as (m & -> & Hm). apply Hpre in Hk as [q' Hq].
      rewrite <-!app_assoc in Hq. apply app_inv_head in Hq. injection Hq as -> _. done.
  - intros k Hin. apply list_elem_of_In, in_concat in Hin as (l & Hl%list_elem_of_In & Hk%list_elem_of_In).
    apply list_elem_of_fmap in Hl as (n & -> & Hn). rewrite Forall_forall in Hds.
    apply elem_of_nodes_in. pose proof (Hpre n k Hk) as [q ->]. split.
    + split; [by eexists (n :: q); rewrite <-app_assoc|]. rewrite <-app_assoc. intros Hx.
      rewrite <-(app_nil_r p) in Hx at 2. by apply app_inv_head in Hx.
    + apply elem_of_cons in Hk as [->|[_ Hk]%elem_of_nodes_in]; [by apply Hds|done].
Qed.

Lemma sorted_names_NoDup ds : StronglySorted name_lt ds → NoDup ds.
Proof.
  induction 1 as [|x l Hl IH Hx]; constructor; [|done]. intros Hin. rewrite Forall_forall in Hx.
  apply Hx in Hin. unfold name_lt in Hin. by rewrite string_compare_refl in Hin.
Qed.

(** A visit uses up the bound. *)
Lemma visit_bound self self' ps (w : World) ns ds rest :
  names_ok ps → visit_adds ps (w_fs w) self self' ns ds → li_dir_deque self = rest →
  LiveIter.dirs_bound self' w
  ≤ LiveIter.nodes_below (li_root_path self) (w_fs w) (of_names ps)
    + sum_list ((λ a, S (LiveIter.nodes_below (li_root_path self) (w_fs w) a)) <$> rest).
Proof.
  intros Hps [Hr _ _ Hd _ Hs _ Hn _] <-. unfold LiveIter.dirs_bound. rewrite Hr, Hd, fmap_app, sum_list_with_app.
  apply Nat.add_le_mono_r. rewrite nodes_below_ok by done.
  etrans; [|apply (nodes_in_children _ _ ds (sorted_names_NoDup ds Hs))].
  - apply Nat.eq_le_incl. f_equal. rewrite <-list_fmap_compose. apply list_fmap_ext. intros i n Hi. simpl.
    apply list_elem_of_lookup_2 in Hi. rewrite Forall_forall in Hn. apply Hn in Hi as (Hv & Hu & _).
    rewrite nodes_below_ok by by apply names_ok_snoc. by rewrite app_assoc.
  - eapply Forall_impl; [exact Hn|]. by intros n (_ & _ & ?).
Qed.

(** Children and what is below the subdirectories among them *)
Lemma children_and_below (fs : Fs) p ns ds :
  NoDup ns → NoDup ds → Forall (λ n, is_Some (fs !! (p ++ [n])%list)) ns →
  Forall (λ n, is_Some (fs !! (p ++ [n])%list)) ds →
  length ns + sum_list ((λ n, length (nodes_in fs (p ++ [n])%list)) <$> ds) ≤ length (nodes_in fs p).
Proof.
  intros Hn Hd Hns Hds. set (k := ns ++ filter (.∉ ns) ds).
  assert (NoDup k) as Hk.
  { apply NoDup_app. split_and!; [done| |by apply NoDup_filter].
    intros n Hin [Hnot _]%list_elem_of_filter. by apply Hnot. }
  assert (ds ⊆+ k) as [r Hr]%submseteq_Permutation.
  { apply NoDup_submseteq; [done|]. intros n Hin. apply elem_of_app. destruct (decide (n ∈ ns)); [by left|right].
    by apply list_elem_of_filter. }
  etrans; [|apply (nodes_in_children fs p k Hk)].
  - assert (∀ (f : string → nat) l, sum_list ((λ n, S (f n)) <$> l) = length l + sum_list (f <$> l)) as Hsum.
    { intros f l. clear. induction l as [|n l IH]; [done|]. csimpl. unfold id in *. lia. }
    rewrite (Hsum (λ n, length (nodes_in fs (p ++ [n])%list))).
    apply Nat.add_le_mono; [unfold k; rewrite length_app; lia|].
    rewrite Hr, fmap_app, sum_list_with_app. lia.
  - unfold k. apply Forall_app. split; [done|]. apply Forall_forall. intros n [_ Hin]%list_elem_of_filter.
    rewrite Forall_forall in Hds. by apply Hds.
Qed.

(** A visit adds no more entries than there are nodes. *)
Lemma visit_entries self self' ps (w : World) ns ds :
  names_ok ps → visit_adds ps (w_fs w) self self' ns ds →
  LiveIter.entries_bound self' w
  ≤ LiveIter.nodes_below (li_root_path self) (w_fs w) (of_names ps) + LiveIter.entries_bound self w.
Proof.
  intros Hps [Hr _ (es & He & Hes) Hd Hns Hds _ Hdn Hnn]. unfold LiveIter.entries_bound.
  rewrite Hr, He, Hd, length_app, fmap_app, sum_list_with_app, nodes_below_ok by done.
  apply (f_equal length) in Hes. rewrite !length_fmap in Hes. rewrite Hes.
  pose proof (children_and_below (w_fs w) (li_root_path self ++ ps) ns ds (sorted_names_NoDup _ Hns)
    (sorted_names_NoDup _ Hds) Hnn) as Hb.
  assert (LiveIter.nodes_below (li_root_path self) (w_fs w) <$> ((λ n, of_names (ps ++ [n])) <$> ds)
          = (λ n, length (nodes_in (w_fs w) ((li_root_path self ++ ps) ++ [n])%list)) <$> ds) as ->.
  { rewrite <-list_fmap_compose. apply list_fmap_ext. intros i n Hi. simpl.
    apply list_elem_of_lookup_2 in Hi. rewrite Forall_forall in Hdn. apply Hdn in Hi as (Hv & Hu & _).
    rewrite nodes_below_ok by by apply names_ok_snoc. by rewrite app_assoc. }
  enough (Forall (λ n, is_Some (w_fs w !! ((li_root_path self ++ ps) ++ [n])%list)) ds) as Hx
    by (specialize (Hb Hx); lia).
  eapply Forall_impl; [exact Hdn|]. by intros n (_ & _ & ?).
Qed.
End counting.

(** ** The order of the walk *)

Section order.
Context `{Ext} `{BuildCfg} `{CacheDir}.

(** [a] comes after the last path yielded. *)
Definition past (last : option Apath) (a : Apath) : Prop :=
  match last with Some l => Apath.lt l a | None => True end.

Lemma past_trans last a b : past last a → Apath.lt a b → past last b.
Proof. destruct last as [l|]; [|done]. simpl. intros Hl Hab. by transitivity a. Qed.

(** All that is below [d] comes before all that is below [d']. *)
Definition all_before (d d' : Apath) : Prop := ∀ a b, under d a → under d' b → Apath.lt a b.

(** The queues between calls: the waiting entries in order, then what is below each
    waiting directory, one after the other. *)
Record walking (last : option Apath) (self : LiveIter) : Prop := {
  wk_order : debug_assertions = true → CheckOrder.last_apath (li_check_order self) = last;
  wk_dirs : ∀ d, d ∈ li_dir_deque self → ∃ ps, names_ok ps ∧ d = of_names ps;
  wk_past : ∀ e, e ∈ li_entry_deque self → past last (ev_apath e);
  wk_entries : StronglySorted (λ x y, Apath.lt (ev_apath x) (ev_apath y)) (li_entry_deque self);
  wk_below_past : ∀ d a, d ∈ li_dir_deque self → under d a → past last a;
  wk_below_entries : ∀ d a e, d ∈ li_dir_deque self → under d a → e ∈ li_entry_deque self → Apath.lt (ev_apath e) a;
  wk_apart : StronglySorted all_before (li_dir_deque self)
}.

Lemma sorted_fmap {A B} (f : A → B) (R : relation B) l :
  StronglySorted (λ x y, R (f x) (f y)) l ↔ StronglySorted R (f <$> l).
Proof.
  induction l as [|x l IH]; simpl; [split; constructor|]. split.
  - intros [Hs Hx]%StronglySorted_inv. constructor; [by apply IH|by apply Forall_fmap].
  - intros [Hs Hx]%StronglySorted_inv. constructor; [by apply IH|]. by apply (proj1 (Forall_fmap f _ l)) in Hx.
Qed.

(** Sorted names give sorted children. *)
Lemma sorted_children ps ns :
  valid_names ps → Forall (λ n, valid_name n = true) ns → StronglySorted name_lt ns →
  StronglySorted (λ x y, Apath.lt (of_names (ps ++ [x])) (of_names (ps ++ [y]))) ns.
Proof.
  intros Hps Hv Hs. induction Hs as [|x l Hl IH Hx]; [constructor|]. apply Forall_cons in Hv as [Hvx Hv].
  constructor; [by apply IH|]. apply Forall_forall. intros y Hy. rewrite Forall_forall in Hx, Hv.
  unfold Apath.lt, cmp_lt. rewrite child_cmp_names; [by apply Hx| |]; apply Forall_app;
    (split; [done|]); constructor; try done. by apply Hv.
Qed.

Lemma sorted_subdirs ps ds :
  valid_names ps → Forall (λ n, valid_name n = true) ds → StronglySorted name_lt ds →
  StronglySorted (λ x y, all_before (of_names (ps ++ [x])) (of_names (ps ++ [y]))) ds.
Proof.
  intros Hps Hv Hs. induction Hs as [|x l Hl IH Hx]; [constructor|]. apply Forall_cons in Hv as [Hvx Hv].
  constructor; [by apply IH|]. apply Forall_forall. intros y Hy. rewrite Forall_forall in Hx, Hv.
  intros a b. apply subdirs_apart; [| |by apply Hx]; apply Forall_app; (split; [done|]); constructor; try done.
  by apply Hv.
Qed.

Lemma sorted_app {A} (R : relation A) l k :
  StronglySorted R l → StronglySorted R k → (∀ x y, x ∈ l → y ∈ k → R x y) → StronglySorted R (l ++ k).
Proof.
  intros Hl Hk Hlk. induction Hl as [|x l Hl IH Hx]; [done|]. simpl. constructor.
  - apply IH. intros y z Hy. apply Hlk. by right.
  - apply Forall_app. split; [done|]. apply Forall_forall. intros z. apply Hlk. by left.
Qed.

(** A visit keeps the queues in order. *)
Lemma walking_visit last fs ps self self' ns ds :
  names_ok ps → li_entry_deque self = [] →
  (debug_assertions = true → CheckOrder.last_apath (li_check_order self) = last) →
  (∀ d, d ∈ li_dir_deque self → ∃ ps, names_ok ps ∧ d = of_names ps) →
  (∀ a, under (of_names ps) a → past last a) →
  (∀ d a, d ∈ li_dir_deque self → under d a → past last a) →
  (∀ d, d ∈ li_dir_deque self → all_before (of_names ps) d) →
  StronglySorted all_before (li_dir_deque self) →
  visit_adds ps fs self self' ns ds → walking last self'.
Proof.
  intros Hps Hnil Hord Hdirs Hbp Hbps Hbefore Hap [_ Hco (es & Hes & Hap_es) Hdq Hns Hds Hvn Hvd _].
  rewrite Hnil in Hes. simpl in Hes. destruct Hps as [Hv Hu].
  assert (∀ n, valid_name n = true → valid_names (ps ++ [n])) as Hvs.
  { intros n Hn. apply Forall_app. by repeat constructor. }
  assert (Forall (λ n, valid_name n = true) ds) as Hvd'.
  { eapply Forall_impl; [exact Hvd|]. by intros n (? & _). }
  assert (∀ e, e ∈ es → ∃ n, valid_name n = true ∧ ev_apath e = of_names (ps ++ [n])) as Hent.
  { intros e He. apply (list_elem_of_fmap_2 ev_apath) in He. rewrite Hap_es in He.
    apply list_elem_of_fmap in He as (n & Hn & Hin). exists n. split; [|done]. rewrite Forall_forall in Hvn. by apply Hvn. }
  assert (∀ d, d ∈ (λ n, of_names (ps ++ [n])) <$> ds → ∃ n, valid_name n = true ∧ utf8_valid n = true ∧ d = of_names (ps ++ [n])) as Hsub.
  { intros d (n & -> & Hin)%list_elem_of_fmap. rewrite Forall_forall in Hvd. apply Hvd in Hin as (? & ? & _). by exists n. }
  split; rewrite ?Hco, ?Hdq, ?Hes; try done.
  - intros d [Hd|Hd]%elem_of_app; [|by apply Hdirs]. apply Hsub in Hd as (n & Hn & Hun & ->).
    exists (ps ++ [n])%list. split; [by apply names_ok_snoc|done].
  - intros e (n & Hn & ->)%Hent. apply Hbp. apply under_child. by apply Hvs.
  - apply (sorted_fmap ev_apath). rewrite Hap_es. apply (sorted_fmap (λ n, of_names (ps ++ [n]))).
    by apply sorted_children.
  - intros d a [Hd|Hd]%elem_of_app Ha; [|by eapply Hbps]. apply Hsub in Hd as (n & Hn & _ & ->).
    apply Hbp. by eapply under_step.
  - intros d a e [Hd|Hd]%elem_of_app Ha (m & Hm & ->)%Hent.
    + apply Hsub in Hd as (n & Hn & _ & ->). apply (child_before ps m n); [by apply Hvs|done|done].
    + apply (Hbefore d Hd); [apply under_child; by apply Hvs|done].
  - apply sorted_app; [|done|].
    + apply (sorted_fmap (λ n, of_names (ps ++ [n]))). by apply sorted_subdirs.
    + intros d d' Hd Hd' a b Ha. apply Hsub in Hd as (n & Hn & _ & ->). apply (Hbefore d' Hd').
      by eapply under_step.
Qed.

(** The order check passes on what comes after the last path. *)
Lemma check_passes last c a (w : World) :
  past last a → (debug_assertions = true → CheckOrder.last_apath c = last) →
  ∃ c', DebugCheckOrder.check c a w = (Ret c', w) ∧ (debug_assertions = true → CheckOrder.last_apath c' = Some a).
Proof.
  intros Hp Hc. unfold DebugCheckOrder.check. destruct debug_assertions; [|by exists c].
  exists (CheckOrder.Mk (Some a)). split; [|done]. unfold CheckOrder.check. rewrite (Hc eq_refl).
  destruct last as [l|]; [|done]. simpl in Hp. unfold Apath.lt, cmp_lt in Hp. unfold mbind, ST_bind. by rewrite Hp.
Qed.

(** Yielding a waiting entry *)
Lemma walking_pop last self e es c st :
  walking last self → li_entry_deque self = e :: es →
  (debug_assertions = true → CheckOrder.last_apath c = Some (ev_apath e)) →
  walking (Some (ev_apath e)) (MkLiveIter _ (li_root_path self) (li_dir_deque self) es c (li_exclude self) st).
Proof.
  intros [_ Hd _ He Hbp Hbe Hap] Hes Hc. rewrite Hes in *. apply StronglySorted_inv in He as [He Hx].
  split; cbn; try done.
  - intros e' Hin. rewrite Forall_forall in Hx. by apply Hx.
  - intros d a Hin Ha. apply (Hbe d a e Hin Ha). by left.
  - intros d a e' Hin Ha Hin'. apply (Hbe d a e' Hin Ha). by right.
Qed.

Lemma visit_terminates self a : terminates (LiveIter.visit_next_directory self a).
Proof.
  unfold LiveIter.visit_next_directory, LiveIter.visit_entry, sys_read_dir, Exclude.matches, Apath.from, sys_lstat,
    LiveTree.entry_from_fs_metadata, LiveTree.sys_read_link. solve_terminates.
Qed.

Lemma live_new_terminates p a ex : terminates (LiveIter.new p a ex).
Proof. unfold LiveIter.new, sys_lstat, LiveTree.entry_from_fs_metadata, LiveTree.sys_read_link. solve_terminates. Qed.

(** The iterator once a directory is taken off its queue *)
Definition drop_dir (ds : list Apath) (self : LiveIter) : LiveIter :=
  MkLiveIter _ (li_root_path self) ds [] (li_check_order self) (li_exclude self) (li_stats self).

(** Visiting the directory at the head of the queue *)
Lemma visit_walking last self d ds w :
  walking last self → named_below (li_root_path self) (w_fs w) → li_entry_deque self = [] → li_dir_deque self = d :: ds →
  let '(o, w1) := LiveIter.visit_next_directory (drop_dir ds self) d w in
  o ≠ Panic ∧ o ≠ NoFuel ∧ w_fs w1 = w_fs w ∧
  match o with
  | Ret self1 => li_root_path self1 = li_root_path self ∧ walking last self1 ∧
                 LiveIter.dirs_bound self1 w1 < LiveIter.dirs_bound self w ∧
                 LiveIter.entries_bound self1 w1 ≤ LiveIter.entries_bound self w
  | _ => True
  end.
Proof.
  intros [Hord Hdirs _ _ Hbp _ Hap] Hfs Ees Eds. rewrite Eds in *.
  destruct (Hdirs d ltac:(by left)) as (ps & Hps & ->). apply StronglySorted_inv in Hap as [Hap Hd].
  set (self0 := drop_dir ds self).
  pose proof (visit_safe self0 ps Hps w Hfs) as Hsafe. pose proof (visit_terminates self0 (of_names ps) w) as Hterm.
  pose proof (visit_next_directory_respects same_fs self0 (of_names ps) w) as Hrd. unfold fs_rel, same_fs in Hrd.
  destruct (LiveIter.visit_next_directory self0 (of_names ps) w) as [o w1] eqn:E. cbn [fst snd] in Hsafe, Hterm, Hrd.
  split_and!; [done..|]. destruct o as [self1| | |]; try done.
  pose proof (visit_inv self0 ps w self1 w1 Hps Hfs E) as (ns & sub & Hadds). split_and!.
  - by destruct Hadds.
  - apply (walking_visit last (w_fs w) ps self0 self1 ns sub); try done; cbn.
    + intros d Hin. apply Hdirs. by right.
    + intros a. apply Hbp. by left.
    + intros d' a Hin. apply Hbp. by right.
    + intros d' Hin. rewrite Forall_forall in Hd. by apply Hd.
  - pose proof (visit_bound self0 self1 ps w ns sub ds Hps Hadds eq_refl) as Hvb.
    unfold LiveIter.dirs_bound in Hvb |- *. rewrite <-Hrd, Eds. cbn in Hvb |- *. lia.
  - pose proof (visit_entries self0 self1 ps w ns sub Hps Hadds) as Hvb.
    unfold LiveIter.entries_bound in Hvb |- *. rewrite <-Hrd, Eds, Ees. cbn in Hvb |- *. lia.
Qed.

(** The rounds of [next] that visit directories: they end, and every entry counts
    against the bound on entries. *)
Lemma next_loop_inv last fuel self w :
  walking last self → named_below (li_root_path self) (w_fs w) → LiveIter.dirs_bound self w ≤ fuel →
  let '(o, w') := LiveIter.next_loop fuel self w in
  o ≠ Panic ∧ o ≠ NoFuel ∧ w_fs w' = w_fs w ∧
  match o with
  | Ret (Some e, self') => li_root_path self' = li_root_path self ∧ past last (ev_apath e) ∧
                           walking (Some (ev_apath e)) self' ∧
                           LiveIter.entries_bound self' w' < LiveIter.entries_bound self w
  | Ret (None, self') => walking last self'
  | _ => True
  end.
Proof.
  revert self w. induction fuel as [|fuel IH]; intros self w Hw Hfs Hb; cbn [LiveIter.next_loop];
    (destruct (li_entry_deque self) as [|e es] eqn:Ees;
     [destruct (li_dir_deque self) as [|d ds] eqn:Eds; [done|]
     |destruct (check_passes last (li_check_order self) (ev_apath e) w) as (c & Hc & Hc');
       [apply (wk_past _ _ Hw); rewrite Ees; by left|apply (wk_order _ _ Hw)|];
      rewrite (bind_run _ _ _ _ _ Hc); split_and!; try done;
      [apply (wk_past _ _ Hw); rewrite Ees; by left|by apply (walking_pop last self)
      |unfold LiveIter.entries_bound; rewrite Ees; cbn; lia]]).
  { unfold LiveIter.dirs_bound in Hb. rewrite Eds in Hb. simpl in Hb. lia. }
  pose proof (visit_walking last self d ds w Hw Hfs Ees Eds) as Hv. fold (drop_dir ds self).
  unfold mbind, ST_bind. destruct (LiveIter.visit_next_directory _ d w) as [o w1].
  destruct Hv as (? & ? & Hrd & Hv). destruct o as [self1| | |]; try done. destruct Hv as (Hr1 & Hw1 & Hd1 & He1).
  pose proof (IH self1 w1 Hw1 ltac:(by rewrite Hr1, Hrd) ltac:(lia)) as Hi. rewrite Hr1 in Hi.
  destruct (LiveIter.next_loop fuel self1 w1) as [o w2]. destruct Hi as (? & ? & Hfs2 & Hi). rewrite Hfs2.
  split_and!; try done. destruct o as [[[e|] self2]| | |]; try done. destruct Hi as (? & ? & ? & ?). split_and!; [done..|lia].
Qed.

Lemma next_inv last self w :
  walking last self → named_below (li_root_path self) (w_fs w) →
  let '(o, w') := LiveIter.next self w in
  o ≠ Panic ∧ o ≠ NoFuel ∧ w_fs w' = w_fs w ∧
  match o with
  | Ret (Some e, self') => li_root_path self' = li_root_path self ∧ past last (ev_apath e) ∧
                           walking (Some (ev_apath e)) self' ∧
                           LiveIter.entries_bound self' w' < LiveIter.entries_bound self w
  | Ret (None, self') => walking last self'
  | _ => True
  end.
Proof. intros Hw Hfs. unfold LiveIter.next. erewrite bind_run by done. by apply next_loop_inv. Qed.

(** A prefix of the walk: what [next] yields, one after the other *)
Inductive yields : LiveIter → World → list EntryValue → LiveIter → World → Prop :=
  | yields_nil self w : yields self w [] self w
  | yields_cons self w e self1 w1 es self' w' :
      LiveIter.next self w = (Ret (Some e, self1), w1) → yields self1 w1 es self' w' →
      yields self w (e :: es) self' w'.

Lemma yields_walking last self w es self' w' :
  yields self w es self' w' → walking last self → named_below (li_root_path self) (w_fs w) →
  StronglySorted (λ x y, Apath.lt (ev_apath x) (ev_apath y)) es ∧
  (∀ e, e ∈ es → past last (ev_apath e)) ∧ w_fs w' = w_fs w ∧
  li_root_path self' = li_root_path self ∧ ∃ last', walking last' self'.
Proof.
  intros Hy. revert last. induction Hy as [self w|self w e self1 w1 es self' w' Hn Hy IH]; intros last Hw Hfs.
  { split_and!; [constructor|by intros e []%not_elem_of_nil|done|done|by exists last]. }
  pose proof (next_inv last self w Hw Hfs) as Hi. rewrite Hn in Hi. destruct Hi as (_ & _ & Hfs1 & Hr1 & Hp & Hw1 & _).
  destruct (IH (Some (ev_apath e)) Hw1) as (Hs & Hall & Hfs' & Hr' & Hex); [by rewrite Hr1, Hfs1|].
  split_and!; [|..|by rewrite Hfs'|by rewrite Hr'|done].
  - constructor; [done|]. apply Forall_forall. intros y Hy'. by apply Hall.
  - intros e' [->|Hin]%elem_of_cons; [done|]. apply (past_trans last (ev_apath e)); [done|]. by apply Hall.
Qed.

(** Collecting the walk takes no more rounds than its bound, and gives what [next]
    yields. *)
Lemma collect_loop_inv last fuel acc self w :
  walking last self → named_below (li_root_path self) (w_fs w) → LiveIter.entries_bound self w ≤ fuel →
  let '(o, w') := LiveIter.collect_loop fuel acc self w in
  o ≠ Panic ∧ o ≠ NoFuel ∧ w_fs w' = w_fs w ∧
  match o with
  | Ret es => ∃ l self' w1 self'', es = (acc ++ l)%list ∧ yields self w l self' w1 ∧
                LiveIter.next self' w1 = (Ret (None, self''), w')
  | _ => True
  end.
Proof.
  revert last acc self w. induction fuel as [|fuel IH]; intros last acc self w Hw Hfs Hb;
    cbn [LiveIter.collect_loop]; pose proof (next_inv last self w Hw Hfs) as Hi;
    unfold mbind, ST_bind; destruct (LiveIter.next self w) as [o w1] eqn:En;
    destruct Hi as (? & ? & Hfs1 & Hi); (destruct o as [[[e|] self1]| | |]; try done; cycle 1;
    [split_and!; try done; exists [], self, w, self1; rewrite app_nil_r; split_and!; [done|constructor|done]|]);
    destruct Hi as (Hr1 & _ & Hw1 & Hb1); [lia|].
  specialize (IH _ (acc ++ [e])%list self1 w1 Hw1 ltac:(by rewrite Hr1, Hfs1) ltac:(lia)).
  destruct (LiveIter.collect_loop fuel _ self1 w1) as [o w2]. destruct IH as (? & ? & Hfs2 & IH). rewrite Hfs2.
  split_and!; try done. destruct o as [es| | |]; try done. destruct IH as (l & self' & w3 & self'' & -> & Hy & Hn).
  exists (e :: l), self', w3, self''. rewrite <-app_assoc. split_and!; [done|by econstructor|done].
Qed.

Lemma new_walking root ps ex w self w' :
  names_ok ps → LiveIter.new root (of_names ps) ex w = (Ret (Ok self), w') →
  walking None self ∧ li_root_path self = root ∧ w_fs w' = w_fs w.
Proof.
  intros Hps Hr. pose proof (live_new_respects same_fs root (of_names ps) ex w) as Hfs. rewrite Hr in Hfs.
  unfold fs_rel, same_fs in Hfs.
  unfold LiveIter.new in Hr. rewrite below_ok in Hr by done. cbn [expect] in Hr. inv_run Hr.
  apply ret_inv in Hrun as [<- <-]. inv_run Hr. destruct a as [md|k]; [|by inv_run Hr]. inv_run Hr. inv_run Hr.
  split; [|by split]. apply entry_apath in Hrun0. split; cbn; try done.
  - intros d ->%list_elem_of_singleton. by exists ps.
  - by repeat constructor.
  - intros d a' e ->%list_elem_of_singleton Ha ->%list_elem_of_singleton. rewrite Hrun0.
    destruct Ha as (ps' & q & Hv & Hq & Hd & ->). pose proof Hv as [Hv' _]%Forall_app.
    apply of_names_inj in Hd as <-; [|by destruct Hps|done]. by apply parent_before.
  - by repeat constructor.
Qed.
End order.


(** ** Examples *)

#[local] Existing Instances sample_ext sample_build sample_cachedir.

(** A tree with a file after a directory in the order of names *)
Definition sample_tree_files : list (Path * Node) :=
  [([], sample_dir); (["s"], sample_dir); (["s"; "b"], sample_dir); (["s"; "b"; "c"], NFile "x" sample_meta);
   (["s"; "z"], NFile "y" sample_meta)].

Definition sample_tree_fs : Fs := list_to_map sample_tree_files.

Definition node_named (k : Path * Node) : bool := match last k.1 with Some n => valid_name n | None => true end.

Lemma named_files root files : forallb node_named files = true → named_below root (list_to_map files).
Proof.
  intros Hall p n _ [nd Hp]. apply elem_of_list_to_map_2 in Hp. rewrite forallb_forall in Hall.
  apply list_elem_of_In, Hall in Hp. unfold node_named in Hp. cbn [fst] in Hp. by rewrite last_snoc in Hp.
Qed.

Lemma sample_tree_named : named_below ["s"] sample_tree_fs.
Proof. apply named_files. vm_compute. reflexivity. Qed.

Lemma yields_val self w e self1 es self' w' :
  (LiveIter.next self w).1 = Ret (Some e, self1) →
  yields self1 (LiveIter.next self w).2 es self' w' → yields self w (e :: es) self' w'.
Proof.
  intros Hn Hy. econstructor; [|exact Hy]. destruct (LiveIter.next self w). simpl in *. by subst.
Qed.

Definition sample_value (a : string) (k : KindMeta) : EntryValue :=
  MkEntryValue (MkApath a) k (MkTime 0 0) (UnixMode.from 420) (Owner.from_ids 0 0).

Definition sample_walk : list EntryValue :=
  [sample_value "/" KM_Dir; sample_value "/b" KM_Dir; sample_value "/z" (KM_File 1); sample_value "/b/c" (KM_File 1)].

(** The states of the walk *)
Definition sample_live (dirs : list string) (es : list EntryValue) (last : option string) (visited returned : N) :
    LiveIter :=
  MkLiveIter _ ["s"] (MkApath <$> dirs) es (CheckOrder.Mk (MkApath <$> last)) Exclude.nothing
    (MkLiveTreeIterStats visited 0 0 returned).

Definition sample_live_world : World :=
  (LiveIter.new ["s"] (of_names []) Exclude.nothing (world_of sample_tree_fs)).2.

Lemma sample_live_new :
  LiveIter.new ["s"] (of_names []) Exclude.nothing (world_of sample_tree_fs)
  = (Ret (Ok (sample_live ["/"] [sample_value "/" KM_Dir] None 0 0)), sample_live_world).
Proof. reflexivity. Qed.

Lemma sample_yields : ∃ self' w',
  yields (sample_live ["/"] [sample_value "/" KM_Dir] None 0 0) sample_live_world sample_walk self' w'.
Proof.
  eexists _, _.
  apply (yields_val _ _ _ (sample_live ["/"] [] (Some "/") 0 1)); [reflexivity|].
  apply (yields_val _ _ _ (sample_live ["/b"] [sample_value "/z" (KM_File 1)] (Some "/b") 1 2)); [reflexivity|].
  apply (yields_val _ _ _ (sample_live ["/b"] [] (Some "/z") 1 3)); [reflexivity|].
  apply (yields_val _ _ _ (sample_live [] [] (Some "/b/c") 2 4)); [reflexivity|].
  constructor.
Qed.

