(* ===== verification/LiveWhole.v ===== *)
(** * The whole of a live tree

    What the iterator of src/live_tree.rs (modelled in [LiveTree]) yields when nothing
    fails: exactly the entries of the nodes that can be reached from the root without
    passing an excluded or tagged directory, each with what the system says of it --
    also when the rest of the file system changes under the walk. *)

From Stdlib Require Import Ascii.
From S2P Require Import Prelude Text Apath Externals Sample Ids Entry Counters Errors World Transport.
From S2P Require Import Excludes Jsonio SampleWorld BlockDir Index Archive Footprint Stitch LiveTree LiveOrder.
From stdpp Require Import list gmap strings.

(** The test for a tagged directory looks at nothing outside of it. *)
Class CacheDirLaws `{CacheDir} : Prop :=
  cachedir_local : ∀ p fs fs', same_below p fs fs' → cachedir_is_tagged p fs' = cachedir_is_tagged p fs.

(** ** Which entries there are *)

Section tree.
Context `{Ext} `{BuildCfg} `{CacheDir} (root : Path) (fs0 : Fs) (exclude : Exclude).

(** The entry of a node, when it has one *)
Definition value_of (a : Apath) (node : Node) : option EntryValue :=
  let m := node_meta node in
  let make k := MkEntryValue a k (m_mtime m) (UnixMode.from (m_mode m)) (Owner.from_ids (m_uid m) (m_gid m)) in
  match node with
  | NFile c _ => Some (make (KM_File (N.of_nat (String.length c))))
  | NDir _ => Some (make KM_Dir)
  | NSymlink t _ => if utf8_valid t then Some (make (KM_Symlink t)) else None
  | NOther _ => None
  end.

Definition tagged (fs : Fs) (p : Path) : bool :=
  match cachedir_is_tagged p fs with Ok true => true | _ => false end.

(** The walk looks at the child [n] of the directory [ps]. *)
Definition passes (ps : list string) (n : string) (node : Node) : bool :=
  utf8_valid n && negb (globset_is_match (globset exclude) (apath_str (of_names (ps ++ [n]))))
  && negb (is_dir_node (Some node) && tagged fs0 ((root ++ ps) ++ [n])%list).

Definition is_dir_at (ps : list string) : Prop := is_dir_node (fs0 !! (root ++ ps)%list) = true.

(** What can be reached from the root *)
Inductive reached : list string → Prop :=
  | reached_root : reached []
  | reached_child ps n node :
      reached ps → is_dir_at ps → fs0 !! ((root ++ ps) ++ [n])%list = Some node → passes ps n node = true →
      reached (ps ++ [n]).

(** The entries at [q] *)
Definition entry_at (q : list string) (e : EntryValue) : Prop :=
  reached q ∧ ∃ node, fs0 !! (root ++ q)%list = Some node ∧ value_of (of_names q) node = Some e.

Definition entry_below (ps : list string) (e : EntryValue) : Prop := ∃ q, q ≠ [] ∧ entry_at (ps ++ q) e.

Lemma reached_inv ps n :
  reached (ps ++ [n]) →
  reached ps ∧ is_dir_at ps ∧ ∃ node, fs0 !! ((root ++ ps) ++ [n])%list = Some node ∧ passes ps n node = true.
Proof.
  inversion 1 as [Heq|ps' n' node Hr Hd Hn Hp Heq]; [by destruct ps|].
  apply app_inj_tail in Heq as [-> ->]. split_and!; try done. by exists node.
Qed.

Lemma reached_prefix ps q : reached (ps ++ q) → q ≠ [] → reached ps ∧ is_dir_at ps.
Proof.
  induction q as [|n q IH] using rev_ind; [done|]. rewrite app_assoc. intros (Hr & Hd & _)%reached_inv _.
  destruct (decide (q = [])) as [->|Hq]; [by rewrite app_nil_r in *|by apply IH].
Qed.

(** What is below a directory: its children, and what is below those. *)
Lemma entry_below_step ps e :
  reached ps → is_dir_at ps →
  entry_below ps e ↔
  ∃ n node, fs0 !! ((root ++ ps) ++ [n])%list = Some node ∧ passes ps n node = true ∧
    (value_of (of_names (ps ++ [n])) node = Some e ∨ (is_dir_node (Some node) = true ∧ entry_below (ps ++ [n]) e)).
Proof.
  intros Hps Hd. split.
  - intros ([|n q] & Hq & Hr & node & Hnode & He); [done|].
    rewrite cons_middle, app_assoc in Hr, He. rewrite cons_middle, !app_assoc in Hnode.
    assert (reached (ps ++ [n])) as Hrn.
    { destruct (decide (q = [])) as [->|Hne]; [by rewrite app_nil_r in Hr|by eapply reached_prefix]. }
    apply reached_inv in Hrn as (_ & _ & nd & Hnd & Hpass). exists n, nd. split; [done|]. split; [done|].
    destruct (decide (q = [])) as [->|Hne].
    + rewrite app_nil_r in Hnode, He. left. congruence.
    + right. pose proof (reached_prefix _ _ Hr Hne) as [_ Hdn]. unfold is_dir_at in Hdn.
      rewrite app_assoc, Hnd in Hdn. split; [done|]. exists q. split; [done|]. split; [done|].
      exists node. by rewrite !app_assoc.
  - intros (n & node & Hn & Hp & [He|[Hdn (q & Hq & He)]]).
    + exists [n]. split; [done|]. split; [by econstructor|]. exists node. by rewrite app_assoc.
    + exists (n :: q). split; [done|]. by rewrite cons_middle, app_assoc.
Qed.

(** Reached paths have names that can be written. *)
Lemma reached_names q : named_below root fs0 → reached q → names_ok q.
Proof.
  intros Hn. induction 1 as [|ps n node Hr IH Hd Hnode Hp]; [by repeat constructor|].
  unfold passes in Hp. rewrite !andb_true_iff in Hp. destruct Hp as [[Hu _] _].
  apply names_ok_snoc; [done| |done]. apply (Hn (root ++ ps)%list); [by apply prefix_app_r|by eexists].
Qed.
End tree.

(** ** Visiting a directory, when nothing fails *)

(** The tree depends on what is below its root only. *)
Section elsewhere.
Context `{Ext} `{BuildCfg} `{!CacheDir} `{!CacheDirLaws} (root : Path) (exclude : Exclude).

Lemma reached_elsewhere fs fs' q : same_below root fs fs' → reached root fs exclude q → reached root fs' exclude q.
Proof.
  intros Hs. induction 1 as [|ps n node _ IH Hd Hn Hp]; [constructor|].
  assert (∀ q, fs' !! (root ++ q)%list = fs !! (root ++ q)%list) as Hq by (intros q; apply Hs; by apply prefix_app_r).
  apply (reached_child root fs' exclude ps n node); [done| | |].
  - unfold is_dir_at in *. by rewrite Hq.
  - rewrite Hs; [done|]. rewrite <-app_assoc. by apply prefix_app_r.
  - unfold passes, tagged in *. rewrite (cachedir_local _ fs fs'); [done|]. intros p Hp'. apply Hs.
    etrans; [|exact Hp']. rewrite <-app_assoc. by apply prefix_app_r.
Qed.

Lemma entry_at_elsewhere fs fs' q e : same_below root fs fs' → entry_at root fs exclude q e → entry_at root fs' exclude q e.
Proof.
  intros Hs (Hr & node & Hn & Hv). split; [by eapply reached_elsewhere|]. exists node. split; [|done].
  rewrite Hs; [done|]. by apply prefix_app_r.
Qed.
End elsewhere.

Section visits.
Context `{Ext} `{BuildCfg} `{!CacheDir} `{!CacheDirLaws} (root : Path) (fs0 : Fs) (exclude : Exclude).
Context (Hnamed : named_below root fs0).

(** Nothing fails, and the tree is as it was. *)
Record at_rest (w : World) : Prop := {
  ar_free : fault_free w;
  ar_same : same_below root fs0 (w_fs w)
}.

Lemma at_rest_quiet w w' : quiet w w' → at_rest w → at_rest w'.
Proof. intros Hq [Hf Hs]. split; [by eapply quiet_free|]. destruct Hq as [-> _]. done. Qed.

Lemma at_rest_at w q : at_rest w → w_fs w !! (root ++ q)%list = fs0 !! (root ++ q)%list.
Proof. intros [_ Hs]. apply Hs. by apply prefix_app_r. Qed.

Lemma fs_lstat_at (p : Path) (fs : Fs) node : fs !! p = Some node → fs_lstat p fs = Ok node.
Proof. intros Hp. unfold fs_lstat. by rewrite Hp. Qed.

Lemma fs_read_dir_at (p : Path) (fs : Fs) m : fs !! p = Some (NDir m) → fs_read_dir p fs = Ok (fs_children p fs).
Proof. intros Hp. unfold fs_read_dir. by rewrite Hp. Qed.

Lemma entry_run a p node (w : World) :
  fault_free w → w_fs w !! p = Some node →
  ∃ r w', LiveTree.entry_from_fs_metadata a p node w = (Ret r, w') ∧ quiet w w' ∧
    match value_of a node with Some e => r = Ok e | None => ∃ err, r = Err err end.
Proof.
  intros Hf Hp. unfold LiveTree.entry_from_fs_metadata, value_of.
  destruct node as [c m|m|t m|m]; cbn [node_type]; try (eexists _, w; split; [done|]; split; [done|]; by eauto).
  unfold LiveTree.sys_read_link. erewrite bind_run by by apply sys_read_run. unfold fs_lstat. rewrite Hp.
  eexists _, (tick w). split; [done|]. split; [done|]. cbv zeta. destruct (utf8_valid t); by eauto.
Qed.

(** What a visit takes of one name of the listing *)
Definition child_entry (ps : list string) (c : string * Node) : option (string * EntryValue) :=
  if passes root fs0 exclude ps c.1 c.2 then pair c.1 <$> value_of (of_names (ps ++ [c.1])) c.2 else None.
Definition child_dir (ps : list string) (c : string * Node) : option Apath :=
  if passes root fs0 exclude ps c.1 c.2 && is_dir_node (Some c.2) then Some (of_names (ps ++ [c.1])) else None.

Lemma tagged_run p node (w : World) :
  fault_free w → root `prefix_of` p → at_rest w →
  ∃ w', (if match node_type node with ft_dir => true | _ => false end
         then r ← sys_read (λ w, cachedir_is_tagged p (w_fs w));
              mret (match r with Ok true => true | _ => false end)
         else mret false) w = (Ret (is_dir_node (Some node) && tagged fs0 p), w') ∧ quiet w w'.
Proof.
  intros Hf Hp [_ Hs]. unfold tagged. destruct node; cbn [node_type is_dir_node andb]; try by exists w.
  erewrite bind_run by by apply sys_read_run. exists (tick w). split; [|done].
  rewrite (cachedir_local p fs0 (w_fs w)); [by destruct (cachedir_is_tagged p fs0) as [[]|]|].
  intros q Hq. apply Hs. by etrans.
Qed.

Lemma visit_entry_run ps v n node w :
  at_rest w → names_ok ps → valid_name n = true → fs0 !! ((root ++ ps) ++ [n])%list = Some node →
  ∃ v' w', LiveIter.visit_entry exclude (of_names ps) (root ++ ps) v (n, node) w = (Ret v', w') ∧ quiet w w' ∧
    LiveIter.v_children v' = (LiveIter.v_children v ++ omap (child_entry ps) [(n, node)])%list ∧
    LiveIter.v_subdirs v' = (LiveIter.v_subdirs v ++ omap (child_dir ps) [(n, node)])%list.
Proof.
  intros Hw Hps Hn Hnode. unfold LiveIter.visit_entry, child_entry, child_dir, passes. cbn [omap list_omap fst snd].
  destruct (utf8_valid n) eqn:Hu; cbn [negb andb]; [|exists v, w; by rewrite !app_nil_r].
  rewrite append_names by (done || apply Hps). cbv zeta.
  assert (valid_names (ps ++ [n])) as Hvn by (apply Forall_app; split; [apply Hps|by repeat constructor]).
  rewrite (bind_run _ _ _ _ _ (matches_run exclude _ w (of_names_valid _ Hvn))).
  destruct (globset_is_match _ _); cbn [negb andb]; [eexists _, w; by rewrite !app_nil_r|].
  assert (root `prefix_of` ((root ++ ps) ++ [n])%list) as Hpre by (rewrite <-app_assoc; by apply prefix_app_r).
  destruct (tagged_run ((root ++ ps) ++ [n])%list node w (ar_free w Hw) Hpre Hw) as (w1 & Hr1 & Hq1).
  rewrite (bind_run _ _ _ _ _ Hr1). destruct (_ && tagged _ _); cbn [negb andb]; [exists v, w1; by rewrite !app_nil_r|].
  pose proof (at_rest_quiet _ _ Hq1 Hw) as Hw1. unfold sys_lstat.
  erewrite bind_run by (apply sys_read_run, Hw1).
  assert (w_fs w1 !! ((root ++ ps) ++ [n])%list = Some node) as Hat.
  { rewrite <-Hnode, <-app_assoc. by apply at_rest_at. }
  rewrite (fs_lstat_at _ _ _ Hat).
  destruct (entry_run (of_names (ps ++ [n])) ((root ++ ps) ++ [n])%list node (tick w1)) as (r & w2 & Hr2 & Hq2 & Hv);
    [apply Hw1|done|].
  rewrite (bind_run _ _ _ _ _ Hr2). eexists _, w2. split; [done|]. split; [etrans; [exact Hq1|]; etrans; [apply quiet_tick|exact Hq2]|].
  destruct (value_of _ node) as [e|]; [subst r|destruct Hv as (err & ->)]; destruct node; cbn;
    by rewrite ?app_nil_r.
Qed.

Lemma visit_all_run ps l v w :
  at_rest w → names_ok ps → Forall (λ c, valid_name c.1 = true ∧ fs0 !! ((root ++ ps) ++ [c.1])%list = Some c.2) l →
  ∃ v' w', fold_st (LiveIter.visit_entry exclude (of_names ps) (root ++ ps)) v l w = (Ret v', w') ∧ quiet w w' ∧
    LiveIter.v_children v' = (LiveIter.v_children v ++ omap (child_entry ps) l)%list ∧
    LiveIter.v_subdirs v' = (LiveIter.v_subdirs v ++ omap (child_dir ps) l)%list.
Proof.
  intros Hw Hps Hl. revert v w Hw. induction Hl as [|[n node] l [Hn Hnode] _ IH]; intros v w Hw; cbn [fold_st].
  { exists v, w. by rewrite !app_nil_r. }
  destruct (visit_entry_run ps v n node w Hw Hps Hn Hnode) as (v1 & w1 & Hr1 & Hq1 & Hc1 & Hs1).
  rewrite (bind_run _ _ _ _ _ Hr1). destruct (IH v1 w1 (at_rest_quiet _ _ Hq1 Hw)) as (v2 & w2 & Hr2 & Hq2 & Hc2 & Hs2).
  exists v2, w2. split; [done|]. split; [by etrans|]. rewrite Hc2, Hs2, Hc1, Hs1, <-!app_assoc.
  change ((n, node) :: l) with ([(n, node)] ++ l)%list. by rewrite !omap_app.
Qed.

(** A visit of a directory that was reached *)
Lemma visit_run self ps w :
  at_rest w → names_ok ps → is_dir_at root fs0 ps → li_root_path self = root → li_exclude self = exclude →
  ∃ self' w', LiveIter.visit_next_directory self (of_names ps) w = (Ret self', w') ∧ quiet w w' ∧
    li_root_path self' = root ∧ li_exclude self' = exclude ∧
    (∀ e, e ∈ li_entry_deque self' ↔ e ∈ li_entry_deque self ∨
       ∃ n node, fs0 !! ((root ++ ps) ++ [n])%list = Some node ∧ passes root fs0 exclude ps n node = true ∧
         value_of (of_names (ps ++ [n])) node = Some e) ∧
    (∀ d, d ∈ li_dir_deque self' ↔ d ∈ li_dir_deque self ∨
       ∃ n node, fs0 !! ((root ++ ps) ++ [n])%list = Some node ∧ passes root fs0 exclude ps n node = true ∧
         is_dir_node (Some node) = true ∧ d = of_names (ps ++ [n])).
Proof.
  intros Hw Hps Hd Hroot Hex. unfold LiveIter.visit_next_directory. rewrite Hroot, below_ok by done. cbv zeta.
  erewrite bind_run by done. unfold sys_read_dir. erewrite bind_run by (apply sys_read_run, Hw).
  unfold is_dir_at in Hd. destruct (fs0 !! (root ++ ps)%list) as [[|m| |]|] eqn:Ed; try done.
  rewrite (fs_read_dir_at _ (w_fs w) m) by (by rewrite <-Ed; apply at_rest_at). cbn [map_ok]. set (l := permute _ _).
  assert (∀ n node, (n, node) ∈ l ↔ fs0 !! ((root ++ ps) ++ [n])%list = Some node) as Hin.
  { intros n node. unfold l. rewrite permute_perm, elem_of_fs_children, <-app_assoc. by rewrite at_rest_at, app_assoc. }
  rewrite Hex. destruct (visit_all_run ps l (LiveIter.MkVisit [] [] 0 0) (tick w)) as (v & w' & Hr & Hq & Hc & Hs).
  { by eapply at_rest_quiet, Hw. }
  { done. }
  { apply Forall_forall. intros [n node] Hl%Hin. cbn [fst snd]. split; [|done].
    apply (Hnamed (root ++ ps)%list); [by apply prefix_app_r|]. by rewrite Hl. }
  rewrite (bind_run _ _ _ _ _ Hr). eexists _, w'. split; [done|]. split; [etrans; [apply quiet_tick|exact Hq]|]. split; [done|]. split; [done|]. cbn.
  cbn in Hc, Hs. split.
  - intros e. rewrite elem_of_app. f_equiv. rewrite list_elem_of_fmap. split.
    + intros ([n x] & -> & Hx). rewrite sort_by_perm, Hc, list_elem_of_omap in Hx. destruct Hx as ([n' node] & Hx & He).
      apply Hin in Hx. unfold child_entry in He. cbn [fst snd] in *. exists n', node. split; [done|].
      destruct (passes _ _ _ _ _ _); [|done]. split; [done|]. destruct (value_of _ _); simplify_eq/=. done.
    + intros (n & node & Hx & Hp & He). exists (n, e). split; [done|]. rewrite sort_by_perm, Hc, list_elem_of_omap.
      exists (n, node). split; [by apply Hin|]. unfold child_entry. cbn [fst snd]. by rewrite Hp, He.
  - intros d. rewrite elem_of_app, sort_by_perm, Hs, list_elem_of_omap, (comm or). f_equiv. split.
    + intros ([n node] & Hx%Hin & He). unfold child_dir in He. cbn [fst snd] in *. exists n, node. split; [done|].
      destruct (passes _ _ _ _ _ _), node; simplify_eq/=; by split_and!.
    + intros (n & node & Hx & Hp & He & ->). exists (n, node). split; [by apply Hin|]. unfold child_dir. cbn [fst snd].
      rewrite Hp. by destruct node.
Qed.
End visits.

(** ** The walk, when nothing fails *)

Section walks.
Context `{Ext} `{BuildCfg} `{!CacheDir} `{!CacheDirLaws} (root : Path) (fs0 : Fs) (exclude : Exclude).
Context (Hnamed : named_below root fs0).

#[local] Abbreviation Rest := (at_rest root fs0).
#[local] Abbreviation Below := (entry_below root fs0 exclude).

(** What is still to come *)
Definition pending (self : LiveIter) (e : EntryValue) : Prop :=
  e ∈ li_entry_deque self ∨ ∃ ps, names_ok ps ∧ of_names ps ∈ li_dir_deque self ∧ Below ps e.

(** The iterator in the middle of its walk over this tree *)
Record on_the_way (self : LiveIter) : Prop := {
  ow_root : li_root_path self = root;
  ow_exclude : li_exclude self = exclude;
  ow_dirs : ∀ d, d ∈ li_dir_deque self → ∃ ps, names_ok ps ∧ d = of_names ps ∧ reached root fs0 exclude ps ∧ is_dir_at root fs0 ps
}.

(** Visiting the first directory of the queue changes where an entry waits, not whether. *)
Lemma visit_pending last self d ds w :
  Rest w → walking last self → on_the_way self → li_entry_deque self = [] → li_dir_deque self = d :: ds →
  ∃ self' w', LiveIter.visit_next_directory (drop_dir ds self) d w = (Ret self', w') ∧ quiet w w' ∧
    on_the_way self' ∧ ∀ e, pending self e ↔ pending self' e.
Proof.
  intros Hw Hwk [Hroot Hex Hdirs] Ees Eds. rewrite Eds in Hdirs.
  destruct (Hdirs d ltac:(by left)) as (ps & Hps & -> & Hr & Hd).
  destruct (visit_run root fs0 exclude Hnamed (drop_dir ds self) ps w Hw Hps Hd Hroot Hex)
    as (self' & w' & Hrun & Hq & Hroot' & Hex' & Hes & Hds).
  exists self', w'. split; [done|]. split; [done|].
  assert (∀ n node, fs0 !! ((root ++ ps) ++ [n])%list = Some node → passes root fs0 exclude ps n node = true →
    reached root fs0 exclude (ps ++ [n]) ∧ names_ok (ps ++ [n])) as Hchild.
  { intros n node Hn Hp. assert (reached root fs0 exclude (ps ++ [n])) as Hrn by (by econstructor).
    split; [done|]. by eapply reached_names. }
  split.
  - split; [done|done|]. intros d [Hin|(n & node & Hn & Hp & Hdn & ->)]%Hds; [apply Hdirs; by right|].
    destruct (Hchild n node Hn Hp). exists (ps ++ [n])%list. split_and!; try done. unfold is_dir_at. by rewrite app_assoc, Hn.
  - intros e. unfold pending. rewrite Ees, Eds. split.
    + intros [[]%not_elem_of_nil|(ps' & Hps' & [Heq|Hin]%elem_of_cons & He)].
      * apply of_names_inj in Heq as ->; [|apply Hps'|apply Hps].
        apply entry_below_step in He as (n & node & Hn & Hp & [He|[Hdn He]]); [..|done|done].
        -- left. apply Hes. right. by exists n, node.
        -- right. exists (ps ++ [n])%list. split; [by eapply Hchild|]. split; [|done]. apply Hds. right. by exists n, node.
      * right. exists ps'. split; [done|]. split; [|done]. apply Hds. by left.
    + intros [[[]%not_elem_of_nil|(n & node & Hn & Hp & He)]%Hes|(ps' & Hps' & Hin & He)].
      * right. exists ps. split; [done|]. split; [by left|]. apply entry_below_step; [done|done|].
        exists n, node. split_and!; [done..|by left].
      * apply Hds in Hin as [Hin|(n & node & Hn & Hp & Hdn & Heq)].
        -- right. exists ps'. split; [done|]. split; [by right|done].
        -- apply of_names_inj in Heq as ->; [|apply Hps'|by eapply (Hchild n node)].
           right. exists ps. split; [done|]. split; [by left|]. apply entry_below_step; [done|done|].
           exists n, node. split_and!; [done..|by right].
Qed.

(** One step of the walk *)
Lemma next_pending last self w :
  Rest w → walking last self → on_the_way self →
  ∃ r self' w', LiveIter.next self w = (Ret (r, self'), w') ∧ quiet w w' ∧ on_the_way self' ∧
    match r with
    | Some e => ∀ e', pending self e' ↔ e' = e ∨ pending self' e'
    | None => ∀ e', ¬ pending self e'
    end.
Proof.
  intros Hw Hwk How. unfold LiveIter.next. erewrite bind_run by done.
  set (fuel := LiveIter.dirs_bound self w). assert (LiveIter.dirs_bound self w ≤ fuel) as Hb by done.
  clearbody fuel. revert self w Hw Hwk How Hb. induction fuel as [|fuel IH]; intros self w Hw Hwk How Hb;
    cbn [LiveIter.next_loop];
    (destruct (li_entry_deque self) as [|e es] eqn:Ees;
     [destruct (li_dir_deque self) as [|d ds] eqn:Eds;
      [exists None, self, w; split_and!; try done; unfold pending; rewrite Ees, Eds;
       by intros e [[]%not_elem_of_nil|(ps & _ & []%not_elem_of_nil & _)]|]
     |destruct (check_passes last (li_check_order self) (ev_apath e) w) as (c & Hc & _);
       [apply (wk_past _ _ Hwk); rewrite Ees; by left|apply (wk_order _ _ Hwk)|];
      rewrite (bind_run _ _ _ _ _ Hc); eexists _, _, w; split; [done|]; split; [done|];
      split; [by destruct How|]; intros e'; unfold pending; rewrite Ees; cbn;
      rewrite elem_of_cons; by rewrite (assoc or)]).
  { unfold LiveIter.dirs_bound in Hb. rewrite Eds in Hb. simpl in Hb. lia. }
  fold (drop_dir ds self).
  assert (named_below (li_root_path self) (w_fs w)) as Hn.
  { rewrite (ow_root _ How). intros p n Hp. destruct Hw as [_ Hs]. rewrite Hs; [by apply Hnamed|by apply prefix_app_r]. }
  pose proof (visit_walking last self d ds w Hwk Hn Ees Eds) as Hv.
  destruct (visit_pending last self d ds w Hw Hwk How Ees Eds) as (self1 & w1 & Hr1 & Hq1 & How1 & Hp1).
  rewrite Hr1 in Hv. destruct Hv as (_ & _ & _ & _ & Hwk1 & Hd1 & _). rewrite (bind_run _ _ _ _ _ Hr1).
  destruct (IH self1 w1) as (r & self2 & w2 & Hr2 & Hq2 & How2 & Hp2); [by eapply at_rest_quiet|done|done|lia|].
  exists r, self2, w2. split; [done|]. split; [by etrans|]. split; [done|].
  destruct r as [e|]; intros e'; rewrite Hp1; apply Hp2.
Qed.

(** The beginning of the walk *)
Lemma new_pending m w :
  Rest w → fs0 !! root = Some (NDir m) →
  ∃ self w', LiveIter.new root Apath.root exclude w = (Ret (Ok self), w') ∧ quiet w w' ∧ walking None self ∧
    on_the_way self ∧ ∀ e, pending self e ↔ ∃ q, entry_at root fs0 exclude q e.
Proof.
  intros Hw Hm. assert (∃ self w', LiveIter.new root Apath.root exclude w = (Ret (Ok self), w') ∧ quiet w w' ∧
    li_root_path self = root ∧ li_exclude self = exclude ∧ li_dir_deque self = [Apath.root] ∧
    ∃ e0, li_entry_deque self = [e0] ∧ value_of Apath.root (NDir m) = Some e0) as (self & w' & Hr & Hq & Hroot & Hex & Hdirs & e0 & Hes & He0).
  { unfold LiveIter.new. pose proof (below_ok [] root) as Hb. change (of_names []) with Apath.root in Hb.
    rewrite Hb by (by repeat constructor). clear Hb. erewrite bind_run by done. unfold sys_lstat.
    erewrite bind_run by (apply sys_read_run, Hw).
    assert (w_fs w !! (root ++ [])%list = Some (NDir m)) as Hat by (rewrite app_nil_r, <-Hm; by apply (ar_same _ _ _ Hw)).
    rewrite (fs_lstat_at _ _ _ Hat).
    destruct (entry_run Apath.root (root ++ [])%list (NDir m) (tick w)) as (r & w2 & Hr2 & Hq2 & Hv); [apply Hw|done|].
    cbn [value_of] in Hv. subst r. rewrite (try_run _ _ _ _ _ Hr2). eexists _, w2. split; [done|].
    split; [etrans; [apply quiet_tick|exact Hq2]|]. split; [done|]. split; [done|]. split; [done|]. by eexists. }
  exists self, w'. split; [done|]. split; [done|].
  split; [by apply (new_walking root [] exclude w) in Hr as [? _]; [|by repeat constructor]|].
  assert (names_ok []) as Hnil by (by repeat constructor).
  assert (fs0 !! (root ++ [])%list = Some (NDir m)) as Hm' by (by rewrite app_nil_r).
  assert (is_dir_at root fs0 []) as Hd by (unfold is_dir_at; by rewrite Hm').
  split; [split; [done|done|]|].
  - rewrite Hdirs. intros d ->%list_elem_of_singleton. exists []. split_and!; try done. constructor.
  - intros e. unfold pending. rewrite Hes, Hdirs. split.
    + intros [->%list_elem_of_singleton|(ps & Hps & Heq%list_elem_of_singleton & q & Hq' & He)].
      * exists []. split; [constructor|]. by exists (NDir m).
      * change Apath.root with (of_names []) in Heq. apply of_names_inj in Heq as ->; [|apply Hps|constructor].
        by exists q.
    + intros (q & He). destruct (decide (q = [])) as [->|Hne].
      * left. destruct He as (_ & node & Hn & He). rewrite Hm' in Hn. injection Hn as <-.
        apply list_elem_of_singleton. change (of_names []) with Apath.root in He. congruence.
      * right. exists []. split; [done|]. split; [by left|]. by exists q.
Qed.

(** The tree is also the one that the order of the walk is about. *)
Lemma way_named self w : on_the_way self → Rest w → named_below (li_root_path self) (w_fs w).
Proof. intros How [_ Hs] p n Hp. rewrite (ow_root _ How) in Hp. rewrite Hs; [by apply Hnamed|by apply prefix_app_r]. Qed.

(** One step, with its place in the order *)
Lemma next_step last self w :
  Rest w → walking last self → on_the_way self →
  ∃ r self' w', LiveIter.next self w = (Ret (r, self'), w') ∧ quiet w w' ∧ on_the_way self' ∧
    match r with
    | Some e => past last (ev_apath e) ∧ walking (Some (ev_apath e)) self' ∧
                LiveIter.entries_bound self' w' < LiveIter.entries_bound self w ∧
                ∀ e', pending self e' ↔ e' = e ∨ pending self' e'
    | None => ∀ e', ¬ pending self e'
    end.
Proof.
  intros Hw Hwk How. destruct (next_pending last self w Hw Hwk How) as (r & self' & w' & Hr & Hq & How' & Hp).
  pose proof (next_inv last self w Hwk (way_named self w How Hw)) as Hi. rewrite Hr in Hi.
  exists r, self', w'. split; [done|]. split; [done|]. split; [done|]. destruct r as [e|]; [|done].
  by destruct Hi as (_ & _ & _ & _ & ? & ? & ?).
Qed.

(** A whole walk *)
Lemma collect_pending last fuel acc self w :
  Rest w → walking last self → on_the_way self → LiveIter.entries_bound self w ≤ fuel →
  ∃ es w', LiveIter.collect_loop fuel acc self w = (Ret (acc ++ es)%list, w') ∧ quiet w w' ∧
    StronglySorted (λ x y, Apath.lt (ev_apath x) (ev_apath y)) es ∧ (∀ e, e ∈ es → past last (ev_apath e)) ∧
    ∀ e, pending self e ↔ e ∈ es.
Proof.
  revert last acc self w. induction fuel as [|fuel IH]; intros last acc self w Hw Hwk How Hb;
    cbn [LiveIter.collect_loop];
    destruct (next_step last self w Hw Hwk How) as ([e|] & self1 & w1 & Hr & Hq & How1 & Hp);
    rewrite (bind_run _ _ _ _ _ Hr); cbn iota beta.
  2, 4: exists [], w1; rewrite app_nil_r; split_and!;
    [done|done|constructor|by intros e ?%not_elem_of_nil|intros e; split; [by intros ?%Hp|by intros ?%not_elem_of_nil]].
  { destruct Hp as (_ & _ & Hb1 & _). lia. }
  destruct Hp as (Hpast & Hwk1 & Hb1 & Hp).
  destruct (IH (Some (ev_apath e)) (acc ++ [e])%list self1 w1) as (es & w2 & Hr2 & Hq2 & Hs & Hes & Hp2);
    [by eapply at_rest_quiet|done|done|lia|].
  exists (e :: es), w2. rewrite <-app_assoc in Hr2. split; [exact Hr2|]. split; [by etrans|]. split_and!.
  - constructor; [done|]. apply Forall_forall. intros y Hy. by apply Hes.
  - intros e' [->|Hin]%elem_of_cons; [done|]. apply (past_trans last (ev_apath e)); [done|by apply Hes].
  - intros e'. by rewrite Hp, Hp2, elem_of_cons.
Qed.
End walks.


(** ** Examples *)

#[local] Existing Instances sample_ext sample_build sample_cachedir.

#[export] Instance sample_cachedir_laws : CacheDirLaws.
Proof.
  intros p fs fs' Hs. unfold cachedir_is_tagged, sample_cachedir.
  assert (fs' !! (p ++ ["CACHEDIR.TAG"])%list = fs !! (p ++ ["CACHEDIR.TAG"])%list) as ->; [|done].
  apply Hs. by apply prefix_app_r.
Qed.

(** A tagged directory is left out, with what is in it; so is what is excluded. *)
Definition sample_tagged_files : list (Path * Node) :=
  (["s"; "b"; "CACHEDIR.TAG"], NFile "Signature" sample_meta) :: (["s"; "b~"], NFile "old" sample_meta) :: sample_tree_files.

Example sample_walk_exclusions :
  ((r ← Exclude.from_strings ["/b~"];
    match r with
    | Ok exclude =>
        r ← LiveIter.new ["s"] Apath.root exclude;
        match r with
        | Ok it => es ← LiveIter.collect it; mret (apath_str <$> (ev_apath <$> es))
        | Err _ => panic
        end
    | Err _ => panic
    end) (world_of (list_to_map sample_tagged_files))).1 = Ret ["/"; "/z"].
Proof. vm_compute. reflexivity. Qed.

