(* ===== verification/Diff.v ===== *)
(** * Comparing a stored tree with a live one (src/diff.rs)

    The changes between the two, and the theorem that they are exactly those that the
    entries of the two trees say, in order. The two iterators, which the program reads
    ahead in threads of their own, are read one after the other. *)

From Stdlib Require Import Ascii.
From S2P Require Import Prelude Text Apath Externals Sample Ids Entry Counters Errors World Transport.
From S2P Require Import Excludes Jsonio SampleWorld BlockDir Index Archive Stitch Merge LiveTree LiveOrder.
From stdpp Require Import list gmap strings.

(** ** Definitions *)

(** [DiffOptions] *)
Record DiffOptions `{Ext} : Type := MkDiffOptions {
  dop_exclude : Exclude;
  dop_include_unchanged : bool
}.

(** [DiffOptions::default()] *)
Definition DiffOptions_default `{Ext} : DiffOptions := MkDiffOptions _ Exclude.nothing false.

Section diff.
Context `{Ext} `{BuildCfg} `{CacheDir} `{Codecs}.

(** The filter on changes *)
Definition reported (options : DiffOptions) (c : EntryChange) : bool :=
  dop_include_unchanged options || negb (Change.is_unchanged (ec_change c)).

(** The filter on live entries *)
Definition known (le : EntryValue) : bool := negb (bool_decide (kind le = Kind_Unknown)).

(** The changes of what the merge yields *)
Fixpoint changes (options : DiffOptions) (ms : list (MatchedEntries IndexEntry EntryValue)) :
    M (list EntryChange) :=
  match ms with
  | [] => mret []
  | m :: ms =>
      c ← MergeTrees.to_entry_change m;
      cs ← changes options ms;
      mret (if reported options c then c :: cs else cs)
  end.

(** [diff(st, lt, options)], and everything that the iterator yields *)
Definition diff (st : StoredTree) (lt : LiveTree) (options : DiffOptions) :
    M (result (list EntryChange) Error) :=
  let ait := StoredTree.iter_entries st Apath.root (dop_exclude options) in
  bit ←? live_iter_entries lt Apath.root (dop_exclude options);
  stored ←? IndexEntryIter.collect ait;
  live ← LiveIter.collect bit;
  let live := filter (λ e, known e = true) live in
  match MergeTrees.collect (S (length stored + length live)) (MergeTrees.new stored live) with
  | None => no_fuel
  | Some ms => cs ← changes options ms; mret (Ok cs)
  end.

(** ** What a comparison is meant to report *)

(** The entries of the two trees that a comparison reads *)
Definition reads_trees (st : StoredTree) (lt : LiveTree) (options : DiffOptions) (w : World)
    (stored : list IndexEntry) (live : list EntryValue) (w' : World) : Prop :=
  ∃ it w1 hs w2 es it1 w3 it2,
    live_iter_entries lt Apath.root (dop_exclude options) w = (Ret (Ok it), w1) ∧
    drains (Stitch.new (sto_archive st) (Band.id (sto_band st))) w1 hs w2 ∧
    yields it w2 es it1 w3 ∧ LiveIter.next it1 w3 = (Ret (None, it2), w') ∧
    stored = filter (λ e, is_wanted Apath.root (dop_exclude options) e = true) (concat hs) ∧
    live = filter (λ e, known e = true) es.

(** A computation that has the value [c] in every world, and changes none *)
Definition gives {A} (m : M A) (c : A) : Prop := ∀ w, m w = (Ret c, w).

(** The change of a path, from the entries that the two trees have for it *)
Definition change_between (stored : list IndexEntry) (live : list EntryValue) (c : EntryChange) : Prop :=
  (∃ s l, s ∈ stored ∧ l ∈ live ∧ ie_apath s = ev_apath l ∧ gives (EntryChange.diff_metadata s l) c) ∨
  (∃ s, s ∈ stored ∧ (∀ l, l ∈ live → ie_apath s ≠ ev_apath l) ∧ gives (EntryChange.deleted s) c) ∨
  (∃ l, l ∈ live ∧ (∀ s, s ∈ stored → ie_apath s ≠ ev_apath l) ∧ gives (EntryChange.added l) c).

(** ** Changes do not depend on the world *)

(** Computations whose outcome is the same in every world, and which change none *)
Definition fixed {A} (m : M A) : Prop := ∃ o, ∀ w, m w = (o, w).

Lemma fixed_ret {A} (x : A) : fixed (mret x).
Proof. by eexists. Qed.
Lemma fixed_panic {A} : fixed (panic : M A).
Proof. by eexists. Qed.
Lemma fixed_bind {A B} (m : M A) (k : A → M B) : fixed m → (∀ x, fixed (k x)) → fixed (m ≫= k).
Proof.
  intros [o Hm] Hk. unfold mbind, ST_bind. destruct o as [x| | |].
  - destruct (Hk x) as [o Hx]. exists o. intros w. by rewrite Hm, Hx.
  - exists Panic. intros w. by rewrite Hm.
  - exists Crash. intros w. by rewrite Hm.
  - exists NoFuel. intros w. by rewrite Hm.
Qed.
Lemma fixed_expect {A} (o : option A) : fixed (expect o).
Proof. destruct o; by eexists. Qed.
Lemma fixed_debug_assert b : fixed (debug_assert b).
Proof. unfold debug_assert, rust_assert. destruct debug_assertions, b; by eexists. Qed.
Lemma fixed_sum_u64 l : fixed (sum_u64 l).
Proof.
  unfold sum_u64. generalize 0%N. induction l as [|n l IH]; intros s; cbn; [apply fixed_ret|].
  apply fixed_bind; [|intros; apply IH]. unfold add_u64. repeat case_match; by eexists.
Qed.

#[local] Hint Resolve fixed_ret fixed_panic fixed_expect fixed_debug_assert fixed_sum_u64 : core.
#[local] Ltac solve_fixed := repeat (progress auto || (apply fixed_bind; [|intros]) || case_match).

Lemma fixed_to_entry_change (m : MatchedEntries IndexEntry EntryValue) : fixed (MergeTrees.to_entry_change m).
Proof.
  destruct m; cbn [MergeTrees.to_entry_change];
    unfold EntryChange.diff_metadata, EntryChange.changed, EntryChange.unchanged, EntryChange.content_differs,
      EntryChange.added, EntryChange.deleted, EntryMetadata_from, KindMetadata_from; cbn;
    unfold from_unix_seconds_and_nanos; solve_fixed.
Qed.

Lemma gives_run {A} (m : M A) w c w' : fixed m → m w = (Ret c, w') → gives m c ∧ w' = w.
Proof. intros [o Ho] Hr. rewrite Ho in Hr. injection Hr as -> ->. by split. Qed.

Lemma gives_fun {A} (m : M A) c c' (w : World) : gives m c → gives m c' → c = c'.
Proof. intros Hc Hc'. specialize (Hc w). rewrite Hc' in Hc. by injection Hc. Qed.

(** ** What the merge is turned into *)

Lemma gives_apath (m : MatchedEntries IndexEntry EntryValue) c : gives (MergeTrees.to_entry_change m) c → ∀ w : World, MergeTrees.apath_of m = ec_apath c.
Proof.
  intros Hg w. specialize (Hg w). destruct m as [a|b|a b]; cbn [MergeTrees.to_entry_change] in Hg.
  - unfold EntryChange.deleted in Hg. inv_run Hg. by inv_run Hg.
  - unfold EntryChange.added in Hg. inv_run Hg. by inv_run Hg.
  - unfold EntryChange.diff_metadata in Hg. inv_run Hg. inv_run Hg. destruct (a1 : bool).
    + unfold EntryChange.changed in Hg. do 4 inv_run Hg. done.
    + unfold EntryChange.unchanged in Hg. do 2 inv_run Hg. done.
Qed.

Lemma changes_inv options ms w cs w' :
  changes options ms w = (Ret cs, w') →
  w' = w ∧ ∃ l, Forall2 (λ m c, gives (MergeTrees.to_entry_change m) c) ms l ∧
                cs = filter (λ c, reported options c = true) l.
Proof.
  revert cs w'. induction ms as [|m ms IH]; intros cs w' Hr; cbn [changes] in Hr.
  { inv_run Hr. split; [done|]. exists []. by split. }
  inv_run Hr. apply gives_run in Hrun as [Hg ->]; [|apply fixed_to_entry_change].
  inv_run Hr. apply IH in Hrun as (-> & l & Hl & ->). inv_run Hr. split; [done|].
  exists (a :: l). split; [by constructor|]. rewrite filter_cons. destruct (reported options a) eqn:E.
  - by rewrite decide_True.
  - by rewrite decide_False.
Qed.

(** The changes of an ordered merge are ordered. *)
Lemma changes_sorted (w : World) (ms : list (MatchedEntries IndexEntry EntryValue)) l :
  Forall2 (λ m c, gives (MergeTrees.to_entry_change m) c) ms l →
  StronglySorted (λ x y, Apath.lt (MergeTrees.apath_of x) (MergeTrees.apath_of y)) ms →
  StronglySorted (λ x y, Apath.lt (ec_apath x) (ec_apath y)) l.
Proof.
  induction 1 as [|m c ms l Hm Hl IH]; intros Hs; [constructor|]. apply StronglySorted_inv in Hs as [Hs Hx].
  constructor; [by apply IH|]. rewrite <-(gives_apath m c Hm w). apply Forall_forall. intros c' Hin.
  apply list_elem_of_lookup in Hin as [i Hi]. destruct (Forall2_lookup_r _ _ _ _ _ Hl Hi) as (m' & Hm' & Hg).
  rewrite <-(gives_apath m' c' Hg w). rewrite Forall_forall in Hx. apply Hx. by eapply list_elem_of_lookup_2.
Qed.

(** The changes of a merge are those of the paths of the two trees. *)
Lemma changes_exact (w : World) stored live l c :
  MergeTrees.sorted_by_apath stored → MergeTrees.sorted_by_apath live →
  Forall2 (λ m c, gives (MergeTrees.to_entry_change m) c) (MergeTrees.merge_spec stored live) l →
  c ∈ l ↔ change_between stored live c.
Proof.
  intros Hs Hl Hms. destruct (merge_members stored live Hs Hl) as (Hboth & Hleft & Hright).
  assert (c ∈ l ↔ ∃ m, m ∈ MergeTrees.merge_spec stored live ∧ gives (MergeTrees.to_entry_change m) c) as ->.
  { split.
    - intros [i Hi]%list_elem_of_lookup. destruct (Forall2_lookup_r _ _ _ _ _ Hms Hi) as (m & Hm & Hg).
      exists m. split; [by eapply list_elem_of_lookup_2|done].
    - intros (m & [i Hi]%list_elem_of_lookup & Hg). destruct (Forall2_lookup_l _ _ _ _ _ Hms Hi) as (c' & Hc & Hg').
      rewrite (gives_fun _ c c' w Hg Hg'). by eapply list_elem_of_lookup_2. }
  unfold change_between. split.
  - intros ([a|b|a b] & Hin & Hg).
    + right; left. apply Hleft in Hin as [? ?]. by exists a.
    + do 2 right. apply Hright in Hin as [? ?]. by exists b.
    + left. apply Hboth in Hin as (? & ? & ?). by exists a, b.
  - intros [(a & b & ? & ? & ? & ?)|[(a & ? & ? & ?)|(b & ? & ? & ?)]].
    + exists (Both a b). by rewrite Hboth.
    + exists (Left a). by rewrite Hleft.
    + exists (Right b). by rewrite Hright.
Qed.
End diff.

(** ** Exactness *)

Section exact.
Context `{Ext} `{BuildCfg} `{CacheDir} `{Codecs}.

Lemma steady_collect : steady (λ acc e, mret (Ok (acc ++ [e])%list) : M (result (list IndexEntry) Error)).
Proof. by split. Qed.

Lemma changes_terminates options ms : terminates (changes options ms).
Proof.
  induction ms as [|m ms IH]; cbn [changes]; [apply terminates_ret|].
  apply terminates_bind; [|intros; apply terminates_bind; [done|intros; apply terminates_ret]].
  destruct m; cbn [MergeTrees.to_entry_change];
    unfold EntryChange.diff_metadata, EntryChange.changed, EntryChange.unchanged, EntryChange.content_differs,
      EntryChange.added, EntryChange.deleted, EntryMetadata_from, KindMetadata_from; cbn;
    unfold from_unix_seconds_and_nanos; solve_terminates.
Qed.

(** Reading the live side *)
Lemma live_side lt exclude (w : World) (it : LiveIter) w1 w2 :
  named_below (lt_path lt) (w_fs w) → live_iter_entries lt Apath.root exclude w = (Ret (Ok it), w1) → w_fs w2 = w_fs w1 →
  let '(o, w') := LiveIter.collect it w2 in
  o ≠ NoFuel ∧ w_fs w' = w_fs w ∧
  ∀ es, o = Ret es → StronglySorted (λ x y, Apath.lt (ev_apath x) (ev_apath y)) es ∧ ∃ it1 w3 it2, yields it w2 es it1 w3 ∧ LiveIter.next it1 w3 = (Ret (None, it2), w').
Proof.
  intros Hfs Hnew Hfs2. apply (new_walking _ []) in Hnew as (Hw & Hr & Hfs1); [|by repeat constructor].
  assert (named_below (li_root_path it) (w_fs w2)) as Hfs' by by rewrite Hr, Hfs2, Hfs1.
  unfold LiveIter.collect. erewrite bind_run by done.
  pose proof (collect_loop_inv None _ [] it w2 Hw Hfs' (le_n _)) as Hc.
  destruct (LiveIter.collect_loop _ [] it w2) as [o w']. destruct Hc as (_ & Ho & Hfs3 & Hc).
  split_and!; [done|by rewrite Hfs3, Hfs2|]. intros es ->. destruct Hc as (l & it1 & w3 & it2 & -> & Hy & Hn).
  split; [|by exists it1, w3, it2]. by destruct (yields_walking None it w2 l it1 w3 Hy Hw Hfs').
Qed.

(** Reading the stored side *)
Lemma stored_side (a : Archive) b exclude (w : World) :
  indexes_ok a (w_fs w) →
  let '(o, w') := IndexEntryIter.collect (IndexEntryIter.new (Stitch.new a b) Apath.root exclude) w in
  o ≠ NoFuel ∧ w_fs w' = w_fs w ∧
  ∀ es, o = Ret (Ok es) → sorted_entries es ∧ ∃ hs, drains (Stitch.new a b) w hs w' ∧
    es = filter (λ e, is_wanted Apath.root exclude e = true) (concat hs).
Proof.
  intros Hok. destruct (IndexEntryIter.collect _ w) as [o w'] eqn:Er.
  assert (respects (fs_rel same_fs) (IndexEntryIter.collect (IndexEntryIter.new (Stitch.new a b) Apath.root exclude))) as Hr.
  { unfold IndexEntryIter.collect. apply for_entries_reading; [apply _..|]. intros. apply respects_ret. apply _. }
  specialize (Hr w). rewrite Er in Hr. split_and!; [|by symmetry|].
  - unfold IndexEntryIter.collect, IndexEntryIter.for_entries in Er. erewrite bind_run in Er by done.
    assert (o = (o, w').1) as -> by done. rewrite <-Er. apply for_loop_terminates; [apply steady_collect|done].
  - intros es ->. apply collect_inv in Er as (hs & Hd & ->). split; [|by exists hs].
    apply strongly_sorted_filter. by eapply (drains_increasing (Stitch.new a b)).
Qed.

(** C20: comparing a stored tree with a live one is exact: the comparison comes to an
    end; it changes no file; and what it reports is in strictly increasing archive
    order, and is, for each path, exactly what the entries of the two trees say --
    changed or unchanged when both have the path, deleted or added when one has it --
    with the unchanged left out unless they are asked for. *)
Theorem diff_exact (st : StoredTree) (lt : LiveTree) (options : DiffOptions) (w : World)
    (Hok : indexes_ok (sto_archive st) (w_fs w)) (Hfs : named_below (lt_path lt) (w_fs w)) :
  (diff st lt options w).1 ≠ NoFuel ∧
  ∀ cs w', diff st lt options w = (Ret (Ok cs), w') →
    w_fs w' = w_fs w ∧
    StronglySorted (λ x y, Apath.lt (ec_apath x) (ec_apath y)) cs ∧
    ∃ stored live, reads_trees st lt options w stored live w' ∧
      ∀ c, c ∈ cs ↔ reported options c = true ∧ change_between stored live c.
Proof.
  unfold diff, try, mbind, ST_bind.
  pose proof (live_new_respects same_fs (lt_path lt) Apath.root (dop_exclude options) w) as Hr1.
  pose proof (live_new_terminates (lt_path lt) Apath.root (dop_exclude options) w) as Ht1.
  fold (live_iter_entries lt Apath.root (dop_exclude options)) in Hr1, Ht1.
  destruct (live_iter_entries lt Apath.root _ w) as [[[it|e]| | |] w1] eqn:Enew; try done.
  unfold fs_rel, same_fs in Hr1. simpl in Hr1.
  pose proof (stored_side (sto_archive st) (Band.id (sto_band st)) (dop_exclude options) w1) as Hst.
  rewrite <-Hr1 in Hst. specialize (Hst Hok). unfold StoredTree.iter_entries.
  destruct (IndexEntryIter.collect _ w1) as [o2 w2]. destruct Hst as (Hn2 & Hfs2 & Hst).
  destruct o2 as [[stored|e]| | |]; try done. destruct (Hst _ eq_refl) as (Hso & hs & Hd & Hes).
  pose proof (live_side lt (dop_exclude options) w it w1 w2 Hfs Enew ltac:(congruence)) as Hlv.
  destruct (LiveIter.collect it w2) as [o3 w3]. destruct Hlv as (Hn3 & Hfs3 & Hlv).
  destruct o3 as [es| | |]; try done. destruct (Hlv _ eq_refl) as (Hlo & it1 & w4 & it2 & Hy & Hend).
  set (live := filter _ es). rewrite (collect_refines_spec _ (MergeTrees.new stored live)) by (cbn; lia).
  change (MergeTrees.left_of _) with stored. change (MergeTrees.right_of _) with live.
  pose proof (changes_terminates options (MergeTrees.merge_spec stored live) w3) as Hn4.
  destruct (changes options _ w3) as [o4 w4'] eqn:Ec. destruct o4 as [cs| | |]; try done. split; [done|].
  intros cs' w' [= <- <-]. apply changes_inv in Ec as (-> & l & Hl & ->).
  assert (MergeTrees.sorted_by_apath live) as Hll by by apply strongly_sorted_filter.
  split; [congruence|]. split.
  - apply strongly_sorted_filter, (changes_sorted w _ _ Hl). by apply merge_sorted.
  - exists stored, live. split; [by exists it, w1, hs, w2, es, it1, w4, it2|].
    intros c. rewrite list_elem_of_filter. by rewrite (changes_exact w stored live l c).
Qed.
End exact.

(** ** Examples *)

#[local] Existing Instances sample_ext sample_build sample_codecs sample_codec_laws sample_cachedir.

(** The newer band of the example of [Stitch], with the older one that completes it,
    compared with a directory that holds two files and a directory *)
Definition sample_stored_tree : StoredTree :=
  MkStoredTree (MkBand (MkBandId 1) (index_transport sample_archive (MkBandId 1)) (MkHead 6 None []))
    sample_archive (ar_block_dir sample_archive).
Definition sample_live_tree : LiveTree := MkLiveTree ["a"; "b0000"].

Example diff_sample :
  match (diff sample_stored_tree sample_live_tree DiffOptions_default (world_of sample_stitch_fs)).1 with
  | Ret (Ok cs) => EntryChange.to_string <$> cs
  | _ => []
  end = ["+ /"; "+ /BANDHEAD"; "+ /BANDTAIL"; "- /a"; "- /b"; "+ /i"; "+ /i/00000"; "+ /i/00000/000000000"].
Proof. vm_compute. reflexivity. Qed.

Lemma diff_exact_witness :
  (diff sample_stored_tree sample_live_tree DiffOptions_default (world_of sample_stitch_fs)).1 ≠ NoFuel ∧
  ∀ cs w', diff sample_stored_tree sample_live_tree DiffOptions_default (world_of sample_stitch_fs)
           = (Ret (Ok cs), w') →
    w_fs w' = sample_stitch_fs ∧
    StronglySorted (λ x y, Apath.lt (ec_apath x) (ec_apath y)) cs ∧
    ∃ stored live,
      reads_trees sample_stored_tree sample_live_tree DiffOptions_default (world_of sample_stitch_fs) stored live w' ∧
      ∀ c, c ∈ cs ↔ reported DiffOptions_default c = true ∧ change_between stored live c.
Proof.
  apply (diff_exact sample_stored_tree sample_live_tree DiffOptions_default (world_of sample_stitch_fs)).
  - exact sample_indexes_ok.
  - apply named_files. vm_compute. reflexivity.
Defined.
