(* ===== verification/Show.v ===== *)
(** * Text output (src/show.rs)

    Printing lists of versions, an index as JSON, and the names of entries. The output
    is the list of the lines printed; standard output and the writers accept them all. *)

From Stdlib Require Import Ascii.
From S2P Require Import Prelude Text Apath Externals Sample Ids Entry Counters Errors World Transport.
From S2P Require Import Excludes Jsonio SampleWorld BlockDir Index Archive Stitch.
From stdpp Require Import list gmap strings.

(** ** Definitions *)

(** Of the [time] crate: [format(&Rfc3339)], after [to_offset] when there is an offset
    (in seconds); and the conversion of a difference of times to a
    [std::time::Duration], in whole seconds, which fails when it is negative. Of
    [serde_json]: [to_writer_pretty]. *)
Class ShowExt : Type := {
  format_rfc3339 : option Z → OffsetDateTime → option string;
  duration_between : OffsetDateTime → OffsetDateTime → option N;
  json_pretty : list IndexEntry → option string
}.

(** [ShowVersionsOptions] *)
Record ShowVersionsOptions : Type := MkShowVersionsOptions {
  newest_first : bool;
  tree_size : bool;
  show_start_time : bool;
  backup_duration : bool;
  timezone : option Z
}.

Section show.
Context `{Ext} `{BuildCfg} `{Codecs} `{ShowExt}.

(** The text for the duration of a backup *)
Definition duration_str (info : Info) : string :=
  if i_is_closed info then
    match i_end_time info with
    | Some end_time =>
        match duration_between (i_start_time info) end_time with
        | Some duration => duration_to_hms duration
        | None => "negative"
        end
    | None => "unknown"
    end
  else "incomplete".

(** The body of the loop over versions: the line to print, or none when the band
    cannot be opened or its tail cannot be read, which is only logged. *)
Definition show_version (archive : Archive) (options : ShowVersionsOptions) (band_id : BandId) :
    M (result (option string) Error) :=
  if negb (tree_size options || show_start_time options || backup_duration options)
  then mret (Ok (Some (BandId.to_string band_id)))
  else
    r ← Band.open archive band_id;
    match r with
    | Err _ => mret (Ok None)
    | Ok band =>
        r ← Band.get_info band;
        match r with
        | Err _ => mret (Ok None)
        | Ok info =>
            start ← (if show_start_time options then
                       s ← expect (format_rfc3339 (timezone options) (i_start_time info));
                       mret [UnixMode.pad_right 25 s]
                     else mret []);
            let duration := if backup_duration options then [UnixMode.pad_left 10 (duration_str info)] else [] in
            size ←? (if tree_size options then
                       st ←? open_stored_tree archive (Specified band_id);
                       file_bytes ←? StoredTree.size st Exclude.nothing;
                       mret (Ok [UnixMode.pad_left 14 (bytes_to_human_mb file_bytes)])
                     else mret (Ok []));
            mret (Ok (Some (String.concat " "
              (UnixMode.pad_right 20 (BandId.to_string band_id) :: start ++ duration ++ size)%list)))
        end
    end.

(** The loop: what is printed, and how it ends *)
Fixpoint show_loop (archive : Archive) (options : ShowVersionsOptions) (out : list string)
    (band_ids : list BandId) : M (list string * result unit Error) :=
  match band_ids with
  | [] => mret (out, Ok tt)
  | band_id :: band_ids =>
      r ← show_version archive options band_id;
      match r with
      | Err e => mret (out, Err e)
      | Ok line =>
          show_loop archive options (out ++ match line with Some l => [l] | None => [] end)%list band_ids
      end
  end.

(** [show_versions(archive, options)] *)
Definition show_versions (archive : Archive) (options : ShowVersionsOptions) :
    M (list string * result unit Error) :=
  r ← Archive.list_band_ids archive;
  match r with
  | Err e => mret ([], Err e)
  | Ok band_ids =>
      show_loop archive options [] (if newest_first options then reverse band_ids else band_ids)
  end.

(** [show_index_json(band, w)]: the text written *)
Definition show_index_json (band : Band) : M (result string Error) :=
  it ← index_iter_entries (Band.index band);
  index_entries ←? IndexEntryIter.collect it;
  mret (ok_or SerializeJson (json_pretty index_entries)).

(** [show_entry_names(it, w, long_listing)], on what the iterator yields *)
Definition entry_line {E} `{EntryTrait E} (long_listing : bool) (entry : E) : string :=
  if long_listing
  then UnixMode.to_string (unix_mode entry) +:+ " " +:+ Owner.to_string (owner entry) +:+ " "
       +:+ apath_str (apath entry)
  else apath_str (apath entry).

Definition show_entry_names {E} `{EntryTrait E} (it : list E) (long_listing : bool) : list string :=
  entry_line long_listing <$> it.

End show.

(** ** Printing reads only *)

Section show_facts.
Context `{Ext} `{BuildCfg} `{Codecs} `{ShowExt}.

Section reading.
Context (R : relation World) `{!Reading R}.

Lemma tree_size_reading st exclude : respects R (StoredTree.size st exclude).
Proof.
  unfold StoredTree.size. apply for_entries_reading; [apply _..|]. intros s e. unfold Entry.size, IndexEntry_entry. solve_reading.
Qed.

Lemma show_version_reading a options b : respects R (show_version a options b).
Proof. unfold show_version. pose proof tree_size_reading. pose proof (open_stored_tree_reading R). solve_reading. Qed.

Lemma show_versions_reading a options : respects R (show_versions a options).
Proof.
  assert (∀ ids out, respects R (show_loop a options out ids)) as Hl.
  { pose proof show_version_reading. induction ids as [|b ids IH]; intros out; cbn [show_loop]; solve_reading. }
  unfold show_versions. solve_reading.
Qed.
End reading.

(** ** What is printed *)

(** A line that is about a band: its name is the first word, padded to 20 characters
    when more follows. *)
Definition line_of (b : BandId) (line : string) : Prop :=
  line = BandId.to_string b ∨ ∃ words, line = String.concat " " (UnixMode.pad_right 20 (BandId.to_string b) :: words).

Lemma show_version_line a options b w line w' :
  show_version a options b w = (Ret (Ok (Some line)), w') → line_of b line.
Proof.
  unfold show_version. destruct (negb _); intros Hr; [inv_run Hr; by left|]. inv_run Hr.
  destruct a0 as [band|e]; [|by inv_run Hr]. inv_run Hr. destruct a0 as [info|e]; [|by inv_run Hr].
  do 2 inv_run Hr. inv_run Hr. right. by eexists.
Qed.

Lemma show_loop_lines a options ids out w out' w' :
  show_loop a options out ids w = (Ret (out', Ok tt), w') →
  ∃ shown lines, shown `sublist_of` ids ∧ out' = (out ++ lines)%list ∧ Forall2 line_of shown lines.
Proof.
  revert out w. induction ids as [|b ids IH]; intros out w Hr; cbn [show_loop] in Hr.
  { inv_run Hr. exists [], []. rewrite app_nil_r. by repeat constructor. }
  inv_run Hr. destruct a0 as [[line|]|e]; [| |by inv_run Hr]; apply IH in Hr as (shown & lines & Hs & -> & Hl).
  - exists (b :: shown), (line :: lines). split_and!; [by constructor|by rewrite <-app_assoc|].
    constructor; [by eapply show_version_line|done].
  - exists shown, lines. rewrite app_nil_r. split_and!; [by constructor|done..].
Qed.

(** The list of versions has one line for each band that can be read, in the order of
    their numbers or the reverse; asked only for names, it has a line for every band. *)
Lemma show_versions_lines a options w out w' :
  show_versions a options w = (Ret (out, Ok tt), w') →
  ∃ ids w1, Archive.list_band_ids a w = (Ret (Ok ids), w1) ∧
    let ids := if newest_first options then reverse ids else ids in
    (∃ shown, shown `sublist_of` ids ∧ Forall2 line_of shown out) ∧
    (tree_size options || show_start_time options || backup_duration options = false → out = BandId.to_string <$> ids).
Proof.
  unfold show_versions. intros Hr. inv_run Hr. destruct a0 as [ids|e]; [|by inv_run Hr]. exists ids, w0. split; [done|].
  cbv zeta. revert Hr. generalize (if newest_first options then reverse ids else ids). clear. intros ids Hr. split.
  - apply show_loop_lines in Hr as (shown & lines & ? & -> & ?). by exists shown.
  - intros Ho. enough (∀ out0, show_loop a options out0 ids w0 = (Ret (out, Ok tt), w') →
      out = (out0 ++ (BandId.to_string <$> ids))%list) as Hall by by apply (Hall []).
    clear Hr. induction ids as [|b ids IH]; intros out0 Hr; cbn [show_loop] in Hr.
    { inv_run Hr. by rewrite app_nil_r. }
    unfold show_version in Hr. rewrite Ho in Hr. cbn [negb] in Hr. erewrite bind_run in Hr by done.
    apply IH in Hr as ->. by rewrite <-app_assoc.
Qed.
End show_facts.

(** ** Examples *)

#[local] Existing Instances sample_ext sample_build sample_codecs sample_codec_laws.

#[local] Instance sample_show : ShowExt := {
  format_rfc3339 _ t := Some (decimal (Z.to_N (unix_timestamp t)));
  duration_between a b :=
    if (unix_timestamp b <? unix_timestamp a)%Z then None else Some (Z.to_N (unix_timestamp b - unix_timestamp a));
  json_pretty _ := None
}.

(** The second band was interrupted; the tail of the first has no JSON in it. *)
Example show_versions_sample :
  (show_versions sample_archive (MkShowVersionsOptions true true true true None) (world_of sample_stitch_fs)).1
  = Ret (["b0001                6                         incomplete           0 MB"], Ok tt).
Proof. vm_compute. reflexivity. Qed.

Example show_names_sample :
  (show_versions sample_archive (MkShowVersionsOptions true false false false None) (world_of sample_stitch_fs)).1
  = Ret (["b0001"; "b0000"], Ok tt).
Proof. vm_compute. reflexivity. Qed.
