(* ===== verification/Gc.v ===== *)
(** * Deletion, garbage collection and validation

    The operations of src/archive.rs that walk the whole archive -- referenced and
    unreferenced blocks, deletion of bands and blocks, validation -- and
    src/validate.rs. Parallel iterators are modelled by sequential ones, and a
    hash set or map is visited in the order of its elements. *)

From Stdlib Require Import Ascii.
From S2P Require Import Prelude Text Apath Externals Ids Entry Counters Errors World Transport.
From S2P Require Import Excludes Jsonio BlockDir Index Archive Stitch.
From stdpp Require Import list gmap strings.

(** [DeleteOptions] and [ValidateOptions] *)
Record DeleteOptions : Type := MkDeleteOptions { dry_run : bool; break_lock : bool }.
Record ValidateOptions : Type := MkValidateOptions { skip_block_hashes : bool }.

Module Gc.
Section gc.
Context `{Ext} `{BuildCfg} `{Codecs}.

(** ** Blocks in use *)

(** The hashes that the entries of one band refer to; [expect] panics if the
    band cannot be opened. *)
Definition band_references (archive : Archive) (band_id : BandId) : M (result (list BlockHash) Error) :=
  r ← Band.open archive band_id;
  band ← expect_ok r;
  it ← index_iter_entries (Band.index band);
  es ←? IndexEntryIter.collect it;
  mret (Ok (es ≫= λ e, a_hash <$> ie_addrs e)).

Definition referenced_blocks (self : Archive) (band_ids : list BandId) :
    M (result (gset BlockHash) Error) :=
  try_fold (λ acc band_id,
    hs ←? band_references self band_id;
    mret (Ok (acc ∪ list_to_set hs))) ∅ band_ids.

Definition unreferenced_blocks (self : Archive) : M (result (list BlockHash) Error) :=
  band_ids ←? Archive.list_band_ids self;
  referenced ←? referenced_blocks self band_ids;
  blocks ←? BlockDir.blocks (ar_block_dir self);
  mret (Ok (filter (λ h, h ∉ referenced) blocks)).

(** ** Deletion *)

(** The loop that deletes bands *)
Definition delete_band_loop (self : Archive) (ids : list BandId) : M (result N Error) :=
  try_fold (λ n band_id, _ ←? Band.delete self band_id; mret (Ok (n + 1)%N)) 0%N ids.

(** The loop that deletes blocks, counting the failures *)
Definition delete_block_loop (block_dir : BlockDir) (unref : list BlockHash) : M N :=
  fold_st (λ n hash,
    r ← BlockDir.delete_block block_dir hash;
    mret (match r with Ok _ => n | Err _ => (n + 1)%N end)) 0%N unref.

(** The loop that measures blocks; one that cannot be measured counts nothing. *)
Definition measure_loop (block_dir : BlockDir) (unref : list BlockHash) : M N :=
  fold_st (λ total hash,
    r ← BlockDir.compressed_size block_dir hash;
    add_u64 total (unwrap_or 0%N r)) 0%N unref.

(** The part of [delete_bands] during which the lock is held *)
Definition delete_locked (self : Archive) (delete_guard : GarbageCollectionLock)
    (delete_band_ids : list BandId) (options : DeleteOptions) : M (result DeleteStats Error) :=
  keep ←? Archive.list_band_ids self;
  let keep_band_ids := filter (λ b, b ∉ delete_band_ids) keep in
  referenced ←? referenced_blocks self keep_band_ids;
  present ←? BlockDir.blocks (ar_block_dir self);
  let unref := elements ((list_to_set present : gset BlockHash) ∖ referenced) in
  let unref_count := N.of_nat (length unref) in
  total_bytes ← measure_loop (ar_block_dir self) unref;
  if dry_run options then mret (Ok (MkDeleteStats 0 unref_count total_bytes 0 0))
  else
    _ ←? GarbageCollectionLock.check delete_guard;
    deleted_bands ←? delete_band_loop self delete_band_ids;
    error_count ← delete_block_loop (ar_block_dir self) unref;
    mret (Ok (MkDeleteStats deleted_bands unref_count total_bytes error_count
                (unref_count - error_count))).

(** The scope that owns the lock *)
Definition with_guard {A} (guard : GarbageCollectionLock) (body : M A) : M A :=
  scoped (GarbageCollectionLock.drop guard) body.

(** [delete_bands(delete_band_ids, options)] *)
Definition delete_bands (self : Archive) (delete_band_ids : list BandId) (options : DeleteOptions) :
    M (result DeleteStats Error) :=
  guard ←? (if break_lock options then GarbageCollectionLock.break_lock self
            else GarbageCollectionLock.new self);
  with_guard guard (delete_locked self guard delete_band_ids options).

(** ** Validation *)

(** [and_modify] to the maximum, [or_insert(end)] *)
Definition raise_len (hash : BlockHash) (end_ : N) (lens : gmap BlockHash N) : gmap BlockHash N :=
  <[hash := match lens !! hash with Some l => N.max l end_ | None => end_ end]> lens.

(** [merge_block_lens(into, from)] *)
Definition merge_block_lens (into from : gmap BlockHash N) : gmap BlockHash N :=
  foldl (λ into hl, raise_len hl.1 hl.2 into) into (map_to_list from).

(** The ends of the addresses of one entry *)
Definition entry_lens (lens : gmap BlockHash N) (addrs : list Address) : M (gmap BlockHash N) :=
  fold_st (λ lens addr,
    end_ ← add_u64 (a_start addr) (a_len addr);
    mret (raise_len (a_hash addr) end_ lens)) lens addrs.

Definition validate_stored_tree (st : StoredTree) : M (result (gmap BlockHash N) Error) :=
  IndexEntryIter.for_entries (λ lens e,
    if decide (ie_kind e = Kind_File) then l ← entry_lens lens (ie_addrs e); mret (Ok l)
    else mret (Ok lens)) ∅
    (StoredTree.iter_entries st Apath.root Exclude.nothing).

(** What one band contributes; an error is reported and skips the band. *)
Definition validate_band (archive : Archive) (band_id : BandId) : M (result (gmap BlockHash N) Error) :=
  band ←? Band.open archive band_id;
  _ ←? Band.validate band;
  st ←? open_stored_tree archive (Specified band_id);
  validate_stored_tree st.

Definition validate_bands (archive : Archive) (band_ids : list BandId) : M (gmap BlockHash N) :=
  fold_st (λ lens band_id,
    r ← validate_band archive band_id;
    match r with
    | Err err => _ ← monitor_error err; mret lens
    | Ok band_lens => mret (merge_block_lens lens band_lens)
    end) ∅ band_ids.

(** The loop over directory names of [validate_archive_dir] *)
Fixpoint check_band_dirs (seen_bands : gset BandId) (dirs : list string) : M unit :=
  match dirs with
  | [] => mret tt
  | dir_name :: dirs =>
      match BandId.from_str dir_name with
      | Ok band_id =>
          _ ← (if decide (band_id ∈ seen_bands)
               then monitor_error (InvalidMetadata
                      ("Duplicated band directory for " +:+ BandId.to_string band_id))
               else mret tt);
          check_band_dirs ({[band_id]} ∪ seen_bands) dirs
      | Err _ => check_band_dirs seen_bands dirs
      end
  end.

(** [validate_archive_dir()]: unexpected names are only logged. *)
Definition validate_archive_dir (self : Archive) : M (result unit Error) :=
  r ← Transport.list_dir (ar_transport self) "";
  match r with
  | Err e => mret (Err (TransportErr e))
  | Ok l => _ ← check_band_dirs ∅ (ld_dirs l); mret (Ok tt)
  end.

(** The errors about the blocks that the indexes refer to *)
Definition check_present (referenced_lens : gmap BlockHash N) (present : gset BlockHash) : list Error :=
  omap (λ hl, if decide (hl.1 ∈ present) then None else Some (BlockMissing hl.1))
    (map_to_list referenced_lens).

Definition check_lengths (referenced_lens block_lengths : gmap BlockHash N) : list Error :=
  omap (λ hl, match block_lengths !! hl.1 with
              | Some actual_len =>
                  if (actual_len <? hl.2)%N then Some (BlockTooShort hl.1 actual_len hl.2) else None
              | None => Some (BlockMissing hl.1)
              end) (map_to_list referenced_lens).

(** [validate(options)] *)
Definition validate (self : Archive) (options : ValidateOptions) : M (result unit Error) :=
  _ ←? validate_archive_dir self;
  band_ids ←? Archive.list_band_ids self;
  referenced_lens ← validate_bands self band_ids;
  if skip_block_hashes options then
    present ←? BlockDir.blocks (ar_block_dir self);
    _ ← for_each (check_present referenced_lens (list_to_set present)) monitor_error;
    mret (Ok tt)
  else
    block_lengths ←? BlockDir.validate (ar_block_dir self);
    _ ← for_each (check_lengths referenced_lens block_lengths) monitor_error;
    mret (Ok tt).

End gc.
End Gc.
