(* ===== verification/Backup.v ===== *)
(** * Backups

    Reading files in blocks (src/io.rs), storing their content, combining small
    files, and the backup of a source tree (src/backup.rs). *)

From Stdlib Require Import Ascii.
From S2P Require Import Prelude Text Apath Externals Sample Ids Entry Counters Errors World Transport.
From S2P Require Import Excludes Jsonio SampleWorld BlockDir BlockStore Index Archive Stitch LiveTree.
From stdpp Require Import list gmap strings.

(** ** src/io.rs *)

Section io.
Context `{Ext} `{BuildCfg}.

(** [ensure_dir_exists(path)] *)
Definition ensure_dir_exists (path : Path) : M (result unit IoKind) :=
  r ← sys_create_dir path;
  mret (match r with Err Io_AlreadyExists => Ok tt | _ => r end).

(** [directory_is_empty(path)] *)
Definition directory_is_empty (path : Path) : M (result bool IoKind) :=
  r ← sys_read_dir path;
  mret (map_ok (λ l, match l with [] => true | _ => false end) r).

(** The loop of [read_with_retries], with the bytes read so far. Every round but
    the last reads something, so that [len] rounds are enough. *)
Fixpoint read_loop (fuel : nat) (len : N) (buf : string) (from_file : Reader) :
    M (result (string * Reader) IoKind) :=
  if (N.of_nat (String.length buf) <? len)%N then
    r ← sys_file_read from_file (len - N.of_nat (String.length buf));
    match r with
    | Err e => mret (Err e)
    | Ok (EmptyString, from_file) => mret (Ok (buf, from_file))
    | Ok (s, from_file) =>
        match fuel with
        | O => no_fuel
        | S fuel => read_loop fuel len (buf +:+ s) from_file
        end
    end
  else mret (Ok (buf, from_file)).

Definition read_with_retries (len : N) (from_file : Reader) : M (result (string * Reader) IoKind) :=
  read_loop (String.length (rd_rest from_file)) len "" from_file.

End io.

(** ** Options and statistics *)

Record BackupOptions `{Ext} : Type := MkBackupOptions {
  bo_exclude : Exclude;
  bo_max_entries_per_hunk : nat;
  bo_change_callback : option (EntryChange → M (result unit Error));
  bo_max_block_size : N;
  bo_small_file_cap : N;
  bo_owner : bool
}.

(** [BackupOptions::default()] *)
Definition default_backup_options `{Ext} : BackupOptions :=
  MkBackupOptions _ Exclude.nothing (N.to_nat 100000) None (N.shiftl 20 20) (N.shiftl 1 20) true.

(** ** Storing content *)

Section store.
Context `{Ext} `{BuildCfg}.

(** [all_blocks_present(addresses)]: [unique] keeps the first of equal hashes,
    and [all] stops at the first that is missing. *)
Fixpoint unique (seen : list BlockHash) (hs : list BlockHash) : list BlockHash :=
  match hs with
  | [] => []
  | h :: hs => if decide (h ∈ seen) then unique seen hs else h :: unique (h :: seen) hs
  end.

Fixpoint all_present (block_dir : BlockDir) (hs : list BlockHash) : M bool :=
  match hs with
  | [] => mret true
  | h :: hs =>
      r ← BlockDir.contains block_dir h;
      if unwrap_or false r then all_present block_dir hs else mret false
  end.

Definition all_blocks_present (addresses : list Address) (block_dir : BlockDir) : M bool :=
  all_present block_dir (unique [] (a_hash <$> addresses)).

(** The loop of [store_file_content]: blocks until the file is at its end. The
    statistics are a mutable reference, and keep what was counted before an error. *)
Fixpoint store_loop (fuel : nat) (a : Apath) (from_file : Reader) (block_dir : BlockDir)
    (max_block_size : N) (addresses : list Address) (stats : BackupStats) :
    M (result (list Address) Error * BackupStats) :=
  r ← read_with_retries max_block_size from_file;
  match r with
  | Err source => mret (Err (ReadSourceFile (path_components (apath_str a)) source), stats)
  | Ok (buffer, from_file) =>
      match buffer with
      | EmptyString => mret (Ok addresses, stats)
      | _ =>
          _ ← monitor_count FileBytes (BlockDir.len buffer);
          r ← BlockDir.store_or_deduplicate block_dir buffer stats;
          match r with
          | Err e => mret (Err e, stats)
          | Ok (hash, stats) =>
              match fuel with
              | O => no_fuel
              | S fuel =>
                  store_loop fuel a from_file block_dir max_block_size
                    (addresses ++ [MkAddress hash 0 (BlockDir.len buffer)]) stats
              end
          end
      end
  end.

Definition store_file_content (a : Apath) (from_file : Reader) (block_dir : BlockDir)
    (stats : BackupStats) (max_block_size : N) : M (result (list Address) Error * BackupStats) :=
  '(r, stats) ← store_loop (String.length (rd_rest from_file)) a from_file block_dir max_block_size []
                  stats;
  match r with
  | Err e => mret (Err e, stats)
  | Ok addresses =>
      match addresses with
      | [] => _ ← monitor_count EmptyFiles 1; mret (Ok addresses, BackupStats.add_empty_files 1 stats)
      | [_] => _ ← monitor_count SingleBlockFiles 1;
               mret (Ok addresses, BackupStats.add_single_block_files 1 stats)
      | _ => _ ← monitor_count MultiBlockFiles 1;
             mret (Ok addresses, BackupStats.add_multi_block_files 1 stats)
      end
  end.

End store.

(** ** Combining small files *)

Record QueuedFile : Type := MkQueuedFile { qf_start : N; qf_len : N; qf_entry : IndexEntry }.

Record FileCombiner : Type := MkFileCombiner {
  fc_buf : string;
  fc_queue : list QueuedFile;
  fc_finished : list IndexEntry;
  fc_stats : BackupStats;
  fc_block_dir : BlockDir;
  fc_max_block_size : N
}.

Module FileCombiner.
Section combiner.
Context `{Ext} `{BuildCfg}.

Definition new (block_dir : BlockDir) (max_block_size : N) : FileCombiner :=
  MkFileCombiner "" [] [] BackupStats.zero block_dir max_block_size.

Definition is_nil {A} (l : list A) : bool := match l with [] => true | _ => false end.

(** The entry of a queued file, once the hash of the block is known *)
Definition finish_queued (hash : BlockHash) (qf : QueuedFile) : IndexEntry :=
  IndexEntry.with_addrs [MkAddress hash (qf_start qf) (qf_len qf)] (qf_entry qf).

(** [flush()]. The buffer is taken before the block is stored: when that fails,
    the queue is kept without it. *)
Definition flush (self : FileCombiner) : M (result unit Error * FileCombiner) :=
  if is_nil (fc_queue self) then
    _ ← debug_assert (String.eqb (fc_buf self) "");
    mret (Ok tt, self)
  else
    r ← BlockDir.store_or_deduplicate (fc_block_dir self) (fc_buf self) (fc_stats self);
    match r with
    | Err e =>
        mret (Err e, MkFileCombiner "" (fc_queue self) (fc_finished self) (fc_stats self)
                       (fc_block_dir self) (fc_max_block_size self))
    | Ok (hash, stats) =>
        mret (Ok tt, MkFileCombiner "" [] (fc_finished self ++ (finish_queued hash <$> fc_queue self))
                       (BackupStats.add_combined_blocks 1 stats)
                       (fc_block_dir self) (fc_max_block_size self))
    end.

(** [drain()]: the statistics and the finished entries are taken. *)
Definition drain (self : FileCombiner) :
    M (result (BackupStats * list IndexEntry) Error * FileCombiner) :=
  '(r, self) ← flush self;
  match r with
  | Err e => mret (Err e, self)
  | Ok _ =>
      _ ← debug_assert (is_nil (fc_queue self));
      _ ← debug_assert (String.eqb (fc_buf self) "");
      mret (Ok (fc_stats self, fc_finished self),
            MkFileCombiner (fc_buf self) (fc_queue self) [] BackupStats.zero
              (fc_block_dir self) (fc_max_block_size self))
  end.

Definition with_buf (buf : string) (self : FileCombiner) : FileCombiner :=
  MkFileCombiner buf (fc_queue self) (fc_finished self) (fc_stats self) (fc_block_dir self)
    (fc_max_block_size self).

Definition finish_empty (entry : IndexEntry) (self : FileCombiner) : FileCombiner :=
  MkFileCombiner (fc_buf self) (fc_queue self) (fc_finished self ++ [entry])
    (BackupStats.add_empty_files 1 (fc_stats self)) (fc_block_dir self) (fc_max_block_size self).

Definition enqueue (qf : QueuedFile) (self : FileCombiner) : FileCombiner :=
  MkFileCombiner (fc_buf self) (fc_queue self ++ [qf]) (fc_finished self)
    (BackupStats.add_small_combined_files 1 (fc_stats self)) (fc_block_dir self)
    (fc_max_block_size self).

Fixpoint zero_bytes (n : nat) : string :=
  match n with O => "" | S n => String zero (zero_bytes n) end.

(** [push_file(entry, from_file)]: one [read] into the grown buffer; on an error
    the zero bytes stay in the buffer. *)
Definition push_file (self : FileCombiner) (entry : EntryValue) (from_file : Reader) :
    M (result unit Error * FileCombiner) :=
  let start := BlockDir.len (fc_buf self) in
  s ← Entry.size entry;
  expected_len ← expect s;
  index_entry ← IndexEntry.metadata_from entry;
  if (expected_len =? 0)%N then mret (Ok tt, finish_empty index_entry self)
  else
    r ← sys_file_read from_file expected_len;
    match r with
    | Err source =>
        mret (Err (ReadSourceFile (path_components (apath_str (ev_apath entry))) source),
              with_buf (fc_buf self +:+ zero_bytes (N.to_nat expected_len)) self)
    | Ok (data, _) =>
        let len := BlockDir.len data in
        let self := with_buf (fc_buf self +:+ data) self in
        if (len =? 0)%N then mret (Ok tt, finish_empty index_entry self)
        else
          let self := enqueue (MkQueuedFile start len index_entry) self in
          if (fc_max_block_size self <=? BlockDir.len (fc_buf self))%N then flush self
          else mret (Ok tt, self)
    end.

End combiner.
End FileCombiner.

(** ** The writer *)

Record BackupWriter `{Ext} : Type := MkBackupWriter {
  bw_band : Band;
  bw_index_builder : IndexWriter;
  bw_stats : BackupStats;
  bw_block_dir : BlockDir;
  bw_basis_index : IndexEntryIter IterStitchedIndexHunks;
  bw_file_combiner : FileCombiner
}.

Module BackupWriter.
Section writer.
Context `{Ext} `{BuildCfg} `{Codecs}.

Definition with_index (f : IndexWriter → IndexWriter) (self : BackupWriter) : BackupWriter :=
  MkBackupWriter _ (bw_band self) (f (bw_index_builder self)) (bw_stats self) (bw_block_dir self)
    (bw_basis_index self) (bw_file_combiner self).
Definition with_stats (f : BackupStats → BackupStats) (self : BackupWriter) : BackupWriter :=
  MkBackupWriter _ (bw_band self) (bw_index_builder self) (f (bw_stats self)) (bw_block_dir self)
    (bw_basis_index self) (bw_file_combiner self).
Definition with_basis (b : IndexEntryIter IterStitchedIndexHunks) (self : BackupWriter) : BackupWriter :=
  MkBackupWriter _ (bw_band self) (bw_index_builder self) (bw_stats self) (bw_block_dir self)
    b (bw_file_combiner self).
Definition with_combiner (c : FileCombiner) (self : BackupWriter) : BackupWriter :=
  MkBackupWriter _ (bw_band self) (bw_index_builder self) (bw_stats self) (bw_block_dir self)
    (bw_basis_index self) c.

(** [begin(archive, options)] *)
Definition begin (archive : Archive) (options : BackupOptions) : M (result BackupWriter Error) :=
  locked ←? GarbageCollectionLock.is_locked archive;
  if (locked : bool) then mret (Err GarbageCollectionLockHeld)
  else
    last ←? Archive.last_band_id archive;
    let basis_index :=
      IndexEntryIter.new
        (match last with
         | Some basis_band_id => Stitch.new archive basis_band_id
         | None => Stitch.empty archive
         end) Apath.root Exclude.nothing in
    band ←? Band.create archive;
    mret (Ok (MkBackupWriter _ band (Band.index_builder band) BackupStats.zero (ar_block_dir archive)
                basis_index (FileCombiner.new (ar_block_dir archive) (bo_max_block_size options)))).

(** [finish()] *)
Definition finish (self : BackupWriter) : M (result BackupStats Error) :=
  hunks ←? IndexWriter.finish (bw_index_builder self);
  _ ←? Band.close (bw_band self) hunks;
  mret (Ok (bw_stats self)).

(** [flush_group()]: data blocks first, then the index entries *)
Definition flush_group (self : BackupWriter) : M (result unit Error * BackupWriter) :=
  '(r, combiner) ← FileCombiner.drain (bw_file_combiner self);
  let self := with_combiner combiner self in
  match r with
  | Err e => mret (Err e, self)
  | Ok (stats, entries) =>
      let self := with_stats (λ s, BackupStats.add s stats) self in
      '(r, index) ← IndexWriter.finish_hunk (IndexWriter.append_entries (bw_index_builder self) entries);
      mret (r, with_index (λ _, index) self)
  end.

(** [content_heuristically_unchanged(new_entry, basis_entry)] *)
Definition content_heuristically_unchanged (new_entry : EntryValue) (basis_entry : IndexEntry) : M bool :=
  if decide (kind basis_entry = kind new_entry) then
    bm ← mtime basis_entry;
    nm ← mtime new_entry;
    if decide (bm = nm) then
      bs ← Entry.size basis_entry;
      ns ← Entry.size new_entry;
      mret (bool_decide (bs = ns))
    else mret false
  else mret false.

Definition copy_dir (self : BackupWriter) (source_entry : EntryValue) :
    M (result (option EntryChange) Error * BackupWriter) :=
  _ ← monitor_count Dirs 1;
  e ← IndexEntry.metadata_from source_entry;
  mret (Ok None, with_index (λ i, IndexWriter.push_entry i e)
                   (with_stats (BackupStats.add_directories 1) self)).

Definition copy_symlink (self : BackupWriter) (source_entry : EntryValue) :
    M (result (option EntryChange) Error * BackupWriter) :=
  _ ← monitor_count Symlinks 1;
  let self := with_stats (BackupStats.add_symlinks 1) self in
  _ ← rust_assert (bool_decide (is_Some (symlink_target source_entry)));
  e ← IndexEntry.metadata_from source_entry;
  mret (Ok None, with_index (λ i, IndexWriter.push_entry i e) self).

(** The part of [copy_file] that stores the content *)
Definition copy_content (self : BackupWriter) (source_entry : EntryValue) (from_tree : LiveTree)
    (options : BackupOptions) (result_ : option EntryChange) :
    M (result (option EntryChange) Error * BackupWriter) :=
  s ← Entry.size source_entry;
  sz ← expect s;
  if (sz =? 0)%N then
    e ← IndexEntry.metadata_from source_entry;
    _ ← monitor_count EmptyFiles 1;
    mret (Ok result_, with_stats (BackupStats.add_empty_files 1)
                        (with_index (λ i, IndexWriter.push_entry i e) self))
  else
    r ← LiveTree.open_file from_tree source_entry;
    match r with
    | Err e => mret (Err e, self)
    | Ok source_file =>
        if (sz <=? bo_small_file_cap options)%N then
          '(r, combiner) ← FileCombiner.push_file (bw_file_combiner self) source_entry source_file;
          let self := with_combiner combiner self in
          match r with
          | Err e => mret (Err e, self)
          | Ok _ => _ ← monitor_count SmallFiles 1; mret (Ok result_, self)
          end
        else
          '(r, stats) ← store_file_content (ev_apath source_entry) source_file (bw_block_dir self)
                          (bw_stats self) (bo_max_block_size options);
          let self := with_stats (λ _, stats) self in
          match r with
          | Err e => mret (Err e, self)
          | Ok addrs =>
              e ← IndexEntry.metadata_from source_entry;
              mret (Ok result_, with_index (λ i, IndexWriter.push_entry i (IndexEntry.with_addrs addrs e)) self)
          end
    end.

(** The part of [copy_file] for an entry whose content is taken to be that of
    the basis; [None] when its blocks are not all there. *)
Definition copy_unchanged (self : BackupWriter) (source_entry : EntryValue) (basis_entry : IndexEntry) :
    M (EntryChange * BackupWriter) :=
  let self := with_stats (BackupStats.add_unmodified_files 1) self in
  e ← IndexEntry.metadata_from source_entry;
  let new_entry := IndexEntry.with_addrs (ie_addrs basis_entry) e in
  change ← (if decide (new_entry = basis_entry) then EntryChange.unchanged basis_entry
            else EntryChange.changed basis_entry source_entry);
  mret (change, with_index (λ i, IndexWriter.push_entry i new_entry) self).

Definition copy_file (self : BackupWriter) (source_entry : EntryValue) (from_tree : LiveTree)
    (options : BackupOptions) : M (result (option EntryChange) Error * BackupWriter) :=
  let self := with_stats (BackupStats.add_files 1) self in
  _ ← monitor_count Files 1;
  '(basis, b) ← IndexEntryIter.advance_to (bw_basis_index self) (ev_apath source_entry);
  let self := with_basis b self in
  match basis with
  | Some basis_entry =>
      same ← content_heuristically_unchanged source_entry basis_entry;
      if (same : bool) then
        present ← all_blocks_present (ie_addrs basis_entry) (bw_block_dir self);
        if (present : bool) then
          '(change, self) ← copy_unchanged self source_entry basis_entry;
          mret (Ok (Some change), self)
        else
          let self := with_stats (λ s, BackupStats.add_replaced_damaged_blocks 1
                                         (BackupStats.add_modified_files 1 s)) self in
          c ← EntryChange.changed basis_entry source_entry;
          copy_content self source_entry from_tree options (Some c)
      else
        let self := with_stats (BackupStats.add_modified_files 1) self in
        c ← EntryChange.changed basis_entry source_entry;
        copy_content self source_entry from_tree options (Some c)
  | None =>
      let self := with_stats (BackupStats.add_new_files 1) self in
      c ← EntryChange.added source_entry;
      copy_content self source_entry from_tree options (Some c)
  end.

(** [copy_entry(entry, source, options)] *)
Definition copy_entry (self : BackupWriter) (entry : EntryValue) (source : LiveTree)
    (options : BackupOptions) : M (result (option EntryChange) Error * BackupWriter) :=
  match kind entry with
  | Kind_Dir => copy_dir self entry
  | Kind_File => copy_file self entry source options
  | Kind_Symlink => copy_symlink self entry
  | Kind_Unknown => mret (Ok None, with_stats (BackupStats.add_unknown_kind 1) self)
  end.

End writer.
End BackupWriter.

(** ** The backup *)

Section backup.
Context `{Ext} `{BuildCfg} `{Codecs} `{CacheDir}.

Definition clear_owner (entry : EntryValue) : EntryValue :=
  MkEntryValue (ev_apath entry) (ev_kind_meta entry) (ev_mtime entry) (ev_unix_mode entry)
    (Owner.clear (ev_owner entry)).

Definition change_counter {E} (c : Change E) : Counter :=
  match c with
  | Changed _ _ => EntriesChanged
  | Added _ => EntriesAdded
  | Unchanged _ => EntriesUnchanged
  | Deleted _ => EntriesDeleted
  end.

(** The body of the inner loop: an entry that fails is reported and passed over,
    and counted in the number of errors. *)
Definition backup_entry (writer : BackupWriter) (errors : N) (entry : EntryValue)
    (source_tree : LiveTree) (options : BackupOptions) : M (result (BackupWriter * N) Error) :=
  let entry := if bo_owner options then entry else clear_owner entry in
  '(r, writer) ← BackupWriter.copy_entry writer entry source_tree options;
  match r with
  | Err err => _ ← monitor_error err; mret (Ok (writer, (errors + 1)%N))
  | Ok (Some entry_change) =>
      _ ← monitor_count (change_counter (ec_change entry_change)) 1;
      match bo_change_callback options with
      | Some cb => _ ←? cb entry_change; mret (Ok (writer, errors))
      | None => mret (Ok (writer, errors))
      end
  | Ok None => mret (Ok (writer, errors))
  end.

(** The loop over groups of [max_entries_per_hunk] entries. A group ends, and is
    flushed, when the next entry of the source has been fetched or there is none. *)
Fixpoint backup_loop (fuel : nat) (in_group : nat) (writer : BackupWriter) (errors : N)
    (source_tree : LiveTree) (entry_iter : LiveIter) (options : BackupOptions) :
    M (result (BackupWriter * N) Error) :=
  '(r, entry_iter) ← LiveIter.next entry_iter;
  match r with
  | None =>
      if (in_group =? 0)%nat then mret (Ok (writer, errors))
      else
        '(r, writer) ← BackupWriter.flush_group writer;
        mret (map_ok (λ _, (writer, errors)) r)
  | Some entry =>
      match fuel with
      | O => no_fuel
      | S fuel =>
          if (in_group =? bo_max_entries_per_hunk options)%nat then
            '(r, writer) ← BackupWriter.flush_group writer;
            match r with
            | Err e => mret (Err e)
            | Ok _ =>
                we ←? backup_entry writer errors entry source_tree options;
                backup_loop fuel 1 we.1 we.2 source_tree entry_iter options
            end
          else
            we ←? backup_entry writer errors entry source_tree options;
            backup_loop fuel (S in_group) we.1 we.2 source_tree entry_iter options
      end
  end.

(** The statistics that the block directory collected *)
Definition add_block_stats (s : BlockDirStats) (stats : BackupStats) : BackupStats :=
  BackupStats.add_read_blocks (read_blocks s)
    (BackupStats.add_read_blocks_compressed_bytes (read_block_compressed_bytes s)
       (BackupStats.add_read_blocks_uncompressed_bytes (read_block_uncompressed_bytes s) stats)).

(** [backup(archive, source_path, options)]; [chunks] asserts that its size is
    not zero. The elapsed time is not modelled. *)
Definition backup (archive : Archive) (source_path : Path) (options : BackupOptions) :
    M (result BackupStats Error) :=
  writer ←? BackupWriter.begin archive options;
  let source_tree := LiveTree.open source_path in
  entry_iter ←? live_iter_entries source_tree Apath.root (bo_exclude options);
  _ ← rust_assert (negb (bo_max_entries_per_hunk options =? 0)%nat);
  bound ← gets (LiveIter.entries_bound entry_iter);
  we ←? backup_loop bound 0 writer 0 source_tree entry_iter options;
  stats ←? BackupWriter.finish we.1;
  s ← BlockDir.state (ar_block_dir archive);
  mret (Ok (add_block_stats (bds_stats s) (BackupStats.add_errors we.2 stats))).

End backup.

(** ** A backup only adds *)

Section entry_respects.
Context `{Ext} `{BuildCfg} (R : relation World) `{!PreOrder R}.

Lemma unix_seconds_respects s n : respects R (from_unix_seconds_and_nanos s n).
Proof. unfold from_unix_seconds_and_nanos. solve_respects. Qed.

Lemma index_entry_mtime_respects (e : IndexEntry) : respects R (mtime e).
Proof. apply unix_seconds_respects. Qed.

Lemma index_entry_size_respects (e : IndexEntry) : respects R (Entry.size e).
Proof. cbn [Entry.size IndexEntry_entry]. solve_respects. Qed.

Lemma value_mtime_respects (e : EntryValue) : respects R (mtime e).
Proof. cbn [mtime EntryValue_entry]. solve_respects. Qed.

Lemma value_size_respects (e : EntryValue) : respects R (Entry.size e).
Proof. cbn [Entry.size EntryValue_entry]. solve_respects. Qed.

Hint Resolve index_entry_mtime_respects index_entry_size_respects value_mtime_respects
  value_size_respects : respects.

Lemma metadata_from_respects e : respects R (IndexEntry.metadata_from e).
Proof. unfold IndexEntry.metadata_from. solve_respects. Qed.

Lemma kind_metadata_respects {E} `{EntryTrait E} (e : E) :
  respects R (Entry.size e) → respects R (KindMetadata_from e).
Proof. intros Hs. unfold KindMetadata_from. solve_respects. Qed.

Lemma entry_metadata_respects {E} `{EntryTrait E} (e : E) :
  respects R (Entry.size e) → respects R (mtime e) → respects R (EntryMetadata_from e).
Proof. intros Hs Hm. unfold EntryMetadata_from. pose proof (kind_metadata_respects e Hs). solve_respects. Qed.
Lemma index_entry_metadata_respects (e : IndexEntry) : respects R (EntryMetadata_from e).
Proof. apply entry_metadata_respects; [apply index_entry_size_respects|apply index_entry_mtime_respects]. Qed.

Lemma value_metadata_respects (e : EntryValue) : respects R (EntryMetadata_from e).
Proof. apply entry_metadata_respects; [apply value_size_respects|apply value_mtime_respects]. Qed.
End entry_respects.

#[export] Hint Resolve index_entry_mtime_respects index_entry_size_respects value_mtime_respects
  value_size_respects metadata_from_respects index_entry_metadata_respects value_metadata_respects : respects.

Section backup_respects.
Context `{Ext} `{BuildCfg} `{Codecs} `{CacheDir} (P : Path → Prop).

Lemma file_read_respects (R : relation Fs) `{!PreOrder R} rd n : respects (fs_rel R) (sys_file_read rd n).
Proof. unfold sys_file_read. solve_respects. Qed.

Lemma read_with_retries_respects (R : relation Fs) `{!PreOrder R} n rd :
  respects (fs_rel R) (read_with_retries n rd).
Proof.
  unfold read_with_retries. generalize (String.length (rd_rest rd)) as fuel, "" as buf. intros fuel. revert rd.
  pose proof (file_read_respects R).
  induction fuel as [|fuel IH]; intros rd buf; cbn [read_loop]; solve_respects; apply IH.
Qed.

Lemma all_present_respects (R : relation Fs) `{!PreOrder R} bd hs : respects (fs_rel R) (all_present bd hs).
Proof.
  induction hs as [|h hs IH]; cbn [all_present]; [solve_respects|].
  pose proof (contains_respects R bd h). solve_respects.
Qed.

Lemma store_file_content_respects a rd bd stats n :
  respects (fs_rel (preserves P)) (store_file_content a rd bd stats n).
Proof.
  unfold store_file_content. pose proof (read_with_retries_respects (preserves P)). pose proof (store_respects P).
  assert (∀ fuel rd addrs stats, respects (fs_rel (preserves P)) (store_loop fuel a rd bd n addrs stats)) as Hl.
  { induction fuel as [|fuel IH]; intros rd' addrs stats'; cbn [store_loop]; solve_respects; apply IH. }
  solve_respects.
Qed.

Lemma flush_respects self : respects (fs_rel (preserves P)) (FileCombiner.flush self).
Proof. unfold FileCombiner.flush, debug_assert. pose proof (store_respects P). solve_respects. Qed.

Lemma drain_respects self : respects (fs_rel (preserves P)) (FileCombiner.drain self).
Proof. unfold FileCombiner.drain, debug_assert. pose proof flush_respects. solve_respects. Qed.

Lemma push_file_respects self e rd : respects (fs_rel (preserves P)) (FileCombiner.push_file self e rd).
Proof.
  unfold FileCombiner.push_file. pose proof flush_respects. pose proof (file_read_respects (preserves P)).
  solve_respects.
Qed.

Hint Resolve file_read_respects store_file_content_respects drain_respects push_file_respects
  all_present_respects : respects.

Lemma begin_respects a o : respects (fs_rel (preserves P)) (BackupWriter.begin a o).
Proof.
  unfold BackupWriter.begin, GarbageCollectionLock.is_locked.
  pose proof (last_band_id_reading (fs_rel (preserves P))). pose proof (band_create_respects P). solve_respects.
Qed.

Lemma flush_group_respects self : respects (fs_rel (preserves P)) (BackupWriter.flush_group self).
Proof. unfold BackupWriter.flush_group. pose proof (finish_hunk_respects P). solve_respects. Qed.

Lemma copy_content_respects self e lt o c : respects (fs_rel (preserves P)) (BackupWriter.copy_content self e lt o c).
Proof.
  unfold BackupWriter.copy_content. pose proof (open_file_respects (preserves P)). solve_respects.
Qed.

Lemma changed_respects (R : relation World) `{!PreOrder R} (a : IndexEntry) (b : EntryValue) :
  respects R (EntryChange.changed a b).
Proof. unfold EntryChange.changed, debug_assert. solve_respects. Qed.

Lemma copy_file_respects self e lt o : respects (fs_rel (preserves P)) (BackupWriter.copy_file self e lt o).
Proof.
  unfold BackupWriter.copy_file, BackupWriter.content_heuristically_unchanged, all_blocks_present,
    BackupWriter.copy_unchanged, EntryChange.unchanged, EntryChange.added.
  pose proof copy_content_respects. pose proof (changed_respects (fs_rel (preserves P))).
  pose proof (advance_to_reading (fs_rel (preserves P)) (HI:=IterStitchedIndexHunks)).
  pose proof (all_present_respects (preserves P)).
  solve_respects.
Qed.

Lemma copy_entry_respects self e lt o : respects (fs_rel (preserves P)) (BackupWriter.copy_entry self e lt o).
Proof.
  unfold BackupWriter.copy_entry, BackupWriter.copy_dir, BackupWriter.copy_symlink.
  pose proof copy_file_respects. solve_respects.
Qed.

Section callback.
Variable options : BackupOptions.
Hypothesis Hcb : ∀ cb, bo_change_callback options = Some cb → ∀ c, respects (fs_rel (preserves P)) (cb c).

Lemma backup_entry_respects bw n e lt : respects (fs_rel (preserves P)) (backup_entry bw n e lt options).
Proof.
  unfold backup_entry. pose proof copy_entry_respects.
  destruct (bo_change_callback options) as [cb|] eqn:E; [pose proof (Hcb cb eq_refl)|]; solve_respects.
Qed.

Lemma backup_loop_respects fuel g bw n lt it :
  respects (fs_rel (preserves P)) (backup_loop fuel g bw n lt it options).
Proof.
  pose proof backup_entry_respects. pose proof flush_group_respects.
  pose proof (live_next_respects (preserves P)).
  revert g bw n it. induction fuel as [|fuel IH]; intros g bw n it; cbn [backup_loop]; solve_respects; apply IH.
Qed.

Lemma backup_respects a src : respects (fs_rel (preserves P)) (backup a src options).
Proof.
  unfold backup, BackupWriter.finish, BlockDir.state, live_iter_entries. pose proof backup_loop_respects.
  pose proof begin_respects. pose proof (live_new_respects (preserves P)). pose proof (finish_respects P).
  pose proof (band_close_respects P). solve_respects.
Qed.
End callback.
End backup_respects.

(** ** Reading a file *)

Section reading.
Context `{Ext} `{BuildCfg}.

(** Only the tick has changed. *)
Definition ticked : relation World := λ w w',
  w_fs w' = w_fs w ∧ w_blockdirs w' = w_blockdirs w ∧ w_faults w' = w_faults w.

#[export] Instance ticked_preorder : PreOrder ticked.
Proof.
  split; [by intros w|]. intros w1 w2 w3 (Ha & Hb & Hc) (Ha' & Hb' & Hc').
  unfold ticked. split_and!; congruence.
Qed.

Lemma ticked_fault_free w w' : ticked w w' → fault_free w → fault_free w'.
Proof. intros (_ & _ & Hf) H1 t. by rewrite Hf. Qed.

Lemma file_read_cases rd len w :
  let '(o, w') := sys_file_read rd len w in
  ticked w w' ∧
  match o with
  | Ret (Ok (s, rd')) => ∃ n, s = string_take n (rd_rest rd) ∧ rd' = MkReader (string_drop n (rd_rest rd)) ∧
      n ≤ N.to_nat len ∧ n ≤ String.length (rd_rest rd) ∧ ((0 < len)%N → rd_rest rd ≠ "" → 0 < n)
  | Ret (Err _) | Crash => ¬ fault_free w
  | _ => False
  end.
Proof.
  unfold sys_file_read, sys_read, syscall. destruct (w_faults w (w_tick w)) eqn:E; cbn;
    [|split; [done|]; intros Hf; by rewrite (Hf (w_tick w)) in E..].
  split; [done|]. set (want := N.to_nat _).
  assert (want ≤ N.to_nat len ∧ want ≤ String.length (rd_rest rd) ∧
          ((0 < len)%N → rd_rest rd ≠ "" → 0 < want)) as (Hl & Hr & Hp).
  { unfold want. split; [lia|]. split; [lia|]. intros Hlen Hne.
    destruct (rd_rest rd); [done|]. simpl. lia. }
  eexists. split; [done|]. split; [done|]. destruct (w_short w (w_tick w)); [|done].
  split; [lia|]. split; [lia|]. intros Hlen Hne. specialize (Hp Hlen Hne). lia.
Qed.

Lemma string_take_add n k s : string_take (n + k) s = string_take n s +:+ string_take k (string_drop n s).
Proof. revert s. induction n as [|n IH]; intros [|a s]; simpl; try done; [by destruct k|by rewrite IH]. Qed.

Lemma string_take_zero s : string_take 0 s = "".
Proof. by destruct s. Qed.
Lemma string_drop_zero s : string_drop 0 s = s.
Proof. by destruct s. Qed.

Lemma string_length_zero s : String.length s = 0 → s = "".
Proof. by destruct s. Qed.

Lemma string_drop_ge n s : (String.length s ≤ n)%nat → string_drop n s = "".
Proof. intros Hn. apply string_length_zero. rewrite string_length_drop. lia. Qed.

Lemma read_loop_exact fuel len buf rd w :
  String.length (rd_rest rd) ≤ fuel → (N.of_nat (String.length buf) <= len)%N →
  let k := N.to_nat len - String.length buf in
  let '(o, w') := read_loop fuel len buf rd w in
  ticked w w' ∧
  match o with
  | Ret (Ok (s, rd')) => s = buf +:+ string_take k (rd_rest rd) ∧ rd' = MkReader (string_drop k (rd_rest rd))
  | Ret (Err _) | Crash => ¬ fault_free w
  | _ => False
  end.
Proof.
  revert buf rd w. induction fuel as [|fuel IH]; intros buf rd w Hf Hl k; cbn [read_loop];
    (destruct (N.ltb_spec (N.of_nat (String.length buf)) len) as [Hlt|Hge];
     [|cbn; split; [done|]; replace k with 0 by lia; rewrite string_take_zero, string_drop_zero, string_app_nil_r;
       by destruct rd]);
    pose proof (file_read_cases rd (len - N.of_nat (String.length buf)) w) as Hr;
    unfold mbind, ST_bind; destruct (sys_file_read _ _ w) as [o w1]; destruct Hr as [Ht Ho];
    destruct o as [[[s rd']|e]| | |]; try done;
    destruct Ho as (n & -> & -> & Hn1 & Hn2 & Hn3).
  - assert (rd_rest rd = "") as Hnil by (apply string_length_zero; lia). rewrite Hnil.
    replace (string_take n "") with "" by (by destruct n). cbn. split; [done|].
    replace (string_take k "") with "" by (by destruct k). rewrite string_app_nil_r. split; [done|].
    replace (string_drop n "") with "" by (by destruct n). by destruct k.
  - destruct (decide (rd_rest rd = "")) as [Hnil|Hne].
    { rewrite Hnil. replace (string_take n "") with "" by (by destruct n). cbn. split; [done|].
      replace (string_take k "") with "" by (by destruct k). rewrite string_app_nil_r. split; [done|].
      replace (string_drop n "") with "" by (by destruct n). by destruct k. }
    assert (0 < n) as Hpos by (apply Hn3; [lia|done]).
    destruct (string_take n (rd_rest rd)) as [|c s] eqn:Es.
    { apply (f_equal String.length) in Es. rewrite string_length_take in Es.
      destruct (rd_rest rd); simpl in *; [done|lia]. }
    rewrite <-Es.
    assert (String.length (string_take n (rd_rest rd)) = n) as Hlen by (rewrite string_length_take; lia).
    specialize (IH (buf +:+ string_take n (rd_rest rd)) (MkReader (string_drop n (rd_rest rd))) w1).
    rewrite string_length_app, Hlen in IH. cbn [rd_rest] in IH. cbv zeta in IH.
    specialize (IH ltac:(rewrite string_length_drop; lia) ltac:(lia)).
    destruct (read_loop fuel len _ _ w1) as [o w2]. destruct IH as [Ht2 Ho]. split; [by etrans|].
    replace k with (n + (N.to_nat len - (String.length buf + n))) by lia.
    destruct o as [[[s' rd']|e]| | |]; try done.
    + destruct Ho as [-> ->]. split; [by rewrite string_app_assoc, string_take_add|].
      by rewrite string_drop_drop.
    + intros Hff. apply Ho. by eapply ticked_fault_free.
    + intros Hff. apply Ho. by eapply ticked_fault_free.
Qed.

Lemma read_with_retries_run len rd w :
  fault_free w →
  ∃ w', read_with_retries len rd w
        = (Ret (Ok (string_take (N.to_nat len) (rd_rest rd),
                    MkReader (string_drop (N.to_nat len) (rd_rest rd)))), w') ∧ ticked w w'.
Proof.
  intros Hf. unfold read_with_retries.
  pose proof (read_loop_exact (String.length (rd_rest rd)) len "" rd w (le_n _) ltac:(cbn; lia)) as Hr.
  cbv zeta in Hr. rewrite Nat.sub_0_r in Hr. destruct (read_loop _ _ _ _ _) as [o w'].
  destruct Hr as [Ht Ho]. exists w'. split; [|done].
  destruct o as [[[s rd']|e]| | |]; try done; [|by destruct Ho..].
  by destruct Ho as [-> ->].
Qed.

Lemma read_with_retries_spec (len : N) (rd : Reader) (w : World) :
  let '(o, w') := read_with_retries len rd w in
  ticked w w' ∧
  match o with
  | Ret (Ok (s, rd')) => s = string_take (N.to_nat len) (rd_rest rd) ∧
                         rd' = MkReader (string_drop (N.to_nat len) (rd_rest rd))
  | Ret (Err _) | Crash => ¬ fault_free w
  | Panic | NoFuel => False
  end.
Proof.
  unfold read_with_retries.
  pose proof (read_loop_exact (String.length (rd_rest rd)) len "" rd w (le_n _) ltac:(cbn; lia)) as Hr.
  cbv zeta in Hr. rewrite Nat.sub_0_r in Hr. exact Hr.
Qed.

(** Reading with retries is exact, however short the single reads are: unless a
    read fails, it returns exactly the next [len] bytes of the file, or all that is
    left of it, and leaves the file after them; and it always comes to an end. *)
Theorem read_with_retries_exact (len : N) (rd : Reader) (w : World) :
  let '(o, w') := read_with_retries len rd w in
  ticked w w' ∧
  match o with
  | Ret (Ok (s, rd')) => s = string_take (N.to_nat len) (rd_rest rd) ∧
                         rd' = MkReader (string_drop (N.to_nat len) (rd_rest rd))
  | Ret (Err _) | Crash => ¬ fault_free w
  | Panic | NoFuel => False
  end.
Proof. apply read_with_retries_spec. Qed.
End reading.

(** ** Storing the content of a file *)

Section store_exact.
Context `{Ext, !LruLaws, !HashLaws, !HexLaws, !SnapLaws} `{BuildCfg}.

Lemma sound_ticked D bd w w' : ticked w w' → sound D bd w → sound D bd w'.
Proof.
  intros (Hfs & Hb & Hf) [[Hff Hs] Hcl Hd Hsd Hbl].
  assert (∀ h, cached bd w' h = cached bd w h) as Hc by (intros h; unfold cached; by rewrite Hb).
  assert (∀ h, known bd w' h = known bd w h) as Hk by (intros h; unfold known; by rewrite Hb).
  split; rewrite ?Hfs; try done.
  - split; [intros t; by rewrite Hf|]. intros h c d. rewrite Hc, Hfs. apply Hs.
  - intros data Hd'. rewrite Hk. by apply Hbl.
Qed.

Lemma part_ok_adds bd fs fs' a d : only_adds fs fs' → part_ok bd fs a d → part_ok bd fs' a d.
Proof. intros Ha (Hi & ?). split; [by eapply intact_adds|done]. Qed.

Lemma parts_snoc addrs ds a d :
  length addrs = length ds → parts (addrs ++ [a]) (ds ++ [d]) = parts addrs ds +:+ part a d.
Proof.
  revert ds. induction addrs as [|a' addrs IH]; intros [|d' ds] Hl; simplify_eq/=.
  - by rewrite string_app_nil_r.
  - rewrite IH by done. by rewrite string_app_assoc.
Qed.

(** An address of a whole block *)
Definition whole (max_block_size : N) (a : Address) : Prop :=
  a_start a = 0%N ∧ (0 < a_len a <= max_block_size)%N.

Lemma store_loop_exact D a bd mbs fuel rd addrs ds stats w :
  storable D → (0 < mbs < u64_modulus)%N →
  (∀ n, D (string_take (N.to_nat mbs) (string_drop n (rd_rest rd)))) →
  String.length (rd_rest rd) ≤ fuel → sound D bd w →
  Forall2 (part_ok bd (w_fs w)) addrs ds → Forall (whole mbs) addrs →
  ∃ addrs' ds' stats' w', store_loop fuel a rd bd mbs addrs stats w = (Ret (Ok addrs', stats'), w') ∧
    sound D bd w' ∧ only_adds (w_fs w) (w_fs w') ∧
    Forall2 (part_ok bd (w_fs w')) addrs' ds' ∧ Forall (whole mbs) addrs' ∧
    parts addrs' ds' = parts addrs ds +:+ rd_rest rd.
Proof.
  intros HD Hmbs. revert rd addrs ds stats w.
  induction fuel as [|fuel IH]; intros rd addrs ds stats w Hch Hf Hs Hds Hw; cbn [store_loop];
    destruct (read_with_retries_run mbs rd w (proj1 (sound_serving _ _ _ Hs))) as (w1 & Hr & Ht);
    rewrite (bind_run _ _ _ _ _ Hr); cbn iota beta;
    destruct (string_take (N.to_nat mbs) (rd_rest rd)) as [|c s] eqn:Es.
  1, 3: assert (rd_rest rd = "") as -> by (apply string_length_zero; apply (f_equal String.length) in Es;
          rewrite string_length_take in Es; simpl in Es; lia);
        exists addrs, ds, stats, w1; split; [done|]; rewrite string_app_nil_r;
        split; [by eapply sound_ticked|]; destruct Ht as (-> & _); by split_and!.
  { apply (f_equal String.length) in Es. rewrite string_length_take in Es. simpl in Es. lia. }
  set (data := String c s) in *.
  erewrite bind_run by apply modify_run. set (w2 := with_counters _ w1).
  assert (sound D bd w2) as Hs2.
  { eapply (sound_ticked D bd w w1) in Hs; [|done]. by destruct Hs; split. }
  assert (D data) as HDd by (rewrite <-Es; specialize (Hch 0); by rewrite string_drop_zero in Hch).
  destruct (store_sound D bd data stats w2 HD Hs2 HDd) as (stats' & w3 & Hst & Hs3 & Hadd & Hi).
  rewrite (bind_run _ _ _ _ _ Hst). cbn iota beta.
  assert (only_adds (w_fs w) (w_fs w3)) as Hadd'.
  { destruct Ht as (Hfs & _). rewrite <-Hfs. exact Hadd. }
  assert (N.of_nat (String.length data) <= mbs)%N as Hlen.
  { rewrite <-Es, string_length_take. lia. }
  set (addr := MkAddress (BlockHash.hash_bytes data) 0 (BlockDir.len data)).
  assert (part addr data = data) as Hpart.
  { unfold part, addr, BlockDir.len. cbn [a_start a_len]. rewrite Nat2N.id. by apply string_take_ge. }
  destruct (IH (MkReader (string_drop (N.to_nat mbs) (rd_rest rd))) (addrs ++ [addr])%list (ds ++ [data])%list
    stats' w3) as (addrs' & ds' & stats2 & w4 & Hl & Hs4 & Hadd2 & Hds' & Hw' & Hp).
  - intros n. cbn. rewrite string_drop_drop. apply Hch.
  - cbn. rewrite string_length_drop. apply (f_equal String.length) in Es.
    rewrite string_length_take in Es. simpl in Es. lia.
  - done.
  - apply Forall2_app.
    + eapply Forall2_impl; [exact Hds|]. intros x y. by apply part_ok_adds.
    + constructor; [|done]. split; [done|]. unfold addr, BlockDir.len. cbn [a_start a_len]. lia.
  - apply Forall_app. split; [done|]. constructor; [|done]. split; [done|].
    unfold addr, BlockDir.len. cbn [a_len]. split; [unfold data; simpl; lia|lia].
  - exists addrs', ds', stats2, w4. split; [done|]. split; [done|]. split; [by etrans|].
    split; [done|]. split; [done|]. rewrite Hp, parts_snoc by (by eapply Forall2_length).
    rewrite Hpart, string_app_assoc. cbn [rd_rest]. f_equal. rewrite <-Es. apply string_take_drop.
Qed.
End store_exact.

Section store_file.
Context `{Ext, !LruLaws, !HashLaws, !HexLaws, !SnapLaws} `{BuildCfg}.

(** The pieces of a content that become blocks *)
Definition pieces_in (D : string → Prop) (max_block_size : N) (content : string) : Prop :=
  ∀ n, D (string_take (N.to_nat max_block_size) (string_drop n content)).

Lemma store_file_content_run D a rd bd stats mbs w :
  storable D → (0 < mbs < u64_modulus)%N → pieces_in D mbs (rd_rest rd) → sound D bd w →
  ∃ addrs ds stats' w', store_file_content a rd bd stats mbs w = (Ret (Ok addrs, stats'), w') ∧
    sound D bd w' ∧ only_adds (w_fs w) (w_fs w') ∧
    Forall2 (part_ok bd (w_fs w')) addrs ds ∧ Forall (whole mbs) addrs ∧ parts addrs ds = rd_rest rd.
Proof.
  intros HD Hmbs Hch Hs. unfold store_file_content.
  destruct (store_loop_exact D a bd mbs (String.length (rd_rest rd)) rd [] [] stats w)
    as (addrs & ds & stats' & w' & Hl & Hs' & Hadd & Hds & Hw & Hp); [done..|constructor|constructor|].
  rewrite (bind_run _ _ _ _ _ Hl). cbn iota beta.
  assert (∀ c n, sound D bd (with_counters (λ s, Counters.count s c n) w')) as Hc.
  { intros c n. by destruct Hs'; split. }
  exists addrs, ds. destruct addrs as [|x [|y addrs]];
    erewrite bind_run by apply modify_run; eexists _, _; (split; [done|]); by split.
Qed.

(** Storing the content of a file loses nothing: without failures, and however
    short the reads are, it succeeds with addresses of whole blocks, none longer than
    the block size, whose contents on the disk are, one after the other, exactly the
    bytes of the file; blocks that were there before are used again, what was there
    before stays, and the directory stays sound. *)
Theorem store_file_content_exact (D : string → Prop) (a : Apath) (rd : Reader) (bd : BlockDir)
    (stats : BackupStats) (mbs : N) (w : World)
    (HD : storable D) (Hmbs : (0 < mbs < u64_modulus)%N) (Hch : pieces_in D mbs (rd_rest rd)) (Hs : sound D bd w) :
  ∃ addrs ds stats' w', store_file_content a rd bd stats mbs w = (Ret (Ok addrs, stats'), w') ∧
    sound D bd w' ∧ only_adds (w_fs w) (w_fs w') ∧
    Forall2 (part_ok bd (w_fs w')) addrs ds ∧ Forall (whole mbs) addrs ∧ parts addrs ds = rd_rest rd.
Proof. by apply store_file_content_run. Qed.
End store_file.

(** ** Examples *)

#[local] Existing Instances sample_ext sample_build sample_hash_laws sample_hex_laws sample_snap_laws sample_lru_laws
  sample_codecs sample_cachedir.

Definition sample_content (s : string) : Prop := s ∈ ["he"; "el"; "ll"; "lo"; "o"; ""].

(** Finitely many contents whose hashes are different can be stored. *)
Lemma storable_list (l : list string) : NoDup (BlockHash.hash_bytes <$> l) → storable (λ s, s ∈ l).
Proof.
  intros Hnd. split; [|by eexists]. intros x y Hx Hy Heq.
  apply list_elem_of_lookup in Hx as [i Hi], Hy as [j Hj].
  assert (i = j) as ->; [|congruence]. apply (NoDup_lookup _ i j (BlockHash.hash_bytes x) Hnd).
  - by rewrite list_lookup_fmap, Hi.
  - by rewrite list_lookup_fmap, Hj, Heq.
Qed.

Lemma sample_storable : storable sample_content.
Proof. apply storable_list. apply (bool_decide_unpack _). vm_compute. reflexivity. Qed.

Lemma sample_pieces : pieces_in sample_content 2 "hello".
Proof.
  intros n. unfold sample_content.
  do 6 (destruct n as [|n]; [cbn; set_solver|]). cbn. set_solver.
Qed.

Lemma sample_sound D : sound D sample_blockdir (world_of sample_blockdir_fs).
Proof.
  split.
  - apply sample_serving.
  - apply fs_closed_insert; [apply fs_closed_insert; [apply fs_closed_root|done..]|done..].
  - done.
  - intros h. left. unfold subdir_path. cbn [bd_transport sample_blockdir tr_path].
    change (["a"; "d"] ++ [?x])%list with ["a"; "d"; x].
    change (world_of sample_blockdir_fs).(w_fs) with sample_blockdir_fs. unfold sample_blockdir_fs, empty_archive_fs.
    by rewrite !lookup_insert_ne, lookup_singleton_ne by done.
  - intros data _. right. split; [|by vm_compute].
    unfold block_path, block_names. cbn [bd_transport sample_blockdir tr_path].
    change (["a"; "d"] ++ [?x; ?y])%list with ["a"; "d"; x; y].
    change (world_of sample_blockdir_fs).(w_fs) with sample_blockdir_fs. unfold sample_blockdir_fs, empty_archive_fs.
    by rewrite !lookup_insert_ne, lookup_singleton_ne by done.
Qed.

Lemma store_file_content_exact_witness :
  ∃ addrs ds stats' w',
    store_file_content (MkApath "/f") (MkReader "hello") sample_blockdir BackupStats.zero 2
      (world_of sample_blockdir_fs) = (Ret (Ok addrs, stats'), w') ∧
    sound sample_content sample_blockdir w' ∧ only_adds sample_blockdir_fs (w_fs w') ∧
    Forall2 (part_ok sample_blockdir (w_fs w')) addrs ds ∧ Forall (whole 2) addrs ∧ parts addrs ds = "hello".
Proof.
  apply (store_file_content_exact sample_content (MkApath "/f") (MkReader "hello") sample_blockdir
    BackupStats.zero 2 (world_of sample_blockdir_fs)).
  - exact sample_storable.
  - done.
  - exact sample_pieces.
  - apply sample_sound.
Defined.

