(* ===== verification/BackupRun.v ===== *)
(** * A whole backup: where it writes, and that it ends

    Theorems about [backup] (src/backup.rs, modelled in [Backup]) as a whole: nothing
    outside the directory of the archive changes or appears; and, as long as the source
    and the archive are apart, every run comes to an end. *)

From Stdlib Require Import Ascii.
From S2P Require Import Prelude Text Apath Externals Sample Ids Entry Counters Errors World Transport.
From S2P Require Import Excludes Jsonio SampleWorld BlockDir Index Archive Footprint Stitch LiveTree LiveOrder Backup.
From stdpp Require Import list gmap strings.

(** ** Where a backup writes *)

Section footprint.
Context `{Ext, !HashLaws, !HexLaws} `{BuildCfg} `{Codecs} `{CacheDir} (d : Path).

#[local] Abbreviation Below := (fs_rel (only_below d)).

Definition blocks_below (bd : BlockDir) : Prop := d `prefix_of` tr_path (bd_transport bd).

(** Everything a writer writes to is below the directory. *)
Record writer_below (bw : BackupWriter) : Prop := {
  wb_band : band_below d (bw_band bw);
  wb_index : index_below d (bw_index_builder bw);
  wb_blocks : blocks_below (bw_block_dir bw);
  wb_combiner : blocks_below (fc_block_dir (bw_file_combiner bw))
}.

Lemma store_file_below a rd bd stats n : blocks_below bd → respects Below (store_file_content a rd bd stats n).
Proof.
  intros Hd. unfold store_file_content. pose proof (read_with_retries_respects (only_below d)).
  pose proof (λ data stats, store_below d bd data stats Hd).
  assert (∀ fuel rd addrs stats, respects Below (store_loop fuel a rd bd n addrs stats)) as Hl.
  { induction fuel as [|fuel IH]; intros rd' addrs stats'; cbn [store_loop]; solve_respects; apply IH. }
  solve_respects.
Qed.

#[local] Abbreviation Combining fc := (held Below (λ r, fc_block_dir r.2 = fc_block_dir fc)).

Lemma flush_below fc : blocks_below (fc_block_dir fc) → Combining fc (FileCombiner.flush fc).
Proof.
  intros Hd. unfold FileCombiner.flush. case_match.
  - apply held_then; [apply _|unfold debug_assert; solve_respects|]. intros _. by apply held_ret; [apply _|].
  - apply held_then; [apply _|by apply store_below|]. intros [[h s]|e]; by apply held_ret; [apply _|].
Qed.

Lemma drain_below fc : blocks_below (fc_block_dir fc) → Combining fc (FileCombiner.drain fc).
Proof.
  intros Hd. unfold FileCombiner.drain. eapply held_bind; [apply _|by apply flush_below|].
  intros [[u|e] fc'] Hfc; cbn in Hfc; [|by apply held_ret; [apply _|]].
  do 2 (apply held_then; [apply _|unfold debug_assert; solve_respects|]; intros _). by apply held_ret; [apply _|].
Qed.

Lemma push_file_below fc e rd : blocks_below (fc_block_dir fc) → Combining fc (FileCombiner.push_file fc e rd).
Proof.
  intros Hd. unfold FileCombiner.push_file. do 3 (apply held_then; [apply _|solve_respects|]; intros ?).
  case_match; [by apply held_ret; [apply _|]|].
  apply held_then; [apply _|apply file_read_respects; apply _|].
  intros [[data rd']|err]; [|by apply held_ret; [apply _|]].
  case_match; [by apply held_ret; [apply _|]|]. cbv zeta. set (fc1 := FileCombiner.enqueue _ _).
  change (fc_block_dir fc) with (fc_block_dir fc1) in *.
  case_match; [by apply flush_below|by apply held_ret; [apply _|]].
Qed.

#[local] Abbreviation Writing := (held Below (λ r, writer_below r.2)).

#[local] Hint Constructors writer_below : core.

#[local] Ltac step := apply held_then; [apply _|try solve [solve_respects]|intros ?].
#[local] Ltac stop := refine (held_ret _ _ _ _); by constructor.

Lemma copy_content_below bw e lt o c : writer_below bw → Writing (BackupWriter.copy_content bw e lt o c).
Proof.
  intros [Hb Hi Hbd Hc]. unfold BackupWriter.copy_content. do 2 step. case_match; [do 2 step; stop|].
  step. destruct a1 as [rd|err]; [|stop]. case_match.
  - eapply held_bind; [apply _|by apply push_file_below|]. intros [[u|err] fc] Hfc; cbn in Hfc; cbv zeta.
    + step. refine (held_ret _ _ _ _). constructor; cbn; try done. by rewrite Hfc.
    + refine (held_ret _ _ _ _). constructor; cbn; try done. by rewrite Hfc.
  - step; [by apply store_file_below|]. destruct a1 as [[addrs|err] stats]; cbv zeta; [step|]; stop.
Qed.

Lemma copy_file_below bw e lt o : writer_below bw → Writing (BackupWriter.copy_file bw e lt o).
Proof.
  intros Hw. unfold BackupWriter.copy_file. cbv zeta. step.
  step; [apply (advance_to_reading Below (HI:=IterStitchedIndexHunks))|]. destruct a0 as [basis b].
  pose proof (changed_respects Below).
  assert (∀ bw', bw_band bw' = bw_band bw → bw_index_builder bw' = bw_index_builder bw →
    bw_block_dir bw' = bw_block_dir bw → bw_file_combiner bw' = bw_file_combiner bw → writer_below bw') as Hsame.
  { intros bw' E1 E2 E3 E4. destruct Hw. constructor; congruence. }
  destruct basis as [be|].
  - step; [unfold BackupWriter.content_heuristically_unchanged; solve_respects|]. destruct (a0 : bool).
    + step; [apply (all_present_respects (only_below d))|]. destruct (a1 : bool).
      * eapply (held_bind _ (λ r, writer_below r.2)).
        -- unfold BackupWriter.copy_unchanged. cbv zeta. step. step; [unfold EntryChange.unchanged; solve_respects|].
           destruct Hw. stop.
        -- intros [c w'] Hw'. by apply held_ret; [apply _|].
      * cbv zeta. step. apply copy_content_below. by apply Hsame.
    + cbv zeta. step. apply copy_content_below. by apply Hsame.
  - step; [unfold EntryChange.added; solve_respects|]. apply copy_content_below. by apply Hsame.
Qed.

Lemma copy_entry_below bw e lt o : writer_below bw → Writing (BackupWriter.copy_entry bw e lt o).
Proof.
  intros Hw. unfold BackupWriter.copy_entry, BackupWriter.copy_dir, BackupWriter.copy_symlink.
  pose proof Hw as []. destruct (kind e); [by apply copy_file_below|..].
  - do 2 step; stop.
  - step. cbv zeta. do 2 step. stop.
  - stop.
Qed.

Lemma flush_group_below bw : writer_below bw → Writing (BackupWriter.flush_group bw).
Proof.
  intros [Hb Hi Hbd Hc]. unfold BackupWriter.flush_group.
  eapply held_bind; [apply _|by apply drain_below|]. intros [[[stats es]|err] fc] Hfc; cbn in Hfc; cbv zeta.
  - eapply held_bind; [apply _|by apply finish_hunk_below|]. intros [r iw] Hiw. cbn in Hiw.
    refine (held_ret _ _ _ _). constructor; cbn; try done. by rewrite Hfc.
  - refine (held_ret _ _ _ _). constructor; cbn; try done. by rewrite Hfc.
Qed.

Lemma begin_below a o : d `prefix_of` tr_path (ar_transport a) → blocks_below (ar_block_dir a) →
  held Below (λ r, ∀ bw, r = Ok bw → writer_below bw) (BackupWriter.begin a o).
Proof.
  intros Ha Hbd. unfold BackupWriter.begin, try.
  step; [unfold GarbageCollectionLock.is_locked; solve_respects|].
  destruct a0 as [[]|err]; [refine (held_ret _ _ _ _); naive_solver..| |refine (held_ret _ _ _ _); naive_solver].
  step; [apply last_band_id_reading; apply _|]. destruct a0 as [last|err]; [|refine (held_ret _ _ _ _); naive_solver].
  eapply held_bind; [apply _|by apply band_create_below|]. intros [b|err] Hb; refine (held_ret _ _ _ _); [|naive_solver].
  intros bw [= <-]. constructor; cbn; try done; [by apply Hb|]. apply join_below; [|done]. by apply Hb.
Qed.

Section callback.
Context (options : BackupOptions)
  (Hcb : ∀ cb, bo_change_callback options = Some cb → ∀ c, respects Below (cb c)).

#[local] Abbreviation Looping := (held Below (λ r, ∀ we, r = Ok we → writer_below we.1)).

Lemma backup_entry_below bw n e lt : writer_below bw → Looping (backup_entry bw n e lt options).
Proof.
  intros Hw. unfold backup_entry. cbv zeta. eapply held_bind; [apply _|by apply copy_entry_below|].
  intros [[[c|]|err] bw'] Hw'; cbn in Hw'.
  - step. destruct (bo_change_callback options) as [cb|] eqn:E; [|refine (held_ret _ _ _ _); naive_solver].
    pose proof (Hcb cb eq_refl c). unfold try. step. destruct a0; refine (held_ret _ _ _ _); naive_solver.
  - refine (held_ret _ _ _ _); naive_solver.
  - step. refine (held_ret _ _ _ _); naive_solver.
Qed.

Lemma backup_loop_below fuel g bw n lt it : writer_below bw → Looping (backup_loop fuel g bw n lt it options).
Proof.
  revert g bw n it. induction fuel as [|fuel IH]; intros g bw n it Hw; cbn [backup_loop];
    (step; destruct a as [[e|] it']; [|case_match;
      [refine (held_ret _ _ _ _); naive_solver
      |eapply held_bind; [apply _|by apply flush_group_below|]; intros [[u|err] bw'] Hw';
       refine (held_ret _ _ _ _); naive_solver]]).
  - intros w. by split.
  - assert (∀ g bw, writer_below bw → Looping (we ←? backup_entry bw n e lt options;
      backup_loop fuel g we.1 we.2 lt it' options)) as Hrest.
    { intros g' bw' Hw'. unfold try. eapply held_bind; [apply _|by apply backup_entry_below|].
      intros [we|err] Hwe; [by apply IH, Hwe|refine (held_ret _ _ _ _); naive_solver]. }
    case_match; [|by apply Hrest]. eapply held_bind; [apply _|by apply flush_group_below|].
    intros [[u|err] bw'] Hw'; [by apply Hrest|refine (held_ret _ _ _ _); naive_solver].
Qed.

Lemma backup_below a src : d `prefix_of` tr_path (ar_transport a) → blocks_below (ar_block_dir a) →
  respects Below (backup a src options).
Proof.
  intros Ha Hbd. apply (held_respects _ (λ _, True)). unfold backup, try, live_iter_entries.
  eapply held_bind; [apply _|by apply begin_below|]. intros [bw|err] Hw; [|by refine (held_ret _ _ _ _)].
  cbv zeta. step. destruct a0 as [it|err]; [|by refine (held_ret _ _ _ _)]. do 2 step.
  eapply held_bind; [apply _|apply backup_loop_below; by apply Hw|].
  intros [we|err] Hwe; [|by refine (held_ret _ _ _ _)]. destruct (Hwe we eq_refl) as [Hb Hi _ _].
  step.
  { unfold BackupWriter.finish. pose proof (finish_below d _ Hi). pose proof (λ n, band_close_below d (bw_band we.1) n Hb).
    solve_respects. }
  destruct a2; [|by refine (held_ret _ _ _ _)]. step. by refine (held_ret _ _ _ _).
Qed.
End callback.
End footprint.

(** ** A backup comes to an end *)

Section termination.
Context `{Ext} `{BuildCfg} `{Codecs} `{CacheDir}.

Lemma read_with_retries_terminates n rd : terminates (read_with_retries n rd).
Proof.
  intros w. pose proof (read_with_retries_spec n rd w) as Hr. destruct (read_with_retries n rd w) as [o w'].
  destruct Hr as [_ Hr]. by destruct o.
Qed.

(** Reading something leaves less of the file. *)
Lemma read_shorter n rd w s rd' w' :
  read_with_retries n rd w = (Ret (Ok (s, rd')), w') → s ≠ "" → String.length (rd_rest rd') < String.length (rd_rest rd).
Proof.
  intros Hr Hs. pose proof (read_with_retries_spec n rd w) as Hsp. rewrite Hr in Hsp. destruct Hsp as [_ [-> ->]]. cbn.
  pose proof (string_take_drop (N.to_nat n) (rd_rest rd)) as Htd. apply (f_equal String.length) in Htd.
  rewrite string_length_app in Htd. destruct (string_take _ _); [done|]. simpl in Htd. lia.
Qed.

Lemma store_loop_terminates fuel a rd bd n addrs stats :
  String.length (rd_rest rd) ≤ fuel → terminates (store_loop fuel a rd bd n addrs stats).
Proof.
  revert rd addrs stats. induction fuel as [|fuel IH]; intros rd addrs stats Hf w; cbn [store_loop];
    (apply bind_terminates_at; [apply read_with_retries_terminates|]); intros [[s rd']|e] w' Hr; try done;
    (destruct s as [|c s]; [done|]); apply read_shorter in Hr; try done; [lia|].
  revert w'. apply terminates_bind; [solve_terminates|]. intros []. apply terminates_bind; [apply store_terminates|].
  intros [[h stats']|e]; [|done]. apply IH. lia.
Qed.

Lemma store_file_terminates a rd bd stats n : terminates (store_file_content a rd bd stats n).
Proof. unfold store_file_content. pose proof (store_loop_terminates (String.length (rd_rest rd)) a rd bd n). solve_terminates. Qed.

Lemma flush_terminates fc : terminates (FileCombiner.flush fc).
Proof. unfold FileCombiner.flush. solve_terminates. Qed.

Lemma drain_terminates fc : terminates (FileCombiner.drain fc).
Proof. unfold FileCombiner.drain. pose proof flush_terminates. solve_terminates. Qed.

Lemma metadata_from_terminates (e : EntryValue) : terminates (IndexEntry.metadata_from e : M IndexEntry).
Proof. unfold IndexEntry.metadata_from. cbn. solve_terminates. Qed.

Lemma push_file_terminates fc e rd : terminates (FileCombiner.push_file fc e rd).
Proof.
  unfold FileCombiner.push_file, sys_file_read. cbn. pose proof flush_terminates. pose proof metadata_from_terminates.
  solve_terminates.
Qed.

Lemma copy_content_terminates bw e lt o c : terminates (BackupWriter.copy_content bw e lt o c).
Proof.
  unfold BackupWriter.copy_content, LiveTree.open_file, LiveTree.relative_path, sys_open.
  cbn [mtime Entry.size EntryValue_entry IndexEntry_entry].
  pose proof push_file_terminates. pose proof metadata_from_terminates. pose proof store_file_terminates.
  solve_terminates.
Qed.

Lemma advance_to_terminates (it : IndexEntryIter IterStitchedIndexHunks) p : terminates (IndexEntryIter.advance_to it p).
Proof. intros w. unfold IndexEntryIter.advance_to. erewrite bind_run by done. by apply advance_loop_terminates. Qed.

Lemma all_present_terminates bd hs : terminates (all_present bd hs).
Proof. induction hs; cbn [all_present]; solve_terminates. Qed.

Lemma copy_file_terminates bw e lt o : terminates (BackupWriter.copy_file bw e lt o).
Proof.
  unfold BackupWriter.copy_file, BackupWriter.content_heuristically_unchanged, all_blocks_present,
    BackupWriter.copy_unchanged, EntryChange.unchanged, EntryChange.added, EntryChange.changed,
    EntryMetadata_from, KindMetadata_from.
  pose proof copy_content_terminates. pose proof advance_to_terminates. pose proof all_present_terminates.
  pose proof metadata_from_terminates. cbn [mtime Entry.size EntryValue_entry IndexEntry_entry].
  unfold from_unix_seconds_and_nanos. solve_terminates.
Qed.

Lemma copy_entry_terminates bw e lt o : terminates (BackupWriter.copy_entry bw e lt o).
Proof.
  unfold BackupWriter.copy_entry, BackupWriter.copy_dir, BackupWriter.copy_symlink.
  pose proof copy_file_terminates. pose proof metadata_from_terminates. solve_terminates.
Qed.

Lemma flush_group_terminates bw : terminates (BackupWriter.flush_group bw).
Proof. unfold BackupWriter.flush_group. pose proof drain_terminates. solve_terminates. Qed.

Lemma begin_terminates a o : terminates (BackupWriter.begin a o).
Proof.
  unfold BackupWriter.begin, GarbageCollectionLock.is_locked, Band.create. pose proof band_create_terminates.
  solve_terminates.
Qed.
End termination.

(** *** The source does not change under the walk *)

Section unchanged_source.
Context `{Ext} `{BuildCfg} `{CacheDir}.

Lemma named_below_same root fs fs' : same_below root fs fs' → named_below root fs → named_below root fs'.
Proof. intros Hs Hn p n Hp. rewrite Hs; [by apply Hn|]. by apply prefix_app_r. Qed.

Lemma nodes_in_same root ps (fs fs' : Fs) :
  same_below root fs fs' → length (nodes_in fs' (root ++ ps)) = length (nodes_in fs (root ++ ps)).
Proof.
  intros Hs. apply Permutation_length, NoDup_Permutation; [apply nodes_in_NoDup..|]. intros k.
  rewrite !elem_of_nodes_in. split; intros [[Hk Hne] Hin]; (split; [done|]);
    (rewrite Hs in * || rewrite Hs); try done; (etrans; [|exact Hk]; by apply prefix_app_r).
Qed.

Lemma entries_bound_same last self w w' :
  walking last self → same_below (li_root_path self) (w_fs w) (w_fs w') →
  LiveIter.entries_bound self w' = LiveIter.entries_bound self w.
Proof.
  intros Hw Hs. unfold LiveIter.entries_bound. do 2 f_equal. apply list_fmap_ext. intros i a Hi.
  apply list_elem_of_lookup_2 in Hi. destruct (wk_dirs _ _ Hw a Hi) as (ps & Hps & ->).
  rewrite !nodes_below_ok by done. by apply nodes_in_same.
Qed.
End unchanged_source.

Section ends.
Context `{Ext, !HashLaws, !HexLaws} `{BuildCfg} `{Codecs} `{CacheDir} (d src : Path) (options : BackupOptions)
  (Hsep : separate src d)
  (Hcb : ∀ cb, bo_change_callback options = Some cb → ∀ c, terminates (cb c) ∧ respects (fs_rel same_fs) (cb c)).

#[local] Abbreviation Below := (fs_rel (only_below d)).

Lemma callback_below cb : bo_change_callback options = Some cb → ∀ c, respects Below (cb c).
Proof. intros E c. apply respects_same_fs; [apply _|]. by apply (Hcb cb). Qed.

Lemma backup_entry_terminates bw n e lt : terminates (backup_entry bw n e lt options).
Proof.
  unfold backup_entry. pose proof copy_entry_terminates. destruct (bo_change_callback options) as [cb|] eqn:E.
  - assert (∀ c, terminates (cb c)) by (intros c; by apply (Hcb cb)). solve_terminates.
  - solve_terminates.
Qed.

(** The walk and the source, between two steps of the loop *)
Record ready (fuel : nat) (bw : BackupWriter) (it : LiveIter) (w : World) : Prop := {
  rd_writer : writer_below d bw;
  rd_walking : ∃ last, walking last it;
  rd_root : li_root_path it = src;
  rd_named : named_below src (w_fs w);
  rd_fuel : LiveIter.entries_bound it w ≤ fuel
}.

(** Storing something in the archive leaves the walk ready. *)
Lemma ready_after fuel bw bw' it w w' :
  ready fuel bw it w → writer_below d bw' → only_below d (w_fs w) (w_fs w') → ready fuel bw' it w'.
Proof.
  intros [_ [last Hw] Hr Hn Hf] Hbw Ho. apply (only_below_separate src) in Ho; [|done].
  split; [done|by exists last|done|by eapply named_below_same|].
  by rewrite (entries_bound_same last it w w') by (done || by rewrite Hr).
Qed.

Lemma backup_loop_terminates fuel g bw n it w :
  ready fuel bw it w → (backup_loop fuel g bw n (LiveTree.open src) it options w).1 ≠ NoFuel.
Proof.
  revert g bw n it w. induction fuel as [|fuel IH]; intros g bw n it w Hr; cbn [backup_loop];
    destruct (rd_walking _ _ _ _ Hr) as [last Hw]; pose proof (next_inv last it w Hw) as Hi;
    rewrite (rd_root _ _ _ _ Hr) in Hi; specialize (Hi (rd_named _ _ _ _ Hr));
    (apply bind_terminates_at; [destruct (LiveIter.next it w); by destruct Hi as (_ & ? & _)|]);
    intros [[e|] it'] w1 Hn1; rewrite Hn1 in Hi; destruct Hi as (_ & _ & Hfs1 & Hi);
    try (case_match; [done|]; apply terminates_bind; [apply flush_group_terminates|by intros [[] ?]]).
  { destruct Hi as (_ & _ & _ & Hb). pose proof (rd_fuel _ _ _ _ Hr). lia. }
  destruct Hi as (Hr1 & _ & Hw1 & Hb1).
  assert (ready fuel bw it' w1) as Hr'.
  { destruct Hr as [Hbw _ Hroot Hnamed Hf]. split; [done|by eexists|congruence|by rewrite Hfs1|lia]. }
  assert (∀ g bw w, ready fuel bw it' w → ((we ←? backup_entry bw n e (LiveTree.open src) options;
    backup_loop fuel g we.1 we.2 (LiveTree.open src) it' options) w).1 ≠ NoFuel) as Hrest.
  { intros g' bw' w' Hrd. unfold try. apply bind_terminates_at; [apply backup_entry_terminates|].
    intros [we|err] w2 Hwe; [|done]. apply IH.
    destruct (backup_entry_below d options callback_below bw' n e (LiveTree.open src) (rd_writer _ _ _ _ Hrd) w') as [Ho Hbw].
    rewrite Hwe in Ho, Hbw. apply (ready_after fuel bw' we.1 it' w' w2); [done| |done].
    by apply (Hbw (Ok we)). }
  case_match; [|by apply Hrest]. apply bind_terminates_at; [apply flush_group_terminates|].
  intros [[u|err] bw'] w2 Hfl; [|done]. apply Hrest.
  destruct (flush_group_below d bw (rd_writer _ _ _ _ Hr') w1) as [Ho Hbw]. rewrite Hfl in Ho, Hbw.
  apply (ready_after fuel bw bw' it' w1 w2); [done|by apply (Hbw (Ok u, bw'))|done].
Qed.

Lemma backup_ends a w :
  d `prefix_of` tr_path (ar_transport a) → blocks_below d (ar_block_dir a) → named_below src (w_fs w) →
  (backup a src options w).1 ≠ NoFuel.
Proof.
  intros Ha Hbd Hn. unfold backup, try. apply bind_terminates_at; [apply begin_terminates|].
  intros [bw|err] w1 Hbg; [|done].
  destruct (begin_below d a options Ha Hbd w) as [Ho Hbw]. rewrite Hbg in Ho, Hbw. cbv zeta.
  unfold live_iter_entries. apply bind_terminates_at; [apply live_new_terminates|]. intros [it|err] w2 Hnew; [|done].
  apply (new_walking _ []) in Hnew as (Hw & Hroot & Hfs2); [|by repeat constructor].
  apply bind_terminates_at; [apply terminates_assert|]. intros u w3 Has. apply assert_inv in Has as [_ ->].
  erewrite bind_run by done. apply bind_terminates_at.
  - apply backup_loop_terminates. split; [by apply (Hbw (Ok bw))|by eexists|done| |done]. rewrite Hfs2.
    eapply named_below_same; [|exact Hn]. by eapply only_below_separate.
  - intros [we|err] w4 _; [|done]. unfold BackupWriter.finish, IndexWriter.finish, Band.close, BlockDir.state.
    revert w4. change (terminates (s ←? (hunks ←? ('(r, self) ← IndexWriter.finish_hunk (bw_index_builder we.1);
      mret (map_ok (λ _, iw_hunks_written self) r)); _ ←? Band.close (bw_band we.1) hunks; mret (Ok (bw_stats we.1)));
      t ← gets (λ w, w_blockdirs w (bd_handle (ar_block_dir a)));
      mret (Ok (add_block_stats (bds_stats t) (BackupStats.add_errors we.2 s))))).
    unfold Band.close. solve_terminates.
Qed.
End ends.

(** ** A whole backup *)

Section whole.
Context `{Ext, !HashLaws, !HexLaws} `{BuildCfg} `{Codecs} `{CacheDir} (archive : Archive) (source_path : Path)
  (options : BackupOptions) (w : World)
  (Hbd : tr_path (bd_transport (ar_block_dir archive)) = (archive_path archive ++ [BLOCK_DIR])%list).

Lemma archive_blocks_below : blocks_below (archive_path archive) (ar_block_dir archive).
Proof. unfold blocks_below. rewrite Hbd. by apply prefix_app_r. Qed.


(** C18: a backup always comes to an end: when neither of the archive and the source
    tree is inside the other, the walk, the loops that read and store, and the search
    of the previous versions all end, whatever fails, however short the reads and in
    whatever order directories are listed, and although the archive grows meanwhile. *)
Theorem backup_terminates
    (Hsep : separate source_path (archive_path archive)) (Hn : named_below source_path (w_fs w))
    (Hcb : ∀ cb, bo_change_callback options = Some cb →
       ∀ c, terminates (cb c) ∧ respects (fs_rel same_fs) (cb c)) :
  (backup archive source_path options w).1 ≠ NoFuel.
Proof. by eapply (backup_ends (archive_path archive)); [| |reflexivity|apply archive_blocks_below|]. Qed.
End whole.

(** ** Examples *)

#[local] Existing Instances sample_ext sample_build sample_hash_laws sample_hex_laws sample_codecs sample_cachedir.


Lemma backup_terminates_witness :
  (backup sample_archive ["s"] default_backup_options (world_of sample_tree_fs)).1 ≠ NoFuel.
Proof.
  apply (backup_terminates sample_archive ["s"] default_backup_options (world_of sample_tree_fs)).
  - reflexivity.
  - by split; intros [k Hk].
  - exact sample_tree_named.
  - intros cb Hcb. discriminate Hcb.
Defined.
