(* ===== verification/Combine.v ===== *)
(** * Combining small files

    The contents of small files are put one after the other into one block by the
    [FileCombiner] of src/backup.rs (modelled in [Backup]): without failures, each file
    gets exactly the address of its own bytes; after a failed flush it need not. *)

From Stdlib Require Import Ascii.
From S2P Require Import Prelude Text Apath Externals Sample Ids Entry Counters Errors World Transport.
From S2P Require Import Excludes Jsonio SampleWorld BlockDir BlockStore Index Archive Stitch LiveTree Backup.
From stdpp Require Import list gmap strings.

(** ** The queue and the buffer *)

(** An entry without addresses, and the content of its file *)
Abbreviation Item := (IndexEntry * string)%type.

(** The contents of the queued files, one after the other *)
Fixpoint text (items : list Item) : string :=
  match items with [] => "" | it :: items => it.2 +:+ text items end.

(** Where the queue says they are *)
Fixpoint queue_of (start : N) (items : list Item) : list QueuedFile :=
  match items with
  | [] => []
  | it :: items => MkQueuedFile start (BlockDir.len it.2) it.1 :: queue_of (start + BlockDir.len it.2) items
  end.

Lemma text_app l k : text (l ++ k) = text l +:+ text k.
Proof. induction l as [|it l IH]; simpl; [done|]. by rewrite IH, string_app_assoc. Qed.

Lemma len_app s t : BlockDir.len (s +:+ t) = (BlockDir.len s + BlockDir.len t)%N.
Proof. unfold BlockDir.len. rewrite string_length_app. lia. Qed.

Lemma queue_of_app start l k :
  queue_of start (l ++ k) = (queue_of start l ++ queue_of (start + BlockDir.len (text l)) k)%list.
Proof.
  revert start. induction l as [|it l IH]; intros start; simpl.
  - f_equal. unfold BlockDir.len. simpl. lia.
  - rewrite IH, len_app. do 2 f_equal. f_equal. lia.
Qed.

Lemma string_drop_app_length s t : string_drop (String.length s) (s +:+ t) = t.
Proof. induction s as [|a s IH]; simpl; [by destruct t|done]. Qed.

Lemma string_take_app_length s t : string_take (String.length s) (s +:+ t) = s.
Proof. induction s as [|a s IH]; simpl; [by destruct t|]. by rewrite IH. Qed.

(** Each queued file lies in the buffer where the queue says. *)
Lemma queue_parts pre items h :
  Forall2 (λ qf it, qf_entry qf = it.1 ∧
      part (MkAddress h (qf_start qf) (qf_len qf)) (pre +:+ text items) = it.2 ∧
      (qf_start qf + qf_len qf <= BlockDir.len (pre +:+ text items))%N)
    (queue_of (BlockDir.len pre) items) items.
Proof.
  revert pre. induction items as [|it items IH]; intros pre; cbn [queue_of text]; constructor.
  - cbn [qf_entry qf_start qf_len]. split; [done|]. unfold part, BlockDir.len. cbn [a_start a_len].
    rewrite !Nat2N.id, string_drop_app_length, string_take_app_length. split; [done|].
    rewrite !string_length_app. lia.
  - specialize (IH (pre +:+ it.2)). rewrite string_app_assoc in IH. by rewrite <-(len_app pre it.2).
Qed.

(** ** Pushing and flushing *)

Section combine.
Context `{Ext, !LruLaws, !HashLaws, !HexLaws, !SnapLaws} `{BuildCfg}.

(** A finished entry: that of the item, with addresses of intact blocks that hold its
    content *)
Definition finished_as (bd : BlockDir) (fs : Fs) (e : IndexEntry) (it : Item) : Prop :=
  e = IndexEntry.with_addrs (ie_addrs e) it.1 ∧
  ∃ ds, Forall2 (part_ok bd fs) (ie_addrs e) ds ∧ parts (ie_addrs e) ds = it.2.

Lemma finished_adds bd fs fs' e it : only_adds fs fs' → finished_as bd fs e it → finished_as bd fs' e it.
Proof.
  intros Ha (He & ds & Hds & Hp). split; [done|]. exists ds. split; [|done].
  eapply Forall2_impl; [exact Hds|]. intros x y. by apply part_ok_adds.
Qed.

(** The state of a combiner: the pending files are in the buffer and in the queue, the
    others are finished. *)
Record combining (D : string → Prop) (bd : BlockDir) (mbs : N) (fc : FileCombiner) (w : World)
    (pend fin : list Item) : Prop := {
  cb_dir : fc_block_dir fc = bd;
  cb_max : fc_max_block_size fc = mbs;
  cb_buf : fc_buf fc = text pend;
  cb_queue : fc_queue fc = queue_of 0 pend;
  cb_finished : Forall2 (finished_as bd (w_fs w)) (fc_finished fc) fin;
  cb_sound : sound D bd w
}.

(** The schedule of short reads never changes, and the monitor is told of no errors. *)
Definition calm : relation World := λ w w', w_short w' = w_short w ∧ w_errors w' = w_errors w.

#[export] Instance calm_mute : Mute calm.
Proof.
  split; [|done..]. split; [by intros w|]. intros a b c [] []. unfold calm in *. split; congruence.
Qed.

Lemma calm_reads w w' : calm w w' → (∀ t, w_short w t = None) → ∀ t, w_short w' t = None.
Proof. intros [-> _]. done. Qed.

Lemma update_short bd f : respects calm (BlockDir.update bd f).
Proof. done. Qed.

Lemma store_short bd data stats : respects calm (BlockDir.store_or_deduplicate bd data stats).
Proof.
  unfold BlockDir.store_or_deduplicate, BlockDir.contains, BlockDir.store_new, BlockDir.state.
  pose proof update_short. pose proof (block_relpath_respects calm).
  pose proof (subdir_relpath_respects calm). solve_respects.
Qed.

(** A flush finishes the pending files. *)
Lemma flush_run D bd mbs fc w pend fin :
  storable D → combining D bd mbs fc w pend fin → (pend ≠ [] → D (text pend)) →
  (BlockDir.len (text pend) < u64_modulus)%N →
  ∃ fc' w', FileCombiner.flush fc w = (Ret (Ok tt, fc'), w') ∧ combining D bd mbs fc' w' [] (fin ++ pend) ∧
    only_adds (w_fs w) (w_fs w') ∧ calm w w'.
Proof.
  intros HD [Hdir Hmax Hbuf Hq Hfin Hs] Ht Hlen. unfold FileCombiner.flush. rewrite Hq.
  destruct pend as [|it pend].
  { cbn [queue_of FileCombiner.is_nil]. rewrite Hbuf. exists fc, w. split; [unfold debug_assert; by destruct debug_assertions|].
    split; [|done]. rewrite app_nil_r. by split. }
  set (items := it :: pend) in *. change (FileCombiner.is_nil (queue_of 0 items)) with false. cbn iota.
  destruct (store_sound D bd (text items) (fc_stats fc) w HD Hs (Ht ltac:(done))) as (stats & w' & Hr & Hs' & Hadd & Hi).
  pose proof (store_short bd (text items) (fc_stats fc) w) as Hsh. rewrite Hdir, Hbuf, Hmax.
  rewrite Hr in Hsh. rewrite (bind_run _ _ _ _ _ Hr). cbn iota beta.
  eexists _, w'. split; [done|]. split; [|done]. split; try done. cbn [fc_finished]. apply Forall2_app.
  - eapply Forall2_impl; [exact Hfin|]. intros e i. by apply finished_adds.
  - pose proof (queue_parts "" items (BlockHash.hash_bytes (text items))) as Hp.
    change ("" +:+ ?s) with s in Hp. change (BlockDir.len "") with 0%N in Hp.
    apply Forall2_fmap_l. eapply Forall2_impl; [exact Hp|]. intros qf i (Hent & Hpart & Hle).
    unfold FileCombiner.finish_queued. split; [by rewrite <-Hent|]. cbn [ie_addrs IndexEntry.with_addrs].
    exists [text items]. split; [constructor; [|constructor]|].
    + split; [exact Hi|]. cbn [a_start a_len]. split; [done|]. lia.
    + cbn [parts]. by rewrite Hpart, string_app_nil_r.
Qed.

(** The entry of a file, without addresses *)
Definition base_entry (e : EntryValue) : IndexEntry :=
  {| ie_apath := ev_apath e; ie_kind := Kind_File; ie_mtime := unix_timestamp (ev_mtime e);
     ie_unix_mode := ev_unix_mode e; ie_owner := ev_owner e; ie_mtime_nanos := nanosecond (ev_mtime e);
     ie_addrs := []; ie_target := None |}.

Lemma metadata_from_file e n (w : World) :
  ev_kind_meta e = KM_File n → IndexEntry.metadata_from e w = (Ret (base_entry e), w).
Proof. destruct e as [a k m u o]. intros Hk. simpl in Hk. by subst k. Qed.

Lemma read_whole rd n w :
  fault_free w → (∀ t, w_short w t = None) →
  ∃ w', sys_file_read rd n w
    = (Ret (Ok (string_take (N.to_nat n) (rd_rest rd), MkReader (string_drop (N.to_nat (N.min n (BlockDir.len (rd_rest rd)))) (rd_rest rd)))), w') ∧
    ticked w w' ∧ calm w w'.
Proof.
  intros Hf Hs. unfold sys_file_read. rewrite sys_read_run by done. rewrite Hs. exists (tick w). split; [|done].
  fold (BlockDir.len (rd_rest rd)). do 4 f_equal. unfold BlockDir.len.
  destruct (N.leb_spec n (N.of_nat (String.length (rd_rest rd)))) as [Hle|Hgt].
  - by rewrite N.min_l.
  - rewrite N.min_r by lia. rewrite Nat2N.id, !string_take_ge; [done|lia|lia].
Qed.

Lemma ticked_combining D bd mbs fc w w' pend fin :
  ticked w w' → combining D bd mbs fc w pend fin → combining D bd mbs fc w' pend fin.
Proof.
  intros Ht [Hdir Hmax Hbuf Hq Hfin Hs]. split; try done; [|by eapply sound_ticked].
  destruct Ht as (-> & _). done.
Qed.

(** Nothing of the file, nothing to combine *)
Lemma finish_empty_combining D bd mbs fc w pend fin b :
  ie_addrs b = [] → combining D bd mbs fc w pend fin →
  combining D bd mbs (FileCombiner.finish_empty b fc) w pend (fin ++ [(b, "")]).
Proof.
  intros Hb [Hdir Hmax Hbuf Hq Hfin Hs]. split; try done. cbn. apply Forall2_app; [done|]. constructor; [|done].
  split; [rewrite Hb; by destruct b; simplify_eq/=|]. exists []. rewrite Hb. by split.
Qed.

Lemma enqueue_combining D bd mbs fc w pend fin b d :
  combining D bd mbs fc w pend fin →
  combining D bd mbs (FileCombiner.enqueue (MkQueuedFile (BlockDir.len (fc_buf fc)) (BlockDir.len d) b)
    (FileCombiner.with_buf (fc_buf fc +:+ d) fc)) w (pend ++ [(b, d)]) fin.
Proof.
  intros [Hdir Hmax Hbuf Hq Hfin Hs]. split; try done; cbn.
  - rewrite Hbuf, text_app. simpl. by rewrite string_app_nil_r.
  - by rewrite Hq, Hbuf, queue_of_app.
Qed.

(** Pushing one file *)
Lemma push_file_run D bd mbs fc w pend fin e n rd :
  storable D → combining D bd mbs fc w pend fin → (∀ t, w_short w t = None) → ev_kind_meta e = KM_File n →
  let it := (base_entry e, string_take (N.to_nat n) (rd_rest rd)) in
  D (text (pend ++ [it])) → (BlockDir.len (text (pend ++ [it])) < u64_modulus)%N →
  ∃ fc' w' pend' fin', FileCombiner.push_file fc e rd w = (Ret (Ok tt, fc'), w') ∧
    combining D bd mbs fc' w' pend' fin' ∧ (pend' ++ fin' ≡ₚ pend ++ fin ++ [it])%list ∧
    sublist pend' (pend ++ [it]) ∧ only_adds (w_fs w) (w_fs w') ∧ calm w w'.
Proof.
  intros HD Hc Hsh Hk it Ht Hlen. unfold FileCombiner.push_file. cbv zeta.
  assert (Entry.size e w = (Ret (Some n), w)) as Hsz by (destruct e; simpl in *; by subst).
  rewrite (bind_run _ _ _ _ _ Hsz). erewrite bind_run by done.
  rewrite (bind_run _ _ _ _ _ (metadata_from_file e n w Hk)).
  assert (∀ fc w', combining D bd mbs fc w' pend fin → it.2 = "" →
    combining D bd mbs (FileCombiner.finish_empty (base_entry e) fc) w' pend (fin ++ [it])) as Hempty.
  { intros fc0 w0 Hc0 Hit. unfold it in *. cbn [snd] in Hit. rewrite Hit. by apply finish_empty_combining. }
  assert (sublist pend (pend ++ [it])) as Hsub by (by apply sublist_inserts_r).
  assert ((pend ++ fin ++ [it])%list ≡ₚ (pend ++ fin ++ [it])%list) as Hperm by done.
  destruct (N.eqb_spec n 0) as [->|Hn].
  { exists (FileCombiner.finish_empty (base_entry e) fc), w, pend, (fin ++ [it])%list.
    split; [done|]. split; [apply Hempty; [done|by apply string_take_zero]|]. by split. }
  destruct (read_whole rd n w (proj1 (sound_serving _ _ _ (cb_sound _ _ _ _ _ _ _ Hc))) Hsh) as (w1 & Hr & Htk & Hs1).
  rewrite (bind_run _ _ _ _ _ Hr). cbn iota beta. change (string_take (N.to_nat n) (rd_rest rd)) with it.2.
  pose proof (ticked_combining _ _ _ _ _ _ _ _ Htk Hc) as Hc1.
  assert (only_adds (w_fs w) (w_fs w1)) as Ha1 by (destruct Htk as (-> & _); done).
  destruct (N.eqb_spec (BlockDir.len it.2) 0) as [Hz|Hz].
  { assert (it.2 = "") as Hit by (apply string_length_zero; unfold BlockDir.len in Hz; lia). rewrite Hit, string_app_nil_r.
    eexists _, w1, pend, (fin ++ [it])%list. split; [done|]. split; [|by split].
    apply Hempty; [|done]. destruct Hc1. by split. }
  pose proof (enqueue_combining _ _ _ _ _ _ _ (base_entry e) it.2 Hc1) as Hc2.
  change (base_entry e, it.2) with it in Hc2. set (fc2 := FileCombiner.enqueue _ _) in *.
  destruct (_ <=? _)%N.
  - destruct (flush_run D bd mbs fc2 w1 (pend ++ [it]) fin HD Hc2) as (fc3 & w3 & Hfl & Hc3 & Ha3 & Hs3); [done|done|].
    exists fc3, w3, [], (fin ++ pend ++ [it])%list. split; [exact Hfl|]. split; [done|].
    split; [simpl; rewrite !app_assoc; f_equiv; apply Permutation_app_comm|]. split; [apply sublist_nil_l|].
    split; [by etrans|by etrans].
  - exists fc2, w1, (pend ++ [it])%list, fin. split; [done|]. split; [done|]. split; [|by split].
    rewrite <-!app_assoc. f_equiv. apply Permutation_app_comm.
Qed.

(** The files of a group, one after the other *)
Fixpoint push_all (fc : FileCombiner) (files : list (EntryValue * Reader)) : M (result unit Error * FileCombiner) :=
  match files with
  | [] => mret (Ok tt, fc)
  | (e, rd) :: files =>
      '(r, fc) ← FileCombiner.push_file fc e rd;
      match r with Err err => mret (Err err, fc) | Ok _ => push_all fc files end
  end.

(** What a file means: its entry, and its content up to the length in its metadata *)
Definition item_of (f : EntryValue * Reader) : Item :=
  (base_entry f.1, match ev_kind_meta f.1 with KM_File n => string_take (N.to_nat n) (rd_rest f.2) | _ => "" end).

Definition is_file_entry (e : EntryValue) : Prop := ∃ n, ev_kind_meta e = KM_File n.

Lemma sublist_text_len l k : sublist l k → (BlockDir.len (text l) <= BlockDir.len (text k))%N.
Proof.
  induction 1 as [|it l k _ IH|it l k _ IH]; cbn [text]; [done| |]; rewrite !len_app; lia.
Qed.

Lemma push_all_run D bd mbs seen files fc w pend fin :
  let all := (seen ++ (item_of <$> files))%list in
  storable D → combining D bd mbs fc w pend fin → (∀ t, w_short w t = None) →
  Forall (λ f, is_file_entry f.1) files →
  (∀ l, l ≠ [] → sublist l all → D (text l)) → (BlockDir.len (text all) < u64_modulus)%N →
  sublist pend seen → (pend ++ fin ≡ₚ seen)%list →
  ∃ fc' w' pend' fin', push_all fc files w = (Ret (Ok tt, fc'), w') ∧ combining D bd mbs fc' w' pend' fin' ∧
    (pend' ++ fin' ≡ₚ all)%list ∧ sublist pend' all ∧ only_adds (w_fs w) (w_fs w').
Proof.
  revert seen fc w pend fin.
  induction files as [|[e rd] files IH]; intros seen fc w pend fin all HD Hc Hsh Hfiles Hall Hlen Hsub Hp.
  { exists fc, w, pend, fin. unfold all. cbn. rewrite app_nil_r. by split_and!. }
  apply Forall_cons in Hfiles as [[n Hk] Hfiles]. cbn [fst] in Hk. cbn [push_all].
  set (it := (base_entry e, string_take (N.to_nat n) (rd_rest rd))).
  assert (all = (seen ++ [it]) ++ (item_of <$> files))%list as Heq.
  { unfold all. rewrite <-app_assoc. cbn. unfold item_of at 1. cbn [fst snd]. by rewrite Hk. }
  assert (sublist (pend ++ [it]) all) as Hsub'.
  { rewrite Heq. apply sublist_inserts_r. by apply sublist_app. }
  destruct (push_file_run D bd mbs fc w pend fin e n rd HD Hc Hsh Hk) as (fc1 & w1 & pend1 & fin1 & Hr & Hc1 & Hp1 & Hs1 & Ha1 & Hsh1).
  { apply Hall; [|exact Hsub']. by destruct pend. }
  { eapply N.le_lt_trans; [by apply sublist_text_len|exact Hlen]. }
  fold it in Hp1, Hs1. rewrite (bind_run _ _ _ _ _ Hr). cbn iota beta.
  destruct (IH (seen ++ [it])%list fc1 w1 pend1 fin1) as (fc' & w' & pend' & fin' & Hr' & Hc' & Hp' & Hs' & Ha'); try done.
  - by eapply calm_reads.
  - by rewrite <-Heq.
  - by rewrite <-Heq.
  - etrans; [exact Hs1|]. by apply sublist_app.
  - rewrite Hp1, app_assoc, Hp. done.
  - exists fc', w', pend', fin'. rewrite Heq. split; [done|]. split; [done|]. split; [done|]. split; [done|]. by etrans.
Qed.
(** Draining finishes the pending files and hands out all that are finished. *)
Lemma drain_run D bd mbs fc w pend fin :
  storable D → combining D bd mbs fc w pend fin → (pend ≠ [] → D (text pend)) →
  (BlockDir.len (text pend) < u64_modulus)%N →
  ∃ stats es fc' w', FileCombiner.drain fc w = (Ret (Ok (stats, es), fc'), w') ∧ combining D bd mbs fc' w' [] [] ∧
    Forall2 (finished_as bd (w_fs w')) es (fin ++ pend) ∧ only_adds (w_fs w) (w_fs w') ∧ calm w w'.
Proof.
  intros HD Hc Ht Hlen. destruct (flush_run D bd mbs fc w pend fin HD Hc Ht Hlen) as (fc1 & w1 & Hf & Hc1 & Ha & Hsh).
  destruct Hc1 as [Hdir Hmax Hbuf Hq Hfin Hs]. cbn in Hbuf, Hq.
  unfold FileCombiner.drain. rewrite (bind_run _ _ _ _ _ Hf). cbn iota beta. rewrite Hq, Hbuf.
  eexists _, _, _, w1. split; [unfold debug_assert; by destruct debug_assertions|]. split; [by split|]. by split.
Qed.
End combine.

(** C21: combining small files loses and mixes nothing: when the files of a group are
    pushed one after the other and the combiner is drained, without failures and short
    reads, the entries that come out are those of the files, each with the address of
    exactly its own bytes in a block that is on the disk, whatever the block size; what
    was there before stays, and the combiner is empty again. *)
Theorem combined_files_exact `{Ext, !LruLaws, !HashLaws, !HexLaws, !SnapLaws} `{BuildCfg}
    (D : string → Prop) (bd : BlockDir) (mbs : N) (files : list (EntryValue * Reader)) (w : World)
    (HD : storable D) (Hs : sound D bd w) (Hsh : ∀ t, w_short w t = None)
    (Hfiles : Forall (λ f, is_file_entry f.1) files)
    (Hall : ∀ l, l ≠ [] → sublist l (item_of <$> files) → D (text l))
    (Hlen : (BlockDir.len (text (item_of <$> files)) < u64_modulus)%N) :
  ∃ fc1 w1, push_all (FileCombiner.new bd mbs) files w = (Ret (Ok tt, fc1), w1) ∧
    ∃ stats es fc2 w2, FileCombiner.drain fc1 w1 = (Ret (Ok (stats, es), fc2), w2) ∧
      fc_buf fc2 = "" ∧ fc_queue fc2 = [] ∧ fc_finished fc2 = [] ∧
      sound D bd w2 ∧ only_adds (w_fs w) (w_fs w2) ∧
      ∃ items, items ≡ₚ (item_of <$> files) ∧ Forall2 (finished_as bd (w_fs w2)) es items.
Proof.
  assert (combining D bd mbs (FileCombiner.new bd mbs) w [] []) as Hc0 by (by split).
  destruct (push_all_run D bd mbs [] files _ w [] [] HD Hc0 Hsh Hfiles Hall Hlen) as
    (fc1 & w1 & pend & fin & Hr & Hc1 & Hp & Hsub & Ha); [done|done|].
  exists fc1, w1. split; [done|].
  destruct (drain_run D bd mbs fc1 w1 pend fin HD Hc1) as (stats & es & fc2 & w2 & Hd & Hc2 & Hes & Ha2 & _).
  { intros Hne. by apply Hall. }
  { eapply N.le_lt_trans; [by apply sublist_text_len|exact Hlen]. }
  exists stats, es, fc2, w2. split; [done|]. split; [apply Hc2|]. split; [apply Hc2|].
  split; [by apply Forall2_nil_inv_r with (1 := cb_finished _ _ _ _ _ _ _ Hc2)|]. split; [apply Hc2|]. split; [by etrans|].
  exists (fin ++ pend)%list. split; [by rewrite (Permutation_app_comm fin)|done].
Qed.

(** ** Examples *)

#[local] Existing Instances sample_ext sample_build sample_hash_laws sample_hex_laws sample_snap_laws sample_lru_laws.

Definition sample_file (a : string) (content : string) : EntryValue * Reader :=
  (MkEntryValue (MkApath a) (KM_File (BlockDir.len content)) (MkTime 10 0) (UnixMode.from 420) (MkOwner None None),
   MkReader content).

(** Two files are pushed, the second whatever becomes of the first, and the combiner is
    drained. *)
Definition push_both (fc : FileCombiner) (f g : EntryValue * Reader) :
    M (result unit Error * result unit Error * result (list IndexEntry) Error) :=
  '(r1, fc) ← FileCombiner.push_file fc f.1 f.2;
  '(r2, fc) ← FileCombiner.push_file fc g.1 g.2;
  '(r3, _) ← FileCombiner.drain fc;
  mret (r1, r2, map_ok snd r3).


Definition sample_small_files : list (EntryValue * Reader) := [sample_file "/f" "he"; sample_file "/g" "lo"].

Lemma combined_files_exact_witness :
  ∃ fc1 w1, push_all (FileCombiner.new sample_blockdir 100) sample_small_files (world_of sample_blockdir_fs)
      = (Ret (Ok tt, fc1), w1) ∧
    ∃ stats es fc2 w2, FileCombiner.drain fc1 w1 = (Ret (Ok (stats, es), fc2), w2) ∧
      fc_buf fc2 = "" ∧ fc_queue fc2 = [] ∧ fc_finished fc2 = [] ∧
      sound (λ s, s ∈ ["he"; "lo"; "helo"]) sample_blockdir w2 ∧ only_adds sample_blockdir_fs (w_fs w2) ∧
      ∃ items, items ≡ₚ (item_of <$> sample_small_files) ∧ Forall2 (finished_as sample_blockdir (w_fs w2)) es items.
Proof.
  apply (combined_files_exact (λ s, s ∈ ["he"; "lo"; "helo"]) sample_blockdir 100 sample_small_files
    (world_of sample_blockdir_fs)).
  - apply storable_list. apply (bool_decide_unpack _). vm_compute. reflexivity.
  - apply sample_sound.
  - done.
  - repeat constructor; by eexists.
  - intros l Hl Hs. apply sublist_cons_r in Hs as [Hs|(l' & -> & Hs)];
      apply sublist_cons_r in Hs as [Hs|(l'' & -> & Hs)]; apply sublist_nil_r in Hs as ->; try done;
      cbn; set_solver.
  - vm_compute. reflexivity.
Defined.
