(* ===== verification/Restore.v ===== *)
(** * Restores (src/restore.rs)

    Writing a stored tree to a directory of the file system, with the ownership,
    permissions and times of directories applied at the end; and the application
    of owners and modes (src/owner/unix.rs, src/unix_mode.rs). *)

From Stdlib Require Import Ascii.
From S2P Require Import Prelude Text Apath Externals Ids Entry Counters Errors World Transport.
From S2P Require Import Sample SampleWorld Excludes Jsonio BlockDir BlockStore Index Archive Footprint Stitch.
From S2P Require Import LiveTree Backup.
From stdpp Require Import list gmap strings.

(** ** Definitions *)

Record RestoreOptions `{Ext} : Type := MkRestoreOptions {
  ro_exclude : Exclude;
  ro_only_subtree : option Apath;
  ro_overwrite : bool;
  ro_band_selection : BandSelectionPolicy;
  ro_change_callback : option (EntryChange → M (result unit Error))
}.

Definition default_restore_options `{Ext} : RestoreOptions :=
  MkRestoreOptions _ Exclude.nothing None false LatestClosed None.

Record DirDeferral : Type := MkDirDeferral {
  dd_path : Path;
  dd_unix_mode : UnixMode;
  dd_mtime : OffsetDateTime;
  dd_owner : Owner
}.

Module Restore.
Section restore.
Context `{Ext} `{BuildCfg} `{Codecs}.

(** [Owner::set_owner(path)] on Unix: not being permitted is no error. *)
Definition set_owner (owner : Owner) (path : Path) : M (result unit IoKind) :=
  let '(uid_opt, gid_opt) := Owner.ids owner in
  r ← sys_lchown path uid_opt gid_opt;
  mret (match r with Err Io_PermissionDenied => Ok tt | _ => r end).

(** [UnixMode::set_permissions(path)] *)
Definition set_permissions (mode : UnixMode) (path : Path) : M (result unit IoKind) :=
  match mode_bits mode with
  | Some m => sys_set_permissions path m
  | None => mret (Ok tt)
  end.

(** Reporting an error and going on *)
Definition report {A} (f : IoKind → Error) (r : result A IoKind) : M unit :=
  match r with Err source => monitor_error (f source) | Ok _ => mret tt end.

Definition apply_deferral (d : DirDeferral) : M unit :=
  r ← set_owner (dd_owner d) (dd_path d);
  _ ← report (RestoreOwnership (dd_path d)) r;
  r ← set_permissions (dd_unix_mode d) (dd_path d);
  _ ← report (RestorePermissions (dd_path d)) r;
  r ← sys_set_mtime (dd_path d) (to_file_time (dd_mtime d));
  report (RestoreModificationTime (dd_path d)) r.

Definition apply_deferrals (deferrals : list DirDeferral) : M (result unit Error) :=
  _ ← for_each deferrals apply_deferral; mret (Ok tt).

(** The loop of [restore_file] over the addresses *)
Definition restore_content (path : Path) (a : Apath) (addrs : list Address) (block_dir : BlockDir) :
    M (result unit Error) :=
  try_fold (λ _ addr,
    r ← BlockDir.read_address block_dir addr;
    match r with
    | Err source => mret (Err (RestoreFileBlock a (a_hash addr) source))
    | Ok bytes =>
        r ← sys_write_all path bytes;
        match r with
        | Err err => mret (Err (RestoreFile path err))
        | Ok _ => _ ← monitor_count FileBytes (BlockDir.len bytes); mret (Ok tt)
        end
    end) tt addrs.

Definition restore_file (path : Path) (source_entry : IndexEntry) (block_dir : BlockDir) :
    M (result unit Error) :=
  r ← sys_open_truncate path;
  match r with
  | Err err => mret (Err (RestoreFile path err))
  | Ok _ =>
      _ ←? restore_content path (ie_apath source_entry) (ie_addrs source_entry) block_dir;
      m ← mtime source_entry;
      r ← sys_set_mtime path (to_file_time m);
      match r with
      | Err source => mret (Err (RestoreModificationTime path source))
      | Ok _ =>
          r ← set_permissions (ie_unix_mode source_entry) path;
          _ ← report (RestorePermissions path) r;
          r ← set_owner (ie_owner source_entry) path;
          _ ← report (RestoreOwnership path) r;
          mret (Ok tt)
      end
  end.

Definition restore_symlink (path : Path) (entry : IndexEntry) : M (result unit Error) :=
  match symlink_target entry with
  | None => mret (Err (InvalidMetadata ("No target in symlink entry " +:+ apath_str (ie_apath entry))))
  | Some target =>
      r ← sys_symlink target path;
      match r with
      | Err source => mret (Err (RestoreSymlink path source))
      | Ok _ =>
          r ← set_owner (ie_owner entry) path;
          match r with
          | Err source => mret (Err (RestoreOwnership path source))
          | Ok _ =>
              m ← mtime entry;
              r ← sys_set_mtime path (to_file_time m);
              mret (map_err (RestoreModificationTime path) r)
          end
      end
  end.

(** The callback at the end of the loop body *)
Definition restored (options : RestoreOptions) (entry : IndexEntry) (deferrals : list DirDeferral) :
    M (result (list DirDeferral) Error) :=
  match ro_change_callback options with
  | Some cb => c ← EntryChange.added entry; _ ←? cb c; mret (Ok deferrals)
  | None => mret (Ok deferrals)
  end.

(** The body of the loop: an entry that fails is reported and passed over. *)
Definition restore_entry (destination : Path) (block_dir : BlockDir) (options : RestoreOptions)
    (deferrals : list DirDeferral) (entry : IndexEntry) : M (result (list DirDeferral) Error) :=
  rel ← expect (slice_from 1 (apath_str (ie_apath entry)));
  let path := path_join destination rel in
  match ie_kind entry with
  | Kind_Dir =>
      _ ← monitor_count Dirs 1;
      r ← (if decide (ie_apath entry = Apath.root) then mret (Ok tt) else sys_create_dir_all path);
      match (match r with Err Io_AlreadyExists => Ok tt | _ => r end) with
      | Err err => _ ← monitor_error (RestoreDirectory path err); mret (Ok deferrals)
      | Ok _ =>
          m ← mtime entry;
          restored options entry
            (deferrals ++ [MkDirDeferral path (ie_unix_mode entry) m (ie_owner entry)])%list
      end
  | Kind_File =>
      _ ← monitor_count Files 1;
      r ← restore_file path entry block_dir;
      match r with
      | Err err => _ ← monitor_error err; mret (Ok deferrals)
      | Ok _ => restored options entry deferrals
      end
  | Kind_Symlink =>
      _ ← monitor_count Symlinks 1;
      r ← restore_symlink path entry;
      match r with
      | Err err => _ ← monitor_error err; mret (Ok deferrals)
      | Ok _ => restored options entry deferrals
      end
  | Kind_Unknown =>
      _ ← monitor_error (InvalidMetadata ("Unknown file kind " +:+ apath_str (ie_apath entry)));
      restored options entry deferrals
  end.

(** [restore(archive, destination, options)] *)
Definition restore (archive : Archive) (destination : Path) (options : RestoreOptions) :
    M (result unit Error) :=
  st ←? open_stored_tree archive (ro_band_selection options);
  r ← ensure_dir_exists destination;
  match r with
  | Err e => mret (Err (IOError e))
  | Ok _ =>
      r ← (if ro_overwrite options then mret (Ok true) else directory_is_empty destination);
      match r with
      | Err e => mret (Err (IOError e))
      | Ok false => mret (Err DestinationNotEmpty)
      | Ok true =>
          let entry_iter :=
            StoredTree.iter_entries st (default Apath.root (ro_only_subtree options))
              (ro_exclude options) in
          deferrals ←? IndexEntryIter.for_entries
                         (restore_entry destination (ar_block_dir archive) options) [] entry_iter;
          apply_deferrals deferrals
      end
  end.

End restore.
End Restore.

(** ** Restoring a file *)

Section restore_exact.
Context `{Ext, !LruLaws, !HashLaws, !HexLaws} `{BuildCfg}.

(** The path is not one where the block directory keeps blocks. *)
Definition apart (bd : BlockDir) (path : Path) : Prop := ∀ h, block_path bd h ≠ path.

Lemma intact_elsewhere bd path n fs h d :
  apart bd path → intact bd (<[path := n]> fs) h d ↔ intact bd fs h d.
Proof. intros Ha. unfold intact. by rewrite lookup_insert_ne by (symmetry; apply Ha). Qed.

Lemma part_ok_elsewhere bd path n fs a d :
  apart bd path → part_ok bd (<[path := n]> fs) a d ↔ part_ok bd fs a d.
Proof. intros Ha. unfold part_ok. by rewrite intact_elsewhere. Qed.

Lemma parts_ok_elsewhere bd path n fs addrs ds :
  apart bd path → Forall2 (part_ok bd fs) addrs ds → Forall2 (part_ok bd (<[path := n]> fs)) addrs ds.
Proof. intros Ha Hp. eapply Forall2_impl; [exact Hp|]. intros a d. by apply part_ok_elsewhere. Qed.

(** Blocks are served as before when only such a path has changed. *)
Lemma serving_elsewhere bd path n w w' :
  apart bd path → serving bd w → w_fs w' = <[path := n]> (w_fs w) → w_faults w' = w_faults w →
  w_blockdirs w' = w_blockdirs w → serving bd w'.
Proof.
  intros Ha [Hf Hs] Hfs Hff Hb. split; [intros t; by rewrite Hff|].
  intros h c d. unfold cached. rewrite Hb, Hfs, intact_elsewhere by done. apply Hs.
Qed.

Lemma write_all_run path s c m w :
  fault_free w → w_fs w !! path = Some (NFile c m) →
  sys_write_all path s w
  = (Ret (Ok tt), tick (with_fs (λ _, <[path := NFile (c +:+ s) m]> (w_fs w)) w)).
Proof.
  intros Hf Hn. unfold sys_write_all. rewrite syscall_run by apply Hf. unfold fs_append. by rewrite Hn.
Qed.

(** The monitor is told of no errors. *)
Definition same_errors : relation World := λ w w', w_errors w' = w_errors w.

#[export] Instance same_errors_mute : Mute same_errors.
Proof. split; [|done..]. split; [by intros w|]. intros a b c Hab Hbc. unfold same_errors in *. congruence. Qed.

Lemma read_address_errors bd a : respects same_errors (BlockDir.read_address bd a).
Proof.
  unfold BlockDir.read_address, BlockDir.get_block_content, BlockDir.state, BlockDir.slice.
  assert (∀ f, respects same_errors (BlockDir.update bd f)) as Hu by done.
  pose proof (block_relpath_respects same_errors). solve_respects.
Qed.

Lemma restore_content_run bd path a addrs ds c m w :
  apart bd path → serving bd w → Forall2 (part_ok bd (w_fs w)) addrs ds →
  w_fs w !! path = Some (NFile c m) →
  ∃ w', Restore.restore_content path a addrs bd w = (Ret (Ok tt), w') ∧ serving bd w' ∧ w_errors w' = w_errors w ∧
    w_fs w' = <[path := NFile (c +:+ parts addrs ds) m]> (w_fs w).
Proof.
  intros Ha Hs Hds. revert c w Hs Hds.
  induction addrs as [|ad addrs IH] in ds |- *; intros c w Hs Hds Hn;
    [apply Forall2_nil_inv_l in Hds as ->|apply Forall2_cons_inv_l in Hds as (d & ds' & Hd & Hds & ->)].
  { exists w. split; [done|]. split; [done|]. split; [done|]. simpl. by rewrite string_app_nil_r, insert_id. }
  destruct (read_address_intact bd ad d w Hs Hd) as (w1 & Hr & Hfs & Hs1).
  pose proof (read_address_errors bd ad w) as He1. rewrite Hr in He1. cbn [snd] in He1.
  pose proof (write_all_run path (part ad d) c m w1 (proj1 Hs1)) as Hw.
  rewrite Hfs in Hw. specialize (Hw Hn).
  match type of Hw with _ = (_, ?x) => set (w2 := x) in Hw end.
  set (w3 := with_counters (λ s, Counters.count s FileBytes (BlockDir.len (part ad d))) w2).
  destruct (IH ds' (c +:+ part ad d) w3) as (w4 & Hl & Hs4 & He4 & Hfs4).
  - apply (serving_elsewhere bd path (NFile (c +:+ part ad d) m) w1); try done. by rewrite Hfs.
  - by apply parts_ok_elsewhere.
  - apply lookup_insert_eq.
  - exists w4. unfold Restore.restore_content in *. cbn [try_fold]. split.
    + erewrite try_run; [exact Hl|]. rewrite (bind_run _ _ _ _ _ Hr). cbn iota.
      rewrite (bind_run _ _ _ _ _ Hw). cbn iota. by erewrite bind_run by apply modify_run.
    + split; [done|]. split; [by rewrite He4|]. rewrite Hfs4. simpl. by rewrite insert_insert_eq, string_app_assoc.
Qed.

Lemma set_meta_run path f n w :
  fault_free w → w_fs w !! path = Some n →
  sys_write (λ w, fs_set_meta path f (w_fs w)) w
  = (Ret (Ok tt), tick (with_fs (λ _, <[path := with_meta f n]> (w_fs w)) w)).
Proof. intros Hf Hn. rewrite sys_write_run by done. unfold fs_set_meta. by rewrite Hn. Qed.

(** The metadata that a restored node gets; what the archive does not say stays as it
    was when the node was made. *)
Definition restored_meta (e : IndexEntry) (t : OffsetDateTime) (m : Meta) : Meta :=
  let '(uid, gid) := Owner.ids (ie_owner e) in
  MkMeta (default (m_mode m) (mode_bits (ie_unix_mode e))) (MkTime (unix_timestamp t) (nanosecond t))
    (default (m_uid m) uid) (default (m_gid m) gid).

Definition set_mode (mode : UnixMode) (m : Meta) : Meta :=
  MkMeta (default (m_mode m) (mode_bits mode)) (m_mtime m) (m_uid m) (m_gid m).

Definition set_ids (owner : Owner) (m : Meta) : Meta :=
  let '(uid, gid) := Owner.ids owner in
  MkMeta (m_mode m) (m_mtime m) (default (m_uid m) uid) (default (m_gid m) gid).

Lemma set_permissions_run mode path n w :
  fault_free w → w_fs w !! path = Some n →
  ∃ w', Restore.set_permissions mode path w = (Ret (Ok tt), w') ∧ frame w w' ∧
    w_fs w' = <[path := with_meta (set_mode mode) n]> (w_fs w).
Proof.
  intros Hf Hn. unfold Restore.set_permissions, set_mode. destruct (mode_bits mode) as [b|].
  - unfold sys_set_permissions. rewrite (set_meta_run _ _ _ _ Hf Hn). by eexists.
  - exists w. split; [done|]. split; [done|]. simpl. rewrite insert_id; [done|]. rewrite Hn. by destruct n as [? []|[]|? []|[]].
Qed.

Lemma set_owner_run owner path n w :
  fault_free w → w_fs w !! path = Some n →
  ∃ w', Restore.set_owner owner path w = (Ret (Ok tt), w') ∧ frame w w' ∧
    w_fs w' = <[path := with_meta (set_ids owner) n]> (w_fs w).
Proof.
  intros Hf Hn. unfold Restore.set_owner, set_ids. destruct (Owner.ids owner) as [uid gid].
  unfold sys_lchown. erewrite bind_run by apply (set_meta_run _ _ _ _ Hf Hn). by eexists.
Qed.

Lemma open_truncate_run path w :
  fault_free w → w_fs w !! path = None → is_dir_node (w_fs w !! parent path) = true →
  sys_open_truncate path w
  = (Ret (Ok tt), tick (with_fs (λ _, <[path := NFile "" (new_meta 420 w)]> (w_fs w)) w)).
Proof.
  intros Hf Hn Hp. unfold sys_open_truncate. rewrite sys_write_run by done.
  unfold fs_open_truncate. by rewrite Hn, Hp.
Qed.

Lemma restore_file_run bd path e ds t w :
  apart bd path → serving bd w → Forall2 (part_ok bd (w_fs w)) (ie_addrs e) ds →
  w_fs w !! path = None → is_dir_node (w_fs w !! parent path) = true →
  (∀ w : World, mtime e w = (Ret t, w)) →
  ∃ w', Restore.restore_file path e bd w = (Ret (Ok tt), w') ∧ serving bd w' ∧ w_errors w' = w_errors w ∧
    w_fs w' = <[path := NFile (parts (ie_addrs e) ds) (restored_meta e t (new_meta 420 w))]> (w_fs w).
Proof.
  intros Ha Hs Hds Hn Hp Ht. unfold Restore.restore_file.
  rewrite (bind_run _ _ _ _ _ (open_truncate_run path w (proj1 Hs) Hn Hp)). cbn iota.
  set (w1 := tick _).
  assert (serving bd w1) as Hs1 by (by eapply (serving_elsewhere bd path _ w)).
  destruct (restore_content_run bd path (ie_apath e) (ie_addrs e) ds "" (new_meta 420 w) w1)
    as (w2 & Hr & Hs2 & He2 & Hfs2); [done|done|by apply parts_ok_elsewhere|apply lookup_insert_eq|].
  erewrite try_run by exact Hr. rewrite (bind_run _ _ _ _ _ (Ht w2)).
  change (w_fs w1) with (<[path := NFile "" (new_meta 420 w)]> (w_fs w)) in Hfs2.
  rewrite insert_insert_eq in Hfs2. change ("" +:+ ?s) with s in Hfs2.
  assert (w_fs w2 !! path = Some (NFile (parts (ie_addrs e) ds) (new_meta 420 w))) as Hn2
    by (rewrite Hfs2; apply lookup_insert_eq).
  unfold sys_set_mtime. rewrite (bind_run _ _ _ _ _ (set_meta_run _ _ _ _ (proj1 Hs2) Hn2)). cbn iota.
  set (w3 := tick _). cbn [with_meta] in w3.
  assert (serving bd w3) as Hs3 by (by eapply (serving_elsewhere bd path _ w2)).
  destruct (set_permissions_run (ie_unix_mode e) path (NFile (parts (ie_addrs e) ds)
    (MkMeta 420 (MkTime (unix_timestamp t) (nanosecond t)) 0 0)) w3 (proj1 Hs3))
    as (w4 & Hr4 & Hfr4 & Hfs4); [apply lookup_insert_eq|]. cbn [with_meta] in Hfs4.
  rewrite (bind_run _ _ _ _ _ Hr4). cbn [Restore.report]. erewrite bind_run by done.
  assert (serving bd w4) as Hs4 by (destruct Hfr4; by eapply (serving_elsewhere bd path _ w3)).
  edestruct (set_owner_run (ie_owner e) path) as (w5 & Hr5 & Hfr5 & Hfs5);
    [exact (proj1 Hs4)|rewrite Hfs4; apply lookup_insert_eq|]. cbn [with_meta] in Hfs5.
  rewrite (bind_run _ _ _ _ _ Hr5). cbn [Restore.report]. erewrite bind_run by done.
  exists w5. split; [done|]. split; [destruct Hfr5; by eapply (serving_elsewhere bd path _ w4)|].
  split; [by rewrite (frame_errors _ _ Hfr5), (frame_errors _ _ Hfr4)|].
  rewrite Hfs5, Hfs4. unfold w3, restored_meta, set_ids. cbn. rewrite Hfs2, !insert_insert_eq.
  by destruct (Owner.ids (ie_owner e)).
Qed.

(** Restoring a file is exact: from intact blocks, and without failures, it succeeds
    and makes at the path exactly the bytes that the addresses of the entry mean, one
    after the other, with the modification time, the mode and the owner of the entry
    as far as it has them; nothing else in the file system changes. *)
Theorem restore_file_exact (bd : BlockDir) (path : Path) (e : IndexEntry) (ds : list string)
    (t : OffsetDateTime) (w : World) (Ha : apart bd path) (Hs : serving bd w)
    (Hds : Forall2 (part_ok bd (w_fs w)) (ie_addrs e) ds) (Hn : w_fs w !! path = None)
    (Hp : is_dir_node (w_fs w !! parent path) = true) (Ht : ∀ w : World, mtime e w = (Ret t, w)) :
  ∃ w', Restore.restore_file path e bd w = (Ret (Ok tt), w') ∧
    w_fs w' = <[path := NFile (parts (ie_addrs e) ds) (restored_meta e t (new_meta 420 w))]> (w_fs w).
Proof. destruct (restore_file_run bd path e ds t w) as (w' & ? & _ & _ & ?); eauto. Qed.
End restore_exact.

(** ** From a file to a file *)

Section round_trip.
Context `{Ext, !LruLaws, !HashLaws, !HexLaws, !SnapLaws} `{BuildCfg}.

Lemma part_ok_transport bd bd2 fs a d :
  bd_transport bd2 = bd_transport bd → part_ok bd fs a d → part_ok bd2 fs a d.
Proof. intros Ht. unfold part_ok, intact, block_path. by rewrite Ht. Qed.

(** C5: what is backed up is what is restored: the content of a file, stored in a sound
    directory, is restored byte for byte by every later process that opens the same
    directory, whatever has been added to the file system in between. *)
Theorem stored_file_restored (D : string → Prop) (a : Apath) (rd : Reader) (bd : BlockDir)
    (stats : BackupStats) (mbs : N) (w : World)
    (HD : storable D) (Hmbs : (0 < mbs < u64_modulus)%N) (Hch : pieces_in D mbs (rd_rest rd)) (Hs : sound D bd w) :
  ∃ addrs stats' w', store_file_content a rd bd stats mbs w = (Ret (Ok addrs, stats'), w') ∧
    ∀ bd2 w2 path e t,
      bd_transport bd2 = bd_transport bd → only_adds (w_fs w') (w_fs w2) → serving bd2 w2 →
      ie_addrs e = addrs → (∀ w : World, mtime e w = (Ret t, w)) →
      apart bd2 path → w_fs w2 !! path = None → is_dir_node (w_fs w2 !! parent path) = true →
      ∃ w3, Restore.restore_file path e bd2 w2 = (Ret (Ok tt), w3) ∧
        w_fs w3 = <[path := NFile (rd_rest rd) (restored_meta e t (new_meta 420 w2))]> (w_fs w2).
Proof.
  destruct (store_file_content_run D a rd bd stats mbs w HD Hmbs Hch Hs)
    as (addrs & ds & stats' & w' & Hr & _ & _ & Hds & _ & Hp).
  exists addrs, stats', w'. split; [done|]. intros bd2 w2 path e t Htr Hadd Hsv He Ht Ha Hn Hd.
  destruct (restore_file_run bd2 path e ds t w2) as (w3 & Hr3 & _ & _ & Hfs3); try done.
  - rewrite He. eapply Forall2_impl; [exact Hds|]. intros x d Hx.
    apply (part_ok_transport bd); [done|]. by eapply part_ok_adds.
  - exists w3. split; [done|]. by rewrite Hfs3, He, Hp.
Qed.
End round_trip.

(** ** What a restore touches *)

(** Making a directory and those above it only adds. *)
Lemma make_dirs_preserves (P : Path → Prop) ps m (fs : Fs) :
  Forall (λ p, fs !! p = None) ps → preserves P fs (fs_make_dirs ps m fs).
Proof.
  intros Hps q n Pq Hq. unfold fs_make_dirs. assert (q ∉ ps) as Hn.
  { intros Hi. rewrite Forall_forall in Hps. apply Hps in Hi. congruence. }
  clear Hps. revert fs Hq. induction ps as [|p ps IH]; intros fs Hq; simpl; [done|].
  apply not_elem_of_cons in Hn as [Hp Hn]. apply IH; [done|]. by rewrite lookup_insert_ne.
Qed.

Lemma create_dir_all_preserves (P : Path → Prop) p m (fs fs' : Fs) :
  fs_create_dir_all p m fs = Ok fs' → preserves P fs fs'.
Proof.
  unfold fs_create_dir_all. destruct (fs !! p) as [[]|]; try done; [by intros [= <-]|].
  destruct (absent_kind fs p); try done. intros [= <-]. apply make_dirs_preserves.
  unfold fs_missing_dirs. apply Forall_forall. by intros k [Hk _]%list_elem_of_filter.
Qed.

Lemma sys_create_dir_all_respects `{Ext} P p : respects (fs_rel (preserves P)) (sys_create_dir_all p).
Proof.
  apply syscall_respects; [apply _| |reflexivity]. intros w [] fs'. unfold map_ok.
  destruct (fs_create_dir_all _ _ _) eqn:E; [|done]. intros [= <-]. by eapply create_dir_all_preserves.
Qed.

(** A restore respects every relation that lets it write inside the destination, and
    make directories there. *)
Section writes_inside.
Context `{Ext} `{BuildCfg} `{Codecs} (destination : Path).

Definition inside (p : Path) : Prop := destination `prefix_of` p.

Context (R : relation Fs) `{!Writable R inside}
  (Hdirs : ∀ p, inside p → respects (fs_rel R) (sys_create_dir_all p)).

#[local] Abbreviation Kept := (fs_rel R).

Section path.
Context (path : Path) (Hp : inside path).

Lemma set_mtime_respects t : respects Kept (sys_set_mtime path t).
Proof. by apply (sys_set_meta_within R inside). Qed.

Lemma set_owner_respects o : respects Kept (Restore.set_owner o path).
Proof.
  unfold Restore.set_owner. destruct (Owner.ids o) as [u g].
  assert (respects Kept (sys_lchown path u g)) by (by apply (sys_set_meta_within R inside)). solve_respects.
Qed.

Lemma set_permissions_respects m : respects Kept (Restore.set_permissions m path).
Proof.
  unfold Restore.set_permissions. destruct (mode_bits m) as [b|]; [by apply (sys_set_meta_within R inside)|solve_respects].
Qed.

Lemma report_respects {A} f (r : result A IoKind) : respects Kept (Restore.report f r).
Proof. unfold Restore.report. solve_respects. Qed.

Lemma restore_content_respects a addrs bd : respects Kept (Restore.restore_content path a addrs bd).
Proof.
  unfold Restore.restore_content. pose proof (sys_write_all_within R inside path Hp). solve_respects.
Qed.

Lemma restore_file_respects e bd : respects Kept (Restore.restore_file path e bd).
Proof.
  unfold Restore.restore_file. pose proof (sys_open_truncate_within R inside path Hp).
  pose proof set_mtime_respects. pose proof set_owner_respects. pose proof set_permissions_respects.
  pose proof (index_entry_mtime_respects Kept). pose proof restore_content_respects.
  pose proof (@report_respects unit). solve_respects.
Qed.

Lemma restore_symlink_respects e : respects Kept (Restore.restore_symlink path e).
Proof.
  unfold Restore.restore_symlink. pose proof (λ t, sys_create_within R inside path Hp (λ w, NSymlink t (new_meta 511 w)) : respects Kept (sys_symlink t path)).
  pose proof set_mtime_respects. pose proof set_owner_respects.
  pose proof (index_entry_mtime_respects Kept). solve_respects.
Qed.

Lemma apply_deferral_respects d : dd_path d = path → respects Kept (Restore.apply_deferral d).
Proof.
  intros Hd. unfold Restore.apply_deferral. rewrite Hd.
  pose proof set_mtime_respects. pose proof set_owner_respects. pose proof set_permissions_respects.
  pose proof (@report_respects unit). solve_respects.
Qed.
End path.

(** Deferred work for directories inside *)
Definition deferred_inside (ds : list DirDeferral) : Prop := Forall (λ d, inside (dd_path d)) ds.

Lemma apply_deferrals_respects ds : deferred_inside ds → respects Kept (Restore.apply_deferrals ds).
Proof.
  intros Hd. unfold Restore.apply_deferrals. apply respects_bind; [apply _| |intros; apply respects_ret; apply _].
  induction Hd as [|d ds Hp _ IH]; cbn [for_each]; [apply respects_ret; apply _|].
  apply respects_bind; [apply _|by eapply apply_deferral_respects|done].
Qed.

(** The path of a valid entry *)
Lemma valid_path_inside a rel (w w' : World) :
  Apath.is_valid (apath_str a) = true → expect (slice_from 1 (apath_str a)) w = (Ret rel, w') →
  inside (path_join destination rel).
Proof.
  intros (ns & Hv & ->)%is_valid_names Hr.
  assert (Apath.below (of_names ns) destination = Some (path_join destination rel)) as Hb.
  { unfold Apath.below. destruct (slice_from 1 _); [|done]. by injection Hr as -> _. }
  unfold Apath.below, slice_from in Hb. destruct (_ <? _)%nat; [done|]. destruct (starts_with_continuation _); [done|].
  simpl in Hb. injection Hb as <-. change (string_drop 0 ?s) with s. simpl.
  rewrite path_join_names by done. by apply prefix_app_r.
Qed.

Section callback.
Context (options : RestoreOptions)
  (Hcb : ∀ cb, ro_change_callback options = Some cb → ∀ c, respects Kept (cb c)).

#[local] Abbreviation Guarded := (guarded Kept (deferred_inside)).

#[local] Ltac guard_bind := apply guarded_bind; [apply _| |].
#[local] Ltac guard_ok := apply guarded_ok; [apply _|done].

Lemma restored_guarded e ds : deferred_inside ds → Guarded (Restore.restored options e ds).
Proof.
  intros Hd. unfold Restore.restored. destruct (ro_change_callback options) as [cb|] eqn:E.
  - pose proof (Hcb cb eq_refl) as Hc. guard_bind.
    + unfold EntryChange.added, EntryMetadata_from, KindMetadata_from. pose proof (index_entry_mtime_respects Kept).
      pose proof (index_entry_size_respects Kept). solve_respects.
    + intros c _ _ _. unfold try. guard_bind; [apply Hc|]. intros [u|err] _ _ _; [guard_ok|].
      intros w. split; [reflexivity|done].
  - guard_ok.
Qed.

Lemma restore_entry_guarded bd ds e :
  deferred_inside ds → Apath.is_valid (apath_str (ie_apath e)) = true →
  Guarded (Restore.restore_entry destination bd options ds e).
Proof.
  intros Hd Hv. unfold Restore.restore_entry.
  guard_bind; [solve_respects|]. intros rel w w' Hrel. cbv zeta.
  pose proof (valid_path_inside _ _ _ _ Hv Hrel) as Hp. clear Hrel w w'.
  set (path := path_join destination rel) in *. pose proof (restored_guarded e ds Hd) as Hr.
  destruct (ie_kind e).
  - guard_bind; [solve_respects|]. intros [] _ _ _. guard_bind.
    { pose proof (restore_file_respects path Hp). solve_respects. }
    intros [[]|err] _ _ _; [done|]. guard_bind; [solve_respects|]. intros [] _ _ _. guard_ok.
  - guard_bind; [solve_respects|]. intros [] _ _ _. guard_bind.
    { case_decide; [solve_respects|by apply Hdirs]. }
    intros r _ _ _. destruct (match r with Err Io_AlreadyExists => Ok tt | _ => r end) as [[]|err].
    + guard_bind; [apply index_entry_mtime_respects; apply _|]. intros m _ _ _.
      apply restored_guarded. apply Forall_app. split; [done|]. by repeat constructor.
    + guard_bind; [solve_respects|]. intros [] _ _ _. guard_ok.
  - guard_bind; [solve_respects|]. intros [] _ _ _. guard_bind.
    { pose proof (restore_symlink_respects path Hp). solve_respects. }
    intros [[]|err] _ _ _; [done|]. guard_bind; [solve_respects|]. intros [] _ _ _. guard_ok.
  - guard_bind; [solve_respects|]. by intros [] _ _ _.
Qed.

Lemma restore_respects archive : respects Kept (Restore.restore archive destination options).
Proof.
  unfold Restore.restore. apply respects_try; [apply _|apply open_stored_tree_reading; apply _|]. intros st.
  apply respects_bind; [apply _| |].
  { unfold ensure_dir_exists, sys_create_dir. apply respects_bind; [apply _| |solve_respects].
    apply (sys_create_within R inside); by exists []; rewrite app_nil_r. }
  intros [[]|err]; [|solve_respects]. apply respects_bind; [apply _| |].
  { unfold directory_is_empty, sys_read_dir. solve_respects. }
  intros [[]|err]; [|solve_respects..]. cbv zeta.
  pose proof (for_entries_guarded Kept (deferred_inside)
    (Restore.restore_entry destination (ar_block_dir archive) options) (restore_entry_guarded _) []
    (StoredTree.iter_entries st (default Apath.root (ro_only_subtree options)) (ro_exclude options))
    (Forall_nil_2 _)) as Hg.
  intros w. unfold try, mbind, ST_bind. specialize (Hg w) as [Hr Hd].
  destruct (IndexEntryIter.for_entries _ _ _ w) as [[[ds|e]| | |] w']; simpl in *; try done.
  etrans; [exact Hr|]. apply apply_deferrals_respects. by apply Hd.
Qed.
End callback.
End writes_inside.

(** What is outside the destination is preserved, and what is neither above it nor in it
    stays the same. *)
Section touches.
Context `{Ext} `{BuildCfg} `{Codecs} (destination : Path) (options : RestoreOptions).

Definition outside (p : Path) : Prop := ¬ inside destination p.

Definition around (p : Path) : Prop := inside destination p ∨ p `prefix_of` destination.

Lemma restore_preserves archive :
  (∀ cb, ro_change_callback options = Some cb → ∀ c, respects (fs_rel (preserves outside)) (cb c)) →
  respects (fs_rel (preserves outside)) (Restore.restore archive destination options).
Proof.
  intros Hcb. assert (Writable (preserves outside) (inside destination)).
  { eapply writable_mono; [|apply preserves_writable]. intros q Hq Ho. by apply Ho. }
  apply restore_respects; [apply _| |done]. intros p _. apply sys_create_dir_all_respects.
Qed.

Lemma restore_around archive :
  (∀ cb, ro_change_callback options = Some cb → ∀ c, respects (fs_rel (only_in around)) (cb c)) →
  respects (fs_rel (only_in around)) (Restore.restore archive destination options).
Proof.
  intros Hcb. assert (Writable (only_in around) (inside destination)).
  { eapply writable_mono; [|apply only_in_writable]. intros q Hq. by left. }
  apply restore_respects; [apply _| |done]. intros p Hp. apply (sys_create_dir_all_within _ around). intros n.
  unfold around. apply (prefix_weak_total _ _ p); [done|]. exists (drop n p). by rewrite take_drop.
Qed.
End touches.


(** ** Examples *)

#[local] Existing Instances sample_ext sample_build sample_hash_laws sample_hex_laws sample_snap_laws sample_lru_laws sample_codecs.

(** A file of those two parts, restored at [/f] *)
Definition sample_restored : IndexEntry :=
  MkIndexEntry (MkApath "/f") Kind_File 7 (MkUnixMode (Some 384%N)) (MkOwner None None) 0 sample_parts None.

Lemma sample_apart : apart sample_blockdir ["f"].
Proof. intros h. done. Qed.

Lemma restore_file_exact_witness :
  ∃ w', Restore.restore_file ["f"] sample_restored sample_blockdir (world_of sample_block_fs) = (Ret (Ok tt), w') ∧
    w_fs w' = <[["f"] := NFile "hello" (MkMeta 384 (MkTime 7 0) 0 0)]> sample_block_fs.
Proof.
  apply (restore_file_exact sample_blockdir ["f"] sample_restored ["hello"; "hello"] (MkTime 7 0)
    (world_of sample_block_fs)).
  - exact sample_apart.
  - apply sample_serving.
  - exact sample_parts_ok.
  - done.
  - done.
  - done.
Defined.

Lemma stored_file_restored_witness :
  ∃ addrs stats' w', store_file_content (MkApath "/f") (MkReader "hello") sample_blockdir BackupStats.zero 2
      (world_of sample_blockdir_fs) = (Ret (Ok addrs, stats'), w') ∧
    ∀ bd2 w2 path e t,
      bd_transport bd2 = bd_transport sample_blockdir → only_adds (w_fs w') (w_fs w2) → serving bd2 w2 →
      ie_addrs e = addrs → (∀ w : World, mtime e w = (Ret t, w)) →
      apart bd2 path → w_fs w2 !! path = None → is_dir_node (w_fs w2 !! parent path) = true →
      ∃ w3, Restore.restore_file path e bd2 w2 = (Ret (Ok tt), w3) ∧
        w_fs w3 = <[path := NFile "hello" (restored_meta e t (new_meta 420 w2))]> (w_fs w2).
Proof.
  apply (stored_file_restored sample_content (MkApath "/f") (MkReader "hello") sample_blockdir
    BackupStats.zero 2 (world_of sample_blockdir_fs)).
  - exact sample_storable.
  - done.
  - exact sample_pieces.
  - apply sample_sound.
Defined.

