(* ===== verification/RestoreRun.v ===== *)
(** * A whole restore: that it ends, and a tree that goes there and back

    Theorems about [restore] (src/restore.rs, modelled in [Restore]) as a whole: as
    long as the archive and the destination are apart, every run comes to an end,
    although the file system grows while the stored tree is read; and a small tree that
    is backed up and restored, computed. *)

From Stdlib Require Import Ascii.
From S2P Require Import Prelude Text Apath Externals Ids Entry Counters Errors World Transport.
From S2P Require Import Sample SampleWorld Excludes Jsonio BlockDir BlockStore Index Archive Footprint Stitch.
From S2P Require Import LiveTree LiveOrder Backup BackupRun Restore.
From stdpp Require Import list gmap strings.

(** ** The archive does not change under the reader *)

Lemma children_same d p (fs fs' : Fs) :
  same_below d fs fs' → d `prefix_of` p → fs_children p fs' ≡ₚ fs_children p fs.
Proof.
  intros Hs Hp. apply NoDup_Permutation; [apply (NoDup_fmap_1 fst), fs_children_NoDup..|]. intros [n nd].
  rewrite !elem_of_fs_children. rewrite Hs; [done|]. by apply prefix_app_r.
Qed.

Section unchanged_archive.
Context `{Ext} `{BuildCfg} `{Codecs}.

(** The indexes stay as small as they were. *)
Lemma few_hunks_same a (fs0 fs : Fs) :
  named_below (archive_path a) fs0 → same_below (archive_path a) fs0 fs →
  few_hunks (S (size fs0 * size fs0)) a fs.
Proof.
  intros Hn Hs b w hunks w' <- Hr. apply Nat.lt_succ_r.
  apply (hunks_available_bounded _ (size fs0) (λ s, starts_with "/" s = false)) in Hr; [done|done|].
  intros s l w1 w2 Hrel Hw Hl. rewrite <-Hw in Hs. clear Hw Hr.
  pose proof (join_below _ _ s (index_transport_below a b) Hrel) as Hp. cbn [IndexRead.open ir_transport] in Hl.
  pose proof Hl as (_ & _ & _ & _ & Hdirs)%list_dir_NoDup.
  apply list_dir_inv in Hl as (es & code & Hes & -> & _).
  assert (length (permute code es) ≤ size fs0) as Hlen.
  { rewrite permute_perm. unfold fs_read_dir in Hes.
    destruct (w_fs w1 !! _) as [[]|]; simplify_eq.
    rewrite (children_same _ _ _ _ Hs Hp). apply fs_children_length. }
  destruct (classify_length (permute code es) (MkListDir [] [])) as [Hf Hd]. simpl in Hf, Hd.
  split; [lia|]. split; [lia|].
  apply Forall_forall. intros dir [m Hm]%Hdirs. apply valid_name_relative.
  apply (named_below_same _ _ _ Hs Hn _ dir Hp). by rewrite Hm.
Qed.
End unchanged_archive.

(** ** A restore ends *)

Section terminates.
Context `{Ext} `{BuildCfg} `{Codecs} (archive : Archive) (destination : Path) (options : RestoreOptions)
  (Hcb : ∀ cb, ro_change_callback options = Some cb → ∀ c, terminates (cb c) ∧ respects (fs_rel same_fs) (cb c)).

Lemma set_owner_terminates o p : terminates (Restore.set_owner o p).
Proof. unfold Restore.set_owner, sys_lchown. solve_terminates. Qed.

Lemma set_permissions_terminates m p : terminates (Restore.set_permissions m p).
Proof. unfold Restore.set_permissions, sys_set_permissions. solve_terminates. Qed.

Lemma apply_deferrals_terminates ds : terminates (Restore.apply_deferrals ds).
Proof.
  unfold Restore.apply_deferrals. apply terminates_bind; [|solve_terminates].
  pose proof set_owner_terminates. pose proof set_permissions_terminates.
  induction ds; cbn [for_each]; unfold Restore.apply_deferral, Restore.report, sys_set_mtime in *; solve_terminates.
Qed.

Lemma restore_content_terminates p a addrs bd : terminates (Restore.restore_content p a addrs bd).
Proof.
  unfold Restore.restore_content, sys_write_all. induction addrs; cbn [try_fold]; solve_terminates.
Qed.

Lemma restore_file_terminates p e bd : terminates (Restore.restore_file p e bd).
Proof.
  unfold Restore.restore_file, Restore.report, sys_open_truncate, sys_set_mtime. cbn [mtime IndexEntry_entry].
  unfold from_unix_seconds_and_nanos.
  pose proof set_owner_terminates. pose proof set_permissions_terminates. pose proof restore_content_terminates.
  solve_terminates.
Qed.

Lemma restored_terminates e ds : terminates (Restore.restored options e ds).
Proof.
  unfold Restore.restored, EntryChange.added, EntryMetadata_from, KindMetadata_from.
  cbn [mtime Entry.size IndexEntry_entry]. unfold from_unix_seconds_and_nanos.
  destruct (ro_change_callback options) as [cb|] eqn:E; [|solve_terminates].
  assert (∀ c, terminates (cb c)) by (intros c; by apply (Hcb cb)). solve_terminates.
Qed.

Lemma restore_entry_terminates bd ds e : terminates (Restore.restore_entry destination bd options ds e).
Proof.
  unfold Restore.restore_entry, Restore.restore_symlink, sys_symlink, sys_set_mtime, sys_create_dir_all. cbv zeta.
  cbn [mtime IndexEntry_entry]. unfold from_unix_seconds_and_nanos.
  pose proof set_owner_terminates. pose proof restore_file_terminates. pose proof restored_terminates.
  solve_terminates.
Qed.

Context (Hsep : separate (archive_path archive) destination) (fs0 : Fs)
  (Hnamed : named_below (archive_path archive) fs0).

(** The archive is as it was. *)
#[local] Abbreviation Same := (same_below (archive_path archive) fs0).
#[local] Abbreviation Keeping := (λ fs fs' : Fs, Same fs → Same fs').

Lemma around_apart p : around destination p → ¬ archive_path archive `prefix_of` p.
Proof.
  destruct Hsep as [Hab Hba]. intros [Hp|Hp] Ha.
  - by destruct (prefix_weak_total _ _ p Hp Ha).
  - apply Hab. by etrans.
Qed.

#[local] Instance keeping_writable : Writable Keeping (around destination).
Proof.
  split; [apply keeping_preorder|intros p n fs Hp Hs q Hq..|intros p fs Hp Hs q Hq];
    [rewrite lookup_insert_ne|rewrite lookup_delete_ne]; auto; intros ->; by eapply around_apart.
Qed.

#[local] Instance keeping_inside : Writable Keeping (inside destination).
Proof. eapply writable_mono; [|apply keeping_writable]. intros q Hq. by left. Qed.

Lemma keeping_dirs p : inside destination p → respects (fs_rel Keeping) (sys_create_dir_all p).
Proof.
  intros Hp. apply (sys_create_dir_all_within _ (around destination)). intros n.
  unfold around. apply (prefix_weak_total _ _ p); [done|]. exists (drop n p). by rewrite take_drop.
Qed.

Lemma keeping_callback cb : ro_change_callback options = Some cb → ∀ c, respects (fs_rel Keeping) (cb c).
Proof. intros E c. apply respects_same_fs; [apply keeping_preorder|]. by apply (Hcb cb). Qed.

Lemma restore_entries_end bd st subtree exclude w :
  sto_archive st = archive → Same (w_fs w) → size (w_fs w) = size fs0 →
  (IndexEntryIter.for_entries (Restore.restore_entry destination bd options) []
     (StoredTree.iter_entries st subtree exclude) w).1 ≠ NoFuel.
Proof.
  intros Ha Hs Hsize. unfold IndexEntryIter.for_entries. erewrite bind_run by done.
  apply (for_loop_ends (deferred_inside destination) (λ hi, st_archive hi = archive) Same
    (Stitch.bound_at (S (size fs0 * size fs0)))).
  - intros hi w1 h hi' w2 Hhi Hs1 Hn. apply stitch_next_bound_at with (files := S (size fs0 * size fs0)) in Hn
      as [Ha' Hb]; [split; [congruence|lia]|]. rewrite Hhi. by apply few_hunks_same.
  - intros ds e. by apply restore_entry_terminates.
  - intros ds e. apply (restore_entry_guarded destination Keeping keeping_dirs options keeping_callback).
  - constructor.
  - done.
  - done.
  - cbn. unfold Stitch.bound. by rewrite Hsize.
Qed.
End terminates.

Section whole.
Context `{Ext} `{BuildCfg} `{Codecs} (archive : Archive) (destination : Path) (options : RestoreOptions) (w : World).

Lemma opened_archive a p w1 st w2 : open_stored_tree a p w1 = (Ret (Ok st), w2) → sto_archive st = a.
Proof.
  unfold open_stored_tree, StoredTree.open, try, mbind, ST_bind.
  destruct (Select.resolve_band_id a p w1) as [[[b|]| | |] w3]; try done.
  destruct (Band.open a b w3) as [[[band|]| | |] w4]; try done. by intros [= <- _].
Qed.

Lemma open_stored_tree_terminates a p : terminates (open_stored_tree a p).
Proof. unfold open_stored_tree, StoredTree.open. solve_terminates. Qed.

Lemma ensure_dir_exists_terminates p : terminates (ensure_dir_exists p).
Proof. unfold ensure_dir_exists, sys_create_dir. solve_terminates. Qed.

Lemma may_restore_terminates p : terminates (if ro_overwrite options then mret (Ok true) else directory_is_empty p).
Proof. unfold directory_is_empty, sys_read_dir. solve_terminates. Qed.

(** C19: a restore always comes to an end: when neither of the archive and the
    destination is inside the other, the loops over versions, hunks, entries and blocks
    all end, whatever the archive contains and whatever fails, although the file system
    grows while the stored tree is read. *)
Theorem restore_terminates
    (Hsep : separate (archive_path archive) destination) (Hn : named_below (archive_path archive) (w_fs w))
    (Hcb : ∀ cb, ro_change_callback options = Some cb →
       ∀ c, terminates (cb c) ∧ respects (fs_rel same_fs) (cb c)) :
  (Restore.restore archive destination options w).1 ≠ NoFuel.
Proof.
  unfold Restore.restore, try. apply bind_terminates_at; [apply open_stored_tree_terminates|].
  intros [st|err] w1 Hst; [|done]. pose proof (opened_archive _ _ _ _ _ Hst) as Ha.
  apply reading_ends in Hst as [Hfs1 _]; [|apply open_stored_tree_reading; apply _..].
  apply bind_terminates_at; [apply ensure_dir_exists_terminates|].
  intros r w2 Hdir. assert (respects (fs_rel (only_below destination)) (ensure_dir_exists destination)) as Hd.
  { unfold ensure_dir_exists, sys_create_dir. apply respects_bind; [apply _| |solve_respects].
    by apply (sys_create_within _ (λ q, destination `prefix_of` q)). }
  specialize (Hd w1). rewrite Hdir in Hd. cbn in Hd. apply (only_below_separate (archive_path archive)) in Hd; [|done].
  rewrite Hfs1 in Hd. apply (named_below_same _ _ _ Hd) in Hn. clear Hdir Hd Hfs1.
  destruct r as [[]|err]; [|done].
  apply bind_terminates_at; [apply may_restore_terminates|].
  intros r w3 Hempty.
  assert (w_fs w3 = w_fs w2) as Hfs3.
  { assert (respects (fs_rel same_fs) (if ro_overwrite options then mret (Ok true) else directory_is_empty destination)) as Hr.
    { unfold directory_is_empty, sys_read_dir. solve_respects. }
    specialize (Hr w2). by rewrite Hempty in Hr. }
  destruct r as [[]|err]; [|done..]. cbv zeta. apply bind_terminates_at.
  - apply (restore_entries_end archive destination options Hcb Hsep (w_fs w2)); [done|done| |by rewrite Hfs3].
    intros p _. by rewrite Hfs3.
  - intros [ds|err] w4 _; [apply apply_deferrals_terminates|done].
Qed.
End whole.

(** ** Examples *)

#[local] Existing Instances sample_ext sample_build sample_hash_laws sample_hex_laws sample_snap_laws sample_lru_laws.
#[local] Existing Instances sample_codecs sample_cachedir.

Lemma sample_stitch_named : named_below ["a"] sample_stitch_fs.
Proof. apply named_files. vm_compute. reflexivity. Qed.

Lemma restore_terminates_witness :
  (Restore.restore sample_archive ["r"] default_restore_options (world_of sample_stitch_fs)).1 ≠ NoFuel.
Proof.
  apply (restore_terminates sample_archive ["r"] default_restore_options (world_of sample_stitch_fs)).
  - by split; intros [k Hk].
  - exact sample_stitch_named.
  - intros cb Hcb. discriminate Hcb.
Defined.

(** A tree with two files, one in several blocks, an empty one, an empty directory, a
    symbolic link, and modes and times of their own *)
Definition sample_source : list (Path * Node) :=
  [(["s"], NDir (MkMeta 493 (MkTime 1 0) 0 0));
   (["s"; "d"], NDir (MkMeta 448 (MkTime 2 5) 0 0));
   (["s"; "d"; "e"], NDir (MkMeta 493 (MkTime 3 0) 0 0));
   (["s"; "d"; "h"], NFile "some more" (MkMeta 384 (MkTime (-6) 999999999) 0 0));
   (["s"; "f"], NFile "hello world" (MkMeta 420 (MkTime 7 3) 0 0));
   (["s"; "g"], NFile "" (MkMeta 292 (MkTime 0 0) 0 0));
   (["s"; "l"], NSymlink "d/h" (MkMeta 511 (MkTime 8 0) 0 0));
   ([], sample_dir)].

(** Create an archive, back the tree up in small blocks and hunks, and restore it. *)
Definition there_and_back : M (result unit Error) :=
  archive ←? Archive.create (MkTransport ["a"]);
  _ ←? backup archive ["s"] (MkBackupOptions _ Exclude.nothing 3 None 4 2 true);
  Restore.restore archive ["r"] default_restore_options.

(** What is at the paths of the sample, and how many nodes there are, below a directory *)
Definition sample_paths : list Path := [["d"]; ["d"; "e"]; ["d"; "h"]; ["f"]; ["g"]; ["l"]; []].

Definition nodes_at (root : Path) (fs : Fs) : list (option Node) := (λ p, fs !! (root ++ p)%list) <$> sample_paths.

Definition count_below (root : Path) (fs : Fs) : nat :=
  length (filter (λ p : Path, take (length root) p = root) (map_to_list fs).*1).

(** The tree comes back as it was, with nothing more and no error. *)
Lemma there_and_back_run :
  let '(o, w) := there_and_back (world_of (list_to_map sample_source)) in
  o = Ret (Ok tt) ∧ w_errors w = [] ∧ nodes_at ["r"] (w_fs w) = nodes_at ["s"] (w_fs w) ∧
  count_below ["r"] (w_fs w) = 7.
Proof. vm_compute. by split_and!. Qed.

(** Making a version with nothing new stores no block: the second backup of the same
    tree adds the files of its band only. *)
Definition back_up_twice : M (result (nat * nat) Error) :=
  archive ←? Archive.create (MkTransport ["a"]);
  let options := MkBackupOptions _ Exclude.nothing 3 None 4 2 true in
  _ ←? backup archive ["s"] options;
  before ← gets w_fs;
  _ ←? backup archive ["s"] options;
  after ← gets w_fs;
  mret (Ok (count_below ["a"; "d"] before, count_below ["a"; "d"] after)).

Lemma back_up_twice_run :
  match (back_up_twice (world_of (list_to_map sample_source))).1 with
  | Ret (Ok (n, m)) => n = m ∧ 0 < n
  | _ => False
  end.
Proof. vm_compute. split; [done|lia]. Qed.
