(* ===== verification/HunkIndex.v ===== *)
(** * The index of hunks (src/hunk_index.rs)

    Finding the hunk that can hold a path, and the hunks of a directory, by
    binary search over the first and last paths of the hunks. *)

From Stdlib Require Import Ascii DecimalString.
From S2P Require Import Prelude Text Apath Externals Ids Entry Counters Errors World Transport.
From S2P Require Import Sample Excludes Jsonio SampleWorld BlockDir Index Archive Stitch.
From stdpp Require Import list gmap strings.

(** ** Definitions *)

Record HunkIndexMeta : Type := MkHunkIndexMeta {
  hm_index : N;
  hm_start_path : Apath;
  hm_end_path : Apath
}.

(** [IndexHunkIndex] *)
Record IndexHunkIndex : Type := MkIndexHunkIndex { hx_hunks : list HunkIndexMeta }.

Module IndexHunkIndex.

(** The metadata of one hunk; unreadable, missing and empty hunks have none. *)
Definition meta_of (hunk_index : N) (entries : option (list IndexEntry)) : option HunkIndexMeta :=
  es ← entries;
  first ← head es;
  l ← last es;
  Some (MkHunkIndexMeta hunk_index (ie_apath first) (ie_apath l)).

Section from_index.
Context `{Ext} `{BuildCfg} `{Codecs}.

Definition from_index (index : IndexRead) : M (result IndexHunkIndex Error) :=
  hunks ←? IndexRead.hunks_available index;
  hunk_info ← fold_st (λ acc hunk_index,
    '(r, _) ← IndexRead.read_hunk (IndexRead.duplicate index) hunk_index;
    mret (match r with
          | Err _ => acc
          | Ok entries => match meta_of hunk_index entries with
                          | Some m => acc ++ [m]
                          | None => acc
                          end
          end)%list) [] hunks;
  mret (Ok (MkIndexHunkIndex (sort_by (λ a b, N.compare (hm_index a) (hm_index b)) hunk_info))).

End from_index.

(** The comparison of the binary search *)
Definition classify (path : Apath) (entry : HunkIndexMeta) : comparison :=
  match Apath.cmp (hm_start_path entry) path, Apath.cmp (hm_end_path entry) path with
  | Lt, Lt => Lt
  | Gt, Gt => Gt
  | _, _ => Eq
  end.

Definition find_hunk_index_for_file (self : IndexHunkIndex) (path : Apath) : option nat :=
  result_ok (binary_search_by (classify path) (hx_hunks self)).

Definition find_hunk_for_file (self : IndexHunkIndex) (path : Apath) : option N :=
  i ← find_hunk_index_for_file self path;
  hm_index <$> hx_hunks self !! i.

(** The loop over the hunks after the first; slicing can panic. *)
Fixpoint subdir_loop {W} (path : Apath) (recursive : bool) (hunks : list HunkIndexMeta)
    (result : list N) : ST W (list N) :=
  match hunks with
  | [] => mret result
  | hunk :: hunks =>
      if negb (Apath.is_prefix_of path (hm_start_path hunk)) then mret result
      else
        stop ← (if recursive then mret false
                else rest ← expect (slice_from (String.length (apath_str path) + 1)
                                      (apath_str (hm_start_path hunk)));
                     mret (contains_char "/" rest));
        if (stop : bool) then mret result
        else subdir_loop path recursive hunks (result ++ [hm_index hunk])%list
  end.

Definition find_hunks_for_subdir {W} (self : IndexHunkIndex) (path : Apath) (recursive : bool) :
    ST W (list N) :=
  let search_path := Apath.append path "" in
  match find_hunk_index_for_file self search_path with
  | None => mret []
  | Some directory_start_hunk =>
      h ← expect (hx_hunks self !! directory_start_hunk);
      subdir_loop path recursive (drop (directory_start_hunk + 1) (hx_hunks self)) [hm_index h]
  end.

End IndexHunkIndex.

(** ** Listing an index completely *)

Lemma digits_utf8 s d : NilEmpty.uint_of_string s = Some d → utf8_valid s = true.
Proof.
  revert d. induction s as [|a s IH]; intros d Hd; [done|]. cbn [NilEmpty.uint_of_string] in Hd.
  destruct (NilEmpty.uint_of_string s) as [d'|] eqn:E; [|by destruct a as [[] [] [] [] [] [] [] []]].
  specialize (IH d' eq_refl). unfold utf8_valid in *.
  destruct a as [[] [] [] [] [] [] [] []]; try discriminate; exact IH.
Qed.

Lemma pad_decimal_utf8 w n : utf8_valid (pad_decimal w n) = true.
Proof.
  destruct (uint_of_string_zeros (w - String.length (decimal n)) (decimal n) (N.to_uint n))
    as (d & Hd & _); [apply NilEmpty.usu|]. by eapply digits_utf8.
Qed.

(** What [classify] finds, whatever was found before *)
Lemma classify_keeps es names :
  (∀ f, f ∈ ld_files names → f ∈ ld_files (Local.classify es names)) ∧
  (∀ f, f ∈ ld_dirs names → f ∈ ld_dirs (Local.classify es names)).
Proof.
  revert names. induction es as [|[x node] es IH]; intros names; cbn [Local.classify]; [done|].
  split; intros f Hf; apply IH; destruct (utf8_valid x); try done;
    destruct (node_type node); try done; simpl; apply elem_of_app; by left.
Qed.

Lemma classify_finds es names n node :
  (n, node) ∈ es → utf8_valid n = true →
  (node_type node = ft_file → n ∈ ld_files (Local.classify es names)) ∧
  (node_type node = ft_dir → n ∈ ld_dirs (Local.classify es names)).
Proof.
  intros Hin Hu. revert names. induction es as [|[x nd] es IH]; intros names; [by apply not_elem_of_nil in Hin|].
  cbn [Local.classify]. apply elem_of_cons in Hin as [[= <- <-]|Hin]; [|by apply IH].
  rewrite Hu. split; intros ->; apply classify_keeps; simpl; apply elem_of_app; right; by left.
Qed.

Section listing.
Context `{Ext} `{BuildCfg} `{Codecs}.

(** Without failures, a listing names each entry there is. *)
Lemma list_dir_complete t s w r w' m n node :
  plain s → fault_free w → w_fs w !! path_join (tr_path t) s = Some (NDir m) →
  w_fs w !! (path_join (tr_path t) s ++ [n])%list = Some node → utf8_valid n = true →
  Transport.list_dir t s w = (Ret r, w') →
  ∃ l, r = Ok l ∧ (node_type node = ft_file → n ∈ ld_files l) ∧ (node_type node = ft_dir → n ∈ ld_dirs l).
Proof.
  intros Hs Hf Hd Hn Hu. rewrite tr_list_dir.
  destruct (list_dir_run t s w Hs Hf) as (w1 & -> & _). intros [= <- _].
  unfold fs_read_dir. rewrite Hd. eexists. split; [done|]. apply classify_finds; [|done].
  rewrite permute_perm. by apply elem_of_fs_children.
Qed.

(** Reading keeps a world without failures as it is, whether or not it succeeds. *)
Lemma reading_keeps {A : Type} (m : M A) w o w' :
  respects (fs_rel same_fs) m → respects same_faults m → m w = (o, w') → fault_free w →
  w_fs w' = w_fs w ∧ fault_free w'.
Proof. intros H1' H2' Hr Hf. pose proof (reading_ends m w o w' H1' H2' Hr) as [? ?]. auto. Qed.

(** A hunk whose directories are there, and whose number can be read back *)
Definition listed_hunk (fs : Fs) (t : Transport) (n : N) (es : list IndexEntry) : Prop :=
  stored_hunk fs t n es ∧ (n <= u32_max)%N ∧
  (∃ m, fs !! tr_path t = Some (NDir m)) ∧ (∃ m, fs !! hunk_subdir t n = Some (NDir m)).

Lemma list_files_complete index dirs acc w r w' n c m m' :
  fault_free w → w_fs w !! hunk_subdir (ir_transport index) n = Some (NDir m') →
  w_fs w !! hunk_path (ir_transport index) n = Some (NFile c m) →
  subdir_relpath n ∈ dirs ∨ pad_decimal 9 n ∈ acc →
  fold_st (λ acc dir, r ← Transport.list_dir (ir_transport index) dir;
             mret (match r with Ok l => acc ++ ld_files l | Err _ => acc end)%list) acc dirs w
  = (Ret r, w') → pad_decimal 9 n ∈ r.
Proof.
  intros Hff Hd Hn. revert acc w Hff Hd Hn.
  induction dirs as [|d dirs IH]; intros acc w Hff Hd Hn Hin; cbn [fold_st]; intros Hr.
  { inv_run Hr. by destruct Hin as [?%not_elem_of_nil|?]. }
  inv_run Hr. inv_run Hrun. inv_run Hrun.
  pose proof (reading_keeps _ _ _ _ (reading_list_dir _ _) (reading_list_dir _ _) Hrun0 Hff) as [Hfs Hff'].
  apply IH in Hr; [done|done|by rewrite Hfs|by rewrite Hfs|].
  destruct Hin as [[<-|Hin]%elem_of_cons|Hin].
  - right. assert (valid_names [subdir_relpath n]) as Hv by (constructor; [apply pad_decimal_valid_name|constructor]).
    eapply (list_dir_complete _ _ _ _ _ m' (pad_decimal 9 n) (NFile c m)) in Hrun0 as (l & -> & Hf & _).
    + apply elem_of_app. right. by apply Hf.
    + apply (names_plain [subdir_relpath n] Hv).
    + done.
    + change (subdir_relpath n) with (join_with "/" [subdir_relpath n]). by rewrite path_join_names.
    + change (subdir_relpath n) with (join_with "/" [subdir_relpath n]). rewrite path_join_names by done.
      rewrite <-app_assoc. exact Hn.
    + apply pad_decimal_utf8.
  - by left.
  - right. destruct a0; [|done]. apply elem_of_app. by left.
Qed.

Lemma hunks_available_complete index w hunks w' n es :
  fault_free w → listed_hunk (w_fs w) (ir_transport index) n es →
  IndexRead.hunks_available index w = (Ret (Ok hunks), w') → n ∈ hunks.
Proof.
  intros Hff ((c & m & json & Hn & _) & Hmax & [mr Hroot] & [ms Hsub]).
  unfold IndexRead.hunks_available. intros Hr. inv_run Hr.
  pose proof (reading_keeps _ _ _ _ (reading_list_dir _ _) (reading_list_dir _ _) Hrun Hff) as [Hfs Hff'].
  eapply (list_dir_complete _ _ _ _ _ mr (subdir_relpath n) (NDir ms)) in Hrun as (l & -> & _ & Hd);
    [|done|done|by rewrite path_join_empty|by rewrite path_join_empty|apply pad_decimal_utf8].
  inv_run Hr. inv_run Hr. rewrite <-Hfs in Hsub, Hn.
  eapply (list_files_complete index _ _ _ _ _ n) in Hrun; [|done|exact Hsub|exact Hn|].
  - rewrite sort_by_perm. apply list_elem_of_omap. exists (pad_decimal 9 n).
    split; [done|]. by apply parse_pad_decimal.
  - left. rewrite sort_by_perm. by apply Hd.
Qed.

Lemma listed_file_inv t s w l w' f :
  Transport.list_dir t s w = (Ret (Ok l), w') → f ∈ ld_files l →
  ∃ c m, w_fs w !! (path_join (tr_path t) s ++ [f])%list = Some (NFile c m).
Proof.
  intros Hr Hf. apply list_dir_NoDup in Hr as (_ & _ & _ & Hfiles & _). by apply Hfiles.
Qed.

(** The files listed are files of the index. *)
Lemma list_files_sound index dirs acc w r w' f :
  fold_st (λ acc dir, r ← Transport.list_dir (ir_transport index) dir;
             mret (match r with Ok l => acc ++ ld_files l | Err _ => acc end)%list) acc dirs w
  = (Ret r, w') → f ∈ r →
  f ∈ acc ∨ ∃ d c m, d ∈ dirs ∧ w_fs w !! (path_join (tr_path (ir_transport index)) d ++ [f])%list = Some (NFile c m).
Proof.
  revert acc w. induction dirs as [|d dirs IH]; intros acc w Hr Hf; cbn [fold_st] in Hr.
  { inv_run Hr. by left. }
  inv_run Hr. inv_run Hrun. inv_run Hrun.
  pose proof (reading_list_dir (R:=fs_rel same_fs) (ir_transport index) d w) as Hfs.
  rewrite Hrun0 in Hfs. unfold fs_rel, same_fs in Hfs. simpl in Hfs.
  apply IH in Hr as [Hacc|(d' & c & m & Hd & Hl)]; [|right; exists d', c, m; split; [by right|by rewrite Hfs]|done].
  destruct a0 as [l|]; [|by left]. apply elem_of_app in Hacc as [Hacc|Hin]; [by left|right].
  apply (listed_file_inv _ _ _ _ _ f) in Hrun0 as (c & m & Hl); [|done]. exists d, c, m. split; [by left|done].
Qed.
End listing.

(** ** Finding the hunk of a path *)

Section finding.
Context `{Ext} `{BuildCfg} `{Codecs}.

(** What is recorded of a hunk is its first and its last path. *)
Definition meta_ok (fs : Fs) (t : Transport) (m : HunkIndexMeta) : Prop :=
  ∃ es, stored_hunk fs t (hm_index m) es ∧ IndexHunkIndex.meta_of (hm_index m) (Some es) = Some m.

Record hunk_index_ok (fs : Fs) (t : Transport) (self : IndexHunkIndex) : Prop := {
  hx_metas : Forall (meta_ok fs t) (hx_hunks self);
  hx_sorted : StronglySorted (λ x y, (hm_index x < hm_index y)%N) (hx_hunks self)
}.

Lemma meta_of_inv n es m :
  IndexHunkIndex.meta_of n (Some es) = Some m →
  ∃ f l, head es = Some f ∧ last es = Some l ∧ m = MkHunkIndexMeta n (ie_apath f) (ie_apath l).
Proof.
  unfold IndexHunkIndex.meta_of. cbn. destruct (head es) as [f|]; [|done]. cbn.
  destruct (last es) as [l|]; [|done]. cbn. intros [= <-]. by exists f, l.
Qed.

Lemma meta_of_nonempty n es : es ≠ [] → ∃ m, IndexHunkIndex.meta_of n (Some es) = Some m.
Proof.
  destruct es as [|f es]; [done|]. intros _. unfold IndexHunkIndex.meta_of. cbn.
  destruct (last (f :: es)) as [l|] eqn:E; [by eexists|]. by apply last_None in E.
Qed.

Lemma not_after_iff a e : ¬ after a e ↔ Apath.cmp (ie_apath e) a ≠ Gt.
Proof. unfold after, Apath.lt, cmp_lt. by rewrite (cmp_gt_iff Apath.cmp). Qed.

(** Where a path is, relative to a hunk in which it is *)
Lemma classify_member fs t m es e :
  index_ok fs t → meta_ok fs t m → stored_hunk fs t (hm_index m) es → e ∈ es →
  IndexHunkIndex.classify (ie_apath e) m = Eq.
Proof.
  intros Hok (es' & Hst' & Hm) Hst He. rewrite (stored_hunk_fun _ _ _ _ _ Hst' Hst) in Hm. clear Hst'.
  pose proof (ok_sorted _ _ Hok _ _ Hst) as Hs.
  apply meta_of_inv in Hm as (f & l & Hf & Hl & Heq). rewrite Heq. unfold IndexHunkIndex.classify. cbn.
  assert (Apath.cmp (ie_apath f) (ie_apath e) ≠ Gt) as Hfe.
  { intros Hg. eapply (head_greatest es f (ie_apath e) e) in He; [|done|done|].
    - by apply apath_lt_irrefl in He.
    - by apply (cmp_gt_iff Apath.cmp). }
  assert (Apath.cmp (ie_apath l) (ie_apath e) ≠ Lt) as Hle.
  { intros Hg. eapply (last_least es l (ie_apath l) e); [done|done| |done|exact Hg]. apply apath_lt_irrefl. }
  destruct (Apath.cmp (ie_apath f) _), (Apath.cmp (ie_apath l) _); done.
Qed.

(** The paths of a hunk are before those of a later one. *)
Lemma meta_bounds fs t m :
  index_ok fs t → meta_ok fs t m → Apath.cmp (hm_start_path m) (hm_end_path m) ≠ Gt.
Proof.
  intros Hok (es & Hst & Hm). pose proof (ok_sorted _ _ Hok _ _ Hst) as Hs.
  apply meta_of_inv in Hm as (f & l & Hf & Hl & Heq). rewrite Heq. cbn. apply not_after_iff. intros Ha.
  eapply (head_greatest es f (ie_apath l) l) in Ha; [|done|done|].
  - by apply apath_lt_irrefl in Ha.
  - by apply last_Some_elem_of.
Qed.

Lemma metas_apart fs t x y :
  index_ok fs t → meta_ok fs t x → meta_ok fs t y → (hm_index x < hm_index y)%N →
  Apath.lt (hm_end_path x) (hm_start_path y).
Proof.
  intros Hok (es & Hst & Hx) (es' & Hst' & Hy) Hlt.
  apply meta_of_inv in Hx as (fx & lx & Hfx & Hlx & Ex), Hy as (fy & ly & Hfy & Hly & Ey).
  rewrite Ex, Ey. cbn. apply (ok_increasing _ _ Hok _ _ es es' lx fy Hlt Hst Hst').
  - by apply last_Some_elem_of.
  - by apply head_Some_elem_of.
Qed.

Lemma classify_before fs t x y p :
  index_ok fs t → meta_ok fs t x → meta_ok fs t y → (hm_index x < hm_index y)%N →
  IndexHunkIndex.classify p y ≠ Gt → IndexHunkIndex.classify p x = Lt.
Proof.
  intros Hok Hx Hy Hlt. pose proof (metas_apart _ _ _ _ Hok Hx Hy Hlt) as Hxy.
  pose proof (meta_bounds _ _ _ Hok Hx) as Hbx. pose proof (meta_bounds _ _ _ Hok Hy) as Hby.
  unfold IndexHunkIndex.classify. intros Hc.
  assert (Apath.cmp (hm_start_path y) p ≠ Gt) as Hyp.
  { intros Hg. rewrite Hg in Hc. apply (cmp_gt_iff Apath.cmp) in Hg.
    assert (Apath.cmp (hm_end_path y) p = Gt) as Hg'; [|by rewrite Hg' in Hc].
    apply (cmp_gt_iff Apath.cmp). by apply (cmp_lt_not_gt_trans Apath.cmp _ (hm_start_path y)). }
  assert (Apath.cmp (hm_end_path x) p = Lt) as He.
  { by apply (cmp_lt_not_gt_trans Apath.cmp _ (hm_start_path y)). }
  assert (Apath.cmp (hm_start_path x) p = Lt) as Hs.
  { by apply (cmp_not_gt_trans Apath.cmp _ (hm_end_path x)). }
  by rewrite Hs, He.
Qed.

Lemma classify_covers fs t m p :
  index_ok fs t → meta_ok fs t m → IndexHunkIndex.classify p m = Eq →
  Apath.cmp (hm_start_path m) p ≠ Gt ∧ Apath.cmp p (hm_end_path m) ≠ Gt.
Proof.
  intros Hok Hm Hc. pose proof (meta_bounds _ _ _ Hok Hm) as Hb. unfold IndexHunkIndex.classify in Hc.
  split; intros Hg.
  - rewrite Hg in Hc. apply (cmp_gt_iff Apath.cmp) in Hg.
    assert (Apath.cmp (hm_end_path m) p = Gt) as Hg'; [|by rewrite Hg' in Hc].
    apply (cmp_gt_iff Apath.cmp). by apply (cmp_lt_not_gt_trans Apath.cmp _ (hm_start_path m)).
  - apply (cmp_gt_iff Apath.cmp) in Hg. rewrite Hg in Hc.
    rewrite (cmp_not_gt_trans Apath.cmp _ (hm_end_path m)) in Hc; done.
Qed.

Lemma hunk_index_partitioned fs t self p :
  index_ok fs t → hunk_index_ok fs t self → partitioned (IndexHunkIndex.classify p) (hx_hunks self).
Proof.
  intros Hok [Hm Hs] i j x y Hij Hx Hy. rewrite Forall_lookup in Hm.
  pose proof (sorted_lookup _ _ _ _ _ _ Hs Hij Hx Hy) as Hlt.
  pose proof (classify_before fs t x y p Hok (Hm _ _ Hx) (Hm _ _ Hy) Hlt) as Hb.
  split; intros Hc.
  - destruct (decide (IndexHunkIndex.classify p y = Gt)) as [|Hn]; [done|].
    apply Hb in Hn. congruence.
  - apply Hb. by rewrite Hc.
Qed.

(** The search finds the only hunk that can hold the path. *)
Lemma find_hunk_spec fs t self p :
  index_ok fs t → hunk_index_ok fs t self →
  match IndexHunkIndex.find_hunk_for_file self p with
  | Some n => ∃ m, m ∈ hx_hunks self ∧ hm_index m = n ∧ IndexHunkIndex.classify p m = Eq ∧
                ∀ m', m' ∈ hx_hunks self → IndexHunkIndex.classify p m' = Eq → m' = m
  | None => ∀ m, m ∈ hx_hunks self → IndexHunkIndex.classify p m ≠ Eq
  end.
Proof.
  intros Hok Hi. pose proof (hunk_index_partitioned fs t self p Hok Hi) as Hp.
  pose proof (binary_search_by_spec _ _ Hp) as Hb. destruct Hi as [Hm Hs].
  unfold IndexHunkIndex.find_hunk_for_file, IndexHunkIndex.find_hunk_index_for_file.
  destruct (binary_search_by _ _) as [i|i]; cbn.
  - destruct Hb as (m & Hi & Hc). rewrite Hi. cbn. exists m.
    split; [by eapply list_elem_of_lookup_2|]. split; [done|]. split; [done|].
    intros m' [j Hj]%list_elem_of_lookup Hc'. rewrite Forall_lookup in Hm.
    destruct (Nat.lt_trichotomy i j) as [Hij|[->|Hij]]; [| congruence|].
    + pose proof (sorted_lookup _ _ _ _ _ _ Hs Hij Hi Hj) as Hlt.
      pose proof (classify_before fs t m m' p Hok (Hm _ _ Hi) (Hm _ _ Hj) Hlt ltac:(congruence)). congruence.
    + pose proof (sorted_lookup _ _ _ _ _ _ Hs Hij Hj Hi) as Hlt.
      pose proof (classify_before fs t m' m p Hok (Hm _ _ Hj) (Hm _ _ Hi) Hlt ltac:(congruence)). congruence.
  - destruct Hb as (_ & Hlo & Hhi). intros m [j Hj]%list_elem_of_lookup Hc.
    destruct (decide (j < i)) as [Hji|Hji].
    + apply (Hlo _ _ Hji) in Hj. congruence.
    + apply (Hhi j) in Hj; [congruence|lia].
Qed.

(** ** Building the index *)

Lemma sorted_snoc {A : Type} (R : relation A) l x :
  StronglySorted R l → Forall (λ y, R y x) l → StronglySorted R (l ++ [x])%list.
Proof.
  induction 1 as [|y l Hs IH Hy]; intros Hx; [by repeat constructor|].
  inversion_clear Hx. simpl. constructor; [by apply IH|].
  apply Forall_app. split; [done|]. by repeat constructor.
Qed.

(** One round of the loop over the hunks *)
Definition index_round (index : IndexRead) (acc : list HunkIndexMeta) (hunk_index : N) :
    M (list HunkIndexMeta) :=
  '(r, _) ← IndexRead.read_hunk (IndexRead.duplicate index) hunk_index;
  mret (match r with
        | Err _ => acc
        | Ok entries => match IndexHunkIndex.meta_of hunk_index entries with
                        | Some m => acc ++ [m]
                        | None => acc
                        end
        end)%list.

Lemma index_loop_inv index hunks acc w ms w' :
  StronglySorted N.lt hunks →
  Forall (meta_ok (w_fs w) (ir_transport index)) acc →
  StronglySorted (λ x y, (hm_index x < hm_index y)%N) acc →
  Forall (λ m, Forall (N.lt (hm_index m)) hunks) acc →
  fold_st (index_round index) acc hunks w = (Ret ms, w') →
  w_fs w' = w_fs w ∧ Forall (meta_ok (w_fs w) (ir_transport index)) ms ∧
  StronglySorted (λ x y, (hm_index x < hm_index y)%N) ms ∧ (∀ m, m ∈ acc → m ∈ ms) ∧
  (fault_free w → ∀ n es, n ∈ hunks → stored_hunk (w_fs w) (ir_transport index) n es → es ≠ [] →
     n ∈ hm_index <$> ms).
Proof.
  revert acc w. induction hunks as [|n hunks IH]; intros acc w Hs Hacc Has Hlt; cbn [fold_st]; intros Hr.
  { inv_run Hr. split_and!; try done. intros _ n es []%not_elem_of_nil. }
  inversion_clear Hs as [|? ? Hs' Hn].
  inv_run Hr. unfold index_round in Hrun. inv_run Hrun. destruct a0 as [r index']. inv_run Hrun.
  pose proof (read_hunk_inv _ _ _ _ _ _ Hrun0) as (_ & Hfs & Hst). change (ir_transport (IndexRead.duplicate index)) with (ir_transport index) in Hst.
  assert (Forall (λ m, Forall (N.lt (hm_index m)) hunks) acc) as Hlt'.
  { eapply Forall_impl; [exact Hlt|]. intros m Hm. by inversion_clear Hm. }
  assert (∀ m, m ∈ acc → (hm_index m < n)%N) as Hlast.
  { intros m Hm. rewrite Forall_forall in Hlt. apply Hlt in Hm. by inversion_clear Hm. }
  assert (fault_free w → fault_free w0) as Hff.
  { intros Hw. by apply (reading_keeps _ _ _ _ (read_hunk_reading _ _ _) (read_hunk_reading _ _ _) Hrun0). }
  rewrite <-Hfs in Hst, Hacc |- *.
  set (o := match r with Ok entries => IndexHunkIndex.meta_of n entries | Err _ => None end) in *.
  set (acc' := match o with Some m => acc ++ [m] | None => acc end%list).
  assert (match r with Err _ => acc | Ok entries => match IndexHunkIndex.meta_of n entries with
            Some m => acc ++ [m] | None => acc end end%list = acc') as Heq by (by destruct r).
  rewrite Heq in Hr.
  assert (∀ m, o = Some m → hm_index m = n ∧ meta_ok (w_fs w0) (ir_transport index) m) as Hnew.
  { intros m Hm. destruct r as [[es|]|]; try done.
    pose proof (meta_of_inv _ _ _ Hm) as (f & l & _ & _ & ->). split; [done|]. by exists es. }
  apply IH in Hr as (Hfs' & Hms & Hss & Hin & Hall); [..|].
  - split_and!; try done.
    + intros m Hm. apply Hin. unfold acc'. destruct o; [|done]. apply elem_of_app. by left.
    + intros Hw n' es [->|Hn']%elem_of_cons Hst' Hne; [|by eapply Hall; auto].
      rewrite Hfs in Hst'. assert (r = Ok (Some es)) as ->.
      { destruct Hst' as (c & m & json & Hp & Hc & Hj).
        destruct (read_hunk_disk (IndexRead.duplicate index) n w c m json es Hw Hp Hc Hj)
          as (index2 & w2 & Hr2 & _). rewrite Hrun0 in Hr2. by simplify_eq. }
      destruct (meta_of_nonempty n es Hne) as [m Hm].
      apply list_elem_of_fmap. exists m. split; [symmetry; by apply Hnew|].
      apply Hin. unfold acc', o. rewrite Hm. apply elem_of_app. right. by left.
  - done.
  - unfold acc'. destruct o as [m|]; [|done]. apply Forall_app. split; [done|].
    constructor; [|done]. by apply Hnew.
  - unfold acc'. destruct o as [m|]; [|done]. apply sorted_snoc; [done|].
    apply Forall_forall. intros m' Hm'. destruct (Hnew m eq_refl) as [-> _]. by apply Hlast.
  - unfold acc'. destruct o as [m|]; [|done]. apply Forall_app. split; [done|].
    constructor; [|done]. by destruct (Hnew m eq_refl) as [-> _].
Qed.

(** The hunks are in order already when they are sorted. *)
Lemma index_sort_id ms :
  StronglySorted (λ x y, (hm_index x < hm_index y)%N) ms →
  sort_by (λ a b, N.compare (hm_index a) (hm_index b)) ms = ms.
Proof.
  intros Hs. apply (StronglySorted_unique_strong (λ x y, N.compare (hm_index x) (hm_index y) ≠ Gt)).
  - intros x y Hx [j Hy]%list_elem_of_lookup. rewrite sort_by_perm in Hx.
    apply list_elem_of_lookup in Hx as [i Hx]. rewrite !N.compare_gt_iff.
    destruct (Nat.lt_trichotomy i j) as [Hij|[->|Hij]]; [|congruence|].
    + pose proof (sorted_lookup _ _ _ _ _ _ Hs Hij Hx Hy) as Hl. cbv beta in Hl. lia.
    + pose proof (sorted_lookup _ _ _ _ _ _ Hs Hij Hy Hx) as Hl. cbv beta in Hl. lia.
  - apply sort_by_sorted; intros *; rewrite ?N.compare_gt_iff; [apply N.compare_antisym|lia].
  - induction Hs as [|x l Hs IH Hx]; constructor; [done|]. eapply Forall_impl; [exact Hx|].
    intros y Hy. cbv beta in *. rewrite N.compare_gt_iff. lia.
  - apply sort_by_perm.
Qed.

Lemma from_index_inv index w hx w' :
  index_ok (w_fs w) (ir_transport index) →
  IndexHunkIndex.from_index index w = (Ret (Ok hx), w') →
  hunk_index_ok (w_fs w) (ir_transport index) hx ∧
  (fault_free w → ∀ n es, listed_hunk (w_fs w) (ir_transport index) n es → es ≠ [] →
     n ∈ hm_index <$> hx_hunks hx).
Proof.
  intros Hok. unfold IndexHunkIndex.from_index. intros Hr. inv_run Hr.
  rename a into hunks. pose proof (hunks_available_sorted _ _ _ _ Hok Hrun) as Hs.
  assert (w_fs w0 = w_fs w ∧ (fault_free w → fault_free w0)) as [Hfs Hff].
  { apply (reading_ends _ _ _ _ (hunks_available_reading _ _) (hunks_available_reading _ _) Hrun). }
  inv_run Hr. inv_run Hr.
  change (fold_st (index_round index) [] hunks w0 = (Ret a, w')) in Hrun0.
  apply index_loop_inv in Hrun0 as (_ & Hms & Hss & _ & Hall); [|done|constructor..].
  rewrite Hfs in Hms, Hall. cbn [hx_hunks]. rewrite index_sort_id by done.
  split; [by split; cbn; rewrite ?index_sort_id|].
  intros Hw n es Hl Hne. eapply Hall; [by apply Hff| |apply Hl|done].
  by eapply hunks_available_complete.
Qed.

(** C32: looking a path up in the index of hunks is exact. When the index of the
    band is well formed, the hunk that is found covers the path and no other hunk
    does; a path for which none is found is in no hunk; and every entry of every hunk
    that could be listed and read is found in its own hunk. *)
Theorem find_hunk_for_file_exact (index : IndexRead) (w w' : World) (hx : IndexHunkIndex) (p : Apath)
    (Hok : index_ok (w_fs w) (ir_transport index)) (Hff : fault_free w)
    (Hr : IndexHunkIndex.from_index index w = (Ret (Ok hx), w')) :
  match IndexHunkIndex.find_hunk_for_file hx p with
  | Some n => ∃ es f l, stored_hunk (w_fs w) (ir_transport index) n es ∧
      head es = Some f ∧ last es = Some l ∧
      Apath.cmp (ie_apath f) p ≠ Gt ∧ Apath.cmp p (ie_apath l) ≠ Gt ∧
      ∀ n' es' e, listed_hunk (w_fs w) (ir_transport index) n' es' → e ∈ es' → ie_apath e = p → n' = n
  | None => ∀ n' es' e, listed_hunk (w_fs w) (ir_transport index) n' es' → e ∈ es' → ie_apath e ≠ p
  end.
Proof.
  pose proof (from_index_inv _ _ _ _ Hok Hr) as [Hi Hall]. specialize (Hall Hff).
  pose proof (find_hunk_spec _ _ _ p Hok Hi) as Hf. destruct Hi as [Hm _]. rewrite Forall_forall in Hm.
  assert (∀ n' es' e, listed_hunk (w_fs w) (ir_transport index) n' es' → e ∈ es' → ie_apath e = p →
    ∃ m, m ∈ hx_hunks hx ∧ hm_index m = n' ∧ IndexHunkIndex.classify p m = Eq) as Hmem.
  { intros n' es' e Hl He <-.
    assert (es' ≠ []) as Hne by (intros ->; by apply not_elem_of_nil in He).
    pose proof (Hall n' es' Hl Hne) as (m & -> & Hin)%list_elem_of_fmap. exists m. split_and!; try done.
    eapply classify_member; [done|by apply Hm|apply Hl|done]. }
  destruct (IndexHunkIndex.find_hunk_for_file hx p) as [n|].
  - destruct Hf as (m & Hin & <- & Hc & Huniq). destruct (Hm m Hin) as (es & Hst & Hmeta).
    pose proof (meta_of_inv _ _ _ Hmeta) as (f & l & Hhd & Hl & Heq).
    pose proof (classify_covers _ _ _ p Hok (Hm m Hin) Hc) as Hcov. rewrite Heq in Hcov. cbn in Hcov.
    exists es, f, l. split_and!; try done.
    + by apply Hcov.
    + by apply Hcov.
    + intros n' es' e Hl' He Hp. destruct (Hmem n' es' e Hl' He Hp) as (m' & Hin' & <- & Hc').
      by rewrite (Huniq m').
  - intros n' es' e Hl He Hp. destruct (Hmem n' es' e Hl He Hp) as (m & Hin & _ & Hc). by eapply Hf.
Qed.
End finding.

(** ** A directory at the start of a hunk *)

(** The contents of a directory are missed when they start at the beginning of
    a hunk. When one hunk ends before the contents of the directory and the next one
    begins inside the directory, the search for the hunk of the directory finds
    nothing, and no hunk at all is returned, recursively or not -- although the
    second hunk begins with a path below the directory. *)
Theorem find_hunks_for_subdir_boundary {W} (self : IndexHunkIndex) (d : Apath) (i : nat)
    (x y : HunkIndexMeta) (recursive : bool) (w : W)
    (Hp : partitioned (IndexHunkIndex.classify (Apath.append d "")) (hx_hunks self))
    (Hx : hx_hunks self !! i = Some x) (Hy : hx_hunks self !! S i = Some y)
    (Hxs : Apath.lt (hm_start_path x) (Apath.append d "")) (Hxe : Apath.lt (hm_end_path x) (Apath.append d ""))
    (Hys : Apath.lt (Apath.append d "") (hm_start_path y)) (Hye : Apath.lt (Apath.append d "") (hm_end_path y))
    (Hin : Apath.is_prefix_of d (hm_start_path y) = true) :
  IndexHunkIndex.find_hunks_for_subdir self d recursive w = (Ret [], w).
Proof.
  unfold IndexHunkIndex.find_hunks_for_subdir, IndexHunkIndex.find_hunk_index_for_file.
  pose proof (binary_search_by_spec _ _ Hp) as Hb.
  destruct (binary_search_by _ (hx_hunks self)) as [j|j]; [|done]. exfalso.
  assert (IndexHunkIndex.classify (Apath.append d "") x = Lt) as Hcx.
  { unfold IndexHunkIndex.classify. by rewrite Hxs, Hxe. }
  assert (IndexHunkIndex.classify (Apath.append d "") y = Gt) as Hcy.
  { unfold IndexHunkIndex.classify. apply (cmp_gt_iff Apath.cmp) in Hys as ->.
    by apply (cmp_gt_iff Apath.cmp) in Hye as ->. }
  destruct Hb as (z & Hz & Hc).
  destruct (Nat.lt_trichotomy j i) as [Hji|[->|Hij]]; [|congruence|].
  - destruct (Hp j i z x Hji Hz Hx) as [_ Hl]. specialize (Hl Hcx). congruence.
  - destruct (decide (j = S i)) as [->|]; [congruence|].
    destruct (Hp (S i) j y z ltac:(lia) Hy Hz) as [Hl _]. specialize (Hl Hcy). congruence.
Qed.

(** ** Examples *)

#[local] Existing Instances sample_ext sample_build sample_codecs sample_codec_laws.

(** The last entry of the first hunk is a directory, and the second hunk begins
    with what is in it. *)
Definition sample_boundary : IndexHunkIndex :=
  MkIndexHunkIndex [MkHunkIndexMeta 0 (MkApath "/") (MkApath "/d");
                    MkHunkIndexMeta 1 (MkApath "/d/a") (MkApath "/d/b")].

Lemma find_hunks_for_subdir_boundary_witness :
  IndexHunkIndex.find_hunks_for_subdir sample_boundary (MkApath "/d") false tt = (Ret [], tt).
Proof.
  apply (find_hunks_for_subdir_boundary sample_boundary (MkApath "/d") 0
    (MkHunkIndexMeta 0 (MkApath "/") (MkApath "/d")) (MkHunkIndexMeta 1 (MkApath "/d/a") (MkApath "/d/b"))
    false tt); try reflexivity.
  intros [|[|i]] [|[|j]] x y Hij Hx Hy; try lia; try discriminate.
  injection Hx as <-. injection Hy as <-. by split.
Defined.

Definition sample_old_index : IndexRead := IndexRead.open (index_transport sample_archive (MkBandId 0)).
Definition sample_old_hx : IndexHunkIndex :=
  MkIndexHunkIndex [MkHunkIndexMeta 0 (MkApath "/a") (MkApath "/b")].

Lemma run_value {A : Type} (m : M A) (w : World) (a : A) :
  (m w).1 = Ret a → m w = (Ret a, (m w).2).
Proof. destruct (m w). simpl. by intros ->. Qed.

Lemma find_hunk_for_file_exact_witness :
  match IndexHunkIndex.find_hunk_for_file sample_old_hx (MkApath "/b") with
  | Some n => ∃ es f l, stored_hunk sample_stitch_fs (index_transport sample_archive (MkBandId 0)) n es ∧
      head es = Some f ∧ last es = Some l ∧
      Apath.cmp (ie_apath f) (MkApath "/b") ≠ Gt ∧ Apath.cmp (MkApath "/b") (ie_apath l) ≠ Gt ∧
      ∀ n' es' e, listed_hunk sample_stitch_fs (index_transport sample_archive (MkBandId 0)) n' es' →
        e ∈ es' → ie_apath e = MkApath "/b" → n' = n
  | None => ∀ n' es' e, listed_hunk sample_stitch_fs (index_transport sample_archive (MkBandId 0)) n' es' →
        e ∈ es' → ie_apath e ≠ MkApath "/b"
  end.
Proof.
  apply (find_hunk_for_file_exact sample_old_index (world_of sample_stitch_fs)
    (IndexHunkIndex.from_index sample_old_index (world_of sample_stitch_fs)).2 sample_old_hx (MkApath "/b")).
  - exact (sample_indexes_ok (MkBandId 0)).
  - done.
  - apply run_value. vm_compute. reflexivity.
Defined.
