(* ===== verification/StoredBand.v ===== *)
(** * A finished version on the disk, and reading it

    What the files of a finished band (src/band.rs, src/index.rs) look like when they
    hold a given list of hunks, and what opening the band and iterating over its hunks
    gives then, without failures. The other parts of the file system may change between
    two hunks, as they do while a tree is restored. *)

From Stdlib Require Import Ascii.
From S2P Require Import Prelude Text Apath Externals Ids Entry Counters Errors World Transport.
From S2P Require Import Excludes Jsonio BlockDir BlockStore Index Archive Footprint Stitch HunkIndex.
From stdpp Require Import list gmap strings sorting.

(** ** Runs that only read *)

#[export] Instance frame_mute `{Ext} : Mute frame.
Proof. split; [apply _|done..]. Qed.

Lemma reading_quiet `{Ext} {A : Type} (m : M A) w o w' :
  respects (fs_rel same_fs) m → respects frame m → m w = (o, w') → w_fs w' = w_fs w ∧ frame w w'.
Proof. intros Hm Hf Hr. specialize (Hm w). specialize (Hf w). by rewrite Hr in Hm, Hf. Qed.

(** ** What is on the disk *)

Section stored.
Context `{Ext} `{BuildCfg} `{Codecs}.

(** A head that this program accepts *)
Definition accepted (head : Head) : Prop :=
  head_format_flags head = [] ∧
  match head_band_format_version head with
  | None => True
  | Some v => ∃ version req, semver_parse v = Some version ∧ semver_req_parse ("<=" +:+ VERSION) = Some req ∧
                semver_matches req version = true
  end.

(** The band is finished and these are its hunks. *)
Record stored_band (a : Archive) (fs : Fs) (b : BandId) (hs : list (list IndexEntry)) : Prop := {
  sb_head : ∃ c m head, fs !! head_path a b = Some (NFile c m) ∧ from_json c = Some head ∧ accepted head;
  sb_closed : closed a fs b;
  sb_root : ∃ m, fs !! tr_path (index_transport a b) = Some (NDir m);
  sb_names : ∀ d m, fs !! (tr_path (index_transport a b) ++ [d])%list = Some (NDir m) → valid_name d = true;
  sb_index : index_ok fs (index_transport a b);
  sb_hunks : ∀ n es, hs !! n = Some es → listed_hunk fs (index_transport a b) (N.of_nat n) es;
  sb_only : ∀ n c m, fs !! hunk_path (index_transport a b) n = Some (NFile c m) → (N.to_nat n < length hs)%nat;
  sb_entries : Forall (λ es, es ≠ []) hs
}.

Lemma accepted_run head (w : World) :
  accepted head →
  (match head_band_format_version head with Some v => Band.band_version_supported v | None => mret true end) w
  = (Ret true, w).
Proof.
  intros [_ Hv]. destruct (head_band_format_version head) as [v|]; [|done].
  destruct Hv as (version & req & Hp & Hr & Hm). unfold Band.band_version_supported, Band.band_version_requirement.
  rewrite Hp. rewrite (bind_run _ _ w req w) by by apply expect_run. by rewrite Hm.
Qed.

Lemma head_path_join a b :
  path_join (tr_path (Transport.chdir (ar_transport a) (BandId.to_string b))) BAND_HEAD_FILENAME = head_path a b.
Proof.
  rewrite band_dir_path. unfold head_path.
  rewrite (path_join_names _ [BAND_HEAD_FILENAME]) by (repeat constructor). by rewrite <-app_assoc.
Qed.

(** Opening the band *)
Lemma band_open_run a b w c m head :
  fault_free w → w_fs w !! head_path a b = Some (NFile c m) → from_json c = Some head → accepted head →
  ∃ w', Band.open a b w
    = (Ret (Ok (MkBand b (Transport.chdir (ar_transport a) (BandId.to_string b)) head)), w') ∧
    w_fs w' = w_fs w ∧ frame w w'.
Proof.
  intros Hf Hh Hj Hacc. unfold Band.open, read_json. cbv zeta. set (t := Transport.chdir _ _).
  destruct (read_file_run t BAND_HEAD_FILENAME w eq_refl Hf) as (w' & Hr & Hfs & Hfr).
  exists w'. split; [|done]. rewrite <-tr_read_file in Hr. unfold fs_read_file in Hr.
  change (tr_path t) with (tr_path (Transport.chdir (ar_transport a) (BandId.to_string b))) in Hr.
  rewrite head_path_join, Hh in Hr. cbn [map_err] in Hr.
  assert ((r ← Transport.read_file t BAND_HEAD_FILENAME;
    mret (match r with
          | Err err => if is_not_found err then Ok None else Err (JE_Transport err)
          | Ok bytes => match from_json bytes with Some t => Ok (Some t) | None => Err (JE_Json BAND_HEAD_FILENAME) end
          end)) w = (Ret (Ok (Some head)), w')) as Hr'.
  { rewrite (bind_run _ _ _ _ _ Hr). by rewrite Hj. }
  rewrite (bind_run _ _ _ _ _ Hr'). cbn iota beta. rewrite (bind_run _ _ _ _ _ (accepted_run head w' Hacc)).
  destruct Hacc as [Hfl _]. rewrite Hfl. done.
Qed.

(** ** Listing the hunks *)

Lemma list_files_run (t : Transport) dirs acc w :
  fault_free w → Forall (λ d, valid_name d = true) dirs →
  ∃ r w', fold_st (λ acc dir, r ← Transport.list_dir t dir;
             mret (match r with Ok l => acc ++ ld_files l | Err _ => acc end)%list) acc dirs w = (Ret r, w').
Proof.
  intros Hf Hd. revert acc w Hf. induction Hd as [|d dirs Hd _ IH]; intros acc w Hf; cbn [fold_st]; [by eexists _, _|].
  destruct (list_dir_run t d w) as (w1 & Hr & _ & Hfr); [apply (names_plain [d]); by repeat constructor|done|].
  rewrite <-tr_list_dir in Hr.
  destruct (IH (match fs_read_dir (path_join (tr_path t) d) (w_fs w) with
    | Ok es => acc ++ ld_files (Local.classify (permute (w_order w (w_tick w)) es) (MkListDir [] []))
    | Err _ => acc end)%list w1) as (r & w2 & Hr2); [by eapply fault_free_frame|].
  exists r, w2. erewrite bind_run; [exact Hr2|]. rewrite (bind_run _ _ _ _ _ Hr).
  by destruct (fs_read_dir _ _).
Qed.

Lemma sorted_NoDup (l : list N) : StronglySorted N.lt l → NoDup l.
Proof.
  induction 1 as [|x l _ IH Hx]; constructor; [|done]. rewrite Forall_forall in Hx. intros Hin%Hx. lia.
Qed.

Lemma sorted_same (l k : list N) :
  StronglySorted N.lt l → StronglySorted N.lt k → (∀ n, n ∈ l ↔ n ∈ k) → l = k.
Proof.
  intros Hl Hk Heq. apply (StronglySorted_unique_strong N.lt); [|done|done|].
  - intros x y _ _ Hxy Hyx. lia.
  - apply NoDup_Permutation; [by apply sorted_NoDup..|done].
Qed.

(** The numbers of the hunks *)
Definition numbers (k : nat) (hs : list (list IndexEntry)) : list N := N.of_nat <$> seq k (length hs).

Lemma numbers_cons k es hs : numbers k (es :: hs) = N.of_nat k :: numbers (S k) hs.
Proof. done. Qed.

Lemma elem_of_numbers n k hs : n ∈ numbers k hs ↔ ∃ i, n = N.of_nat (k + i) ∧ i < length hs.
Proof.
  unfold numbers. rewrite list_elem_of_fmap. split.
  - intros (m & -> & Hm%elem_of_seq). exists (m - k). split; [f_equal; lia|lia].
  - intros (i & -> & Hi). exists (k + i). split; [done|]. apply elem_of_seq. lia.
Qed.

Lemma numbers_sorted k hs : StronglySorted N.lt (numbers k hs).
Proof.
  revert k. induction hs as [|es hs IH]; intros k; [constructor|]. rewrite numbers_cons. constructor; [apply IH|].
  apply Forall_forall. intros n (i & -> & _)%elem_of_numbers. lia.
Qed.

Lemma hunks_available_run a b hs index w :
  fault_free w → stored_band a (w_fs w) b hs → ir_transport index = index_transport a b →
  ∃ w', IndexRead.hunks_available index w = (Ret (Ok (numbers 0 hs)), w') ∧ w_fs w' = w_fs w ∧ frame w w'.
Proof.
  intros Hf Hsb Ht. destruct (sb_root _ _ _ _ Hsb) as [mr Hroot].
  assert (∃ hunks w', IndexRead.hunks_available index w = (Ret (Ok hunks), w')) as (hunks & w' & Hr).
  { unfold IndexRead.hunks_available. rewrite Ht.
    destruct (list_dir_run (index_transport a b) "" w eq_refl Hf) as (w1 & Hr & Hfs & Hfr).
    rewrite <-tr_list_dir, path_join_empty in Hr. unfold fs_read_dir in Hr. rewrite Hroot in Hr.
    rewrite (bind_run _ _ _ _ _ Hr). cbn iota beta zeta.
    edestruct (list_files_run (index_transport a b)) as (r & w2 & Hr2); [by eapply fault_free_frame| |].
    2: { erewrite bind_run by exact Hr2. by eexists _, _. }
    apply list_dir_NoDup in Hr as (_ & _ & _ & _ & Hdirs). rewrite sort_by_perm. apply Forall_forall.
    intros d [m Hd]%Hdirs. rewrite path_join_empty in Hd. by eapply sb_names. }
  exists w'. pose proof Hr as Hq. apply reading_quiet in Hq; [|apply hunks_available_reading; apply _..].
  split; [|done]. rewrite Hr. do 3 f_equal. apply sorted_same; [|apply numbers_sorted|].
  - eapply hunks_available_sorted; [|exact Hr]. rewrite Ht. apply Hsb.
  - intros n. rewrite elem_of_numbers. split.
    + intros Hn. unfold IndexRead.hunks_available in Hr. inv_run Hr. destruct a0 as [l|]; [|inv_run Hr].
      apply list_dir_NoDup in Hrun as (_ & _ & Hfs & _ & Hdirs). rewrite path_join_empty in Hdirs.
      inv_run Hr. inv_run Hr. rewrite sort_by_perm in Hn. apply list_elem_of_omap in Hn as (f & Hin & Hp).
      destruct (list_files_sound _ _ _ _ _ _ f Hrun Hin) as [[]%not_elem_of_nil|(d & c & m & Hd & Hfile)].
      rewrite sort_by_perm in Hd. apply Hdirs in Hd as [md Hd]. rewrite Ht in Hd, Hfile. rewrite Hfs in Hfile.
      pose proof (ok_names _ _ (sb_index _ _ _ _ Hsb) _ _ _ _ _ _ Hd Hfile Hp) as [-> ->].
      exists (N.to_nat n). split; [simpl; lia|]. eapply (sb_only _ _ _ _ Hsb n c m).
      rewrite (path_join_names _ [subdir_relpath n]), <-app_assoc in Hfile; [exact Hfile|].
      repeat constructor. apply pad_decimal_valid_name.
    + intros (i & -> & Hi). apply lookup_lt_is_Some in Hi as [es Hes].
      eapply hunks_available_complete; [exact Hf| |exact Hr]. rewrite Ht. by eapply sb_hunks.
Qed.
End stored.

(** ** Choosing the band *)

Section selecting.
Context `{Ext} `{BuildCfg} `{Codecs}.

Definition newest (a : Archive) (fs : Fs) (b : BandId) : Prop :=
  listed a fs b ∧ ∀ c, listed a fs c → (band_num c <= band_num b)%N.

(** The band that a policy chooses, when it is a finished one *)
Definition selects (a : Archive) (fs : Fs) (p : BandSelectionPolicy) (b : BandId) : Prop :=
  match p with
  | Specified c => c = b
  | LatestClosed | Latest => newest a fs b ∧ is_dir_node (fs !! archive_path a) = true
  end.

Lemma band_ids_run a w :
  fault_free w → is_dir_node (w_fs w !! archive_path a) = true →
  ∃ ids w', Archive.iter_band_ids_unsorted a w = (Ret (Ok ids), w') ∧ w_fs w' = w_fs w ∧ frame w w' ∧
    ∀ b, b ∈ ids ↔ listed a (w_fs w) b.
Proof.
  intros Hf Hd. assert (∃ ids w', Archive.iter_band_ids_unsorted a w = (Ret (Ok ids), w')) as (ids & w' & Hr).
  { unfold Archive.iter_band_ids_unsorted. destruct (list_dir_run (ar_transport a) "" w eq_refl Hf) as (w1 & Hr & _).
    rewrite <-tr_list_dir, path_join_empty in Hr. unfold fs_read_dir in Hr. fold (archive_path a) in Hr.
    destruct (w_fs w !! archive_path a) as [[]|]; try done. rewrite (bind_run _ _ _ _ _ Hr). by eexists _, _. }
  exists ids, w'. split; [done|]. pose proof Hr as Hq. apply reading_quiet in Hq as [Hfs Hfr]; [|apply iter_band_ids_reading; apply _..].
  split; [done|]. split; [done|]. by apply band_ids_inv in Hr as [_ ?].
Qed.

Lemma newest_unique (a : Archive) fs (b c : BandId) : newest a fs b → listed a fs c → (band_num b <= band_num c)%N → c = b.
Proof. intros [_ Hle] Hc Hbc. specialize (Hle c Hc). destruct b, c. simpl in *. f_equal. lia. Qed.

(** The newest band is the first one tried. *)
Lemma newest_first a fs b ids :
  newest a fs b → (∀ c, c ∈ ids ↔ listed a fs c) → ∃ older, reverse (sort_by BandId.cmp ids) = b :: older.
Proof.
  intros Hb Hids. assert (∀ c, c ∈ reverse (sort_by BandId.cmp ids) ↔ listed a fs c) as Hin.
  { intros c. by rewrite elem_of_reverse, sort_by_perm, Hids. }
  pose proof (sort_by_sorted BandId.cmp (cmp_antisym (cmp:=BandId.cmp)) bandid_cmp_trans ids) as Hs.
  destruct (sort_by BandId.cmp ids) as [|c l _] using rev_ind.
  { destruct Hb as [Hb _]. apply Hin in Hb. by apply not_elem_of_nil in Hb. }
  rewrite reverse_snoc in *. exists (reverse l). f_equal.
  apply (newest_unique a fs); [done|apply Hin; by left|].
  destruct Hb as [Hb _]. apply Hin, elem_of_cons in Hb as [->|Hb]; [done|]. rewrite elem_of_reverse in Hb.
  pose proof (StronglySorted_app_1_elem_of _ _ _ _ _ Hs Hb ltac:(by left)) as Hc.
  unfold BandId.cmp in Hc. rewrite N.compare_gt_iff in Hc. lia.
Qed.

Lemma last_complete_run a b hs w :
  fault_free w → stored_band a (w_fs w) b hs → newest a (w_fs w) b → is_dir_node (w_fs w !! archive_path a) = true →
  ∃ band w', Select.last_complete_band a w = (Ret (Ok (Some band)), w') ∧ b_band_id band = b ∧ w_fs w' = w_fs w ∧ frame w w'.
Proof.
  intros Hf Hsb Hn Hd. destruct (band_ids_run a w Hf Hd) as (ids & w1 & Hr1 & Hfs1 & Hfr1 & Hids).
  destruct (newest_first _ _ _ ids Hn Hids) as [older Hrev].
  destruct (sb_head _ _ _ _ Hsb) as (c & m & head & Hh & Hj & Hacc).
  assert (fault_free w1) as Hf1 by (by eapply fault_free_frame).
  destruct (band_open_run a b w1 c m head Hf1) as (w2 & Hr2 & Hfs2 & Hfr2); [by rewrite Hfs1|done|done|].
  set (band := MkBand b _ head) in *.
  assert (fault_free w2) as Hf2 by (by eapply fault_free_frame).
  destruct (is_file_run (Transport.chdir (ar_transport a) (BandId.to_string b)) BAND_TAIL_FILENAME w2)
    as (w3 & Hr3 & Hfs3 & Hfr3); [done|done|].
  rewrite tail_path_join in Hr3. destruct (sb_closed _ _ _ _ Hsb) as (ct & mt & Ht).
  rewrite Hfs2, Hfs1, Ht in Hr3.
  exists band, w3. split; [|split; [done|split; [congruence|by do 2 (etrans; [eassumption|])]]].
  unfold Select.last_complete_band, Archive.list_band_ids.
  rewrite (try_run _ _ w (sort_by BandId.cmp ids) w1) by by rewrite (bind_run _ _ _ _ _ Hr1).
  rewrite Hrev. cbn [Select.last_complete_loop]. rewrite (try_run _ _ _ _ _ Hr2).
  assert (Band.is_closed band w2 = (Ret (Ok true), w3)) as Hc by (unfold Band.is_closed; by rewrite (bind_run _ _ _ _ _ Hr3)).
  by rewrite (try_run _ _ _ _ _ Hc).
Qed.

(** Opening a finished version *)
Lemma open_stored_run a b hs p w :
  fault_free w → stored_band a (w_fs w) b hs → selects a (w_fs w) p b →
  ∃ band w', open_stored_tree a p w = (Ret (Ok (MkStoredTree band a (ar_block_dir a))), w') ∧ b_band_id band = b ∧
    w_fs w' = w_fs w ∧ frame w w'.
Proof.
  intros Hf Hsb Hp. destruct (sb_head _ _ _ _ Hsb) as (c & m & head & Hh & Hj & Hacc).
  assert (∃ w1, Select.resolve_band_id a p w = (Ret (Ok b), w1) ∧ w_fs w1 = w_fs w ∧ frame w w1) as (w1 & Hr1 & Hfs1 & Hfr1).
  { destruct p as [| |c']; cbn [Select.resolve_band_id selects] in *.
    - destruct Hp as [Hn Hd]. destruct (last_complete_run a b hs w Hf Hsb Hn Hd) as (band & w1 & Hr & Hb & Hq).
      exists w1. split; [|done]. rewrite (try_run _ _ _ _ _ Hr). cbn. unfold Band.id. by rewrite Hb.
    - destruct Hp as [Hn Hd]. destruct (band_ids_run a w Hf Hd) as (ids & w1 & Hr & Hfs & Hfr & Hids).
      exists w1. split; [|done]. unfold Archive.last_band_id.
      rewrite (try_run _ _ w (Archive.max_band_id ids) w1) by by rewrite (bind_run _ _ _ _ _ Hr).
      pose proof (max_band_id_spec ids) as Hm. destruct (Archive.max_band_id ids) as [x|].
      + destruct Hm as [Hin Hle]. rewrite (newest_unique a (w_fs w) b x); [done|done|by apply Hids|].
        apply Hle, Hids, Hn.
      + subst ids. destruct Hn as [Hn _]. apply Hids in Hn. by apply not_elem_of_nil in Hn.
    - exists w. by rewrite Hp. }
  destruct (band_open_run a b w1 c m head) as (w2 & Hr2 & Hfs2 & Hfr2); [by eapply fault_free_frame|by rewrite Hfs1|done|done|].
  eexists _, w2. split; [|split; [|split; [congruence|by etrans]]].
  - unfold open_stored_tree. rewrite (try_run _ _ _ _ _ Hr1). unfold StoredTree.open. by rewrite (try_run _ _ _ _ _ Hr2).
  - done.
Qed.
End selecting.

(** ** Loops over the entries while other files change *)

Section serves.
Context `{Ext} `{BuildCfg} {HI : Type} `{!HunkIter HI} (P : World → Prop).

(** In every world that satisfies [P], the source gives these hunks and then no more. *)
Fixpoint serves (hs : list (list IndexEntry)) (hi : HI) : Prop :=
  ∀ w, P w → ∃ r hi' w', next_hunk hi w = (Ret (r, hi'), w') ∧ w_fs w' = w_fs w ∧ frame w w' ∧
    match hs with
    | [] => r = None ∧ ∀ w, next_hunk hi' w = (Ret (None, hi'), w)
    | es :: hs => r = Some es ∧ serves hs hi'
    end.

Context {S : Type} (body : S → IndexEntry → M (result S Error)) (subtree : Apath) (exclude : Exclude)
  (I : list IndexEntry → S → World → Prop) (all : list IndexEntry).

Context (HP : ∀ before s w, I before s w → P w)
  (Hquiet : ∀ before s w w', I before s w → w_fs w' = w_fs w → frame w w' → I before s w')
  (Hbody : ∀ before e rest s w, all = before ++ e :: rest → I before s w →
     ∃ s' w', body s e w = (Ret (Ok s'), w') ∧ I (before ++ [e]) s' w').

#[local] Abbreviation Wanted := (filter (λ e, is_wanted subtree exclude e = true)).

Lemma for_buffered_serves (hi : HI) buffer : ∀ buffer' before rest s w,
  valid_entries buffer → all = (before ++ Wanted buffer ++ rest)%list → I before s w →
  ∃ s' w', IndexEntryIter.for_buffered (MkIndexEntryIter buffer' hi subtree exclude) body s buffer w
    = (Ret (Ok s'), w') ∧ I (before ++ Wanted buffer) s' w'.
Proof.
  intros buffer'. induction buffer as [|e buffer IH]; intros before rest s w Hv Hall Hi; cbn [IndexEntryIter.for_buffered].
  { exists s, w. by rewrite app_nil_r. }
  apply Forall_cons in Hv as [He Hv]. rewrite (bind_run _ _ _ _ _ (wanted_run _ e w He)). cbn beta.
  cbn [ei_subtree ei_exclude]. rewrite filter_cons in *. destruct (is_wanted subtree exclude e) eqn:E.
  - rewrite decide_True in * by done. destruct (Hbody before e (Wanted buffer ++ rest) s w Hall Hi) as (s1 & w1 & Hr & Hi1).
    rewrite (try_run _ _ _ _ _ Hr). destruct (IH (before ++ [e])%list rest s1 w1 Hv) as (s2 & w2 & Hr2 & Hi2); [|done|].
    + rewrite Hall, <-app_assoc. done.
    + exists s2, w2. split; [done|]. by rewrite <-app_assoc in Hi2.
  - rewrite decide_False in * by done. by eapply IH.
Qed.

Lemma for_loop_serves hs : ∀ fuel (hi : HI) buffer before s w,
  serves hs hi → valid_entries buffer → valid_entries (concat hs) → length hs ≤ fuel →
  all = (before ++ Wanted (buffer ++ concat hs))%list → I before s w →
  ∃ s' w', IndexEntryIter.for_loop fuel body s (MkIndexEntryIter buffer hi subtree exclude) w
    = (Ret (Ok s'), w') ∧ I all s' w'.
Proof.
  induction hs as [|es hs IH]; intros fuel hi buffer before s w Hs Hb Hv Hf Hall Hi; rewrite filter_app in Hall.
  - assert (∃ s' w', IndexEntryIter.for_buffered (MkIndexEntryIter buffer hi subtree exclude) body s buffer w
      = (Ret (Ok s'), w') ∧ I (before ++ Wanted buffer) s' w') as (s1 & w1 & Hr & Hi1) by (by eapply for_buffered_serves).
    destruct (Hs w1) as (r & hi' & w2 & Hn & Hfs & Hfr & -> & _); [by eapply HP|].
    exists s1, w2. split; [|eapply Hquiet; [|exact Hfs|exact Hfr]; cbn in Hall; by rewrite Hall, app_nil_r].
    destruct fuel; cbn [IndexEntryIter.for_loop]; cbn [ei_buffered_entries];
      rewrite (try_run _ _ _ _ _ Hr); by erewrite bind_run by (by apply refill_run).
  - assert (∃ s' w', IndexEntryIter.for_buffered (MkIndexEntryIter buffer hi subtree exclude) body s buffer w
      = (Ret (Ok s'), w') ∧ I (before ++ Wanted buffer) s' w') as (s1 & w1 & Hr & Hi1) by (by eapply for_buffered_serves).
    destruct (Hs w1) as (r & hi' & w2 & Hn & Hfs & Hfr & -> & Hs'); [by eapply HP|].
    simpl concat in *. apply Forall_app in Hv as [Hve Hv].
    destruct fuel as [|fuel]; [simpl in Hf; lia|]. cbn [IndexEntryIter.for_loop]. cbn [ei_buffered_entries].
    rewrite (try_run _ _ _ _ _ Hr). erewrite bind_run by (by apply refill_run). cbn iota beta.
    apply (IH fuel hi' es (before ++ Wanted buffer)%list); try done.
    + simpl in Hf. lia.
    + by rewrite Hall, <-app_assoc.
    + by eapply Hquiet.
Qed.

Lemma for_entries_serves hs (hi : HI) s w :
  serves hs hi → valid_entries (concat hs) → length hs ≤ hunks_bound hi w → all = Wanted (concat hs) → I [] s w →
  ∃ s' w', IndexEntryIter.for_entries body s (IndexEntryIter.new hi subtree exclude) w = (Ret (Ok s'), w') ∧ I all s' w'.
Proof.
  intros Hs Hv Hb Hall Hi. unfold IndexEntryIter.for_entries, IndexEntryIter.new. erewrite bind_run by done.
  apply (for_loop_serves hs _ hi [] []); try done. constructor.
Qed.
End serves.

(** Looking up entries in the order of the hunks *)
Section advancing.
Context `{Ext} `{BuildCfg} {HI : Type} `{!HunkIter HI, !HunkIterLaws HI} (P : World → Prop).
Context (Hquiet : ∀ w w', P w → quiet w w' → P w').

(** What is left of an iterator *)
Definition leaves (it : IndexEntryIter HI) (es : list IndexEntry) : Prop :=
  ∃ hs, serves P hs (ei_hunk_iter it) ∧ es = (ei_buffered_entries it ++ concat hs)%list.

Lemma advance_buffered_in p es :
  let '(r, rest) := IndexEntryIter.advance_buffered p es in
  rest ⊆ es ∧ ∀ e, r = Some (Some e) → e ∈ es ∧ ie_apath e = p.
Proof.
  induction es as [|x es IH]; cbn [IndexEntryIter.advance_buffered]; [done|].
  destruct (Apath.cmp (ie_apath x) p) eqn:E.
  - split; [by set_solver|]. intros e [= ->]. split; [by left|]. by apply (cmp_eq_iff (cmp := Apath.cmp)) in E.
  - destruct (IndexEntryIter.advance_buffered p es) as [r rest]. destruct IH as [Hs Hr]. split; [by set_solver|].
    intros e He. destruct (Hr e He). split; [by right|done].
  - done.
Qed.

Lemma advance_loop_serves p fuel : ∀ it es w,
  leaves it es → P w → (IndexEntryIter.advance_loop fuel it p w).1 ≠ NoFuel →
  ∃ r it' w' es', IndexEntryIter.advance_loop fuel it p w = (Ret (r, it'), w') ∧ quiet w w' ∧ leaves it' es' ∧ es' ⊆ es ∧
    ∀ e, r = Some e → e ∈ es ∧ ie_apath e = p.
Proof.
  induction fuel as [|fuel IH]; intros it es w (hs & Hs & ->) Hw; cbn [IndexEntryIter.advance_loop];
    pose proof (advance_buffered_in p (ei_buffered_entries it)) as Hb;
    destruct (IndexEntryIter.advance_buffered p (ei_buffered_entries it)) as [[found|] buffer]; destruct Hb as [Hsub Hin].
  1, 3: intros _; exists found, (IndexEntryIter.with_buffer buffer it), w, (buffer ++ concat hs)%list; split; [done|];
    split; [done|]; split; [by exists hs|]; split; [by set_solver|]; intros e ->; destruct (Hin e eq_refl);
    split; [apply elem_of_app; by left|done].
  all: destruct hs as [|h hs]; destruct (Hs w Hw) as (r & hi' & w1 & Hn & Hfs & Hfr & -> & Hrest);
    destruct it as [buf hi sub ex]; unfold IndexEntryIter.with_buffer; cbn [ei_hunk_iter ei_subtree ei_exclude ei_buffered_entries] in *;
    erewrite bind_run by (by apply refill_run); cbn iota beta.
  1, 3: intros _; eexists None, _, w1, []; split; [done|]; split; [done|]; split; [|split; [by set_solver|done]];
    exists []; split; [|done]; intros w2 _; exists None, hi', w2; by split_and!.
  1: done.
  intros Hfuel. destruct (IH (MkIndexEntryIter h hi' sub ex) (h ++ concat hs)%list w1) as (r & it' & w2 & es' & Hr & Hq & Hl & Hes' & Hin');
    [by exists hs|by eapply Hquiet|done|].
  exists r, it', w2, es'. split; [done|]. split; [etrans; [|exact Hq]; done|]. split; [done|]. split; [simpl; set_solver|].
  intros e He. destruct (Hin' e He). split; [simpl; set_solver|done].
Qed.

Lemma advance_to_serves it es p w :
  leaves it es → P w →
  ∃ r it' w' es', IndexEntryIter.advance_to it p w = (Ret (r, it'), w') ∧ quiet w w' ∧ leaves it' es' ∧ es' ⊆ es ∧
    ∀ e, r = Some e → e ∈ es ∧ ie_apath e = p.
Proof.
  intros Hl Hw. unfold IndexEntryIter.advance_to. erewrite bind_run by done. apply advance_loop_serves; [done..|].
  by apply advance_loop_terminates.
Qed.
End advancing.

(** ** The hunks of a finished band, while the rest of the file system changes *)

(** The directory of a band *)
Definition band_path (a : Archive) (b : BandId) : Path := (archive_path a ++ [BandId.to_string b])%list.

Lemma band_path_below a b : archive_path a `prefix_of` band_path a b.
Proof. by apply prefix_app_r. Qed.

Lemma head_path_in a b : head_path a b = (band_path a b ++ [BAND_HEAD_FILENAME])%list.
Proof. unfold head_path, band_path. by rewrite <-app_assoc. Qed.
Lemma tail_path_in a b : tail_path a b = (band_path a b ++ [BAND_TAIL_FILENAME])%list.
Proof. unfold tail_path, band_path. by rewrite <-app_assoc. Qed.
Lemma index_path_in `{Ext} `{BuildCfg} a b : tr_path (index_transport a b) = (band_path a b ++ [INDEX_DIR])%list.
Proof.
  unfold index_transport, band_path. rewrite <-band_dir_path. by apply (path_join_names _ [INDEX_DIR]); repeat constructor.
Qed.

Lemma same_below_mono (d d' : Path) fs fs' : d `prefix_of` d' → same_below d fs fs' → same_below d' fs fs'.
Proof. intros Hd Hs p Hp. apply Hs. by etrans. Qed.

Lemma same_at (d : Path) (fs0 fs : Fs) p q : same_below d fs0 fs → d `prefix_of` p → fs !! (p ++ q)%list = fs0 !! (p ++ q)%list.
Proof. intros Hs Hp. apply Hs. etrans; [exact Hp|]. by apply prefix_app_r. Qed.

Section steady.
Context `{Ext} `{BuildCfg} `{Codecs} (a : Archive) (b : BandId) (fs0 : Fs).

#[local] Abbreviation Same := (same_below (band_path a b) fs0).

(** Nothing fails, and the band is as it was. *)
Definition steady (w : World) : Prop := fault_free w ∧ Same (w_fs w).

Lemma steady_quiet w w' : steady w → w_fs w' = w_fs w → frame w w' → steady w'.
Proof. intros [Hf Hs] Hfs Hfr. split; [by eapply fault_free_frame|by rewrite Hfs]. Qed.

Lemma index_same fs q : Same fs → fs !! (tr_path (index_transport a b) ++ q)%list = fs0 !! (tr_path (index_transport a b) ++ q)%list.
Proof. intros Hs. apply (same_at (band_path a b)); [done|]. rewrite index_path_in. by apply prefix_app_r. Qed.

Lemma head_same fs : Same fs → fs !! head_path a b = fs0 !! head_path a b.
Proof. intros Hs. rewrite head_path_in. by apply (same_at (band_path a b)). Qed.

Lemma tail_same fs : Same fs → fs !! tail_path a b = fs0 !! tail_path a b.
Proof. intros Hs. rewrite tail_path_in. by apply (same_at (band_path a b)). Qed.

(** What is stored does not depend on the rest. *)
Lemma stored_hunk_same fs n es :
  Same fs → stored_hunk fs (index_transport a b) n es ↔ stored_hunk fs0 (index_transport a b) n es.
Proof.
  intros Hs. unfold stored_hunk, hunk_path. by rewrite index_same.
Qed.

Lemma stored_band_same fs hs : Same fs → stored_band a fs0 b hs → stored_band a fs b hs.
Proof.
  intros Hs [Hh Hc Hr Hn Hi Hk Ho He].
  assert (∀ q, fs !! (tr_path (index_transport a b) ++ q)%list = fs0 !! (tr_path (index_transport a b) ++ q)%list) as Hat.
  { intros q. by apply index_same. }
  assert (fs !! tr_path (index_transport a b) = fs0 !! tr_path (index_transport a b)) as Hroot.
  { rewrite <-(app_nil_r (tr_path _)). apply Hat. }
  split; [|by unfold closed; rewrite tail_same| | | | | |done].
  - by rewrite head_same.
  - by rewrite Hroot.
  - intros d m. rewrite Hat. apply Hn.
  - destruct Hi as [Hnm Hso Hin]. split.
    + intros d md f c m n Hd Hf. rewrite Hat in Hd. apply (Hnm d md f c m n Hd).
      assert (path_join (tr_path (index_transport a b)) d = (tr_path (index_transport a b) ++ [d])%list) as Hj.
      { apply (path_join_names _ [d]). constructor; [by eapply Hn|constructor]. }
      rewrite Hj in Hf |- *. by rewrite <-app_assoc, Hat, app_assoc in Hf.
    + intros n es. rewrite stored_hunk_same by done. apply Hso.
    + intros n n' es es' e e' Hlt H1' H2'. apply stored_hunk_same in H1', H2'; [|done..]. by eapply Hin.
  - intros n es Hes. destruct (Hk n es Hes) as (Hst & Hmax & Hr' & Hd). split; [by apply stored_hunk_same|].
    split; [done|]. rewrite Hroot. split; [done|]. unfold hunk_subdir. by rewrite Hat.
  - intros n c m. unfold hunk_path. rewrite Hat. apply Ho.
Qed.

(** The finished band has been read to its end. *)
Lemma is_closed_here w : closed a fs0 b → steady w →
  ∃ w', Archive.band_is_closed a b w = (Ret (Ok true), w') ∧ w_fs w' = w_fs w ∧ frame w w'.
Proof.
  intros (c & m & Hc) [Hf Hs]. unfold Archive.band_is_closed.
  assert (valid_names [BandId.to_string b; BAND_TAIL_FILENAME]) as Hv.
  { repeat constructor. apply bandid_valid_name. }
  destruct (is_file_run (ar_transport a) (BandId.to_string b +:+ "/" +:+ BAND_TAIL_FILENAME) w
    (names_plain _ Hv) Hf) as (w1 & Hr & Hfs & Hfr). rewrite band_file_path in Hr by done.
  change (archive_path a ++ [BandId.to_string b; BAND_TAIL_FILENAME])%list with (tail_path a b) in Hr.
  assert (w_fs w !! tail_path a b = Some (NFile c m)) as Ht by (by rewrite tail_same).
  rewrite Ht in Hr. exists w1. split; [|done]. by rewrite (bind_run _ _ _ _ _ Hr).
Qed.

Lemma after_closed last fuel w :
  closed a fs0 b → steady w →
  ∃ self' w', Stitch.next_loop (S (S fuel)) (MkIterStitched last a (AfterBand b)) w = (Ret (None, self'), w') ∧
    w_fs w' = w_fs w ∧ frame w w' ∧ ∀ w, Stitch.next self' w = (Ret (None, self'), w).
Proof.
  intros Hc Hw. destruct (is_closed_here w Hc Hw) as (w1 & Hr & Hfs & Hfr).
  exists (MkIterStitched last a Done), w1. split; [|done]. cbn [Stitch.next_loop].
  assert (Stitch.step_after (MkIterStitched last a (AfterBand b)) b w = (Ret Done, w1)) as Ha.
  { unfold Stitch.step_after. cbn [st_archive]. by rewrite (bind_run _ _ _ _ _ Hr). }
  erewrite bind_run; [|unfold Stitch.step; cbn [st_state]; by rewrite (bind_run _ _ _ _ _ Ha)]. done.
Qed.

(** From the hunk [k] on *)
Lemma stored_from_serves hs : ∀ k index last,
  ir_transport index = index_transport a b → closed a fs0 b →
  (∀ i es, hs !! i = Some es → stored_hunk fs0 (index_transport a b) (N.of_nat (k + i)) es) →
  Forall (λ es, es ≠ []) hs →
  serves steady hs (MkIterStitched last a (InBand b (MkIndexHunkIter (numbers k hs) index None))).
Proof.
  induction hs as [|es hs IH]; intros k index last Ht Hc Hst Hne; cbn [serves]; intros w [Hf Hs];
    change (next_hunk ?x w) with (Stitch.next x w).
  - destruct (after_closed last (3 * N.to_nat (band_num b)) w Hc (conj Hf Hs)) as (self' & w' & Hr & Hfs & Hfr & Hover).
    exists None, self', w'. split; [|by split_and!]. unfold Stitch.next, Stitch.rounds. cbn [st_state].
    replace (3 * _ + 3) with (S (S (S (3 * N.to_nat (band_num b))))) by lia.
    cbn [Stitch.next_loop]. erewrite bind_run by done. exact Hr.
  - destruct (Hst 0 es eq_refl) as (c & m & json & Hp & Hd & Hj). rewrite Nat.add_0_r in Hp.
    apply Forall_cons in Hne as [Hes Hne].
    destruct (read_hunk_disk index (N.of_nat k) w c m json es Hf) as (index' & w1 & Hr & Hfs & Hfr); [|done|done|].
    { rewrite Ht. unfold hunk_path in *. by rewrite index_same. }
    exists (Some es), (MkIterStitched (Stitch.last_apath_of es last) a
      (InBand b (MkIndexHunkIter (numbers (S k) hs) index' None))), w1.
    assert (ir_transport index' = index_transport a b) as Ht' by (apply read_hunk_inv in Hr as [-> _]; done).
    split; [|split; [done|split; [done|split; [done|]]]].
    + unfold Stitch.next, Stitch.rounds. cbn [st_state]. rewrite Nat.add_succ_r. cbn [Stitch.next_loop].
      assert (IndexHunkIter.next (MkIndexHunkIter (numbers k (es :: hs)) index None) w
        = (Ret (Some es, MkIndexHunkIter (numbers (S k) hs) index' None), w1)) as Hn.
      { unfold IndexHunkIter.next. cbn [hi_hunks hi_index hi_after]. rewrite numbers_cons. cbn [IndexHunkIter.next_loop].
        rewrite (bind_run _ _ _ _ _ Hr). by destruct es. }
      erewrite bind_run; [|unfold Stitch.step; cbn [st_state]; rewrite (bind_run _ _ _ _ _ Hn); cbn; done]. done.
    + apply IH; [done|done| |done]. intros i es' Hi. specialize (Hst (S i) es' Hi).
      by replace (S k + i) with (k + S i) by lia.
Qed.

(** Iterating over the finished band gives its hunks. *)
Lemma stored_band_serves hs : stored_band a fs0 b hs → serves steady hs (Stitch.new a b).
Proof.
  intros Hsb. destruct (sb_head _ _ _ _ Hsb) as (c & m & head & Hh & Hj & Hacc).
  assert (∀ w, steady w → ∃ index w', ir_transport index = index_transport a b ∧
    Stitch.step (Stitch.new a b) w
    = (Ret (None, MkIterStitched None a (InBand b (MkIndexHunkIter (numbers 0 hs) index None))), w') ∧
    w_fs w' = w_fs w ∧ frame w w') as Hstep.
  { intros w [Hf Hs]. pose proof (stored_band_same _ _ Hs Hsb) as Hsb'.
    destruct (band_open_run a b w c m head Hf) as (w1 & Hr1 & Hfs1 & Hfr1); [|done|done|].
    { by rewrite head_same. }
    set (band := MkBand b _ head) in *.
    destruct (hunks_available_run a b hs (Band.index band) w1) as (w2 & Hr2 & Hfs2 & Hfr2);
      [by eapply fault_free_frame|by rewrite Hfs1|done|].
    exists (Band.index band), w2. split; [done|]. split; [|split; [congruence|by etrans]].
    assert (Stitch.step_before (Stitch.new a b) b w
      = (Ret (InBand b (MkIndexHunkIter (numbers 0 hs) (Band.index band) None)), w2)) as Hb.
    { unfold Stitch.step_before. cbn [st_archive Stitch.new st_last_apath]. rewrite (bind_run _ _ _ _ _ Hr1).
      unfold IndexHunkIter.iter_available_hunks. erewrite bind_run by (by rewrite (bind_run _ _ _ _ _ Hr2)). done. }
    unfold Stitch.step. cbn [st_state Stitch.new]. by rewrite (bind_run _ _ _ _ _ Hb). }
  assert (∀ w, steady w → ∃ index w', ir_transport index = index_transport a b ∧ w_fs w' = w_fs w ∧ frame w w' ∧
    ∀ r self' w2, Stitch.next (MkIterStitched None a (InBand b (MkIndexHunkIter (numbers 0 hs) index None))) w'
       = (Ret (r, self'), w2) → Stitch.next (Stitch.new a b) w = (Ret (r, self'), w2)) as Hfirst.
  { intros w Hw. destruct (Hstep w Hw) as (index & w' & Ht & Hr & Hfs & Hfr). exists index, w'. split; [done|].
    split; [done|]. split; [done|]. intros r self' w2 Hn. unfold Stitch.next, Stitch.rounds in *.
    cbn [st_state Stitch.new] in *. rewrite (Nat.add_succ_r _ 3). cbn [Stitch.next_loop].
    rewrite (bind_run _ _ _ _ _ Hr). exact Hn. }
  assert (∀ index, ir_transport index = index_transport a b →
    serves steady hs (MkIterStitched None a (InBand b (MkIndexHunkIter (numbers 0 hs) index None)))) as Hrest.
  { intros index Ht. apply stored_from_serves; [done|apply Hsb| |apply Hsb].
    intros i es Hi. by apply (sb_hunks _ _ _ _ Hsb). }
  destruct hs as [|es hs]; intros w Hw; destruct (Hfirst w Hw) as (index & w1 & Ht & Hfs1 & Hfr1 & Hn);
    destruct (Hrest index Ht w1) as (r & hi' & w2 & Hr & Hfs2 & Hfr2 & Hx);
    try (by eapply steady_quiet); exists r, hi', w2;
    (split; [by apply Hn|]; split; [congruence|]; split; [by etrans|done]).
Qed.
End steady.
