(* ===== verification/BlockListing.v ===== *)
(** * Listing a block directory (src/blockdir.rs)

    What [blocks] and [subdirs] give, without failures, when every file that is taken
    for a block is where blocks are stored. *)

From Stdlib Require Import Ascii.
From S2P Require Import Prelude Text Apath Externals Ids Entry Counters Errors World Transport.
From S2P Require Import Sample Excludes Jsonio SampleWorld BlockDir Index Archive Stitch HunkIndex StoredBand.
From stdpp Require Import list gmap strings.

(** ** One directory *)

Section directory.
Context `{Ext} `{BuildCfg}.

(** A listing names the files and the directories that there are, without failures. *)
Lemma listing_run (t : Transport) s w m :
  plain s → fault_free w → w_fs w !! path_join (tr_path t) s = Some (NDir m) →
  ∃ l w', Transport.list_dir t s w = (Ret (Ok l), w') ∧ quiet w w' ∧
    (∀ n, n ∈ ld_files l → ∃ c mf, w_fs w !! (path_join (tr_path t) s ++ [n])%list = Some (NFile c mf)) ∧
    (∀ n c mf, utf8_valid n = true → w_fs w !! (path_join (tr_path t) s ++ [n])%list = Some (NFile c mf) → n ∈ ld_files l) ∧
    (∀ n, n ∈ ld_dirs l → ∃ md, w_fs w !! (path_join (tr_path t) s ++ [n])%list = Some (NDir md)) ∧
    (∀ n md, utf8_valid n = true → w_fs w !! (path_join (tr_path t) s ++ [n])%list = Some (NDir md) → n ∈ ld_dirs l).
Proof.
  intros Hs Hf Hm. destruct (list_dir_run t s w Hs Hf) as (w' & Hr & Hfs & Hfr). rewrite <-tr_list_dir in Hr.
  unfold fs_read_dir in Hr. rewrite Hm in Hr. eexists _, w'. split; [exact Hr|]. split; [done|].
  pose proof Hr as (_ & _ & _ & Hfiles & Hdirs)%list_dir_NoDup. split; [exact Hfiles|]. split; [|split; [exact Hdirs|]].
  - intros n c mf Hu Hn. destruct (list_dir_complete t s w _ w' m n _ Hs Hf Hm Hn Hu Hr) as (l & [= <-] & Hl & _). by apply Hl.
  - intros n md Hu Hn. destruct (list_dir_complete t s w _ w' m n _ Hs Hf Hm Hn Hu Hr) as (l & [= <-] & _ & Hl). by apply Hl.
Qed.
End directory.

(** Hexadecimal digits are ASCII. *)
Lemma all_hex_utf8 `{Ext} s : all_hex s = true → utf8_valid s = true.
Proof.
  unfold utf8_valid. induction s as [|a s IH]; [done|]. cbn [all_hex utf8_valid_from].
  intros [Ha Hs]%andb_true_iff. unfold is_hex_digit in Ha. destruct (N.ltb_spec (N_of_ascii a) 128) as [|Hge]; [by apply IH|].
  apply orb_true_iff in Ha as [[_ Ha%N.leb_le]%andb_true_iff|[_ Ha%N.leb_le]%andb_true_iff]; lia.
Qed.

(** ** The blocks *)

Section blocks.
Context `{Ext, !HashLaws, !HexLaws} `{BuildCfg} (bd : BlockDir).
#[local] Abbreviation root := (tr_path (bd_transport bd)).

(** A file is there under the name of the block. *)
Definition is_block (fs : Fs) (h : BlockHash) : Prop :=
  BlockHash.fits h ∧ ∃ c m, fs !! block_path bd h = Some (NFile c m).

(** Every file that has the name of a block, in a directory that can be one of blocks,
    is where the block is stored. *)
Record tidy_blocks (fs : Fs) : Prop := {
  tb_root : ∃ m, fs !! root = Some (NDir m);
  tb_dirs : ∀ d m, fs !! (root ++ [d])%list = Some (NDir m) → String.length d = SUBDIR_NAME_CHARS → valid_name d = true;
  tb_files : ∀ d f c m h, fs !! (root ++ [d; f])%list = Some (NFile c m) → String.length d = SUBDIR_NAME_CHARS →
    BlockHash.from_str f = Ok h → [d; f] = block_names h
}.

Lemma subdirs_run w :
  fault_free w → tidy_blocks (w_fs w) →
  ∃ ds w', BlockDir.subdirs bd w = (Ret (Ok ds), w') ∧ quiet w w' ∧
    (∀ d, d ∈ ds → valid_name d = true ∧ String.length d = SUBDIR_NAME_CHARS ∧ ∃ m, w_fs w !! (root ++ [d])%list = Some (NDir m)) ∧
    (∀ d m, utf8_valid d = true → String.length d = SUBDIR_NAME_CHARS → w_fs w !! (root ++ [d])%list = Some (NDir m) → d ∈ ds).
Proof.
  intros Hf [[m Hm] Hd _]. destruct (listing_run (bd_transport bd) "" w m) as (l & w' & Hr & Hq & _ & _ & Hdirs & Hall);
    [done|done|by rewrite path_join_empty|]. rewrite path_join_empty in Hdirs, Hall.
  eexists _, w'. split; [unfold BlockDir.subdirs; by rewrite (bind_run _ _ _ _ _ Hr)|]. split; [done|]. split.
  - intros d [Hl Hin]%list_elem_of_filter. destruct (Hdirs d Hin) as [md Hmd]. split; [by eapply Hd|]. split; [done|by eexists].
  - intros d md Hu Hl Hmd. apply list_elem_of_filter. split; [done|]. by eapply Hall.
Qed.

#[local] Abbreviation collect_names := (λ acc subdir_name,
  r ← Transport.list_dir (bd_transport bd) subdir_name;
  match r with
  | Err source => _ ← monitor_error (ListBlocks source); mret acc
  | Ok l => mret (acc ++ BlockDir.parse_names (ld_files l))%list
  end).

Lemma collect_names_run ds acc w :
  fault_free w → tidy_blocks (w_fs w) →
  (∀ d, d ∈ ds → valid_name d = true ∧ String.length d = SUBDIR_NAME_CHARS ∧ ∃ m, w_fs w !! (root ++ [d])%list = Some (NDir m)) →
  ∃ l w', fold_st collect_names acc ds w = (Ret l, w') ∧ quiet w w' ∧
    ∀ h, h ∈ l ↔ h ∈ acc ∨ is_block (w_fs w) h ∧ string_take SUBDIR_NAME_CHARS (BlockHash.to_string h) ∈ ds.
Proof.
  revert acc w. induction ds as [|d ds IH]; intros acc w Hf Ht Hds; cbn [fold_st].
  { exists acc, w. split; [done|]. split; [done|]. intros h. split; [by left|]. by intros [?|[_ []%not_elem_of_nil]]. }
  destruct (Hds d ltac:(by left)) as (Hv & Hl & m & Hm).
  assert (path_join root d = (root ++ [d])%list) as Hj by (apply (path_join_names _ [d]); by repeat constructor).
  destruct (listing_run (bd_transport bd) d w m) as (ld & w1 & Hr & Hq & Hfiles & Hall & _);
    [apply (names_plain [d]); by repeat constructor|done|by rewrite Hj|]. rewrite Hj in Hfiles, Hall.
  pose proof Hq as [Hfs Hfr]. destruct (IH (acc ++ BlockDir.parse_names (ld_files ld))%list w1) as (l & w2 & Hr2 & Hq2 & Hin).
  { by eapply quiet_free. }
  { by rewrite Hfs. }
  { intros d' Hd'. rewrite Hfs. apply Hds. by right. }
  exists l, w2. split; [|split; [by etrans|]].
  { erewrite bind_run; [exact Hr2|]. by rewrite (bind_run _ _ _ _ _ Hr). }
  intros h. rewrite Hin, Hfs, elem_of_app, elem_of_cons. split.
  - intros [[Hh|Hh]|Hh]; [by left| |by right; split; [|right]; apply Hh]. right.
    apply list_elem_of_omap in Hh as (f & Hf' & Hp). destruct (BlockHash.from_str f) as [k|] eqn:E; simplify_eq/=.
    destruct (Hfiles f Hf') as (c & mf & Hc). rewrite <-app_assoc in Hc.
    pose proof (tb_files _ Ht d f c mf h Hc Hl E) as Hn. split.
    + split; [by eapply blockhash_from_str_fits|]. exists c, mf. unfold block_path. by rewrite <-Hn.
    + left. by injection Hn as -> _.
  - intros [Hh|[Hb [Hd|Hd]]]; [by left; left| |by right; split]. left; right. destruct Hb as (Hfit & c & mf & Hc).
    apply list_elem_of_omap. exists (BlockHash.to_string h). split; [|by rewrite blockhash_from_to_string].
    apply (Hall _ c mf).
    + apply all_hex_utf8, hex_encode_digits.
    + rewrite <-app_assoc, <-Hd. exact Hc.
Qed.

(** [blocks()] gives the blocks that there are. *)
Lemma blocks_run w :
  fault_free w → fs_closed (w_fs w) → tidy_blocks (w_fs w) →
  ∃ l w', BlockDir.blocks bd w = (Ret (Ok l), w') ∧ quiet w w' ∧ ∀ h, h ∈ l ↔ is_block (w_fs w) h.
Proof.
  intros Hf Hcl Ht. destruct (subdirs_run w Hf Ht) as (ds & w1 & Hr1 & [Hfs1 Hfr1] & Hds & Hall).
  destruct (collect_names_run ds [] w1) as (l & w2 & Hr2 & [Hfs2 Hfr2] & Hin).
  { by eapply fault_free_frame. }
  { by rewrite Hfs1. }
  { intros d Hd. rewrite Hfs1. by apply Hds. }
  exists l, w2. split; [|split; [split; [congruence|by etrans]|]].
  { unfold BlockDir.blocks. rewrite (try_run _ _ _ _ _ Hr1). by rewrite (bind_run _ _ _ _ _ Hr2). }
  intros h. rewrite Hin, Hfs1. split; [by intros [[]%not_elem_of_nil|[? _]]|]. intros Hb. right. split; [done|].
  destruct Hb as (Hfit & c & m & Hc). pose proof (block_names_valid h Hfit) as Hv. inversion_clear Hv as [|? ? Hv1 _].
  assert (is_dir_node (w_fs w !! subdir_path bd h) = true) as Hd.
  { apply (Hcl _ [BlockHash.to_string h]); [done|]. eexists. unfold subdir_path. rewrite <-app_assoc. exact Hc. }
  destruct (w_fs w !! subdir_path bd h) as [[?|md|?|?]|] eqn:E; try done.
  apply (Hall _ md); [apply all_hex_utf8, all_hex_take, hex_encode_digits| |done]. rewrite string_length_take, hash_length by done. done.
Qed.

Lemma compressed_size_run h w c m :
  fault_free w → BlockHash.fits h → w_fs w !! block_path bd h = Some (NFile c m) →
  ∃ w', BlockDir.compressed_size bd h w = (Ret (Ok (BlockDir.len c)), w') ∧ quiet w w'.
Proof.
  intros Hf Hh Hc. unfold BlockDir.compressed_size. rewrite (bind_run _ _ _ _ _ (block_relpath_run h w Hh)).
  pose proof (block_names_valid h Hh) as Hv.
  destruct (metadata_run (bd_transport bd) (join_with "/" (block_names h)) w (names_plain _ Hv) Hf) as (w' & Hr & Hq).
  exists w'. split; [|done]. rewrite tr_metadata. rewrite (bind_run _ _ _ _ _ Hr). rewrite bd_join by done.
  unfold fs_stat, block_path in *. by rewrite Hc.
Qed.
End blocks.
