(* ===== verification/BandWriter.v ===== *)
(** * Writing a band

    The files of a band (src/band.rs, src/index.rs) while it is written: creating it,
    adding hunks to its index, and closing it, when nothing fails. What comes out is a
    finished band as [StoredBand] describes it. *)

From Stdlib Require Import Ascii.
From S2P Require Import Prelude Text Apath Externals Sample Ids Entry Counters Errors World Transport.
From S2P Require Import Excludes Jsonio SampleWorld BlockDir Index Archive Footprint Stitch HunkIndex StoredBand.
From stdpp Require Import list gmap strings sorting.

(** ** Hunks and their subdirectories *)

(** A number that begins a subdirectory is the first of it. *)
Lemma first_of_subdir (n i d : N) : (d ≠ 0 → n mod d = 0 → n / d = i / d → n <= i)%N.
Proof. intros Hd Hz Heq. rewrite (N.div_mod n d Hd), Hz, Heq, N.add_0_r. apply N.Div0.mul_div_le. Qed.

(** Any other is in the same as the one before. *)
Lemma same_subdir (k d : N) : (d ≠ 0 → (k + 1) mod d ≠ 0 → (k + 1) / d = k / d)%N.
Proof.
  intros Hd Hz. symmetry. pose proof (N.div_mod k d Hd) as Hk. pose proof (N.mod_lt k d Hd) as Hlt.
  remember (k / d)%N as q. remember (k mod d)%N as r. clear Heqq Heqr. apply (N.div_unique _ _ _ (r + 1)); [|lia].
  destruct (decide (r + 1 = d)%N) as [Heq|]; [exfalso|lia]. apply Hz. symmetry.
  apply (N.mod_unique _ _ (q + 1)); lia.
Qed.

(** ** The files of an index *)

Section index.
Context `{Ext} `{BuildCfg} `{Codecs}.

(** These hunks have been written, and nothing else is in the directory. *)
Record written (fs : Fs) (t : Transport) (hs : list (list IndexEntry)) : Prop := {
  wr_root : is_dir_node (fs !! tr_path t) = true;
  wr_hunks : ∀ n es, hs !! n = Some es → stored_hunk fs t (N.of_nat n) es;
  wr_subdirs : ∀ n, n < length hs → is_dir_node (fs !! hunk_subdir t (N.of_nat n)) = true;
  wr_only : ∀ q, q ≠ [] → is_Some (fs !! (tr_path t ++ q)%list) →
    ∃ n, n < length hs ∧ (q = [subdir_relpath (N.of_nat n)] ∨ q = hunk_names (N.of_nat n));
  wr_sorted : sorted_entries (concat hs);
  wr_nonempty : Forall (λ es, es ≠ []) hs
}.

(** A file of the directory that could be a hunk is one. *)
Lemma written_hunk fs t hs d f : written fs t hs → is_Some (fs !! (tr_path t ++ [d; f])%list) →
  ∃ n, n < length hs ∧ d = subdir_relpath (N.of_nat n) ∧ f = pad_decimal 9 (N.of_nat n).
Proof.
  intros Hw Hp. destruct (wr_only _ _ _ Hw [d; f] ltac:(done) Hp) as (n & Hn & [Hq|Hq]); [done|].
  injection Hq as -> ->. by exists n.
Qed.

Lemma written_path fs t hs n : written fs t hs → is_Some (fs !! hunk_path t n) → ∃ i, i < length hs ∧ n = N.of_nat i.
Proof.
  intros Hw Hp. destruct (written_hunk _ _ _ _ _ Hw Hp) as (i & Hi & _ & Heq). exists i. split; [done|].
  by apply pad_decimal_inj in Heq.
Qed.

Lemma written_stored fs t hs n es : written fs t hs → stored_hunk fs t n es → ∃ i, n = N.of_nat i ∧ hs !! i = Some es.
Proof.
  intros Hw Hst. pose proof Hst as (c & m & json & Hp & _).
  destruct (written_path fs t hs n Hw) as (i & Hi & ->); [by eexists|].
  apply lookup_lt_is_Some in Hi as [es' Hes']. exists i. split; [done|]. rewrite Hes'. f_equal.
  eapply stored_hunk_fun; [by eapply (wr_hunks _ _ _ Hw)|done].
Qed.

(** Hunks in the order of the whole *)
Lemma sorted_concat (hs : list (list IndexEntry)) :
  sorted_entries (concat hs) →
  (∀ i es, hs !! i = Some es → sorted_entries es) ∧
  (∀ i j es es' e e', i < j → hs !! i = Some es → hs !! j = Some es' → e ∈ es → e' ∈ es' → entry_lt e e').
Proof.
  induction hs as [|es hs IH]; intros Hs; [done|]. simpl in Hs. apply StronglySorted_app in Hs as (Hx & Hes0 & Hhs0).
  destruct (IH Hhs0) as [IH1 IH2]. split.
  - intros [|i] es' He; simplify_eq/=; [done|by eapply IH1].
  - intros [|i] [|j] es1 es2 e e' Hij Hi Hj He He'; simplify_eq/=; [lia| |lia|].
    + apply Hx; [done|]. apply list_elem_of_In, in_concat. exists es2.
      split; apply list_elem_of_In; [by eapply list_elem_of_lookup_2|done].
    + apply (IH2 i j es1 es2); [lia|done..].
Qed.

Lemma written_index_ok fs t hs : written fs t hs → length hs <= N.to_nat u32_max → index_ok fs t.
Proof.
  intros Hw Hmax. destruct (sorted_concat hs (wr_sorted _ _ _ Hw)) as [Hs Hlt]. split.
  - intros d md f c m n Hd Hf Hp.
    destruct (wr_only _ _ _ Hw [d] ltac:(done)) as (i & Hi & [[= ->]|]); [by eexists|..]; [|done].
    rewrite (path_join_names _ [subdir_relpath (N.of_nat i)]), <-app_assoc in Hf by (repeat constructor; apply pad_decimal_valid_name).
    destruct (written_hunk fs t hs (subdir_relpath (N.of_nat i)) f Hw) as (k & Hk & Hsub & ->); [by eexists|].
    rewrite parse_pad_decimal in Hp by lia. injection Hp as <-. done.
  - intros n es Hst. destruct (written_stored fs t hs n es Hw Hst) as (i & -> & Hi). by eapply Hs.
  - intros n n' es es' e e' Hnn Hst Hst'. destruct (written_stored fs t hs n es Hw Hst) as (i & -> & Hi).
    destruct (written_stored fs t hs n' es' Hw Hst') as (j & -> & Hj). apply (Hlt i j); [lia|done..].
Qed.

(** The directory is ready for the next hunk. *)
Lemma written_ready w t hs : written (w_fs w) t hs → index_ready w t (N.of_nat (length hs)).
Proof.
  intros Hw. split; [apply Hw|]. split.
  - destruct (w_fs w !! hunk_path t _) eqn:E; [|done].
    destruct (written_path _ t hs (N.of_nat (length hs)) Hw) as (i & Hi & Heq); [by eexists|]. lia.
  - destruct (decide (N.of_nat (length hs) mod HUNKS_PER_SUBDIR = 0)%N) as [Hz|Hz].
    + left. split; [done|]. destruct (w_fs w !! hunk_subdir t _) eqn:E; [|done].
      destruct (wr_only _ _ _ Hw [subdir_relpath (N.of_nat (length hs))] ltac:(done)) as (i & Hi & [[= Heq]|]); [by eexists|..]; [|done].
      apply pad_decimal_inj, first_of_subdir in Heq; [exfalso; lia|done|done].
    + right. destruct (length hs) as [|k] eqn:En; [done|].
      assert (hunk_subdir t (N.of_nat (S k)) = hunk_subdir t (N.of_nat k)) as ->.
      { unfold hunk_subdir, subdir_relpath. do 3 f_equal. rewrite Nat2N.inj_succ, <-N.add_1_r in *. by apply same_subdir. }
      apply (wr_subdirs _ _ _ Hw). lia.
Qed.

(** Adding a hunk *)
Lemma written_add fs fs' t hs es c m json :
  let n := N.of_nat (length hs) in
  written fs t hs → es ≠ [] → sorted_entries (concat hs ++ es) →
  fs' !! hunk_path t n = Some (NFile c m) → snap_decompress c = Some json → from_json json = Some es →
  is_dir_node (fs' !! hunk_subdir t n) = true →
  (∀ p, p ≠ hunk_path t n → p ≠ hunk_subdir t n → fs' !! p = fs !! p) →
  only_adds fs fs' → written fs' t (hs ++ [es]).
Proof.
  cbv zeta. intros Hw Hne Hs Hp Hc Hj Hd Hsame Hadd.
  assert (∀ p : Path, is_dir_node (fs !! p) = true → is_dir_node (fs' !! p) = true) as Hdir.
  { intros p. destruct (fs !! p) as [nd|] eqn:E; [|done]. by rewrite (Hadd p nd). }
  split.
  - apply Hdir, Hw.
  - intros n es' [Hn|[Hn Hn']]%lookup_app_Some.
    + destruct (wr_hunks _ _ _ Hw n es' Hn) as (c' & m' & json' & Hp' & ?). exists c', m', json'. split; [by apply Hadd|done].
    + apply list_lookup_singleton_Some in Hn' as [Hz <-]. replace n with (length hs) by lia. by exists c, m, json.
  - intros n. rewrite length_app. simpl. intros Hn. destruct (decide (n = length hs)) as [->|]; [done|].
    apply Hdir, (wr_subdirs _ _ _ Hw). lia.
  - intros q Hq Hx. rewrite length_app. simpl.
    destruct (decide (q = hunk_names (N.of_nat (length hs)))) as [->|Hq1]; [exists (length hs); split; [lia|by right]|].
    destruct (decide (q = [subdir_relpath (N.of_nat (length hs))])) as [->|Hq2]; [exists (length hs); split; [lia|by left]|].
    rewrite Hsame in Hx; [|by intros ?%app_inv_head..].
    destruct (wr_only _ _ _ Hw q Hq Hx) as (n & Hn & Heq). exists n. split; [lia|done].
  - by rewrite concat_app, concat_cons, concat_nil, app_nil_r.
  - apply Forall_app. split; [apply Hw|by repeat constructor].
Qed.
End index.

(** ** The writer of the index *)

Section writer.
Context `{Ext, !SnapLaws} `{BuildCfg} `{Codecs, !CodecLaws, !CodecTotal}.

(** The writer after these hunks *)
Record writing (fs : Fs) (t : Transport) (hs : list (list IndexEntry)) (iw : IndexWriter) : Prop := {
  wi_written : written fs t hs;
  wi_transport : iw_transport iw = t;
  wi_sequence : iw_sequence iw = N.of_nat (length hs);
  wi_count : iw_hunks_written iw = N.of_nat (length hs);
  wi_order : ∀ l, CheckOrder.last_apath (iw_check_order iw) = Some l → ∃ e, e ∈ concat hs ∧ ie_apath e = l
}.

(** The hunks after a group of entries has been finished *)
Definition add_hunk (hs : list (list IndexEntry)) (es : list IndexEntry) : list (list IndexEntry) :=
  match es with [] => hs | _ => hs ++ [sort_by entry_cmp es] end.

(** The serialized entries are not too long to be compressed. *)
Definition compressible (es : list IndexEntry) : Prop :=
  ∀ json, to_json es = Some json → is_Some (snap_compress json).

(** Changes only in the directory of the index *)
Lemma finish_hunk_writing t hs iw w :
  fault_free w → writing (w_fs w) t hs iw → NoDup (ie_apath <$> iw_entries iw) →
  (∀ x e, x ∈ concat hs → e ∈ iw_entries iw → entry_lt x e) → (N.of_nat (length hs) < u32_max)%N →
  compressible (sort_by entry_cmp (iw_entries iw)) →
  ∃ iw' w', IndexWriter.finish_hunk iw w = (Ret (Ok tt, iw'), w') ∧ frame w w' ∧ iw_entries iw' = [] ∧
    writing (w_fs w') t (add_hunk hs (iw_entries iw)) iw' ∧
    only_below (tr_path t) (w_fs w) (w_fs w') ∧ only_adds (w_fs w) (w_fs w') ∧
    (fs_closed (w_fs w) → fs_closed (w_fs w')).
Proof.
  intros Hf [Hw Ht Hn Hcnt Hord] Hnd Hlt Hmax Hcomp.
  destruct (iw_entries iw) as [|e0 es0] eqn:Ees.
  { exists iw, w. unfold IndexWriter.finish_hunk. rewrite Ees. by split_and!. }
  assert (iw_entries iw ≠ []) as Hne by by rewrite Ees. rewrite <-Ees in *. clear Ees.
  destruct (hunk_total (sort_by entry_cmp (iw_entries iw))) as [json Hjson]. destruct (Hcomp json Hjson) as [c Hc].
  assert (follows (iw_check_order iw) (iw_entries iw)) as Hfol.
  { intros l e (x & Hx & <-)%Hord He. by apply Hlt. }
  destruct (finish_hunk_run iw json c w Hf Hne Hnd Hfol) as (c' & m & w' & Hr & Hfr & Hlast & Hp & Hsub & Hsame & Hcl);
    [rewrite Ht, Hn; by apply written_ready|by rewrite Hn|done|done|].
  pose proof (finish_hunk_respects (λ _, True) iw w) as Hadd. rewrite Hr in Hadd.
  rewrite Ht, Hn in *. eexists _, w'. split; [exact Hr|]. split; [done|]. split; [done|].
  assert (sort_by entry_cmp (iw_entries iw) ≡ₚ iw_entries iw) as Hperm by apply sort_by_perm.
  assert (add_hunk hs (iw_entries iw) = hs ++ [sort_by entry_cmp (iw_entries iw)])%list as -> by (by destruct (iw_entries iw)).
  split_and!; [split| |exact Hadd|done]; cbn.
  - apply (written_add (w_fs w) _ t hs _ c m json); try done.
    + intros Hz. apply Hne, Permutation_nil. by rewrite <-Hperm, Hz.
    + apply StronglySorted_app. split; [|split; [apply Hw|by apply sort_entries_sorted]].
      intros x e Hx He. apply Hlt; [done|]. by rewrite <-Hperm.
    + by apply snap_round_trip.
    + by apply json_round_trip.
  - done.
  - rewrite length_app. simpl. lia.
  - rewrite length_app, Hcnt. simpl. lia.
  - intros l [(x & Hx & <-)%Hord|(e & He & <-)]%Hlast; rewrite concat_app; [exists x|exists e]; (split; [|done]);
      apply elem_of_app; [by left|right]. cbn. by rewrite app_nil_r, Hperm.
  - intros p Hp'. apply Hsame; intros ->; apply Hp'; by apply prefix_app_r.
Qed.

(** ** Creating and closing the band *)

Lemma write_json_run {T} `{Serde T, !SerdeLaws T} (t : Transport) name (obj : T) (w : World) :
  valid_name name = true → fault_free w → is_Some (to_json obj) → is_dir_node (w_fs w !! tr_path t) = true →
  w_fs w !! (tr_path t ++ [name])%list = None →
  ∃ c m w', write_json t name obj w = (Ret (Ok tt), w') ∧ frame w w' ∧ from_json c = Some obj ∧
    w_fs w' = <[(tr_path t ++ [name])%list := NFile c m]> (w_fs w).
Proof.
  intros Hv Hf [s Hs] Hd Hn. unfold write_json. rewrite Hs.
  pose proof (path_join_names (tr_path t) [name] ltac:(by repeat constructor)) as Hj. change (join_with "/" [name]) with name in Hj.
  destruct (write_new_run t name (s +:+ newline) w) as (w' & m & Hr & Hfs & Hfr);
    [by apply (names_plain [name]); repeat constructor|done|by rewrite Hj|rewrite Hj; by rewrite parent_snoc|].
  rewrite <-tr_write_file in Hr. rewrite (bind_run _ _ _ _ _ Hr). rewrite Hj in Hfs.
  exists (s +:+ newline), m, w'. split; [done|]. split; [done|]. split; [|done]. by apply json_round_trip_nl.
Qed.

Lemma create_dir_new (t : Transport) s p w :
  plain s → fault_free w → path_join (tr_path t) s = p → w_fs w !! p = None → is_dir_node (w_fs w !! parent p) = true →
  ∃ w', Transport.create_dir t s w = (Ret (Ok tt), w') ∧ frame w w' ∧ w_fs w' = <[p := NDir (new_meta 493 w)]> (w_fs w).
Proof.
  intros Hs Hf <- Hn Hd. destruct (create_dir_run t s w Hs Hf) as (w' & fs' & Hr & Hfs & Hfr & ->).
  exists w'. unfold fs_create in *. rewrite Hn, Hd in *. by rewrite tr_create_dir.
Qed.

Lemma last_band_run a w :
  fault_free w → is_dir_node (w_fs w !! archive_path a) = true →
  ∃ o w', Archive.last_band_id a w = (Ret (Ok o), w') ∧ quiet w w' ∧
    match o with
    | Some x => newest a (w_fs w) x
    | None => ∀ b, ¬ listed a (w_fs w) b
    end.
Proof.
  intros Hf Hd. destruct (band_ids_run a w Hf Hd) as (ids & w' & Hr & Hfs & Hfr & Hids).
  assert (Archive.last_band_id a w = (Ret (Ok (Archive.max_band_id ids)), w')) as Hl
    by (unfold Archive.last_band_id; by rewrite (bind_run _ _ _ _ _ Hr)).
  eexists _, w'. split; [exact Hl|]. split; [done|]. by apply last_band_id_inv in Hl as [_ ?].
Qed.

(** The newest band, when it is known which one it is *)
Definition latest (a : Archive) (fs : Fs) (last : option BandId) : Prop :=
  match last with
  | Some x => newest a fs x ∧ (band_num x < u32_max)%N
  | None => ∀ b, ¬ listed a fs b
  end.

Lemma latest_run a last w :
  fault_free w → is_dir_node (w_fs w !! archive_path a) = true → latest a (w_fs w) last →
  ∃ w', Archive.last_band_id a w = (Ret (Ok last), w') ∧ quiet w w'.
Proof.
  intros Hf Hd Hlast. destruct (last_band_run a w Hf Hd) as (o & w' & Hr & Hq & Ho). exists w'. split; [|done].
  assert (o = last) as ->; [|done]. destruct o as [x|], last as [y|]; try done.
  - f_equal. apply (newest_unique a (w_fs w) y x); [apply Hlast|apply Ho|]. apply Ho, Hlast.
  - by destruct (Hlast x); apply Ho.
  - by destruct (Ho y); apply Hlast.
Qed.

(** The number of the next band *)
Definition next_band (last : option BandId) : BandId :=
  match last with None => BandId.zero | Some b => MkBandId (band_num b + 1) end.

(** The band has a head, an empty index, and no tail yet. *)
Record begun (a : Archive) (fs : Fs) (b : BandId) : Prop := {
  bg_head : ∃ c m head, fs !! head_path a b = Some (NFile c m) ∧ from_json c = Some head ∧ accepted head;
  bg_tail : fs !! tail_path a b = None;
  bg_dir : is_dir_node (fs !! band_path a b) = true
}.

Lemma app_snoc_ne (p : Path) n : (p ++ [n])%list ≠ p.
Proof. intros Heq. rewrite <-(app_nil_r p) in Heq at 2. by apply app_inv_head in Heq. Qed.

Lemma band_create_run a last w :
  fault_free w → fs_closed (w_fs w) → is_dir_node (w_fs w !! archive_path a) = true →
  latest a (w_fs w) last →
  let b := next_band last in
  w_fs w !! band_path a b = None → (∀ now, accepted (MkHead now (Some "0.6.3") [])) →
  ∃ head w', Band.create a w
      = (Ret (Ok (MkBand b (Transport.chdir (ar_transport a) (BandId.to_string b)) head)), w') ∧ frame w w' ∧
    begun a (w_fs w') b ∧ writing (w_fs w') (index_transport a b) [] (IndexWriter.new (index_transport a b)) ∧
    only_below (band_path a b) (w_fs w) (w_fs w') ∧ only_adds (w_fs w) (w_fs w') ∧ fs_closed (w_fs w').
Proof.
  cbv zeta. intros Hf Hcl Hd Hlast Hnone Hacc. set (b := next_band last) in *.
  pose proof (band_create_respects (λ _, True) a Band.flags_DEFAULT w) as Hadd.
  destruct (latest_run a last w Hf Hd Hlast) as (w1 & Hr1 & [Hfs1 Hfr1]).
  assert ((match last with None => mret BandId.zero | Some b => BandId.next_sibling b end : M BandId) w1 = (Ret b, w1)) as Hb.
  { unfold b, next_band, latest in *. destruct last as [x|]; [|done]. unfold BandId.next_sibling. destruct Hlast as [_ Hx].
    destruct (N.leb_spec (band_num x + 1) u32_max); [done|lia]. }
  set (t := Transport.chdir (ar_transport a) (BandId.to_string b)).
  assert (tr_path t = band_path a b) as Ht by apply band_dir_path.
  assert (∀ q, q ≠ [] → w_fs w !! (band_path a b ++ q)%list = None) as Hbelow.
  { intros q Hq. destruct (w_fs w !! (band_path a b ++ q)%list) eqn:E; [|done].
    assert (is_dir_node (w_fs w !! band_path a b) = true) as Hdir by (apply (Hcl _ q Hq); by rewrite E).
    by rewrite Hnone in Hdir. }
  destruct (create_dir_new t "" (band_path a b) w1) as (w2 & Hr2 & Hfr2 & Hfs2);
    [done|by eapply fault_free_frame|by rewrite path_join_empty|by rewrite Hfs1|by unfold band_path; rewrite Hfs1, parent_snoc|].
  rewrite Hfs1 in Hfs2.
  destruct (create_dir_new t INDEX_DIR (band_path a b ++ [INDEX_DIR])%list w2) as (w3 & Hr3 & Hfr3 & Hfs3).
  { done. }
  { eapply fault_free_frame; [exact Hfr2|by eapply fault_free_frame]. }
  { rewrite <-Ht. apply (path_join_names _ [INDEX_DIR]). by repeat constructor. }
  { rewrite Hfs2, lookup_insert_ne; [by apply Hbelow|]. apply not_eq_sym, app_snoc_ne. }
  { by rewrite parent_snoc, Hfs2, lookup_insert_eq. }
  set (now := w_clock w3 (w_tick w3)).
  destruct (write_json_run t BAND_HEAD_FILENAME (MkHead now (Some "0.6.3") []) (tick w3)) as (c & m & w4 & Hr4 & Hfr4 & Hj & Hfs4).
  { done. }
  { apply fault_free_tick. eapply fault_free_frame; [exact Hfr3|]. eapply fault_free_frame; [exact Hfr2|by eapply fault_free_frame]. }
  { apply head_total. }
  { change (w_fs (tick w3)) with (w_fs w3). rewrite Ht, Hfs3, lookup_insert_ne by apply app_snoc_ne. by rewrite Hfs2, lookup_insert_eq. }
  { change (w_fs (tick w3)) with (w_fs w3). rewrite Ht, Hfs3, lookup_insert_ne, Hfs2, lookup_insert_ne; [by apply Hbelow|by apply not_eq_sym, app_snoc_ne|].
    by intros [=]%app_inv_head. }
  cbn [w_fs tick] in Hfs4. rewrite Ht in Hfs4.
  assert (Band.create a w = (Ret (Ok (MkBand b t (MkHead now (Some "0.6.3") []))), w4)) as Hrun.
  { unfold Band.create, Band.create_with_flags. cbn [Band.flags_DEFAULT for_each]. erewrite bind_run by done.
    rewrite (try_run _ _ _ _ _ Hr1). rewrite (bind_run _ _ _ _ _ Hb). cbv zeta. fold t.
    rewrite (bind_run _ _ _ _ _ Hr2). cbn iota. rewrite (bind_run _ _ _ _ _ Hr3). cbn iota.
    erewrite bind_run by done. fold now. cbn [Band.flags_DEFAULT]. by rewrite (bind_run _ _ _ _ _ Hr4). }
  unfold Band.create in Hrun. rewrite Hrun in Hadd. fold (Band.create a) in Hrun.
  assert (band_path a b ≠ []) as Hbne by (unfold band_path; by destruct (archive_path a)).
  exists (MkHead now (Some "0.6.3") []), w4. split; [exact Hrun|].
  split; [etrans; [exact Hfr1|]; etrans; [exact Hfr2|]; etrans; [exact Hfr3|]; etrans; [apply frame_tick|exact Hfr4]|]. split_and!.
  - split.
    + exists c, m, (MkHead now (Some "0.6.3") []). rewrite head_path_in, Hfs4, lookup_insert_eq. by split_and!.
    + rewrite tail_path_in, Hfs4, lookup_insert_ne, Hfs3, lookup_insert_ne, Hfs2, lookup_insert_ne;
        [by apply Hbelow|by apply not_eq_sym, app_snoc_ne|by intros [=]%app_inv_head|by intros [=]%app_inv_head].
    + rewrite Hfs4, lookup_insert_ne by apply app_snoc_ne. rewrite Hfs3, lookup_insert_ne by apply app_snoc_ne.
      by rewrite Hfs2, lookup_insert_eq.
  - split; try done. split; try done; rewrite ?index_path_in.
    + rewrite Hfs4, lookup_insert_ne by (by intros [=]%app_inv_head). by rewrite Hfs3, lookup_insert_eq.
    + intros n Hn. simpl in Hn. lia.
    + intros q Hq. rewrite <-app_assoc. rewrite Hfs4, lookup_insert_ne by (by intros [=]%app_inv_head).
      rewrite Hfs3, lookup_insert_ne.
      * rewrite Hfs2, lookup_insert_ne by (apply not_eq_sym; intros Heq; rewrite <-(app_nil_r (band_path a b)) in Heq at 2;
          by apply app_inv_head in Heq). rewrite Hbelow by done. by intros [? ?].
      * intros Heq%app_inv_head. by destruct q; simplify_eq/=.
    + constructor.
  - intros p Hp. rewrite Hfs4, lookup_insert_ne, Hfs3, lookup_insert_ne, Hfs2, lookup_insert_ne; [done|intros <-..];
      apply Hp; try done; by apply prefix_app_r.
  - exact Hadd.
  - rewrite Hfs4. apply fs_closed_insert.
    + rewrite Hfs3. apply fs_closed_insert.
      * rewrite Hfs2. apply fs_closed_insert; [done..|]. unfold band_path. by rewrite parent_snoc.
      * rewrite Hfs2, lookup_insert_ne by (apply not_eq_sym, app_snoc_ne). by apply Hbelow.
      * by destruct (band_path a b).
      * by rewrite parent_snoc, Hfs2, lookup_insert_eq.
    + rewrite Hfs3, lookup_insert_ne, Hfs2, lookup_insert_ne; [by apply Hbelow|by apply not_eq_sym, app_snoc_ne|].
      by intros [=]%app_inv_head.
    + by destruct (band_path a b).
    + rewrite parent_snoc, Hfs3, lookup_insert_ne by apply app_snoc_ne. by rewrite Hfs2, lookup_insert_eq.
Qed.
(** What is written when the band is closed *)
Lemma written_stored_band a fs b hs :
  (∃ c m head, fs !! head_path a b = Some (NFile c m) ∧ from_json c = Some head ∧ accepted head) →
  written fs (index_transport a b) hs → length hs ≤ N.to_nat u32_max → closed a fs b → stored_band a fs b hs.
Proof.
  intros Hh Hw Hmax Hc. pose proof (wr_root _ _ _ Hw) as Hroot. split; try done.
  - destruct (fs !! tr_path (index_transport a b)) as [[|m| |]|]; try done. by exists m.
  - intros d m Hd. destruct (wr_only _ _ _ Hw [d]) as (n & _ & [[= ->]|]); [done|by eexists| |done].
    apply pad_decimal_valid_name.
  - by eapply written_index_ok.
  - intros n es Hn. pose proof (lookup_lt_Some _ _ _ Hn) as Hlt. split; [by apply Hw|]. split; [lia|]. split.
    + destruct (fs !! tr_path (index_transport a b)) as [[|m| |]|]; try done. by exists m.
    + pose proof (wr_subdirs _ _ _ Hw n Hlt) as Hs. destruct (fs !! hunk_subdir _ _) as [[|m| |]|]; try done. by exists m.
  - intros n c m Hn. destruct (written_path _ _ _ n Hw) as (i & Hi & ->); [by eexists|]. by rewrite Nat2N.id.
  - apply Hw.
Qed.

Lemma written_same fs fs' t hs : (∀ q, fs' !! (tr_path t ++ q)%list = fs !! (tr_path t ++ q)%list) →
  written fs t hs → written fs' t hs.
Proof.
  intros Hs [Hr Hh Hd Ho Hso Hn].
  assert (fs' !! tr_path t = fs !! tr_path t) as Hroot by (rewrite <-(app_nil_r (tr_path t)); apply Hs).
  split; try done.
  - by rewrite Hroot.
  - intros n es (c & m & json & Hp & ?)%Hh. exists c, m, json. split; [|done]. unfold hunk_path in *. by rewrite Hs.
  - intros n Hlt. unfold hunk_subdir. rewrite Hs. by apply Hd.
  - intros q Hq. rewrite Hs. by apply Ho.
Qed.

(** Closing the band *)
Lemma band_close_run a b head hs n w :
  fault_free w → fs_closed (w_fs w) → begun a (w_fs w) b → written (w_fs w) (index_transport a b) hs →
  length hs ≤ N.to_nat u32_max →
  ∃ w', Band.close (MkBand b (Transport.chdir (ar_transport a) (BandId.to_string b)) head) n w = (Ret (Ok tt), w') ∧
    frame w w' ∧ stored_band a (w_fs w') b hs ∧ only_at (tail_path a b) (w_fs w) (w_fs w') ∧
    only_adds (w_fs w) (w_fs w') ∧ fs_closed (w_fs w').
Proof.
  intros Hf Hcl Hbg Hw Hmax. set (band := MkBand _ _ _). pose proof (band_close_respects (λ _, True) band n w) as Hadd.
  set (t := Transport.chdir (ar_transport a) (BandId.to_string b)).
  assert (tr_path t = band_path a b) as Ht by apply band_dir_path. destruct Hbg as [Hh Htl Hd].
  destruct (write_json_run t BAND_TAIL_FILENAME (MkTail (w_clock w (w_tick w)) (Some n)) (tick w)) as (c & m & w' & Hr & Hfr & _ & Hfs);
    [done|done|apply tail_total|by rewrite Ht|by rewrite Ht, <-tail_path_in|].
  rewrite Ht, <-tail_path_in in Hfs. cbn [w_fs tick] in Hfs.
  assert (Band.close band n w = (Ret (Ok tt), w')) as Hrun.
  { unfold Band.close. erewrite bind_run by done. cbn [b_transport band]. fold t. by rewrite (bind_run _ _ _ _ _ Hr). }
  rewrite Hrun in Hadd. exists w'. split; [done|]. split; [etrans; [apply frame_tick|exact Hfr]|]. split_and!.
  - apply written_stored_band; [| |done|].
    + destruct Hh as (c' & m' & head' & Hp & ?). exists c', m', head'. split; [|done].
      rewrite Hfs, lookup_insert_ne; [done|]. rewrite head_path_in, tail_path_in. by intros [=]%app_inv_head.
    + eapply written_same; [|exact Hw]. intros q. rewrite Hfs, lookup_insert_ne; [done|].
      rewrite index_path_in, tail_path_in, <-app_assoc. by intros [=]%app_inv_head.
    + exists c, m. by rewrite Hfs, lookup_insert_eq.
  - intros p Hp. rewrite Hfs, lookup_insert_ne; [done|]. intros Heq. by apply Hp.
  - exact Hadd.
  - rewrite Hfs. apply fs_closed_insert; [done|done|unfold tail_path; by destruct (archive_path a)|].
    by rewrite tail_path_in, parent_snoc.
Qed.
End writer.
