(* ===== verification/BackupTree.v ===== *)
(** * The backup of a whole tree

    What a backup (src/backup.rs, modelled in [Backup]) leaves in the archive when
    nothing fails: a finished version with one entry for each entry of the source tree,
    each with its metadata and the addresses of its content. *)

From Stdlib Require Import Ascii.
From S2P Require Import Prelude Text Apath Externals Sample Ids Entry Counters Errors World Transport Excludes Jsonio SampleWorld.
From S2P Require Import BlockDir BlockStore Index Archive Footprint Stitch LiveTree LiveOrder LiveWhole Backup BackupRun Combine.
From S2P Require Import Restore HunkIndex StoredBand BandWriter.
From stdpp Require Import list gmap strings sorting.

(** ** What an entry of the source becomes *)

(** The entry in the index, without addresses *)
Definition index_value (v : EntryValue) : IndexEntry :=
  {| ie_apath := ev_apath v; ie_kind := kind v; ie_mtime := unix_timestamp (ev_mtime v);
     ie_unix_mode := ev_unix_mode v; ie_owner := ev_owner v; ie_mtime_nanos := nanosecond (ev_mtime v);
     ie_addrs := []; ie_target := symlink_target v |}.

Lemma metadata_from_run {W} v (w : W) : IndexEntry.metadata_from v w = (Ret (index_value v), w).
Proof. by destruct v as [p [] t u o]. Qed.

Lemma base_entry_value v n : ev_kind_meta v = KM_File n → base_entry v = index_value v.
Proof. destruct v as [p k t u o]. simpl. by intros ->. Qed.

Lemma fs_read_file_at (p : Path) (fs : Fs) c m : fs !! p = Some (NFile c m) → fs_read_file p fs = Ok c.
Proof. intros Hp. unfold fs_read_file. by rewrite Hp. Qed.

Definition value_lt (x y : EntryValue) : Prop := Apath.lt (ev_apath x) (ev_apath y).

Lemma sorted_sublist {A} (R : relation A) l k : StronglySorted R l → sublist k l → StronglySorted R k.
Proof.
  intros Hl Hk. induction Hk as [|x k l Hk IH|x k l Hk IH]; [constructor|apply StronglySorted_inv in Hl as [Hl Hx]..].
  - constructor; [by apply IH|]. rewrite Forall_forall in *. intros y Hy. apply Hx.
    by apply sublist_submseteq, submseteq_Permutation in Hk as [r ->]; apply elem_of_app; left.
  - by apply IH.
Qed.

(** A sorted list is a part of any other that has all its elements. *)
Lemma sorted_incl_sublist {A} (R : relation A) l k :
  Irreflexive R → Transitive R → StronglySorted R l → StronglySorted R k → l ⊆ k → sublist l k.
Proof.
  intros Hirr Htr Hl Hk. revert l Hl. induction Hk as [|y k Hk IH Hy]; intros l Hl Hin.
  - destruct l as [|x l]; [constructor|]. destruct (not_elem_of_nil x). apply Hin. by left.
  - rewrite Forall_forall in Hy. destruct Hl as [|x l Hl Hx]; [apply sublist_nil_l|]. rewrite Forall_forall in Hx.
    assert (x ∈ y :: k) as [->|Hxk]%elem_of_cons by (apply Hin; by left).
    + apply sublist_skip, IH; [done|]. intros z Hz. assert (z ∈ y :: k) as [->|?]%elem_of_cons by (apply Hin; by right); [|done].
      destruct (Hirr y). by apply Hx.
    + apply sublist_cons, IH; [by constructor; [|apply Forall_forall]|]. intros z Hz. pose proof (Hin z Hz) as [->|?]%elem_of_cons; [|done].
      apply elem_of_cons in Hz as [->|Hz]; [exfalso; by apply (Hirr x), Hy|].
      exfalso. apply (Hirr y). etrans; [by apply Hy|by apply Hx].
Qed.

(** ** The parts of the archive that a backup writes *)

Section parts.
Context `{Ext, !LruLaws, !HashLaws, !HexLaws, !SnapLaws} `{BuildCfg} `{Codecs, !CodecLaws, !CodecTotal}.

(** Only blocks have been added. *)
Record blocks_added (bd : BlockDir) (w w' : World) : Prop := {
  ba_adds : only_adds (w_fs w) (w_fs w');
  ba_below : only_below (tr_path (bd_transport bd)) (w_fs w) (w_fs w');
  ba_short : calm w w'
}.

#[export] Instance blocks_added_preorder bd : PreOrder (blocks_added bd).
Proof.
  split; [by intros w|]. intros w1 w2 w3 [Ha Hb Hs] [Ha' Hb' Hs']. split; by etrans.
Qed.

Lemma quiet_blocks bd w w' : quiet w w' → blocks_added bd w w'.
Proof. intros [Hfs Hfr]. split; rewrite ?Hfs; [done..|]. by destruct Hfr. Qed.

(** Nothing of the block directory has changed. *)
Lemma sound_same D bd w w' :
  same_below (tr_path (bd_transport bd)) (w_fs w) (w_fs w') → frame w w' → fs_closed (w_fs w') →
  sound D bd w → sound D bd w'.
Proof.
  intros Hs Hfr Hcl' [[Hf Hc] Hcl Hd Hsd Hb].
  assert (∀ h, w_fs w' !! block_path bd h = w_fs w !! block_path bd h) as Hblock.
  { intros h. apply Hs. unfold block_path. by apply prefix_app_r. }
  assert (∀ h, w_fs w' !! subdir_path bd h = w_fs w !! subdir_path bd h) as Hsub.
  { intros h. apply Hs. unfold subdir_path. by apply prefix_app_r. }
  assert (∀ h d, intact bd (w_fs w') h d ↔ intact bd (w_fs w) h d) as Hi by (intros h d; unfold intact; by rewrite Hblock).
  assert (∀ h, cached bd w' h = cached bd w h) as Hca by (intros h; unfold cached; by rewrite (frame_blockdirs _ _ Hfr)).
  assert (∀ h, known bd w' h = known bd w h) as Hkn by (intros h; unfold known; by rewrite (frame_blockdirs _ _ Hfr)).
  split; [split; [by eapply fault_free_frame|]|done|by rewrite Hs|..].
  - intros h c d. rewrite Hca, Hi. apply Hc.
  - intros h. rewrite Hsub. apply Hsd.
  - intros data Hdata. rewrite Hi, Hblock, Hkn. by apply Hb.
Qed.

Lemma file_read_short rd n : respects calm (sys_file_read rd n).
Proof. apply (syscall_blind calm). Qed.

Lemma read_with_retries_short n rd : respects calm (read_with_retries n rd).
Proof.
  unfold read_with_retries. generalize (String.length (rd_rest rd)) as fuel, "" as buf. intros fuel. revert rd.
  induction fuel as [|fuel IH]; intros rd buf; cbn [read_loop]; pose proof file_read_short; solve_respects; apply IH.
Qed.

Lemma store_file_short a rd bd stats n : respects calm (store_file_content a rd bd stats n).
Proof.
  unfold store_file_content. pose proof read_with_retries_short. pose proof (store_short bd).
  assert (∀ fuel rd addrs stats, respects calm (store_loop fuel a rd bd n addrs stats)) as Hl.
  { induction fuel as [|fuel IH]; intros rd' addrs stats'; cbn [store_loop]; solve_respects; apply IH. }
  solve_respects.
Qed.

(** The addresses of stored content are found present. *)
Lemma all_present_run D bd hs w :
  sound D bd w → (∀ h, h ∈ hs → ∃ d, h = BlockHash.hash_bytes d ∧ intact bd (w_fs w) h d) →
  ∃ w', all_present bd hs w = (Ret true, w') ∧ w_fs w' = w_fs w ∧ sound D bd w' ∧ calm w w'.
Proof.
  revert w. induction hs as [|h hs IH]; intros w Hs Hh; cbn [all_present]; [by exists w|].
  destruct (Hh h ltac:(by left)) as (d & -> & Hi).
  destruct (contains_intact D bd w d Hs Hi) as (w1 & Hr & Hfs & Hs1).
  assert (calm w w1) as Hsh.
  { assert (respects calm (BlockDir.contains bd (BlockHash.hash_bytes d))) as Hx.
    { unfold BlockDir.contains, BlockDir.state. pose proof (update_short bd). pose proof (block_relpath_respects calm).
      solve_respects. }
    specialize (Hx w). by rewrite Hr in Hx. }
  rewrite (bind_run _ _ _ _ _ Hr). cbn [unwrap_or].
  destruct (IH w1 Hs1) as (w2 & Hr2 & Hfs2 & Hs2 & Hsh2).
  { intros h Hin. rewrite Hfs. apply Hh. by right. }
  exists w2. split; [done|]. split; [congruence|]. split; [done|]. by etrans.
Qed.

Lemma unique_sub seen hs h : h ∈ unique seen hs → h ∈ hs.
Proof.
  revert seen. induction hs as [|x hs IH]; intros seen; cbn [unique]; [done|]. case_decide.
  - intros Hh. right. by eapply IH.
  - intros [->|Hh]%elem_of_cons; [by left|right]. by eapply IH.
Qed.
End parts.

(** ** What is assumed of the source, the archive and the basis *)

Section backing_up.
Context `{Ext, !LruLaws, !HashLaws, !HexLaws, !SnapLaws} `{BuildCfg} `{Codecs, !CodecLaws, !CodecTotal} `{!CacheDir, !CacheDirLaws}.
Context (a : Archive) (b : BandId) (src : Path) (options : BackupOptions) (fs0 : Fs) (D : string → Prop).

#[local] Abbreviation bd := (ar_block_dir a).
#[local] Abbreviation mbs := (bo_max_block_size options).

(** The entry as it is recorded: with its owner, or without *)
Definition owned (v : EntryValue) : EntryValue := if bo_owner options then v else clear_owner v.

(** The entries of the source *)
Definition in_tree (v : EntryValue) : Prop := ∃ q, entry_at src fs0 (bo_exclude options) q v.

(** The content of a file of the source *)
Definition content (v : EntryValue) : string :=
  match ev_kind_meta v, Apath.below (ev_apath v) src with
  | KM_File _, Some p => match fs_read_file p fs0 with Ok c => c | Err _ => "" end
  | _, _ => ""
  end.

(** What is to be stored of an entry *)
Definition item (v : EntryValue) : Item := (index_value (owned v), content v).

Definition item_lt (x y : Item) : Prop := entry_lt x.1 y.1.

(** The item of a file that is combined with others *)
Definition small_item (it : Item) : Prop :=
  ∃ v n, in_tree v ∧ ev_kind_meta v = KM_File n ∧ (n <= bo_small_file_cap options)%N ∧ it = item v.

(** The files that are stored have hashes without collisions, blocks have a size, the
    entries can be serialized in the space there is, and the callback does nothing to the
    file system. *)
Record storable_tree : Prop := {
  st_contents : storable D;
  st_block_size : (0 < mbs < u64_modulus)%N;
  st_big : ∀ v n, in_tree v → ev_kind_meta v = KM_File n → (bo_small_file_cap options < n)%N → pieces_in D mbs (content v);
  st_small : ∀ its, its ≠ [] → StronglySorted item_lt its → Forall small_item its →
    D (text its) ∧ (BlockDir.len (text its) < u64_modulus)%N;
  st_hunks : ∀ es, Forall (λ e, ∃ v, in_tree v ∧ e = IndexEntry.with_addrs (ie_addrs e) (index_value (owned v))) es →
    compressible es;
  st_number : (N.of_nat (size fs0) < u32_max)%N;
  st_callback : ∀ cb c w, bo_change_callback options = Some cb → ∃ w', cb c w = (Ret (Ok tt), w') ∧ quiet w w'
}.

(** The places: the blocks in their directory of the archive, and the source elsewhere *)
Record placed : Prop := {
  pl_blocks : tr_path (bd_transport bd) = (archive_path a ++ [BLOCK_DIR])%list;
  pl_separate : separate src (archive_path a);
  pl_named : named_below src fs0;
  pl_source : ∃ m, fs0 !! src = Some (NDir m)
}.

(** What a backup changes *)
Definition written_part (p : Path) : Prop := tr_path (bd_transport bd) `prefix_of` p ∨ band_path a b `prefix_of` p.

(** An entry of the basis can be trusted for an entry of the source: when the two look
    the same, its blocks hold the content. *)
Record trusted (fs : Fs) (v : EntryValue) (e : IndexEntry) : Prop := {
  tr_apath : ie_apath e = ev_apath v;
  tr_reads : ∃ t s, reads_as e t s;
  tr_same : ∀ t s, reads_as e t (Some s) → kind e = kind v → t = ev_mtime v →
    (∀ n, ev_kind_meta v = KM_File n → s = n) →
    ∃ ds, Forall2 (part_ok bd fs) (ie_addrs e) ds ∧ parts (ie_addrs e) ds = content v
}.

(** What the backup asks of the basis: whatever it has written so far, looking up the
    next entry succeeds, reads only, and gives an entry that can be trusted. *)
Class TrustedBasis (Basis : IndexEntryIter IterStitchedIndexHunks → World → Prop) : Prop := {
  basis_lookup : ∀ it w v, Basis it w → in_tree v →
    ∃ r it' w', IndexEntryIter.advance_to it (ev_apath v) w = (Ret (r, it'), w') ∧ quiet w w' ∧ Basis it' w' ∧
      ∀ e, r = Some e → trusted (w_fs w) v e;
  basis_kept : ∀ it w w', Basis it w → fault_free w' → only_adds (w_fs w) (w_fs w') →
    only_in written_part (w_fs w) (w_fs w') → Basis it w'
}.

Context (Htree : storable_tree) (Hplaced : placed).

Lemma in_tree_names v : in_tree v → ∃ q, names_ok q ∧ ev_apath v = of_names q ∧
  ∃ node, fs0 !! (src ++ q)%list = Some node ∧ value_of (of_names q) node = Some v.
Proof.
  intros (q & Hr & node & Hn & Hv). exists q. split; [by eapply reached_names; [apply Hplaced|]|].
  split; [|by exists node]. unfold value_of in Hv. destruct node as [| |t m|]; try (by simplify_eq/=).
  by destruct (utf8_valid t); simplify_eq/=.
Qed.

(** A file of the tree *)
Lemma in_tree_file v n : in_tree v → ev_kind_meta v = KM_File n →
  ∃ q m, names_ok q ∧ ev_apath v = of_names q ∧ fs0 !! (src ++ q)%list = Some (NFile (content v) m) ∧
    n = BlockDir.len (content v).
Proof.
  intros (q & Hq & Ha & node & Hn & Hv)%in_tree_names Hk. exists q. unfold content. rewrite Hk, Ha, below_ok by done.
  assert (∃ c m, node = NFile c m ∧ n = BlockDir.len c) as (c & m & -> & ->).
  { unfold value_of in Hv. destruct node as [c m| |t m|]; try (by simplify_eq/=); [|by destruct (utf8_valid t); simplify_eq/=].
    injection Hv as <-. simpl in Hk. injection Hk as <-. by exists c, m. }
  exists m. by rewrite (fs_read_file_at _ _ _ _ Hn).
Qed.

Lemma owned_kind v : ev_kind_meta (owned v) = ev_kind_meta v ∧ ev_apath (owned v) = ev_apath v ∧ ev_mtime (owned v) = ev_mtime v.
Proof. unfold owned. by destruct (bo_owner options). Qed.

(** Not a file, no content *)
Lemma content_none v : kind v ≠ Kind_File → content v = "".
Proof. unfold content. destruct v as [p [] t u o]; simpl; done. Qed.

Lemma item_sorted l : StronglySorted value_lt l → StronglySorted item_lt (item <$> l).
Proof.
  induction 1 as [|x l _ IH Hx]; [constructor|]. rewrite fmap_cons. constructor; [done|]. apply Forall_fmap.
  eapply Forall_impl; [exact Hx|]. intros y Hxy. unfold item_lt, entry_lt. cbn.
  by rewrite (proj1 (proj2 (owned_kind x))), (proj1 (proj2 (owned_kind y))).
Qed.

(** ** The files of a group *)

(** Some of the entries of the group are in the writer of the index, some are waiting in
    the combiner, and the others are finished there. *)
Definition filing (fc : FileCombiner) (es : list IndexEntry) (cur : list EntryValue) (w : World) : Prop :=
  ∃ pend fin pushed, combining D bd mbs fc w pend fin ∧ Forall2 (finished_as bd (w_fs w)) es pushed ∧
    (pushed ++ pend ++ fin ≡ₚ item <$> cur)%list ∧ sublist pend (item <$> cur) ∧ Forall small_item pend.

Lemma filing_adds fc es cur w w' :
  filing fc es cur w → only_adds (w_fs w) (w_fs w') → sound D bd w' → filing fc es cur w'.
Proof.
  intros (pend & fin & pushed & [Hd Hm Hb Hq Hf Hs] & He & Hrest) Ha Hs'. exists pend, fin, pushed. split; [|split; [|done]].
  - split; try done. eapply Forall2_impl; [exact Hf|]. intros x y. by apply finished_adds.
  - eapply Forall2_impl; [exact He|]. intros x y. by apply finished_adds.
Qed.

Lemma filing_sound fc es cur w : filing fc es cur w → sound D bd w.
Proof. by intros (pend & fin & pushed & [] & _). Qed.

(** An entry goes straight to the index. *)
Lemma filing_push fc es cur w v e :
  filing fc es cur w → finished_as bd (w_fs w) e (item v) → filing fc (es ++ [e]) (cur ++ [v]) w.
Proof.
  intros (pend & fin & pushed & Hc & He & Hp & Hs & Hsm) Hv. exists pend, fin, (pushed ++ [item v])%list.
  split; [done|]. split; [by apply Forall2_app; [|constructor]|]. rewrite fmap_app. split; [|split; [by apply sublist_inserts_r|done]].
  rewrite <-Hp, <-!app_assoc. f_equiv. cbn. rewrite app_assoc. apply Permutation_cons_append.
Qed.

Lemma finished_value v addrs ds fs :
  Forall2 (part_ok bd fs) addrs ds → parts addrs ds = content v →
  finished_as bd fs (IndexEntry.with_addrs addrs (index_value (owned v))) (item v).
Proof. intros Hds Hp. split; [done|]. by exists ds. Qed.

Lemma finished_none v fs : content v = "" → finished_as bd fs (index_value (owned v)) (item v).
Proof. intros Hc. split; [done|]. exists []. split; [constructor|done]. Qed.

Lemma small_pending pend cur v n :
  sublist pend (item <$> cur) → Forall small_item pend → StronglySorted value_lt (cur ++ [v]) →
  in_tree v → ev_kind_meta v = KM_File n → (n <= bo_small_file_cap options)%N →
  sublist (pend ++ [item v]) (item <$> cur ++ [v]) ∧ Forall small_item (pend ++ [item v]) ∧
  D (text (pend ++ [item v])) ∧ (BlockDir.len (text (pend ++ [item v])) < u64_modulus)%N.
Proof.
  intros Hsub Hsm Hso Hin Hk Hn.
  assert (sublist (pend ++ [item v]) (item <$> cur ++ [v])) as Hs by (rewrite fmap_app; by apply sublist_app).
  assert (Forall small_item (pend ++ [item v])) as Hf.
  { apply Forall_app. split; [done|]. constructor; [|done]. by exists v, n. }
  split; [done|]. split; [done|]. apply (st_small Htree); [by destruct pend| |done].
  eapply sorted_sublist; [|exact Hs]. by apply item_sorted.
Qed.

(** A small file goes to the combiner. *)
Lemma filing_file fc es cur v n w :
  filing fc es cur w → StronglySorted value_lt (cur ++ [v]) → (∀ t, w_short w t = None) → in_tree v →
  ev_kind_meta v = KM_File n → (n <= bo_small_file_cap options)%N →
  ∃ fc' w', FileCombiner.push_file fc (owned v) (MkReader (content v)) w = (Ret (Ok tt, fc'), w') ∧
    filing fc' es (cur ++ [v]) w' ∧ blocks_added bd w w'.
Proof.
  intros (pend & fin & pushed & Hc & He & Hp & Hsub & Hsm) Hso Hsh Hin Hk Hn.
  destruct (owned_kind v) as (Hk' & _ & _). rewrite <-Hk' in Hk.
  assert ((base_entry (owned v), string_take (N.to_nat n) (rd_rest (MkReader (content v)))) = item v) as Hit.
  { unfold item. rewrite (base_entry_value _ n) by done. f_equal. cbn [rd_rest].
    rewrite Hk' in Hk. destruct (in_tree_file v n Hin Hk) as (q & m & _ & _ & _ & ->).
    unfold BlockDir.len. by rewrite Nat2N.id, string_take_ge. }
  destruct (small_pending pend cur v n Hsub Hsm Hso Hin) as (Hsub' & Hsm' & HD & Hlen); [congruence|done|].
  destruct (push_file_run D bd mbs fc w pend fin (owned v) n (MkReader (content v)) (st_contents Htree) Hc Hsh Hk)
    as (fc' & w' & pend' & fin' & Hr & Hc' & Hp' & Hs' & Ha & Hsh'); [by rewrite Hit..|]. rewrite Hit in Hp', Hs'.
  exists fc', w'. split; [done|]. split.
  - exists pend', fin', pushed. split; [done|]. split; [|split; [|split; [by etrans|]]].
    + eapply Forall2_impl; [exact He|]. intros x y. by apply finished_adds.
    + rewrite Hp', fmap_app, <-Hp, <-!app_assoc. done.
    + apply sublist_submseteq, submseteq_Permutation in Hs' as [r Hr']. rewrite Hr' in Hsm'. by apply Forall_app in Hsm' as [? _].
  - split; [done| |done]. destruct (push_file_below (tr_path (bd_transport bd)) fc (owned v) (MkReader (content v))
      ltac:(unfold blocks_below; by rewrite (cb_dir _ _ _ _ _ _ _ Hc)) w) as [Hb _]. by rewrite Hr in Hb.
Qed.

(** Draining the combiner completes the group. *)
Lemma filing_drain fc es cur w :
  filing fc es cur w → StronglySorted value_lt cur →
  ∃ stats out fc' w', FileCombiner.drain fc w = (Ret (Ok (stats, out), fc'), w') ∧ blocks_added bd w w' ∧
    combining D bd mbs fc' w' [] [] ∧
    ∃ its, Forall2 (finished_as bd (w_fs w')) (es ++ out) its ∧ its ≡ₚ item <$> cur.
Proof.
  intros (pend & fin & pushed & Hc & He & Hp & Hsub & Hsm) Hso.
  assert (pend ≠ [] → D (text pend) ∧ (BlockDir.len (text pend) < u64_modulus)%N) as HD.
  { intros Hne. apply (st_small Htree); [done| |done]. eapply sorted_sublist; [|exact Hsub]. by apply item_sorted. }
  destruct (drain_run D bd mbs fc w pend fin (st_contents Htree) Hc) as (stats & out & fc' & w' & Hr & Hc' & Hout & Ha & Hsh).
  { intros Hne. by apply HD. }
  { destruct pend as [|it pend]; [done|]. by apply HD. }
  exists stats, out, fc', w'. split; [done|]. split; [|split; [done|]].
  - split; [done| |done]. destruct (drain_below (tr_path (bd_transport bd)) fc
      ltac:(unfold blocks_below; by rewrite (cb_dir _ _ _ _ _ _ _ Hc)) w) as [Hb _]. by rewrite Hr in Hb.
  - exists (pushed ++ fin ++ pend)%list. split.
    + apply Forall2_app; [|done]. eapply Forall2_impl; [exact He|]. intros x y. by apply finished_adds.
    + by rewrite (Permutation_app_comm fin).
Qed.

(** ** The writer in the middle of a backup *)

(** What the monitor has been told of before *)
Context (errs : list Error).
Context (Basis : IndexEntryIter IterStitchedIndexHunks → World → Prop) `{!TrustedBasis Basis}.

(** A hunk holds the entries of a group. *)
Definition holds (fs : Fs) (es : list IndexEntry) (group : list EntryValue) : Prop :=
  ∃ its, Forall2 (finished_as bd fs) es its ∧ its ≡ₚ item <$> group.

(** The groups so far are in hunks, and the current one is being filed. *)
Record saving (groups : list (list EntryValue)) (cur : list EntryValue) (bw : BackupWriter) (w : World) : Prop := {
  sv_band : ∃ head, bw_band bw = MkBand b (Transport.chdir (ar_transport a) (BandId.to_string b)) head;
  sv_blockdir : bw_block_dir bw = bd;
  sv_begun : begun a (w_fs w) b;
  sv_hunks : ∃ hs, writing (w_fs w) (index_transport a b) hs (bw_index_builder bw) ∧ Forall2 (holds (w_fs w)) hs groups;
  sv_files : filing (bw_file_combiner bw) (iw_entries (bw_index_builder bw)) cur w;
  sv_order : StronglySorted value_lt (concat groups ++ cur);
  sv_tree : Forall in_tree (concat groups ++ cur);
  sv_groups : Forall (λ g, g ≠ []) groups;
  sv_rest : at_rest src fs0 w;
  sv_short : ∀ t, w_short w t = None;
  sv_basis : Basis (bw_basis_index bw) w;
  sv_part : only_in written_part fs0 (w_fs w);
  sv_errors : w_errors w = errs
}.

Lemma band_apart : separate (band_path a b) (tr_path (bd_transport bd)).
Proof.
  rewrite (pl_blocks Hplaced). unfold band_path. split; intros [q Hq]; rewrite <-app_assoc in Hq; apply app_inv_head in Hq;
    injection Hq as Hq _; pose proof (bandid_from_to_string b) as Hb; unfold BandId.to_string in *; discriminate Hq.
Qed.

Lemma source_apart : separate src (tr_path (bd_transport bd)).
Proof.
  destruct (pl_separate Hplaced) as [Hs1 Hs2]. rewrite (pl_blocks Hplaced). split; intros Hp.
  - destruct (prefix_weak_total src (archive_path a) (archive_path a ++ [BLOCK_DIR])%list Hp) as [?|?]; [by apply prefix_app_r|done..].
  - apply Hs2. etrans; [|exact Hp]. by apply prefix_app_r.
Qed.

Lemma holds_adds fs fs' es g : only_adds fs fs' → holds fs es g → holds fs' es g.
Proof.
  intros Ha (its & Hes & Hp). exists its. split; [|done]. eapply Forall2_impl; [exact Hes|]. intros x y. by apply finished_adds.
Qed.

Lemma writing_entries fs t hs iw es : writing fs t hs iw → writing fs t hs (IndexWriter.with_entries es iw).
Proof. intros []. by split. Qed.

Lemma writing_same fs fs' hs iw : same_below (band_path a b) fs fs' →
  writing fs (index_transport a b) hs iw → writing fs' (index_transport a b) hs iw.
Proof.
  intros Hs []. split; try done. eapply written_same; [|done]. intros q. by apply (index_same a b fs fs' q).
Qed.

Lemma begun_same fs fs' : same_below (band_path a b) fs fs' → begun a fs b → begun a fs' b.
Proof.
  intros Hs [Hh Ht Hd]. split; [by rewrite (head_same a b fs)|by rewrite (tail_same a b fs)|by rewrite Hs].
Qed.

Lemma part_blocks fs fs' : only_below (tr_path (bd_transport bd)) fs fs' → only_in written_part fs fs'.
Proof. intros Hb p Hp. apply Hb. intros Hx. apply Hp. by left. Qed.

Lemma part_band fs fs' : only_below (band_path a b) fs fs' → only_in written_part fs fs'.
Proof. intros Hb p Hp. apply Hb. intros Hx. apply Hp. by right. Qed.

(** Blocks have been added, and the next entry has been filed. *)
Lemma saving_step groups cur v bw bw' w w' :
  saving groups cur bw w → in_tree v → StronglySorted value_lt (concat groups ++ cur ++ [v]) →
  bw_band bw' = bw_band bw → bw_block_dir bw' = bw_block_dir bw →
  (∃ es, bw_index_builder bw' = IndexWriter.with_entries es (bw_index_builder bw)) →
  bw_basis_index bw' = bw_basis_index bw → blocks_added bd w w' →
  filing (bw_file_combiner bw') (iw_entries (bw_index_builder bw')) (cur ++ [v]) w' →
  saving groups (cur ++ [v]) bw' w'.
Proof.
  intros [Hb Hbd Hbg (hs & Hw & Hh) Hf Ho Ht Hg [Hfree Hsame] Hsh Hba Hpt Her] Hv Hso Eb Ebd [es Ei] Eba [Hadd Hbel Hsh'] Hf'.
  pose proof (only_below_separate _ _ _ _ band_apart Hbel) as Hband.
  pose proof (only_below_separate _ _ _ _ source_apart Hbel) as Hsrc.
  pose proof (filing_sound _ _ _ _ Hf') as [[Hfree' _] _ _ _ _].
  split; rewrite ?Eb, ?Ebd, ?Eba, ?app_assoc; try done.
  - by eapply begun_same.
  - exists hs. rewrite Ei. split; [by eapply writing_entries, writing_same|].
    eapply Forall2_impl; [exact Hh|]. intros x y. by apply holds_adds.
  - by rewrite <-app_assoc.
  - apply Forall_app. split; [done|]. by constructor.
  - split; [done|]. intros p Hp. rewrite Hsrc by done. by apply Hsame.
  - by eapply calm_reads.
  - apply (basis_kept _ _ _ Hba); [done|done|]. by apply part_blocks.
  - etrans; [exact Hpt|]. by apply part_blocks.
  - rewrite <-Her. apply Hsh'.
Qed.

(** Only what is known of the blocks, or what the monitor has been told, has changed. *)
Lemma saving_same groups cur bw w w' :
  w_fs w' = w_fs w → calm w w' → sound D bd w' → saving groups cur bw w → saving groups cur bw w'.
Proof.
  intros Hfs Hshw Hs [Hb Hbd Hbg Hw Hf Ho Ht Hg [Hr1 Hr2] Hsh Hba Hpt Her].
  assert (fault_free w') as Hfree by apply Hs. split; rewrite ?Hfs; try done.
  - eapply filing_adds; [done|by rewrite Hfs|done].
  - split; [done|by rewrite Hfs].
  - by eapply calm_reads.
  - apply (basis_kept _ _ _ Hba); [done|by rewrite Hfs..].
  - rewrite <-Her. apply Hshw.
Qed.

Lemma saving_quiet groups cur bw w w' : quiet w w' → saving groups cur bw w → saving groups cur bw w'.
Proof.
  intros [Hfs Hfr] Hs. pose proof (filing_sound _ _ _ _ (sv_files _ _ _ _ Hs)) as Hsd.
  apply (saving_same _ _ _ w); [done|by destruct Hfr| |done].
  eapply sound_same; [|exact Hfr| |exact Hsd]; rewrite Hfs; [done|apply Hsd].
Qed.

Lemma saving_stats groups cur f bw w : saving groups cur bw w → saving groups cur (BackupWriter.with_stats f bw) w.
Proof. by intros []; split. Qed.

(** ** Copying one entry *)

(** The entry is filed, whatever else comes out. *)
Definition files {A} (groups : list (list EntryValue)) (cur : list EntryValue) (v : EntryValue)
    (m : M (result A Error * BackupWriter)) (w : World) : Prop :=
  ∃ x bw' w', m w = (Ret (Ok x, bw'), w') ∧ saving groups (cur ++ [v]) bw' w'.

Lemma files_bind {A B} groups cur v (m : M B) (k : B → M (result A Error * BackupWriter)) x w w' :
  m w = (Ret x, w') → files groups cur v (k x) w' → files groups cur v (m ≫= k) w.
Proof. intros Hm (y & bw' & w2 & Hk & Hs). exists y, bw', w2. by rewrite (bind_run _ _ _ _ _ Hm). Qed.

Lemma files_count {A} groups cur v c n (k : unit → M (result A Error * BackupWriter)) w :
  files groups cur v (k tt) (with_counters (λ s, Counters.count s c n) w) →
  files groups cur v (monitor_count c n ≫= k) w.
Proof. by apply files_bind. Qed.

(** An entry whose content is there already is pushed on the index. *)
Lemma files_push {A} groups cur v e (x : A) bw w w' :
  saving groups cur bw w → in_tree v → StronglySorted value_lt (concat groups ++ cur ++ [v]) →
  blocks_added bd w w' → sound D bd w' → finished_as bd (w_fs w') e (item v) → Basis (bw_basis_index bw) w' →
  files groups cur v (mret (Ok x, BackupWriter.with_index (λ i, IndexWriter.push_entry i e) bw)) w'.
Proof.
  intros Hs Hv Hso Hba Hsd He Hbasis. eexists _, _, w'. split; [done|]. apply (saving_step _ _ _ bw _ w); try done.
  - by eexists.
  - apply filing_push; [|done]. eapply filing_adds; [apply Hs|apply Hba|done].
Qed.

Lemma owned_size v n (w : World) : ev_kind_meta v = KM_File n → Entry.size (owned v) w = (Ret (Some n), w).
Proof. intros Hk. cbn. by rewrite (proj1 (owned_kind v)), Hk. Qed.

Lemma open_run v n w :
  at_rest src fs0 w → in_tree v → ev_kind_meta v = KM_File n →
  ∃ w', LiveTree.open_file (LiveTree.open src) (owned v) w = (Ret (Ok (MkReader (content v))), w') ∧ quiet w w'.
Proof.
  intros Hw Hv Hk. destruct (in_tree_file v n Hv Hk) as (q & m & Hq & Ha & Hn & _).
  destruct (owned_kind v) as (Hk' & Ha' & _). unfold LiveTree.open_file, LiveTree.relative_path.
  assert (kind (owned v) = Kind_File) as Hkind by (cbn; by rewrite Hk', Hk).
  rewrite bool_decide_true by done. erewrite bind_run by done. rewrite Ha', Ha. cbn [lt_path LiveTree.open].
  rewrite (bind_run _ _ w (src ++ q)%list w) by by (rewrite below_ok).
  unfold sys_open. erewrite bind_run by (apply sys_read_run, Hw).
  rewrite (fs_read_file_at (src ++ q)%list (w_fs w) (content v) m); [|by rewrite at_rest_at with (1 := Hw)].
  eexists. split; [done|apply quiet_tick].
Qed.

Lemma content_length v n : in_tree v → ev_kind_meta v = KM_File n → n = BlockDir.len (content v).
Proof. intros Hv Hk. by destruct (in_tree_file v n Hv Hk) as (q & m & _ & _ & _ & ?). Qed.

Lemma copy_content_run groups cur v n c bw w :
  saving groups cur bw w → in_tree v → StronglySorted value_lt (concat groups ++ cur ++ [v]) →
  ev_kind_meta v = KM_File n →
  files groups cur v (BackupWriter.copy_content bw (owned v) (LiveTree.open src) options c) w.
Proof.
  intros Hs Hv Hso Hk. pose proof (content_length v n Hv Hk) as Hlen. unfold BackupWriter.copy_content.
  apply (files_bind _ _ _ _ _ _ _ _ (owned_size v n w Hk)). eapply files_bind; [done|].
  destruct (N.eqb_spec n 0) as [Hz|Hz].
  { eapply files_bind; [apply metadata_from_run|]. apply files_count.
    pose proof (saving_quiet _ _ _ _ _ (quiet_count EmptyFiles 1 w) Hs) as Hs1. set (w1 := with_counters _ w) in *.
    destruct (files_push groups cur v (index_value (owned v)) c bw w1 w1 Hs1 Hv Hso ltac:(done))
      as (y & bw' & w2 & Hr & Hs2); [by eapply filing_sound, sv_files| |apply Hs1|].
    - apply finished_none. apply string_length_zero. unfold BlockDir.len in Hlen. lia.
    - injection Hr as <- <- <-. eexists _, _, w1. split; [done|]. by apply saving_stats. }
  destruct (open_run v n w (sv_rest _ _ _ _ Hs) Hv Hk) as (w1 & Ho & Hq1). apply (files_bind _ _ _ _ _ _ _ _ Ho).
  pose proof (saving_quiet _ _ _ _ _ Hq1 Hs) as Hs1. destruct (N.leb_spec n (bo_small_file_cap options)) as [Hsmall|Hbig].
  - destruct (filing_file (bw_file_combiner bw) _ cur v n w1 (sv_files _ _ _ _ Hs1)) as (fc & w2 & Hp & Hf & Hba);
      [by apply StronglySorted_app in Hso as (_ & _ & ?)|by eapply sv_short|done..|].
    apply (files_bind _ _ _ _ _ _ _ _ Hp). cbn iota beta zeta. apply files_count.
    eexists _, _, _. split; [done|].
    apply (saving_quiet _ _ _ w2); [apply quiet_count|]. apply (saving_step _ _ _ bw _ w1); try done.
    exists (iw_entries (bw_index_builder bw)). cbn. by destruct (bw_index_builder bw).
  - destruct (owned_kind v) as (_ & Ha' & _).
    destruct (store_file_content_run D (ev_apath (owned v)) (MkReader (content v)) bd (bw_stats bw) mbs w1
      (st_contents Htree) (st_block_size Htree)) as (addrs & ds & stats' & w2 & Hr & Hsd & Hadd & Hds & _ & Hparts);
      [by eapply st_big|by eapply filing_sound, sv_files|].
    assert (blocks_added bd w1 w2) as Hba.
    { split; [done|..].
      - pose proof (store_file_below (tr_path (bd_transport bd)) (ev_apath (owned v)) (MkReader (content v)) bd (bw_stats bw) mbs) as Hb.
        specialize (Hb ltac:(unfold blocks_below; reflexivity) w1). by rewrite Hr in Hb.
      - pose proof (store_file_short (ev_apath (owned v)) (MkReader (content v)) bd (bw_stats bw) mbs w1) as Hb. by rewrite Hr in Hb. }
    rewrite (sv_blockdir _ _ _ _ Hs1). apply (files_bind _ _ _ _ _ _ _ _ Hr). cbn iota beta zeta.
    eapply files_bind; [apply metadata_from_run|].
    apply (files_push groups cur v _ c (BackupWriter.with_stats (λ _, stats') bw) w1 w2); try done.
    + by apply saving_stats.
    + by eapply finished_value.
    + cbn. destruct Hba as [Ha1 Hb1 _]. apply (basis_kept _ _ _ (sv_basis _ _ _ _ Hs1)); [apply Hsd|done|].
      by apply part_blocks.
Qed.

Lemma saving_basis groups cur it bw w w' :
  saving groups cur bw w → quiet w w' → Basis it w' → saving groups cur (BackupWriter.with_basis it bw) w'.
Proof. intros Hs Hq Hb. apply (saving_quiet _ _ _ _ _ Hq) in Hs as []. by split. Qed.

Lemma owned_reads v : kind v ≠ Kind_Unknown →
  reads_as (owned v) (ev_mtime v) (match ev_kind_meta v with KM_File n => Some n | _ => None end).
Proof.
  intros Hk. destruct (owned_kind v) as (Hk' & _ & <-). rewrite <-Hk'. apply entry_value_reads_as.
  rewrite Hk'. intros Hx. apply Hk. cbn. by rewrite Hx.
Qed.

Lemma in_tree_known v : in_tree v → kind v ≠ Kind_Unknown.
Proof.
  intros (q & _ & _ & node & _ & Hv)%in_tree_names. unfold value_of in Hv.
  destruct node as [| |t m|]; simplify_eq/=; try done. by destruct (utf8_valid t); simplify_eq/=.
Qed.

(** Whether the content is taken to be that of the basis *)
Lemma heuristic_run v n e fs (w : World) :
  ev_kind_meta v = KM_File n → trusted fs v e →
  ∃ same, BackupWriter.content_heuristically_unchanged (owned v) e w = (Ret same, w) ∧
    (same = true → ∃ ds, Forall2 (part_ok bd fs) (ie_addrs e) ds ∧ parts (ie_addrs e) ds = content v).
Proof.
  intros Hk [Ha (t & s & Hrd) Hsame]. pose proof Hrd as (Hm & Hsz & _).
  destruct (owned_kind v) as (Hk' & _ & Ht'). unfold BackupWriter.content_heuristically_unchanged.
  assert (kind (owned v) = kind v) as Hkind by (cbn; by rewrite Hk').
  rewrite Hkind. case_decide as Hke; [|by exists false].
  rewrite (bind_run _ _ _ _ _ (Hm _ w)). erewrite bind_run by done. rewrite Ht'. case_decide as Hte; [|by exists false].
  rewrite (bind_run _ _ _ _ _ (Hsz _ w)). rewrite (bind_run _ _ _ _ _ (owned_size v n w Hk)).
  exists (bool_decide (s = Some n)). split; [done|]. intros ->%bool_decide_eq_true.
  apply (Hsame t n); [done..|]. intros n' Hn'. congruence.
Qed.

(** A file whose blocks are in the basis *)
Lemma copy_unchanged_run groups cur v n e ds bw w :
  saving groups cur bw w → in_tree v → StronglySorted value_lt (concat groups ++ cur ++ [v]) →
  ev_kind_meta v = KM_File n → trusted (w_fs w) v e →
  Forall2 (part_ok bd (w_fs w)) (ie_addrs e) ds → parts (ie_addrs e) ds = content v →
  ∃ c bw' w', BackupWriter.copy_unchanged bw (owned v) e w = (Ret (c, bw'), w') ∧ saving groups (cur ++ [v]) bw' w'.
Proof.
  intros Hs Hv Hso Hk [Ha (t & s & Hrd) _] Hds Hp. unfold BackupWriter.copy_unchanged. cbv zeta.
  rewrite (bind_run _ _ _ _ _ (metadata_from_run (owned v) w)).
  set (new := IndexEntry.with_addrs (ie_addrs e) (index_value (owned v))).
  assert (∃ c, (if decide (new = e) then EntryChange.unchanged e else EntryChange.changed e (owned v)) w = (Ret c, w)) as [c Hc].
  { case_decide.
    - unfold EntryChange.unchanged. rewrite (bind_run _ _ _ _ _ (EntryMetadata_from_runs e t s w Hrd)). by eexists.
    - eexists. apply (changed_runs e t s (owned v)); [done|apply owned_reads; by apply in_tree_known|].
      cbn. by rewrite (proj1 (proj2 (owned_kind v))). }
  rewrite (bind_run _ _ _ _ _ Hc).
  destruct (files_push groups cur v new c (BackupWriter.with_stats (BackupStats.add_unmodified_files 1) bw) w w)
    as (x & bw' & w' & Hr & Hs'); try done; [by apply saving_stats|by eapply filing_sound, sv_files|by eapply finished_value|apply Hs|].
  injection Hr as <- <- <-. by eexists _, _, w.
Qed.

Lemma copy_file_run groups cur v n bw w :
  saving groups cur bw w → in_tree v → StronglySorted value_lt (concat groups ++ cur ++ [v]) →
  ev_kind_meta v = KM_File n → files groups cur v (BackupWriter.copy_file bw (owned v) (LiveTree.open src) options) w.
Proof.
  intros Hs Hv Hso Hk. unfold BackupWriter.copy_file. cbv zeta. apply files_count.
  apply (saving_quiet _ _ _ _ _ (quiet_count Files 1 w)) in Hs. set (w1 := with_counters _ w) in *.
  apply (saving_stats _ _ (BackupStats.add_files 1)) in Hs. set (bw1 := BackupWriter.with_stats _ bw) in *.
  destruct (owned_kind v) as (Hk' & Ha' & Ht').
  destruct (basis_lookup (bw_basis_index bw1) w1 v (sv_basis _ _ _ _ Hs) Hv) as (r & it & w2 & Hl & Hq & Hb & Htr).
  rewrite Ha'. apply (files_bind _ _ _ _ _ _ _ _ Hl). cbn iota beta.
  apply (saving_basis _ _ it _ _ w2) in Hs; [|done|done]. set (bw2 := BackupWriter.with_basis _ bw1) in *.
  pose proof (in_tree_known v Hv) as Hkn.
  destruct r as [e|].
  2: { eapply files_bind.
       - unfold EntryChange.added. rewrite (bind_run _ _ _ _ _ (EntryMetadata_from_runs (owned v) _ _ w2 (owned_reads v Hkn))). done.
       - apply (copy_content_run _ _ _ n); [by apply saving_stats|done..]. }
  specialize (Htr e eq_refl). destruct Hq as [Hfs2 Hfr2]. rewrite <-Hfs2 in Htr.
  destruct (heuristic_run v n e (w_fs w1) w2 Hk ltac:(by rewrite <-Hfs2)) as (same & Hh & Hsame).
  apply (files_bind _ _ _ _ _ _ _ _ Hh).
  assert (∀ f w3, saving groups cur bw2 w3 → files groups cur v
    (c ← EntryChange.changed e (owned v);
     BackupWriter.copy_content (BackupWriter.with_stats f bw2) (owned v) (LiveTree.open src) options (Some c)) w3) as Hnew.
  { intros f w3 Hs3. destruct Htr as [Ha (t & s & Hrd) _]. eapply files_bind.
    - apply (changed_runs e t s (owned v)); [done|by apply owned_reads|]. cbn. by rewrite Ha'.
    - apply (copy_content_run _ _ _ n); [by apply saving_stats|done..]. }
  destruct same; [|by apply Hnew].
  destruct (Hsame eq_refl) as (ds & Hds & Hparts). rewrite (sv_blockdir _ _ _ _ Hs).
  destruct (all_present_run D bd (unique [] (a_hash <$> ie_addrs e)) w2) as (w3 & Hp & Hfs3 & Hsd3 & Hsh3);
    [by eapply filing_sound, sv_files| |].
  { intros h (ad & -> & Hin)%unique_sub%list_elem_of_fmap. apply list_elem_of_lookup in Hin as [i Hi].
    destruct (Forall2_lookup_l _ _ _ _ _ Hds Hi) as (d & Hd & ((Hfit & Heq & Hx) & _)). exists d.
    rewrite <-Heq. split; [done|]. rewrite Hfs2. by rewrite Heq. }
  apply (files_bind _ _ _ _ _ _ _ _ Hp). cbn iota.
  apply (saving_same _ _ _ _ _ Hfs3 Hsh3 Hsd3) in Hs.
  destruct (copy_unchanged_run groups cur v n e ds bw2 w3) as (c & bw' & w' & Hr & Hs'); [done..|by rewrite Hfs3|by rewrite Hfs3, Hfs2|done|].
  apply (files_bind _ _ _ _ _ _ _ _ Hr). by eexists _, _, w'.
Qed.

(** Any entry of the tree *)
Lemma copy_entry_run groups cur v bw w :
  saving groups cur bw w → in_tree v → StronglySorted value_lt (concat groups ++ cur ++ [v]) →
  files groups cur v (BackupWriter.copy_entry bw (owned v) (LiveTree.open src) options) w.
Proof.
  intros Hs Hv Hso. pose proof (in_tree_known v Hv) as Hkn. destruct (owned_kind v) as (Hk' & _ & _).
  assert (kind (owned v) = kind v) as Hkind by (cbn; by rewrite Hk').
  assert (∀ c f, saving groups cur (BackupWriter.with_stats f bw) (with_counters (λ s, Counters.count s c 1) w)) as Hs'.
  { intros c f. apply saving_stats. by apply (saving_quiet _ _ _ _ _ (quiet_count c 1 w)). }
  assert (∀ c f, kind v ≠ Kind_File → files groups cur v (mret (Ok (@None EntryChange),
    BackupWriter.with_index (λ i, IndexWriter.push_entry i (index_value (owned v))) (BackupWriter.with_stats f bw)))
    (with_counters (λ s, Counters.count s c 1) w)) as Hpush.
  { intros c f Hnf. specialize (Hs' c f). apply (files_push _ _ _ _ _ _ _ _ Hs'); try done.
    - by eapply filing_sound, sv_files.
    - by apply finished_none, content_none.
    - apply Hs'. }
  unfold BackupWriter.copy_entry. rewrite Hkind. destruct (kind v) eqn:E; try done.
  - assert (∃ n, ev_kind_meta v = KM_File n) as [n Hn] by (cbn in E; destruct (ev_kind_meta v); try done; by eexists).
    by apply (copy_file_run _ _ _ n).
  - unfold BackupWriter.copy_dir. apply files_count. eapply files_bind; [apply metadata_from_run|]. by apply Hpush.
  - unfold BackupWriter.copy_symlink. apply files_count. cbv zeta. eapply files_bind.
    + rewrite bool_decide_true; [done|]. cbn. cbn in E. rewrite Hk'. destruct (ev_kind_meta v); done.
    + eapply files_bind; [apply metadata_from_run|]. by apply Hpush.
Qed.

(** The body of the loop *)
Lemma backup_entry_run groups cur v bw n w :
  saving groups cur bw w → in_tree v → StronglySorted value_lt (concat groups ++ cur ++ [v]) →
  ∃ bw' w', backup_entry bw n v (LiveTree.open src) options w = (Ret (Ok (bw', n)), w') ∧ saving groups (cur ++ [v]) bw' w'.
Proof.
  intros Hs Hv Hso. unfold backup_entry. fold (owned v).
  destruct (copy_entry_run groups cur v bw w Hs Hv Hso) as ([c|] & bw' & w1 & Hr & Hs1);
    rewrite (bind_run _ _ _ _ _ Hr); cbn iota beta; [|by exists bw', w1].
  erewrite bind_run by apply modify_run. set (w2 := with_counters _ w1).
  apply (saving_quiet _ _ _ w1 w2) in Hs1; [|done].
  destruct (bo_change_callback options) as [cb|] eqn:Ecb; [|by exists bw', w2].
  destruct (st_callback Htree cb c w2 Ecb) as (w3 & Hr3 & Hq3). rewrite (try_run _ _ _ _ _ Hr3).
  exists bw', w3. split; [done|]. by eapply saving_quiet.
Qed.

(** ** Finishing a group *)

Lemma holds_paths fs es g : holds fs es g → ie_apath <$> es ≡ₚ ev_apath <$> g.
Proof.
  intros (its & Hes & Hp).
  assert (ie_apath <$> es = (λ it, ie_apath it.1) <$> its) as ->.
  { clear Hp. induction Hes as [|e it es its [-> _] _ IH]; [done|]. by rewrite !fmap_cons, IH. }
  rewrite Hp, <-list_fmap_compose. assert (((λ it : Item, ie_apath it.1) ∘ item) <$> g = ev_apath <$> g) as ->; [|done].
  apply list_fmap_ext. intros i v _. cbn. by rewrite (proj1 (proj2 (owned_kind v))).
Qed.

Lemma holds_values fs es g e : holds fs es g → e ∈ es →
  ∃ v, v ∈ g ∧ finished_as bd fs e (item v) ∧ ie_apath e = ev_apath v.
Proof.
  intros (its & Hes & Hp) [i Hi]%list_elem_of_lookup. destruct (Forall2_lookup_l _ _ _ _ _ Hes Hi) as (it & Hit & Hf).
  apply list_elem_of_lookup_2 in Hit. rewrite Hp in Hit. apply list_elem_of_fmap in Hit as (v & -> & Hv).
  exists v. split; [done|]. split; [done|]. destruct Hf as [-> _]. cbn. by rewrite (proj1 (proj2 (owned_kind v))).
Qed.

Lemma holds_perm fs es es' g : es ≡ₚ es' → holds fs es g → holds fs es' g.
Proof.
  intros Hes (its & Hf & Hp). destruct (Permutation_Forall2 Hes Hf) as (its' & Hp' & Hf'). exists its'. split; [done|].
  by rewrite <-Hp', Hp.
Qed.

Lemma value_sorted_NoDup l : StronglySorted value_lt l → NoDup (ev_apath <$> l).
Proof.
  induction 1 as [|v l _ IH Hv]; [constructor|]. rewrite fmap_cons. constructor; [|done].
  intros (x & Hx & Hin)%list_elem_of_fmap. rewrite Forall_forall in Hv. specialize (Hv x Hin).
  unfold value_lt in Hv. rewrite Hx in Hv. by apply apath_lt_irrefl in Hv.
Qed.

(** The source has at least as many nodes. *)
Lemma tree_number l : Forall in_tree l → StronglySorted value_lt l → length l ≤ size fs0.
Proof.
  intros Ht Hs%value_sorted_NoDup. set (path v := match Apath.below (ev_apath v) src with Some p => p | None => [] end).
  assert (NoDup (path <$> l)) as Hnd.
  { induction l as [|v l IH]; [constructor|]. rewrite fmap_cons. apply NoDup_cons in Hs as [Hv Hs].
    apply Forall_cons in Ht as [Hin Ht]. constructor; [|by apply IH]. intros (x & Hx & Hxl)%list_elem_of_fmap. apply Hv.
    rewrite Forall_forall in Ht. destruct (in_tree_names v Hin) as (q & Hq & Ha & _).
    destruct (in_tree_names x (Ht x Hxl)) as (q' & Hq' & Ha' & _). unfold path in Hx. rewrite Ha, Ha', !below_ok in Hx by done.
    apply app_inv_head in Hx as <-. rewrite Ha, <-Ha'. by apply list_elem_of_fmap_2. }
  rewrite <-(length_fmap path), <-(size_list_to_set (C := gset Path)), <-size_dom by done. apply subseteq_size.
  intros p (v & -> & Hv)%elem_of_list_to_set%list_elem_of_fmap. rewrite Forall_forall in Ht.
  destruct (in_tree_names v (Ht v Hv)) as (q & Hq & Ha & node & Hn & _). unfold path. rewrite Ha, below_ok by done.
  by apply elem_of_dom_2 in Hn.
Qed.

Lemma length_groups {A} (groups : list (list A)) : Forall (λ g, g ≠ []) groups → length groups ≤ length (concat groups).
Proof.
  induction 1 as [|g groups Hg _ IH]; [done|]. simpl. rewrite length_app. destruct g; [done|]. simpl. lia.
Qed.

(** The entries of a group can be serialized. *)
Lemma holds_compressible fs es g : Forall in_tree g → holds fs es g → compressible es.
Proof.
  intros Hg Hh. apply (st_hunks Htree). apply Forall_forall. intros e He. destruct (holds_values fs es g e Hh He) as (v & Hv & [Hf _] & _).
  exists v. split; [|done]. by eapply Forall_forall.
Qed.

(** What follows the hunks in the order *)
Lemma holds_after fs hs groups es cur x e :
  Forall2 (holds fs) hs groups → holds fs es cur → StronglySorted value_lt (concat groups ++ cur) →
  x ∈ concat hs → e ∈ es → entry_lt x e.
Proof.
  intros Hh He Hso Hx Hin. apply list_elem_of_In, in_concat in Hx as (es' & Hes' & Hx). apply list_elem_of_In in Hes', Hx.
  apply list_elem_of_lookup in Hes' as [i Hi]. destruct (Forall2_lookup_l _ _ _ _ _ Hh Hi) as (g & Hg & Hes').
  destruct (holds_values fs es' g x Hes' Hx) as (v & Hv & _ & Hxv), (holds_values fs es cur e He Hin) as (v' & Hv' & _ & Hev).
  apply StronglySorted_app in Hso as (Hso & _ & _). unfold entry_lt. rewrite Hxv, Hev. apply Hso; [|done].
  apply list_elem_of_In, in_concat. exists g. split; apply list_elem_of_In; [by eapply list_elem_of_lookup_2|done].
Qed.

(** Whatever is written in the band leaves the source and the blocks as they are. *)
Lemma source_band : separate src (band_path a b).
Proof.
  destruct (pl_separate Hplaced) as [Hs1 Hs2]. unfold band_path. split; intros Hp.
  - destruct (prefix_weak_total src (archive_path a) _ Hp) as [?|?]; [by apply prefix_app_r|done..].
  - apply Hs2. etrans; [|exact Hp]. by apply prefix_app_r.
Qed.

Lemma at_rest_below p w w' : separate src p → only_below p (w_fs w) (w_fs w') → fault_free w' →
  at_rest src fs0 w → at_rest src fs0 w'.
Proof.
  intros Hs Hb%(only_below_separate _ _ _ _ Hs) Hf [_ Hw]. split; [done|]. intros q Hq. rewrite Hb by done. by apply Hw.
Qed.

Lemma sound_band w w' : only_below (band_path a b) (w_fs w) (w_fs w') → frame w w' → fs_closed (w_fs w') →
  sound D bd w → sound D bd w'.
Proof. intros Hb. apply sound_same. eapply only_below_separate; [|exact Hb]. destruct band_apart. by split. Qed.

Lemma index_not (n : string) : n ≠ INDEX_DIR → ¬ tr_path (index_transport a b) `prefix_of` (band_path a b ++ [n])%list.
Proof. rewrite index_path_in. intros Hn [q Hq]. rewrite <-app_assoc in Hq. apply app_inv_head in Hq. by injection Hq as -> _. Qed.

(** A hunk does not touch the head, and does not close the band. *)
Lemma begun_hunk fs fs' : only_below (tr_path (index_transport a b)) fs fs' → only_adds fs fs' → begun a fs b → begun a fs' b.
Proof.
  intros Hb Ha [(c & m & head & Hp & Hh) Ht Hd]. split.
  - exists c, m, head. split; [|done]. by apply Ha.
  - rewrite tail_path_in in *. rewrite Hb; [done|]. by apply index_not.
  - destruct (fs !! band_path a b) as [nd|] eqn:E; [|done]. by rewrite (Ha (band_path a b) nd).
Qed.

(** The files of the group become blocks, and then its entries a hunk. *)
Lemma flush_group_run groups cur bw w :
  saving groups cur bw w → cur ≠ [] →
  ∃ bw' w', BackupWriter.flush_group bw w = (Ret (Ok tt, bw'), w') ∧ saving (groups ++ [cur]) [] bw' w'.
Proof.
  intros Hs Hcur. pose proof (sv_order _ _ _ _ Hs) as Hso. pose proof (sv_tree _ _ _ _ Hs) as Htr.
  destruct (filing_drain _ _ _ _ (sv_files _ _ _ _ Hs)) as (stats & out & fc & w1 & Hr & [Ha1 Hb1 Hsh1] & Hc & Hes);
    [by apply StronglySorted_app in Hso as (_ & _ & ?)|].
  unfold BackupWriter.flush_group. rewrite (bind_run _ _ _ _ _ Hr). cbn iota beta zeta.
  pose proof (only_below_separate _ _ _ _ band_apart Hb1) as Hband1.
  destruct (sv_hunks _ _ _ _ Hs) as (hs & Hw & Hh). apply (writing_same _ _ _ _ Hband1) in Hw.
  assert (Forall2 (holds (w_fs w1)) hs groups) as Hh1 by (eapply Forall2_impl; [exact Hh|]; intros x y; by apply holds_adds).
  set (iw := IndexWriter.append_entries (bw_index_builder bw) out).
  assert (holds (w_fs w1) (iw_entries iw) cur) as Hcur1 by done.
  pose proof (cb_sound _ _ _ _ _ _ _ Hc) as Hsd1. pose proof Hsd1 as [[Hfree1 _] Hcl1 _ _ _].
  apply Forall_app in Htr as [Htr1 Htr2].
  destruct (finish_hunk_writing (index_transport a b) hs iw w1 Hfree1) as (iw' & w2 & Hr2 & Hfr2 & Hnil & Hw2 & Hb2 & Ha2 & Hcl2).
  { by apply writing_entries. }
  { rewrite holds_paths by done. apply value_sorted_NoDup. by apply StronglySorted_app in Hso as (_ & _ & ?). }
  { intros x e. by apply (holds_after (w_fs w1) _ groups _ cur). }
  { pose proof (tree_number _ (sv_tree _ _ _ _ Hs) Hso) as Hn. rewrite length_app in Hn.
    pose proof (length_groups _ (sv_groups _ _ _ _ Hs)). pose proof (st_number Htree). rewrite (Forall2_length _ _ _ Hh). lia. }
  { apply (holds_compressible (w_fs w1) _ cur Htr2). eapply holds_perm; [|exact Hcur1]. symmetry. apply sort_by_perm. }
  rewrite (bind_run _ _ _ _ _ Hr2). eexists _, w2. split; [done|].
  assert (only_below (band_path a b) (w_fs w1) (w_fs w2)) as Hbb.
  { intros p Hp. apply Hb2. rewrite index_path_in. intros Hx. apply Hp. etrans; [|exact Hx]. by apply prefix_app_r. }
  pose proof (sound_band w1 w2 Hbb Hfr2 (Hcl2 Hcl1) Hsd1) as Hsd2. pose proof Hsd2 as [[Hfree2 _] _ _ _ _].
  assert (add_hunk hs (iw_entries iw) = hs ++ [sort_by entry_cmp (iw_entries iw)])%list as Heq.
  { unfold add_hunk. destruct (iw_entries iw) eqn:E; [|done]. apply holds_paths, Permutation_length in Hcur1.
    rewrite !length_fmap in Hcur1. by destruct cur. }
  rewrite Heq in Hw2. split; cbn; rewrite ?concat_app, ?concat_cons, ?app_nil_r; try by apply Hs.
  - apply (begun_hunk (w_fs w1)); [done..|]. by apply (begun_same (w_fs w)), Hs.
  - eexists. split; [exact Hw2|]. apply Forall2_app; [|constructor; [|done]].
    + eapply Forall2_impl; [exact Hh1|]. intros x y. by apply holds_adds.
    + eapply holds_adds; [exact Ha2|]. eapply holds_perm; [|exact Hcur1]. symmetry. apply sort_by_perm.
  - rewrite Hnil. exists [], [], []. split; [|by split_and!]. destruct Hc. split; try done. by eapply Forall2_nil_inv_r in cb_finished as ->.
  - apply Forall_app. split; [by apply Hs|]. by constructor.
  - apply (at_rest_below (band_path a b) w1); [by apply source_band|done|done|].
    apply (at_rest_below (tr_path (bd_transport bd)) w); [by apply source_apart|done|done|by apply Hs].
  - intros t. rewrite (frame_short _ _ Hfr2). eapply calm_reads; [exact Hsh1|by apply Hs].
  - apply (basis_kept _ w1); [|done|done|by apply part_band].
    apply (basis_kept _ w); [by apply Hs|done|done|by apply part_blocks].
  - etrans; [by apply Hs|]. etrans; [by apply part_blocks|by apply part_band].
  - rewrite (frame_errors _ _ Hfr2), (proj2 Hsh1). by apply Hs.
Qed.

(** ** The loop *)

(** Everything that is done comes before what follows. *)
Definition done_before (done : list EntryValue) (last : option Apath) : Prop :=
  ∀ v p, v ∈ done → past last p → Apath.lt (ev_apath v) p.

Lemma done_next l last v : done_before l last → past last (ev_apath v) → StronglySorted value_lt l →
  StronglySorted value_lt (l ++ [v]) ∧ done_before (l ++ [v]) (Some (ev_apath v)).
Proof.
  intros Hl Hv Hs. split.
  - apply StronglySorted_app. split; [|split; [done|by repeat constructor]]. intros x y Hx ->%list_elem_of_singleton. by apply Hl.
  - intros x p [Hx| ->%list_elem_of_singleton]%elem_of_app Hp; [|done]. apply (Hl x); [done|]. by eapply past_trans.
Qed.

Lemma filing_nil fc es w : filing fc es [] w → es = [].
Proof.
  intros (pend & fin & pushed & _ & He & Hp & _). apply Permutation_nil_r in Hp.
  destruct pushed; [|done]. by apply Forall2_nil_inv_r in He.
Qed.

#[local] Abbreviation source := (LiveTree.open src).

Lemma bound_rest last it w w' : walking last it → on_the_way src fs0 (bo_exclude options) it →
  at_rest src fs0 w → at_rest src fs0 w' → LiveIter.entries_bound it w' = LiveIter.entries_bound it w.
Proof.
  intros Hwk How [_ Hw] [_ Hw']. apply (entries_bound_same last); [done|]. rewrite (ow_root _ _ _ _ How).
  intros p Hp. by rewrite Hw, Hw'.
Qed.

Lemma backup_loop_run fuel groups cur bw n it last w :
  saving groups cur bw w → walking last it → on_the_way src fs0 (bo_exclude options) it →
  LiveIter.entries_bound it w ≤ fuel → done_before (concat groups ++ cur) last →
  (∀ v, pending src fs0 (bo_exclude options) it v → in_tree v) → bo_max_entries_per_hunk options ≠ 0 →
  ∃ groups' bw' w', backup_loop fuel (length cur) bw n source it options w = (Ret (Ok (bw', n)), w') ∧
    saving groups' [] bw' w' ∧
    ∀ v, v ∈ concat groups' ↔ v ∈ concat groups ++ cur ∨ pending src fs0 (bo_exclude options) it v.
Proof.
  revert groups cur bw it last w. induction fuel as [|fuel IH]; intros groups cur bw it last w Hs Hwk How Hb Hd Hp Hmax;
    cbn [backup_loop];
    destruct (next_step src fs0 (bo_exclude options) (pl_named Hplaced) last it w (sv_rest _ _ _ _ Hs) Hwk How)
      as ([v|] & it' & w1 & Hr & Hq & How' & Hnext);
    rewrite (bind_run _ _ _ _ _ Hr); cbn iota beta; apply (saving_quiet _ _ _ _ _ Hq) in Hs.
  2, 4: destruct (Nat.eqb_spec (length cur) 0) as [->%nil_length_inv|Hne];
    [exists groups, bw, w1; split; [done|]; split; [done|]; intros v; rewrite app_nil_r; naive_solver|];
    destruct (flush_group_run groups cur bw w1 Hs) as (bw' & w2 & Hr2 & Hs2); [by destruct cur|];
    rewrite (bind_run _ _ _ _ _ Hr2); exists (groups ++ [cur])%list, bw', w2; split; [done|]; split; [done|];
    intros v; rewrite concat_app, concat_cons, app_nil_r; naive_solver.
  { destruct Hnext as (_ & _ & Hb' & _). lia. }
  destruct Hnext as (Hpast & Hwk' & Hb' & Hpend).
  destruct (done_next _ last v Hd Hpast (sv_order _ _ _ _ Hs)) as [Hso Hd']. rewrite <-app_assoc in Hso, Hd'.
  assert (in_tree v) as Hv by (apply Hp, Hpend; by left).
  assert (∀ gs c bw w2, saving gs c bw w2 → (concat gs ++ c = concat groups ++ cur)%list →
    ∃ groups' bw' w', (we ←? backup_entry bw n v source options;
        backup_loop fuel (length (c ++ [v])) we.1 we.2 source it' options) w2 = (Ret (Ok (bw', n)), w') ∧
      saving groups' [] bw' w' ∧
      ∀ x, x ∈ concat groups' ↔ x ∈ concat groups ++ cur ∨ pending src fs0 (bo_exclude options) it x) as Hrest.
  { intros gs c bw2 w2 Hs2 Heq. rewrite app_assoc, <-Heq, <-app_assoc in Hso, Hd'.
    destruct (backup_entry_run gs c v bw2 n w2 Hs2 Hv Hso) as (bw3 & w3 & Hr3 & Hs3). rewrite (try_run _ _ _ _ _ Hr3). cbn [fst snd].
    destruct (IH gs (c ++ [v])%list bw3 it' (Some (ev_apath v)) w3) as (gs' & bw' & w' & Hr' & Hs' & Hin); try done.
    - rewrite (bound_rest _ _ w1 w3 Hwk' How'); [lia|by apply Hs|by apply Hs3].
    - intros x Hx. apply Hp, Hpend. by right.
    - exists gs', bw', w'. split; [done|]. split; [done|]. intros x. rewrite Hin, app_assoc, Heq, elem_of_app, Hpend.
      rewrite list_elem_of_singleton. naive_solver. }
  destruct (Nat.eqb_spec (length cur) (bo_max_entries_per_hunk options)) as [Heq|_].
  - destruct (flush_group_run groups cur bw w1 Hs) as (bw2 & w2 & Hr2 & Hs2); [by destruct cur|].
    rewrite (bind_run _ _ _ _ _ Hr2). apply (Hrest _ [] bw2 w2 Hs2). by rewrite concat_app, concat_cons, !app_nil_r.
  - replace (S (length cur)) with (length (cur ++ [v])) by (rewrite length_app; simpl; lia). by apply (Hrest groups).
Qed.
End backing_up.

(** ** Moving on to another file system with the same source *)

Section elsewhere.
Context `{Ext, !HashLaws} `{BuildCfg} `{Codecs} `{!CacheDir, !CacheDirLaws} (src : Path) (options : BackupOptions) (fs fs' : Fs).
Context (Hs : same_below src fs fs').

Lemma in_tree_elsewhere v : in_tree src options fs v ↔ in_tree src options fs' v.
Proof.
  split; intros [q Hq]; exists q; (eapply entry_at_elsewhere; [|exact Hq]); [done|by apply same_below_sym].
Qed.

Context (Hnamed : named_below src fs).

Lemma content_elsewhere v : in_tree src options fs v → content src fs' v = content src fs v.
Proof.
  intros (q & Hr & node & Hn & Hv). unfold content. destruct (ev_kind_meta v) eqn:Ek; try done.
  assert (names_ok q) as Hq by by eapply reached_names.
  assert (ev_apath v = of_names q) as ->.
  { unfold value_of in Hv. destruct node as [| |t m|]; try (by simplify_eq/=). by destruct (utf8_valid t); simplify_eq/=. }
  rewrite below_ok by done. destruct node as [c m|m|t m|m]; try (by simplify_eq/=).
  2: { unfold value_of in Hv. destruct (utf8_valid t); by simplify_eq/=. }
  assert (fs' !! (src ++ q)%list = Some (NFile c m)) as Hn' by (rewrite Hs; [done|by apply prefix_app_r]).
  by rewrite (fs_read_file_at _ _ _ _ Hn), (fs_read_file_at _ _ _ _ Hn').
Qed.

Lemma item_elsewhere v : in_tree src options fs v → item src options fs' v = item src options fs v.
Proof. intros Hv. unfold item. by rewrite content_elsewhere. Qed.

Lemma small_item_elsewhere it : small_item src options fs' it → small_item src options fs it.
Proof.
  intros (v & n & Hv & Hk & Hn & ->). apply in_tree_elsewhere in Hv. exists v, n. by rewrite item_elsewhere.
Qed.

Lemma storable_elsewhere D :
  (N.of_nat (size fs') < u32_max)%N → storable_tree src options fs D → storable_tree src options fs' D.
Proof.
  intros Hsize [Hc Hb Hbig Hsmall Hh Hn Hcb]. split; try done.
  - intros v n Hv Hk Hlt. apply in_tree_elsewhere in Hv. rewrite content_elsewhere by done. by eapply Hbig.
  - intros its Hne Hso Hits. apply Hsmall; [done..|]. eapply Forall_impl; [exact Hits|]. apply small_item_elsewhere.
  - intros es Hes. apply Hh. eapply Forall_impl; [exact Hes|]. intros e (v & Hv & He). exists v.
    split; [by apply in_tree_elsewhere|done].
Qed.
End elsewhere.
