(* ===== verification/RestoreTree.v ===== *)
(** * Restoring a whole tree

    Without failures, [restore] (src/restore.rs, modelled in [Restore]) makes exactly the
    tree that the entries of the version describe: each entry at its path with its
    content, mode, owner and times, nothing else in the destination, and nothing else
    anywhere changes. *)

From Stdlib Require Import Ascii.
From S2P Require Import Prelude Text Apath Externals Ids Entry Counters Errors World Transport.
From S2P Require Import Sample SampleWorld Excludes Jsonio BlockDir BlockStore Index Archive Footprint Stitch.
From S2P Require Import HunkIndex LiveTree LiveOrder Backup Restore StoredBand.
From stdpp Require Import list gmap strings sorting.

(** ** Single steps *)

Section steps.
Context `{Ext, !LruLaws, !HashLaws, !HexLaws} `{BuildCfg}.

(** What can happen elsewhere does not matter to the block directory. *)
Lemma serving_same bd w w' :
  (∀ h, w_fs w' !! block_path bd h = w_fs w !! block_path bd h) → w_faults w' = w_faults w →
  w_blockdirs w' = w_blockdirs w → serving bd w → serving bd w'.
Proof.
  intros Hb Hf Hd [Hff Hs]. split; [intros t; by rewrite Hf|]. intros h c d. unfold cached, intact. rewrite Hd, Hb. apply Hs.
Qed.

Definition blank (mode : N) : Meta := MkMeta mode (MkTime 0 0) 0 0.

(** Metadata up to the time *)
Definition agree (m m' : Meta) : Prop := m_mode m = m_mode m' ∧ m_uid m = m_uid m' ∧ m_gid m = m_gid m'.

Lemma restored_meta_agree e t m m' : agree m m' → restored_meta e t m = restored_meta e t m'.
Proof. intros (Hm & Hu & Hg). unfold restored_meta. rewrite Hm, Hu, Hg. done. Qed.

(** Making one directory *)
Lemma create_dir_all_run p w :
  fault_free w → fs_closed (w_fs w) → w_fs w !! p = None → is_dir_node (w_fs w !! parent p) = true → p ≠ [] →
  sys_create_dir_all p w = (Ret (Ok tt), tick (with_fs (λ _, <[p := NDir (new_meta 493 w)]> (w_fs w)) w)).
Proof.
  intros Hf Hc Hn Hp Hne. unfold sys_create_dir_all. rewrite syscall_run by apply Hf. unfold fs_create_dir_all. rewrite Hn.
  assert (∀ n, (n < length p)%nat → is_dir_node (w_fs w !! take n p) = true) as Hup.
  { intros n Hlt. destruct p as [|x p _] using rev_ind; [done|]. unfold parent in Hp. rewrite removelast_last in Hp.
    rewrite length_app in Hlt. simpl in Hlt. rewrite take_app_le by lia.
    destruct (decide (n = length p)) as [->|]; [by rewrite firstn_all|].
    apply (Hc _ (drop n p)).
    - intros Hd%(f_equal length). rewrite length_drop in Hd. simpl in Hd. lia.
    - rewrite take_drop. by apply is_dir_is_Some. }
  assert (absent_kind (w_fs w) p = Io_NotFound) as ->.
  { unfold absent_kind. destruct (existsb _ _) eqn:E; [|done]. apply existsb_exists in E as (n & [_ Hn']%in_seq & Hx).
    specialize (Hup n ltac:(lia)). by destruct (w_fs w !! take n p) as [[]|]. }
  assert (fs_missing_dirs p (w_fs w) = [p]) as ->; [|done].
  unfold fs_missing_dirs. destruct p as [|x p _] using rev_ind; [done|]. rewrite length_app. cbn [length].
  rewrite Nat.add_1_r, seq_S, fmap_app, filter_app. cbn [fmap list_fmap Nat.add].
  assert (∀ l, Forall (λ n, n < length (p ++ [x]))%nat l →
    filter (λ k, w_fs w !! k = None) ((λ n, take n (p ++ [x])) <$> l) = []) as Hnil.
  { induction 1 as [|n l Hlt _ IH]; [done|]. rewrite fmap_cons, filter_cons_False; [done|].
    intros Hk. specialize (Hup n Hlt). by rewrite Hk in Hup. }
  rewrite Hnil; [|apply Forall_forall; intros n Hn'%elem_of_seq; rewrite length_app; simpl; lia].
  rewrite take_ge by (rewrite length_app; simpl; lia). rewrite filter_cons_True; done.
Qed.
End steps.

(** ** What an entry becomes *)

Section tree.
Context `{Ext, !LruLaws, !HashLaws, !HexLaws} `{BuildCfg} `{Codecs}.
Context (bd : BlockDir) (dest : Path) (options : RestoreOptions).
Context (Hcb : ro_change_callback options = None) (Hsep : separate (tr_path (bd_transport bd)) dest).

(** The time of an entry, and the content of the blocks that it refers to *)
Context (tm : IndexEntry → OffsetDateTime) (pieces : IndexEntry → list string).

(** The names that lead to an entry, and its place in the destination *)
Definition names_of (e : IndexEntry) : list string := path_components (string_drop 1 (apath_str (ie_apath e))).

Definition place (e : IndexEntry) : Path := (dest ++ names_of e)%list.

(** An entry that can be restored: its path is one that a system allows, its time is one
    that there is, and the blocks of a file are intact. *)
Record restorable (fs : Fs) (e : IndexEntry) : Prop := {
  re_names : names_ok (names_of e);
  re_apath : ie_apath e = of_names (names_of e);
  re_time : ∀ w : World, mtime e w = (Ret (tm e), w);
  re_root : names_of e = [] → ie_kind e = Kind_Dir;
  re_kind : match ie_kind e with
            | Kind_Dir => True
            | Kind_File => Forall2 (part_ok bd fs) (ie_addrs e) (pieces e)
            | Kind_Symlink => is_Some (ie_target e)
            | Kind_Unknown => False
            end
}.

(** The node that an entry becomes. The destination itself keeps what the archive does
    not say of it. *)
Definition link_meta (e : IndexEntry) (m : Meta) : Meta :=
  MkMeta (m_mode m) (MkTime (unix_timestamp (tm e)) (nanosecond (tm e)))
    (m_uid (set_ids (ie_owner e) m)) (m_gid (set_ids (ie_owner e) m)).

Definition dir_base (m0 : Meta) (e : IndexEntry) : Meta := if decide (names_of e = []) then m0 else blank 493.

Definition restored_node (m0 : Meta) (e : IndexEntry) : Node :=
  match ie_kind e with
  | Kind_Dir => NDir (restored_meta e (tm e) (dir_base m0 e))
  | Kind_File => NFile (parts (ie_addrs e) (pieces e)) (restored_meta e (tm e) (blank 420))
  | Kind_Symlink => NSymlink (default "" (ie_target e)) (link_meta e (blank 511))
  | Kind_Unknown => NOther (blank 0)
  end.

(** Before the deferred work is done *)
Definition made (m0 : Meta) (e : IndexEntry) (n : Node) : Prop :=
  match ie_kind e with
  | Kind_Dir => ∃ m, n = NDir m ∧ agree m (dir_base m0 e)
  | _ => n = restored_node m0 e
  end.

Lemma place_inj fs e e' : restorable fs e → restorable fs e' → place e = place e' → ie_apath e = ie_apath e'.
Proof. intros He He' Hp%app_inv_head. by rewrite (re_apath _ _ He), (re_apath _ _ He'), Hp. Qed.

Lemma block_elsewhere h q : block_path bd h ≠ (dest ++ q)%list.
Proof.
  unfold block_path. destruct Hsep as [Hab Hba]. intros Heq.
  destruct (prefix_weak_total (tr_path (bd_transport bd)) dest (dest ++ q)) as [?|?]; [|by apply prefix_app_r|done..].
  rewrite <-Heq. by apply prefix_app_r.
Qed.

Lemma place_apart e : apart bd (place e).
Proof. intros h. apply block_elsewhere. Qed.

(** The path that the loop computes *)
Lemma relative_run fs e (w : World) : restorable fs e →
  ∃ rel, expect (slice_from 1 (apath_str (ie_apath e))) w = (Ret rel, w) ∧ path_join dest rel = place e.
Proof.
  intros He. pose proof (below_ok (names_of e) dest (re_names _ _ He)) as Hb. rewrite <-(re_apath _ _ He) in Hb.
  unfold Apath.below in Hb. destruct (slice_from 1 (apath_str (ie_apath e))) as [rel|]; [|done].
  exists rel. split; [done|]. by injection Hb.
Qed.

Lemma restored_run e ds (w : World) : Restore.restored options e ds w = (Ret (Ok ds), w).
Proof. unfold Restore.restored. by rewrite Hcb. Qed.

(** ** The steps of the loop *)

Lemma restorable_adds fs fs' e : (∀ h, fs' !! block_path bd h = fs !! block_path bd h) → restorable fs e → restorable fs' e.
Proof.
  intros Hb [Hn Ha Ht Hr Hk]. split; try done. destruct (ie_kind e); try done.
  eapply Forall2_impl; [exact Hk|]. intros x y. unfold part_ok, intact. by rewrite Hb.
Qed.

Definition deferral (e : IndexEntry) : DirDeferral := MkDirDeferral (place e) (ie_unix_mode e) (tm e) (ie_owner e).

Lemma restore_symlink_run path e w :
  fault_free w → is_Some (ie_target e) → (∀ w : World, mtime e w = (Ret (tm e), w)) →
  w_fs w !! path = None → is_dir_node (w_fs w !! parent path) = true →
  ∃ w', Restore.restore_symlink path e w = (Ret (Ok tt), w') ∧ frame w w' ∧
    w_fs w' = <[path := NSymlink (default "" (ie_target e)) (link_meta e (blank 511))]> (w_fs w).
Proof.
  intros Hf [target Ht] Htm Hn Hp. unfold Restore.restore_symlink. cbn [symlink_target IndexEntry_entry]. rewrite Ht.
  assert (sys_symlink target path w
    = (Ret (Ok tt), tick (with_fs (λ _, <[path := NSymlink target (new_meta 511 w)]> (w_fs w)) w))) as Hs.
  { unfold sys_symlink. rewrite sys_write_run by done. unfold fs_create. by rewrite Hn, Hp. }
  rewrite (bind_run _ _ _ _ _ Hs). cbn iota beta. set (w1 := tick _).
  destruct (set_owner_run (ie_owner e) path (NSymlink target (new_meta 511 w)) w1) as (w2 & Hr & Hfr & Hfs2);
    [done|apply lookup_insert_eq|].
  rewrite (bind_run _ _ _ _ _ Hr). cbn iota beta. rewrite (bind_run _ _ _ _ _ (Htm w2)). unfold sys_set_mtime.
  assert (w_fs w2 !! path = Some (with_meta (set_ids (ie_owner e)) (NSymlink target (new_meta 511 w)))) as Hn2
    by (rewrite Hfs2; apply lookup_insert_eq).
  assert (fault_free w2) as Hf2 by (by eapply fault_free_frame).
  erewrite bind_run by (by apply (set_meta_run _ _ _ w2 Hf2 Hn2)). eexists. split; [done|]. split; [by destruct Hfr|].
  cbn. rewrite Hfs2. unfold w1. cbn. by rewrite !insert_insert_eq.
Qed.

(** Restoring one entry into a directory in which there is nothing at its place *)
Lemma restore_entry_run m0 e ds w :
  restorable (w_fs w) e → serving bd w → fs_closed (w_fs w) →
  (names_of e = [] → w_fs w !! dest = Some (NDir m0)) →
  (names_of e ≠ [] → w_fs w !! place e = None ∧ is_dir_node (w_fs w !! parent (place e)) = true) →
  ∃ w' n, Restore.restore_entry dest bd options ds e w
    = (Ret (Ok (if decide (ie_kind e = Kind_Dir) then ds ++ [deferral e] else ds)%list), w') ∧
    w_fs w' = <[place e := n]> (w_fs w) ∧ made m0 e n ∧ (names_of e = [] → n = NDir m0) ∧ serving bd w' ∧
    w_errors w' = w_errors w.
Proof.
  intros He Hs Hc Hroot Hnew. unfold Restore.restore_entry.
  destruct (relative_run _ e w He) as (rel & Hrel & Hj). rewrite (bind_run _ _ _ _ _ Hrel). cbv zeta. rewrite Hj.
  pose proof (re_kind _ _ He) as Hk. unfold made, restored_node. destruct (ie_kind e) eqn:Ek.
  - assert (names_of e ≠ []) as Hne by (intros Hz; apply (re_root _ _ He) in Hz; congruence).
    destruct (Hnew Hne) as [Hn Hd]. erewrite bind_run by apply modify_run. set (w1 := with_counters _ w).
    destruct (restore_file_run bd (place e) e (pieces e) (tm e) w1) as (w2 & Hr & Hs2 & He2 & Hfs2);
      [apply place_apart|exact Hs|exact Hk|exact Hn|exact Hd|apply (re_time _ _ He)|].
    rewrite (bind_run _ _ _ _ _ Hr). rewrite restored_run. eexists w2, _. split; [done|]. split; [exact Hfs2|].
    by split_and!.
  - erewrite bind_run by apply modify_run. set (w1 := with_counters _ w).
    destruct (decide (names_of e = [])) as [Hz|Hne].
    + assert (ie_apath e = Apath.root) as Hroot' by (by rewrite (re_apath _ _ He), Hz).
      rewrite decide_True by done. erewrite bind_run by done. cbn iota beta. rewrite (bind_run _ _ _ _ _ (re_time _ _ He w1)).
      rewrite restored_run. exists w1, (NDir m0). assert (place e = dest) as Hp by (unfold place; by rewrite Hz, app_nil_r).
      split; [done|]. rewrite Hp, insert_id by (by apply Hroot). split; [done|]. split; [|by split].
      exists m0. split; [done|]. unfold dir_base. by rewrite decide_True.
    + rewrite decide_False.
      2: { intros Ha. rewrite (re_apath _ _ He) in Ha. apply (of_names_inj _ []) in Ha; [done|apply (re_names _ _ He)|constructor]. }
      destruct (Hnew Hne) as [Hn Hd].
      assert (place e ≠ []) as Hpn by (unfold place; intros [_ ?]%app_eq_nil; done).
      rewrite (bind_run _ _ _ _ _ (create_dir_all_run (place e) w1 (proj1 Hs) Hc Hn Hd Hpn)). cbn iota beta.
      set (w2 := tick _). rewrite (bind_run _ _ _ _ _ (re_time _ _ He w2)), restored_run. eexists w2, _.
      split; [done|]. split; [done|]. split.
      * eexists. split; [done|]. unfold dir_base. by rewrite decide_False.
      * split; [done|]. split; [|done]. apply (serving_same bd w); try done. intros h. unfold w2. cbn. rewrite lookup_insert_ne; [done|].
        intros Heq. by apply (place_apart e h).
  - assert (names_of e ≠ []) as Hne by (intros Hz; apply (re_root _ _ He) in Hz; congruence).
    destruct (Hnew Hne) as [Hn Hd]. erewrite bind_run by apply modify_run. set (w1 := with_counters _ w).
    destruct (restore_symlink_run (place e) e w1) as (w2 & Hr & Hfr & Hfs2);
      [by destruct Hs|exact Hk|apply (re_time _ _ He)|exact Hn|exact Hd|].
    rewrite (bind_run _ _ _ _ _ Hr). rewrite restored_run. eexists w2, _. split; [done|]. split; [exact Hfs2|].
    split; [done|]. split; [done|]. split; [|by rewrite (frame_errors _ _ Hfr)].
    apply (serving_elsewhere bd (place e) _ w1) in Hfs2; [done|apply place_apart|done|apply Hfr..].
  - done.
Qed.

(** ** The loop *)

Context (all : list IndexEntry) (fs1 : Fs) (m0 : Meta) (errs : list Error).
Context (Hok : ∀ e, e ∈ all → restorable fs1 e) (Hsorted : sorted_entries all)
  (Hparents : ∀ e ps n, e ∈ all → names_of e = (ps ++ [n])%list →
     ps = [] ∨ ∃ d, d ∈ all ∧ names_of d = ps ∧ ie_kind d = Kind_Dir).

(** Some of the entries are in the destination, and nothing else. *)
Record progress (before : list IndexEntry) (ds : list DirDeferral) (w : World) : Prop := {
  pg_serving : serving bd w;
  pg_outside : ∀ p : Path, ¬ dest `prefix_of` p → w_fs w !! p = fs1 !! p;
  pg_closed : fs_closed (w_fs w);
  pg_dest : w_fs w !! dest = Some (NDir m0);
  pg_made : ∀ e, e ∈ before → ∃ n, w_fs w !! place e = Some n ∧ made m0 e n;
  pg_only : ∀ q, q ≠ [] → is_Some (w_fs w !! (dest ++ q)%list) → ∃ e, e ∈ before ∧ names_of e = q;
  pg_deferrals : ds = deferral <$> filter (λ e, ie_kind e = Kind_Dir) before;
  pg_errors : w_errors w = errs
}.

Lemma progress_quiet before ds w w' : progress before ds w → w_fs w' = w_fs w → frame w w' → progress before ds w'.
Proof.
  intros [Hs Ho Hc Hd Hm Hn Hds Her] Hfs Hfr. split; rewrite ?Hfs, ?(frame_errors _ _ Hfr); try done.
  apply (serving_same bd w); [by rewrite Hfs|apply Hfr..|done].
Qed.

Lemma block_not_below h : ¬ dest `prefix_of` block_path bd h.
Proof. intros [q Hq]. by apply (block_elsewhere h q). Qed.

(** The directory of the next entry is there. *)
Lemma parent_there before e rest w :
  all = (before ++ e :: rest)%list → w_fs w !! dest = Some (NDir m0) →
  (∀ e, e ∈ before → ∃ n, w_fs w !! place e = Some n ∧ made m0 e n) → names_of e ≠ [] →
  is_dir_node (w_fs w !! parent (place e)) = true.
Proof.
  intros Hall Hd Hm Hne. assert (e ∈ all) as He by (rewrite Hall; apply elem_of_app; right; by left).
  unfold place, parent. destruct (names_of e) as [|x ps _] eqn:En using rev_ind; [done|].
  rewrite app_assoc, removelast_last.
  destruct (Hparents e ps x He En) as [->|(d & Hda & Hdn & Hdk)]; [by rewrite app_nil_r, Hd|].
  assert (entry_lt d e) as Hlt.
  { unfold entry_lt. rewrite (re_apath _ _ (Hok _ Hda)), (re_apath _ _ (Hok _ He)), Hdn, En.
    apply parent_before; [|done]. rewrite <-En. apply (re_names _ _ (Hok _ He)). }
  assert (d ∈ before) as Hdb.
  { unfold sorted_entries in Hsorted. rewrite Hall in Hda, Hsorted.
    apply elem_of_app in Hda as [?|Hda]; [done|exfalso]. apply StronglySorted_app_1_r in Hsorted.
    apply elem_of_cons in Hda as [->|Hda]; [by apply apath_lt_irrefl in Hlt|].
    apply StronglySorted_inv in Hsorted as [_ Hrest]. rewrite Forall_forall in Hrest. apply Hrest in Hda.
    apply (apath_lt_irrefl (ie_apath d)). by eapply (cmp_lt_trans (cmp:=Apath.cmp)). }
  destruct (Hm d Hdb) as (nd & Hnd & Hmd). unfold place in Hnd. rewrite Hdn in Hnd. rewrite Hnd.
  unfold made in Hmd. rewrite Hdk in Hmd. by destruct Hmd as (m & -> & _).
Qed.

Lemma restore_step before e rest ds w :
  all = (before ++ e :: rest)%list → progress before ds w →
  ∃ ds' w', Restore.restore_entry dest bd options ds e w = (Ret (Ok ds'), w') ∧ progress (before ++ [e]) ds' w'.
Proof.
  intros Hall [Hs Ho Hc Hd Hm Hn Hds Her].
  assert (e ∈ all) as He by (rewrite Hall; apply elem_of_app; right; by left).
  assert (∀ e', e' ∈ before → e' ∈ all ∧ entry_lt e' e) as Hbefore.
  { intros e' Hin. split; [rewrite Hall; apply elem_of_app; by left|].
    unfold sorted_entries in Hsorted. rewrite Hall in Hsorted.
    eapply StronglySorted_app_1_elem_of; [exact Hsorted|exact Hin|by left]. }
  assert (restorable (w_fs w) e) as Hre.
  { eapply restorable_adds; [|by apply Hok]. intros h. apply Ho, block_not_below. }
  assert (names_of e ≠ [] → w_fs w !! place e = None) as Hnone.
  { intros Hne. destruct (w_fs w !! place e) eqn:Ew; [exfalso|done].
    destruct (Hn (names_of e)) as (e' & [Hin Hlt]%Hbefore & Heq); [done|by exists n|].
    apply (apath_lt_irrefl (ie_apath e)). unfold entry_lt in Hlt.
    rewrite (re_apath _ _ (Hok _ Hin)), Heq, <-(re_apath _ _ Hre) in Hlt. done. }
  assert (names_of e ≠ [] → is_dir_node (w_fs w !! parent (place e)) = true) as Hparent.
  { intros Hne. apply (parent_there before e rest w); done. }
  destruct (restore_entry_run m0 e ds w Hre Hs Hc (λ _, Hd)) as (w' & n & Hr & Hfs & Hmade & Hroot & Hs' & Her'); [by auto|].
  eexists _, w'. split; [exact Hr|]. split; [done| | | | | | |by rewrite Her'].
  - intros p Hp. rewrite Hfs, lookup_insert_ne; [by apply Ho|]. intros <-. apply Hp. by apply prefix_app_r.
  - rewrite Hfs. destruct (decide (names_of e = [])) as [Hz|Hne].
    + assert (place e = dest) as -> by (unfold place; by rewrite Hz, app_nil_r).
      rewrite (Hroot Hz), insert_id; done.
    + apply fs_closed_insert; [done|by apply Hnone| |by apply Hparent].
      unfold place. intros [_ ?]%app_eq_nil; done.
  - rewrite Hfs. destruct (decide (names_of e = [])) as [Hz|Hne].
    + assert (place e = dest) as -> by (unfold place; by rewrite Hz, app_nil_r).
      by rewrite (Hroot Hz), lookup_insert_eq.
    + rewrite lookup_insert_ne; [done|]. unfold place. intros Hp. rewrite <-(app_nil_r dest) in Hp at 2.
      by apply app_inv_head in Hp.
  - intros e' [Hin|Hin%list_elem_of_singleton]%elem_of_app; [|subst e'; exists n; by rewrite Hfs, lookup_insert_eq].
    destruct (Hm e' Hin) as (n' & Hn' & Hmn'). exists n'. split; [|done]. rewrite Hfs, lookup_insert_ne; [done|].
    intros Hp. apply Hbefore in Hin as [Hin Hlt]. apply (place_inj fs1) in Hp; [|by apply Hok..].
    unfold entry_lt in Hlt. rewrite Hp in Hlt. by apply apath_lt_irrefl in Hlt.
  - intros q Hq. rewrite Hfs. intros [x [[Hp _]|[_ Hx]]%lookup_insert_Some].
    + exists e. split; [apply elem_of_app; right; by left|]. by apply app_inv_head in Hp.
    + destruct (Hn q Hq) as (e' & Hin & Heq); [by exists x|]. exists e'. split; [apply elem_of_app; by left|done].
  - rewrite filter_app, fmap_app, <-Hds. case_decide as Hk.
    + by rewrite filter_cons_True by done.
    + rewrite filter_cons_False by done. by rewrite app_nil_r.
Qed.

(** ** The deferred work *)

Lemma apply_deferral_run e m w :
  fault_free w → w_fs w !! place e = Some (NDir m) →
  ∃ w', Restore.apply_deferral (deferral e) w = (Ret tt, w') ∧ frame w w' ∧
    w_fs w' = <[place e := NDir (restored_meta e (tm e) m)]> (w_fs w).
Proof.
  intros Hf Hn. unfold Restore.apply_deferral. cbn [dd_owner dd_path dd_unix_mode dd_mtime deferral].
  destruct (set_owner_run (ie_owner e) (place e) _ w Hf Hn) as (w1 & Hr1 & Hfr1 & Hfs1). cbn [with_meta] in Hfs1.
  rewrite (bind_run _ _ _ _ _ Hr1). cbn [Restore.report]. erewrite bind_run by done.
  assert (fault_free w1) as Hf1 by (by eapply fault_free_frame).
  destruct (set_permissions_run (ie_unix_mode e) (place e) (NDir (set_ids (ie_owner e) m)) w1 Hf1) as (w2 & Hr2 & Hfr2 & Hfs2);
    [rewrite Hfs1; apply lookup_insert_eq|]. cbn [with_meta] in Hfs2.
  rewrite (bind_run _ _ _ _ _ Hr2). cbn [Restore.report]. erewrite bind_run by done.
  assert (fault_free w2) as Hf2 by (by eapply fault_free_frame). unfold sys_set_mtime.
  assert (w_fs w2 !! place e = Some (NDir (set_mode (ie_unix_mode e) (set_ids (ie_owner e) m)))) as Hn2
    by (rewrite Hfs2; apply lookup_insert_eq).
  erewrite bind_run by (apply (set_meta_run _ _ _ w2 Hf2 Hn2)).
  eexists. split; [done|]. split; [by destruct Hfr1, Hfr2; split; cbn; congruence|].
  cbn [w_fs tick with_fs]. rewrite Hfs2, Hfs1, !insert_insert_eq. unfold restored_meta, set_ids. cbn.
  by destruct (Owner.ids (ie_owner e)).
Qed.

Lemma apply_deferrals_run dirs w :
  fault_free w → NoDup (place <$> dirs) →
  (∀ e, e ∈ dirs → ∃ m, w_fs w !! place e = Some (NDir m) ∧ agree m (dir_base m0 e)) →
  ∃ w', for_each (deferral <$> dirs) Restore.apply_deferral w = (Ret tt, w') ∧
    (∀ e, e ∈ dirs → w_fs w' !! place e = Some (NDir (restored_meta e (tm e) (dir_base m0 e)))) ∧
    (∀ p, p ∉ place <$> dirs → w_fs w' !! p = w_fs w !! p) ∧ w_errors w' = w_errors w.
Proof.
  revert w. induction dirs as [|e dirs IH]; intros w Hf Hnd Hd; rewrite ?fmap_cons; cbn [for_each].
  { exists w. split; [done|]. split; [|done]. by intros e ?%not_elem_of_nil. }
  rewrite fmap_cons in Hnd. apply NoDup_cons in Hnd as [Hne Hnd].
  destruct (Hd e) as (m & Hm & Hag); [by left|].
  destruct (apply_deferral_run e m w Hf Hm) as (w1 & Hr1 & Hfr1 & Hfs1). rewrite (bind_run _ _ _ _ _ Hr1).
  destruct (IH w1) as (w2 & Hr2 & Hin2 & Hout2 & Her2); [by eapply fault_free_frame|done| |].
  { intros e' He'. rewrite Hfs1, lookup_insert_ne; [apply Hd; by right|].
    intros Heq. apply Hne. rewrite Heq. by apply list_elem_of_fmap_2. }
  exists w2. split; [exact Hr2|]. split; [|split; [|by rewrite Her2, (frame_errors _ _ Hfr1)]].
  - intros e' [->|He']%elem_of_cons; [|by apply Hin2].
    rewrite (Hout2 (place e)), Hfs1, lookup_insert_eq by done. do 2 f_equal. by apply restored_meta_agree.
  - intros p [Hp Hp']%not_elem_of_cons. rewrite Hout2, Hfs1, lookup_insert_ne; done.
Qed.

(** When all has been done *)
Lemma finish_run ds w :
  progress all ds w →
  ∃ w', Restore.apply_deferrals ds w = (Ret (Ok tt), w') ∧
    (∀ e, e ∈ all → w_fs w' !! place e = Some (restored_node m0 e)) ∧
    (∀ q, q ≠ [] → is_Some (w_fs w' !! (dest ++ q)%list) → ∃ e, e ∈ all ∧ names_of e = q) ∧
    (∀ p : Path, ¬ dest `prefix_of` p → w_fs w' !! p = fs1 !! p) ∧ w_errors w' = errs.
Proof.
  intros [Hs Ho Hc Hd Hm Hn -> Her]. unfold Restore.apply_deferrals.
  set (dirs := filter _ all). assert (∀ e, e ∈ dirs ↔ ie_kind e = Kind_Dir ∧ e ∈ all) as Hdirs
    by (intros e; unfold dirs; by rewrite list_elem_of_filter).
  assert (NoDup (place <$> dirs)) as Hnd.
  { assert (StronglySorted entry_lt dirs) as Hsd by (by apply strongly_sorted_filter).
    assert (∀ e, e ∈ dirs → e ∈ all) as Hin by naive_solver. clear -Hsd Hin Hok.
    induction Hsd as [|e l _ IH Hall]; [constructor|]. rewrite fmap_cons. constructor; [|by apply IH; intros ? ?; apply Hin; right].
    intros (e' & Hp & He')%list_elem_of_fmap. rewrite Forall_forall in Hall. pose proof (Hall _ He') as Hlt.
    apply (place_inj fs1) in Hp; [|by apply Hok, Hin; left|by apply Hok, Hin; right].
    unfold entry_lt in Hlt. rewrite Hp in Hlt. by apply apath_lt_irrefl in Hlt. }
  destruct (apply_deferrals_run dirs w (proj1 Hs) Hnd) as (w' & Hr & Hin & Hout & Her').
  { intros e [Hk He]%Hdirs. destruct (Hm e He) as (n & Hp & Hmade). unfold made in Hmade. rewrite Hk in Hmade.
    destruct Hmade as (m & -> & Hag). by exists m. }
  exists w'. split; [by rewrite (bind_run _ _ _ _ _ Hr)|].
  assert (∀ e, e ∈ all → w_fs w' !! place e = Some (restored_node m0 e)) as Hnodes.
  { intros e He. destruct (decide (ie_kind e = Kind_Dir)) as [Hk|Hk].
    - unfold restored_node. rewrite Hk. apply Hin, Hdirs. by split.
    - rewrite Hout; [|intros (e' & Hp & [Hk' He']%Hdirs)%list_elem_of_fmap].
      + destruct (Hm e He) as (n & Hp & Hmade). rewrite Hp. f_equal. unfold made in Hmade. by destruct (ie_kind e).
      + destruct (Hm e He) as (n & Hp1 & H1'), (Hm e' He') as (n' & Hp2 & H2'). rewrite Hp, Hp2 in Hp1.
        injection Hp1 as ->. unfold made in H1', H2'. rewrite Hk' in H2'. destruct H2' as (m & -> & _).
        pose proof (re_kind _ _ (Hok e He)) as Hre. unfold restored_node in H1'. by destruct (ie_kind e). }
  split; [done|]. split; [|split; [|by rewrite Her']].
  - intros q Hq [n Hx]. destruct (decide ((dest ++ q)%list ∈ place <$> dirs)) as [Hpd|Hpd].
    + apply list_elem_of_fmap in Hpd as (e & Hp & [_ He]%Hdirs). exists e. split; [done|]. by apply app_inv_head in Hp.
    + rewrite Hout in Hx by done. apply Hn; [done|by exists n].
  - intros p Hp. rewrite Hout; [by apply Ho|]. intros (e & -> & _)%list_elem_of_fmap. apply Hp. by apply prefix_app_r.
Qed.
End tree.

(** ** The whole restore *)

(** What has been chosen of the entries *)
Definition chosen `{Ext} (options : RestoreOptions) (hs : list (list IndexEntry)) : list IndexEntry :=
  filter (λ e, is_wanted (default Apath.root (ro_only_subtree options)) (ro_exclude options) e = true) (concat hs).

(** There is room for the destination, and nothing in it yet. *)
Record vacant (fs : Fs) (dest : Path) : Prop := {
  va_dir : is_dir_node (fs !! dest) = true ∨ fs !! dest = None ∧ is_dir_node (fs !! parent dest) = true ∧ dest ≠ [];
  va_empty : ∀ q, q ≠ [] → fs !! (dest ++ q)%list = None
}.

(** The metadata of the destination, or what it gets *)
Definition root_meta (fs : Fs) (dest : Path) : Meta :=
  match fs !! dest with Some n => node_meta n | None => blank 493 end.

Lemma restored_node_agree `{Ext} tm pieces m m' e : agree m m' → restored_node tm pieces m e = restored_node tm pieces m' e.
Proof.
  intros Ha. unfold restored_node. destruct (ie_kind e); try done. f_equal. apply restored_meta_agree.
  unfold dir_base. by case_decide.
Qed.

Section whole.
Context `{Ext, !LruLaws, !HashLaws, !HexLaws} `{BuildCfg} `{Codecs}.

(** A finished version that can be restored: it is the one that is chosen, its index is
    in order, each entry can be restored, and comes with its directory. *)
Record version_ok (archive : Archive) (fs : Fs) (options : RestoreOptions) (b : BandId) (hs : list (list IndexEntry))
    (tm : IndexEntry → OffsetDateTime) (pieces : IndexEntry → list string) : Prop := {
  vo_selected : selects archive fs (ro_band_selection options) b;
  vo_stored : stored_band archive fs b hs;
  vo_valid : valid_entries (concat hs);
  vo_entries : ∀ e, e ∈ chosen options hs → restorable (ar_block_dir archive) tm pieces fs e;
  vo_parents : ∀ e ps n, e ∈ chosen options hs → names_of e = (ps ++ [n])%list →
    ps = [] ∨ ∃ d, d ∈ chosen options hs ∧ names_of d = ps ∧ ie_kind d = Kind_Dir
}.

Lemma concat_sorted (hs : list (list IndexEntry)) :
  (∀ i es, hs !! i = Some es → sorted_entries es) →
  (∀ i j es es' e e', i < j → hs !! i = Some es → hs !! j = Some es' → e ∈ es → e' ∈ es' → entry_lt e e') →
  sorted_entries (concat hs).
Proof.
  induction hs as [|es hs IH]; intros Hs Hlt; simpl; [constructor|]. apply StronglySorted_app. split; [|split].
  - intros e e' He (es' & Hes' & He')%list_elem_of_In%in_concat.
    apply list_elem_of_In in He'. apply list_elem_of_In, list_elem_of_lookup_1 in Hes' as [j Hj].
    apply (Hlt 0 (S j) es es' e e'); [lia|done..].
  - by apply (Hs 0).
  - apply IH; [intros i; apply (Hs (S i))|]. intros i j es1 es2 e e' Hij. apply (Hlt (S i) (S j)). lia.
Qed.

Lemma stored_sorted a fs b hs : stored_band a fs b hs → sorted_entries (concat hs).
Proof.
  intros Hsb. pose proof (sb_index _ _ _ _ Hsb) as [_ Hso Hin]. apply concat_sorted.
  - intros i es Hi. destruct (sb_hunks _ _ _ _ Hsb i es Hi) as [Hst _]. by eapply Hso.
  - intros i j es es' e e' Hij Hi Hj. destruct (sb_hunks _ _ _ _ Hsb i es Hi) as [Hst _].
    destruct (sb_hunks _ _ _ _ Hsb j es' Hj) as [Hst' _]. eapply (Hin (N.of_nat i) (N.of_nat j)); [lia|done..].
Qed.

(** Making sure of the destination *)
Lemma ensure_dest_run (dest : Path) w :
  fault_free w → fs_closed (w_fs w) → vacant (w_fs w) dest →
  ∃ w' m, ensure_dir_exists dest w = (Ret (Ok tt), w') ∧ frame w w' ∧ agree m (root_meta (w_fs w) dest) ∧
    w_fs w' = <[dest := NDir m]> (w_fs w) ∧ fs_closed (w_fs w').
Proof.
  intros Hf Hc [Hd He]. unfold ensure_dir_exists, sys_create_dir, root_meta, mbind, ST_bind.
  rewrite sys_write_run by done. unfold fs_create. destruct Hd as [Hd|(Hn & Hp & Hne)].
  - destruct (w_fs w !! dest) as [[|m| |]|] eqn:E; try done. eexists _, m. split; [done|]. split; [done|].
    split; [done|]. cbn. by rewrite insert_id.
  - rewrite Hn, Hp. eexists _, (new_meta 493 w). split; [done|]. split; [done|]. split; [done|]. split; [done|].
    cbn. by apply fs_closed_insert.
Qed.

Lemma may_restore_run (dest : Path) options m w :
  fault_free w → w_fs w !! dest = Some (NDir m) → (∀ q, q ≠ [] → w_fs w !! (dest ++ q)%list = None) →
  ∃ w', (if ro_overwrite options then mret (Ok true) else directory_is_empty dest) w = (Ret (Ok true), w') ∧
    w_fs w' = w_fs w ∧ frame w w'.
Proof.
  intros Hf Hd He. destruct (ro_overwrite options); [by exists w|]. unfold directory_is_empty, sys_read_dir.
  unfold mbind, ST_bind.
  rewrite sys_read_run by done. unfold fs_read_dir. cbv beta. rewrite Hd. exists (tick w). split; [|done].
  destruct (fs_children dest (w_fs w)) as [|[n nd] l] eqn:E; [done|exfalso].
  assert ((n, nd) ∈ fs_children dest (w_fs w)) as Hin by (rewrite E; by left).
  apply elem_of_fs_children in Hin. by rewrite He in Hin.
Qed.

Lemma separate_further (a d e : Path) : a `prefix_of` d → separate a e → separate d e.
Proof.
  intros Ha [Hae Hea]. split; [intros Hd; apply Hae; by etrans|]. intros He.
  by destruct (prefix_weak_total a e d Ha He).
Qed.

(** The loop over the entries of the version *)
Lemma restore_entries_run archive (dest : Path) options b hs tm pieces m0 fs1 st w :
  ro_change_callback options = None → separate (archive_path archive) dest →
  archive_path archive `prefix_of` tr_path (bd_transport (ar_block_dir archive)) →
  version_ok archive fs1 options b hs tm pieces → sto_archive st = archive → b_band_id (sto_band st) = b →
  w_fs w = fs1 → serving (ar_block_dir archive) w → fs_closed fs1 → fs1 !! dest = Some (NDir m0) →
  (∀ q, q ≠ [] → fs1 !! (dest ++ q)%list = None) →
  ∃ ds w', IndexEntryIter.for_entries (Restore.restore_entry dest (ar_block_dir archive) options) []
      (StoredTree.iter_entries st (default Apath.root (ro_only_subtree options)) (ro_exclude options)) w
    = (Ret (Ok ds), w') ∧
    progress (ar_block_dir archive) dest tm pieces fs1 m0 (w_errors w) (chosen options hs) ds w'.
Proof.
  intros Hcb Hsep Hbd [Hsel Hst Hv Hok Hpar] Ha Hb Hw Hs Hc Hd He.
  assert (separate (tr_path (bd_transport (ar_block_dir archive))) dest) as Hsepb by (by eapply separate_further).
  unfold StoredTree.iter_entries, Band.id. rewrite Ha, Hb.
  apply (for_entries_serves (steady archive b fs1) _ _ _
    (progress (ar_block_dir archive) dest tm pieces fs1 m0 (w_errors w)) (chosen options hs)) with (hs := hs).
  - intros before s w1 [Hs1 Ho1 _ _ _ _ _ _]. split; [apply Hs1|].
    apply (same_below_mono (archive_path archive)); [apply band_path_below|]. intros p Hp. apply Ho1. intros Hdp.
    destruct Hsep as [Hsep1 Hsep2]. by destruct (prefix_weak_total _ _ p Hp Hdp).
  - intros before s w1 w2. by apply progress_quiet.
  - intros before e rest s w1 Hall Hp.
    apply (restore_step (ar_block_dir archive) dest options Hcb Hsepb tm pieces (chosen options hs) fs1 m0 (w_errors w)) with (rest := rest);
      try done. apply strongly_sorted_filter. by eapply stored_sorted.
  - by apply stored_band_serves.
  - done.
  - cbn. unfold Stitch.bound, Stitch.bound_at. cbn.
    destruct (hunks_available_run archive b hs (IndexRead.open (index_transport archive b)) w) as (w' & Hr & _);
      [apply Hs|by rewrite Hw|done|].
    apply hunks_available_length in Hr. unfold numbers in Hr. rewrite length_fmap, length_seq in Hr. lia.
  - done.
  - split; rewrite ?Hw; try done.
    + by intros e ?%not_elem_of_nil.
    + intros q Hq [n Hn]. by rewrite He in Hn.
Qed.

(** Other files do not matter to the version. *)
Lemma version_ok_same archive fs fs' options b hs tm pieces :
  same_below (archive_path archive) fs fs' →
  archive_path archive `prefix_of` tr_path (bd_transport (ar_block_dir archive)) →
  version_ok archive fs options b hs tm pieces → version_ok archive fs' options b hs tm pieces.
Proof.
  intros Hs Hbd [Hsel Hst Hv Hok Hpar].
  assert (∀ c, listed archive fs' c ↔ listed archive fs c) as Hl.
  { intros c. unfold listed. split; intros (name & m & Hn & ?); exists name, m;
      [rewrite (same_at _ _ _ _ _ Hs) in Hn by done|rewrite (same_at _ _ _ _ _ Hs) by done]; done. }
  split; [|by eapply stored_band_same; [eapply same_below_mono; [apply band_path_below|exact Hs]|]|done| |done].
  - unfold selects, newest in *. destruct (ro_band_selection options); [| |done];
      rewrite (Hs (archive_path archive)) by done; rewrite Hl; setoid_rewrite Hl; done.
  - intros e He. eapply restorable_adds; [|by apply Hok]. intros h. apply Hs. unfold block_path.
    etrans; [exact Hbd|]. by apply prefix_app_r.
Qed.

Lemma restore_run (archive : Archive) (dest : Path) (options : RestoreOptions) (b : BandId)
    (hs : list (list IndexEntry)) (tm : IndexEntry → OffsetDateTime) (pieces : IndexEntry → list string) (w : World)
    (Hcb : ro_change_callback options = None) (Hsep : separate (archive_path archive) dest)
    (Hbd : archive_path archive `prefix_of` tr_path (bd_transport (ar_block_dir archive)))
    (Hs : serving (ar_block_dir archive) w) (Hc : fs_closed (w_fs w)) (Hd : vacant (w_fs w) dest)
    (Hv : version_ok archive (w_fs w) options b hs tm pieces) :
  ∃ w', Restore.restore archive dest options w = (Ret (Ok tt), w') ∧
    (∀ e, e ∈ chosen options hs →
       w_fs w' !! (dest ++ names_of e)%list = Some (restored_node tm pieces (root_meta (w_fs w) dest) e)) ∧
    (∀ q, q ≠ [] → is_Some (w_fs w' !! (dest ++ q)%list) → ∃ e, e ∈ chosen options hs ∧ names_of e = q) ∧
    (∀ p : Path, ¬ dest `prefix_of` p → w_fs w' !! p = w_fs w !! p) ∧ w_errors w' = w_errors w.
Proof.
  destruct (open_stored_run archive b hs (ro_band_selection options) w (proj1 Hs) (vo_stored _ _ _ _ _ _ _ Hv)
    (vo_selected _ _ _ _ _ _ _ Hv)) as (band & w1 & Hr1 & Hb & Hfs1 & Hfr1).
  assert (serving (ar_block_dir archive) w1) as Hs1.
  { apply (serving_same _ w); [by rewrite Hfs1|apply Hfr1..|done]. }
  destruct (ensure_dest_run dest w1 (proj1 Hs1)) as (w2 & m0 & Hr2 & Hfr2 & Hag & Hfs2 & Hc2); [by rewrite Hfs1..|].
  rewrite Hfs1 in Hag, Hfs2.
  assert (separate (tr_path (bd_transport (ar_block_dir archive))) dest) as Hsepb by (by eapply separate_further).
  assert (∀ p : Path, ¬ dest `prefix_of` p → w_fs w2 !! p = w_fs w !! p) as Hout.
  { intros p Hp. rewrite Hfs2, lookup_insert_ne; [done|]. intros ->. by apply Hp. }
  assert (serving (ar_block_dir archive) w2) as Hs2.
  { apply (serving_same _ w1); [|apply Hfr2..|done]. intros h. rewrite Hfs1. apply Hout. by apply block_not_below. }
  assert (w_fs w2 !! dest = Some (NDir m0)) as Hd2 by (rewrite Hfs2; apply lookup_insert_eq).
  assert (∀ q, q ≠ [] → w_fs w2 !! (dest ++ q)%list = None) as He2.
  { intros q Hq. rewrite Hfs2, lookup_insert_ne; [by apply Hd|]. intros Heq. rewrite <-(app_nil_r dest) in Heq at 1.
    by apply app_inv_head in Heq. }
  destruct (may_restore_run dest options m0 w2 (proj1 Hs2) Hd2 He2) as (w3 & Hr3 & Hfs3 & Hfr3).
  assert (version_ok archive (w_fs w2) options b hs tm pieces) as Hv2.
  { eapply version_ok_same; [|done|exact Hv]. intros p Hp. apply Hout. intros Hdp.
    destruct Hsep as [Hsep1 Hsep2]. by destruct (prefix_weak_total _ _ p Hp Hdp). }
  destruct (restore_entries_run archive dest options b hs tm pieces m0 (w_fs w2) (MkStoredTree band archive (ar_block_dir archive)) w3)
    as (ds & w4 & Hr4 & Hp4); try done.
  { apply (serving_same _ w2); [by rewrite Hfs3|apply Hfr3..|done]. }
  destruct (finish_run (ar_block_dir archive) dest tm pieces (chosen options hs) (w_fs w2) m0 (w_errors w3)) with (ds := ds) (w := w4)
    as (w5 & Hr5 & Hin & Honly & Hout5 & Her5); [apply (vo_entries _ _ _ _ _ _ _ Hv2)| |done|].
  { apply strongly_sorted_filter. by eapply stored_sorted, (vo_stored _ _ _ _ _ _ _ Hv). }
  exists w5. split; [|split; [|split; [done|split]]].
  - unfold Restore.restore. rewrite (try_run _ _ _ _ _ Hr1). rewrite (bind_run _ _ _ _ _ Hr2). cbn iota beta.
    rewrite (bind_run _ _ _ _ _ Hr3). cbn iota beta zeta. by rewrite (try_run _ _ _ _ _ Hr4).
  - intros e He. rewrite <-(restored_node_agree _ _ m0) by done. by apply Hin.
  - intros p Hp. by rewrite Hout5, Hout.
  - by rewrite Her5, (frame_errors _ _ Hfr3), (frame_errors _ _ Hfr2), (frame_errors _ _ Hfr1).
Qed.

End whole.

(** ** Examples *)

#[local] Existing Instances sample_ext sample_build sample_hash_laws sample_hex_laws sample_snap_laws sample_lru_laws sample_codecs.

(** Every path of the list comes with the directories above it. *)
Definition closed_list (files : list (Path * Node)) : bool :=
  let fs : Fs := list_to_map files in
  forallb (λ k : Path * Node, forallb (λ n, is_dir_node (fs !! take n k.1)) (seq 0 (length k.1))) files.

Lemma closed_files files : closed_list files = true → fs_closed (list_to_map files).
Proof.
  unfold closed_list. rewrite forallb_forall. intros Hall p q Hq [n Hn]. apply elem_of_list_to_map_2 in Hn.
  apply list_elem_of_In, Hall in Hn. cbn [fst] in Hn. rewrite forallb_forall in Hn.
  specialize (Hn (length p)). rewrite take_app_length in Hn. apply Hn, in_seq. rewrite length_app.
  destruct q; [done|]. simpl. lia.
Qed.

Definition sample_options : RestoreOptions := MkRestoreOptions _ Exclude.nothing None false (Specified (MkBandId 0)) None.

Lemma sample_hunk_zero b n nd : sample_stitch_fs !! hunk_path (index_transport sample_archive b) n = Some nd → n = 0%N.
Proof.
  unfold hunk_path. rewrite sample_index_path. intros Hp%sample_stitch_in. unfold sample_stitch_files in Hp.
  change (?p ++ hunk_names n)%list
    with ["a"; BandId.to_string b; "i"; pad_decimal 5 (n / HUNKS_PER_SUBDIR); pad_decimal 9 n] in Hp.
  repeat (apply elem_of_cons in Hp as [Hp|Hp]); [..|by apply not_elem_of_nil in Hp];
    apply pair_equal_spec in Hp as [Hp _]; try discriminate; injection Hp as _ _ Hn; by apply (pad_decimal_inj 9 n 0).
Qed.

Lemma sample_stored_band : stored_band sample_archive sample_stitch_fs (MkBandId 0) [sample_old].
Proof.
  split.
  - eexists _, _, (MkHead 5 None []). split; [vm_compute; reflexivity|]. split; [vm_compute; reflexivity|done].
  - eexists _, _. vm_compute. reflexivity.
  - rewrite sample_index_path. eexists. vm_compute. reflexivity.
  - intros d m Hd. rewrite sample_index_path in Hd. apply sample_stitch_in in Hd. unfold sample_stitch_files in Hd.
    repeat (apply elem_of_cons in Hd as [Hd|Hd]); [..|by apply not_elem_of_nil in Hd];
      injection Hd as Hd; try discriminate; by simplify_eq.
  - apply sample_indexes_ok.
  - intros [|n] es Hes; [|by destruct n]. injection Hes as <-. split; [|split; [done|split]].
    + unfold stored_hunk, hunk_path. rewrite sample_index_path. eexists _, _, _.
      split; [vm_compute; reflexivity|]. split; [reflexivity|]. vm_compute. reflexivity.
    + rewrite sample_index_path. eexists. vm_compute. reflexivity.
    + unfold hunk_subdir. rewrite sample_index_path. eexists. vm_compute. reflexivity.
  - intros n c m Hn%sample_hunk_zero. subst n. simpl. lia.
  - by repeat constructor.
Qed.

Lemma sample_version_ok :
  version_ok sample_archive sample_stitch_fs sample_options (MkBandId 0) [sample_old] (λ _, MkTime 10 0) (λ _, []).
Proof.
  assert (chosen sample_options [sample_old] = sample_old) as Hch by (vm_compute; reflexivity).
  split; [done|apply sample_stored_band|by repeat constructor|rewrite Hch..].
  - intros e [->|[->|[]%not_elem_of_nil]%elem_of_cons]%elem_of_cons; (split; [by repeat constructor|by vm_compute|done|done|constructor]).
  - intros e ps n He Hn. left. assert (length (names_of e) = 1) as Hl.
    { unfold sample_old in He. apply elem_of_cons in He as [->|He]; [done|by apply list_elem_of_singleton in He as ->]. }
    rewrite Hn, length_app in Hl. destruct ps; [done|simpl in Hl; lia].
Qed.

