(* ===== verification/BackupWhole.v ===== *)
(** * A whole backup: what it leaves

    [backup] of src/backup.rs as a whole, when nothing fails: it succeeds, and the new
    version is a finished band with exactly one entry for each entry of the source, with
    the metadata and the content of that entry -- whether the content was stored anew,
    combined with that of other files, or found in the blocks of the version before. *)

From Stdlib Require Import Ascii.
From S2P Require Import Prelude Text Apath Externals Sample Ids Entry Counters Errors World Transport Excludes Jsonio SampleWorld.
From S2P Require Import BlockDir BlockStore Index Archive Footprint Stitch LiveTree LiveOrder LiveWhole Backup BackupRun Combine.
From S2P Require Import Restore HunkIndex StoredBand BandWriter BackupTree RestoreTree.
From stdpp Require Import list gmap strings sorting.

(** ** The version before *)

Section basis.
Context `{Ext, !LruLaws, !HashLaws, !HexLaws, !SnapLaws} `{BuildCfg} `{Codecs, !CodecLaws, !CodecTotal} `{!CacheDir, !CacheDirLaws}.
Context (a : Archive) (src : Path) (options : BackupOptions) (fs0 : Fs) (D : string → Prop).
Context (last : option BandId) (hs0 : list (list IndexEntry)).

#[local] Abbreviation b := (next_band last).

(** There is no version yet, or the newest one is finished and has these hunks. *)
Definition base : Prop :=
  match last with
  | None => hs0 = [] ∧ ∀ x, ¬ listed a fs0 x
  | Some x => newest a fs0 x ∧ (band_num x < u32_max)%N ∧ stored_band a fs0 x hs0
  end.

(** Its entries can be trusted for the entries of the source. *)
Definition base_trusted : Prop :=
  ∀ v e, in_tree src options fs0 v → e ∈ concat hs0 → ie_apath e = ev_apath v → trusted a src fs0 fs0 v e.

Definition undisturbed (w : World) : Prop :=
  fault_free w ∧ match last with None => True | Some x => same_below (band_path a x) fs0 (w_fs w) end.

(** The iterator over the basis, in the middle of the backup *)
Record based (it : IndexEntryIter IterStitchedIndexHunks) (w : World) : Prop := {
  bs_undisturbed : undisturbed w;
  bs_adds : only_adds fs0 (w_fs w);
  bs_left : ∃ es, leaves undisturbed it es ∧ es ⊆ concat hs0
}.

Lemma undisturbed_quiet w w' : undisturbed w → quiet w w' → undisturbed w'.
Proof. intros [Hf Hs] Hq. split; [by eapply quiet_free|]. destruct Hq as [-> _]. done. Qed.

Lemma trusted_adds fs fs' v e : only_adds fs fs' → trusted a src fs0 fs v e → trusted a src fs0 fs' v e.
Proof.
  intros Ha [Hp Hr Hs]. split; [done|done|]. intros t s Hrd Hk Ht Hn. destruct (Hs t s Hrd Hk Ht Hn) as (ds & Hds & Hc).
  exists ds. split; [|done]. eapply Forall2_impl; [exact Hds|]. intros x y. by apply part_ok_adds.
Qed.

(** The directories of two bands *)
Lemma bands_apart x y : x ≠ y → separate (band_path a x) (band_path a y).
Proof.
  intros Hne. unfold band_path. split; intros [q Hq]; rewrite <-app_assoc in Hq; apply app_inv_head in Hq;
    injection Hq as Hq _; apply pad_decimal_inj in Hq; destruct x, y; simpl in Hq; congruence.
Qed.

Lemma band_blocks x : tr_path (bd_transport (ar_block_dir a)) = (archive_path a ++ [BLOCK_DIR])%list →
  separate (band_path a x) (tr_path (bd_transport (ar_block_dir a))).
Proof.
  intros ->. unfold band_path. split; intros [q Hq]; rewrite <-app_assoc in Hq; apply app_inv_head in Hq;
    injection Hq as Hq _; unfold BandId.to_string in Hq; discriminate Hq.
Qed.

Lemma next_band_ne x : x ≠ next_band (Some x).
Proof. intros Heq. apply (f_equal band_num) in Heq. simpl in Heq. lia. Qed.

Context (Hplaced : placed a src fs0) (Htrust : base_trusted).

#[export] Instance based_trusted : TrustedBasis a b src options fs0 based.
Proof.
  split.
  - intros it w v [Hu Ha (es & Hl & Hes)] Hv.
    destruct (advance_to_serves undisturbed undisturbed_quiet it es (ev_apath v) w Hl Hu) as (r & it' & w' & es' & Hr & Hq & Hl' & Hes' & Hin).
    exists r, it', w'. split; [done|]. split; [done|]. split.
    + split; [by eapply undisturbed_quiet| |exists es'; split; [done|by etrans]]. by destruct Hq as [-> _].
    + intros e ->. destruct (Hin e eq_refl) as [He Hp]. apply (trusted_adds fs0); [done|]. apply Htrust; [done|by apply Hes|done].
  - intros it w w' [[Hf Hs] Ha Hl] Hf' Ha' Ho. split; [|by etrans|done]. split; [done|].
    destruct last as [x|] eqn:El; [|done]. intros p Hp. rewrite Ho; [by apply Hs|]. intros [Hx|Hx].
    + eapply (separate_not _ _ p (band_blocks x (pl_blocks _ _ _ Hplaced))); [exact Hp|exact Hx].
    + eapply (separate_not _ _ p (bands_apart x (next_band (Some x)) (next_band_ne x))); [exact Hp|exact Hx].
Qed.

(** ** The beginning and the end *)

(** What an archive has to be for a backup into it *)
Record ready_archive (w : World) : Prop := {
  rd_sound : sound D (ar_block_dir a) w;
  rd_dir : is_dir_node (w_fs w !! archive_path a) = true;
  rd_unlocked : w_fs w !! lock_path a = None;
  rd_free : w_fs w !! band_path a b = None;
  rd_version : ∀ now, accepted (MkHead now (Some "0.6.3") []);
  rd_reads : ∀ t, w_short w t = None
}.

Lemma is_locked_run w : ready_archive w →
  ∃ w', GarbageCollectionLock.is_locked a w = (Ret (Ok false), w') ∧ quiet w w'.
Proof.
  intros [[[Hf _] Hcl _ _ _] Hd Hl _ _ _]. assert (valid_names [GC_LOCK]) as Hv by (by repeat constructor).
  destruct (is_file_run (ar_transport a) GC_LOCK w (names_plain _ Hv) Hf) as (w' & Hr & Hq).
  rewrite (path_join_names _ _ Hv) in Hr. change (tr_path _ ++ _)%list with (lock_path a) in Hr. rewrite Hl in Hr.
  rewrite decide_True in Hr.
  - exists w'. unfold GarbageCollectionLock.is_locked. by rewrite (bind_run _ _ _ _ _ Hr).
  - apply (absent_below _ (archive_path a) [GC_LOCK]); [|done|].
    + intros p q Hne Hx. right. by apply (Hcl p q).
    + intros k Hk. simpl in Hk. replace k with 0 by lia. rewrite app_nil_r. by right.
Qed.

Hypothesis Hbase : base.

Lemma new_leaves : ∃ es, leaves undisturbed (IndexEntryIter.new
  (match last with Some x => Stitch.new a x | None => Stitch.empty a end) Apath.root Exclude.nothing) es ∧ es ⊆ concat hs0.
Proof.
  exists (concat hs0). split; [|done]. exists hs0. split; [|done]. unfold base, undisturbed in *. cbn.
  destruct last as [x|].
  - by apply (stored_band_serves a x fs0), Hbase.
  - destruct Hbase as [-> _]. intros w _. by exists None, (Stitch.empty a), w.
Qed.

Lemma base_latest : latest a fs0 last.
Proof. unfold base, latest in *. destruct last; by destruct_and?. Qed.

(** The writer at the beginning *)
Lemma begin_run w : w_fs w = fs0 → ready_archive w →
  ∃ bw w', BackupWriter.begin a options w = (Ret (Ok bw), w') ∧ saving a b src options fs0 D (w_errors w) based [] [] bw w'.
Proof.
  intros Hfs0 Hrd. pose proof Hrd as [Hsd Hdir _ Hnone Hacc Hshort]. pose proof Hsd as [[Hf _] Hcl _ _ _].
  destruct (is_locked_run w Hrd) as (w1 & Hr1 & [Hfs1 Hfr1]).
  destruct (latest_run a last w1) as (w2 & Hr2 & [Hfs2 Hfr2]); [by eapply fault_free_frame|by rewrite Hfs1|rewrite Hfs1, Hfs0; apply base_latest|].
  assert (quiet w w2) as Hq by (split; [congruence|by etrans]). pose proof (quiet_free _ _ Hq Hf) as Hf2. destruct Hq as [Hfs Hfr].
  destruct (band_create_run a last w2 Hf2) as (head & w3 & Hr3 & Hfr3 & Hbg & Hw & Hb & Ha & Hcl3); rewrite ?Hfs;
    [done|done|rewrite Hfs0; apply base_latest|done|done|].
  rewrite Hfs, ?Hfs0 in *. eexists _, w3. split.
  { unfold BackupWriter.begin. rewrite (try_run _ _ _ _ _ Hr1). cbn iota. rewrite (try_run _ _ _ _ _ Hr2). cbv zeta.
    rewrite (try_run _ _ _ _ _ Hr3). done. }
  assert (sound D (ar_block_dir a) w3) as Hsd3.
  { eapply (sound_same D _ w); [|by etrans|done|done]. eapply only_below_separate; [|rewrite Hfs0; exact Hb].
    destruct (band_blocks b (pl_blocks _ _ _ Hplaced)). by split. }
  pose proof Hsd3 as [[Hf3 _] _ _ _ _]. split; cbn; try done.
  - by eexists.
  - exists []. split; [exact Hw|constructor].
  - by exists [], [], [].
  - constructor.
  - eapply (at_rest_below _ _ _ w); [by apply (source_band a b src fs0)|by rewrite Hfs0|done|]. split; [done|by rewrite Hfs0].
  - intros t. by rewrite (frame_short _ _ Hfr3), (frame_short _ _ Hfr).
  - split; [split; [done|]|done|apply new_leaves].
    destruct last as [x|] eqn:El; [|done]. eapply only_below_separate; [|exact Hb].
    apply bands_apart, next_band_ne.
  - by apply part_band.
  - by rewrite (frame_errors _ _ Hfr3), (frame_errors _ _ Hfr).
Qed.

#[local] Abbreviation Saving errs := (saving a b src options fs0 D errs based).
#[local] Abbreviation Holds := (holds a src options fs0).

Lemma holds_concat fs hs groups : Forall2 (Holds fs) hs groups → Holds fs (concat hs) (concat groups).
Proof.
  induction 1 as [|es g hs groups (its & Hes & Hp) _ (its' & Hes' & Hp')]; [by exists []|].
  exists (its ++ its')%list. split; [by apply Forall2_app|]. simpl. rewrite fmap_app. by rewrite Hp, Hp'.
Qed.

(** Entries in their order are those of the values in theirs. *)
Lemma holds_in_order fs es g : Holds fs es g → sorted_entries es → StronglySorted value_lt g →
  Forall2 (λ e v, finished_as (ar_block_dir a) fs e (item src options fs0 v)) es g.
Proof.
  intros (its & Hes & Hp) Hs Hg. apply Forall2_fmap_r with (f := item src options fs0) (P := finished_as (ar_block_dir a) fs).
  assert (its = item src options fs0 <$> g) as <-; [|done].
  assert (StronglySorted item_lt its) as Hits.
  { clear Hp. induction Hes as [|e it es its [He _] Hes IH]; [constructor|]. apply StronglySorted_inv in Hs as [Hs Hx].
    constructor; [by apply IH|]. apply Forall_forall. intros it' [i Hi]%list_elem_of_lookup.
    destruct (Forall2_lookup_r _ _ _ _ _ Hes Hi) as (e' & He' & [Hf _]). rewrite Forall_forall in Hx.
    apply list_elem_of_lookup_2, Hx in He'. unfold item_lt, entry_lt in *. rewrite He, Hf in He'. exact He'. }
  apply (StronglySorted_unique_strong item_lt); [|done|by apply item_sorted|done].
  intros x y _ _ Hxy Hyx. exfalso. apply (apath_lt_irrefl (ie_apath x.1)). by eapply (cmp_lt_trans (cmp := Apath.cmp)).
Qed.

Context (Htree : storable_tree src options fs0 D).

(** The end *)
Lemma writer_finish_run errs groups bw w : Saving errs groups [] bw w →
  ∃ hs w', BackupWriter.finish bw w = (Ret (Ok (bw_stats bw)), w') ∧ stored_band a (w_fs w') b hs ∧
    Forall2 (λ e v, finished_as (ar_block_dir a) (w_fs w') e (item src options fs0 v)) (concat hs) (concat groups) ∧
    sound D (ar_block_dir a) w' ∧ only_in (written_part a b) fs0 (w_fs w') ∧ (∀ t, w_short w' t = None) ∧ w_errors w' = errs.
Proof.
  intros Hs. destruct (sv_hunks _ _ _ _ _ _ _ _ _ _ _ _ Hs) as (hs & Hw & Hh).
  pose proof (filing_nil _ _ _ _ _ _ _ _ (sv_files _ _ _ _ _ _ _ _ _ _ _ _ Hs)) as Hnil.
  pose proof (filing_sound _ _ _ _ _ _ _ _ _ (sv_files _ _ _ _ _ _ _ _ _ _ _ _ Hs)) as Hsd.
  destruct (sv_band _ _ _ _ _ _ _ _ _ _ _ _ Hs) as [head Hb]. pose proof (sv_order _ _ _ _ _ _ _ _ _ _ _ _ Hs) as Hso.
  pose proof (sv_tree _ _ _ _ _ _ _ _ _ _ _ _ Hs) as Ht. rewrite app_nil_r in Hso, Ht. pose proof Hsd as [[Hf _] Hcl _ _ _].
  assert (length hs ≤ N.to_nat u32_max) as Hmax.
  { rewrite (Forall2_length _ _ _ Hh). pose proof (tree_number _ _ _ _ Hplaced _ Ht Hso).
    pose proof (length_groups _ (sv_groups _ _ _ _ _ _ _ _ _ _ _ _ Hs)). pose proof (st_number _ _ _ _ Htree). lia. }
  destruct (band_close_run a b head hs (N.of_nat (length hs)) w Hf Hcl (sv_begun _ _ _ _ _ _ _ _ _ _ _ _ Hs) (wi_written _ _ _ _ Hw) Hmax)
    as (w' & Hr & Hfr & Hst & Hat & Ha & Hcl').
  exists hs, w'. split.
  { assert (IndexWriter.finish (bw_index_builder bw) w = (Ret (Ok (N.of_nat (length hs))), w)) as Hfin.
    { unfold IndexWriter.finish, IndexWriter.finish_hunk. rewrite Hnil, <-(wi_count _ _ _ _ Hw). done. }
    unfold BackupWriter.finish. rewrite (try_run _ _ _ _ _ Hfin), Hb. by rewrite (try_run _ _ _ _ _ Hr). }
  assert (only_below (band_path a b) (w_fs w) (w_fs w')) as Hb'.
  { intros p Hp. apply Hat. intros ->. apply Hp. rewrite tail_path_in. by apply prefix_app_r. }
  split; [done|]. split; [|split; [|split; [|split]]].
  - apply holds_in_order; [|by eapply (wr_sorted _ _ hs), Hw|done]. eapply holds_adds; [exact Ha|]. by apply holds_concat.
  - by eapply (sound_band a b src fs0).
  - etrans; [by apply Hs|by apply part_band].
  - intros t. rewrite (frame_short _ _ Hfr). by apply Hs.
  - rewrite (frame_errors _ _ Hfr). by apply Hs.
Qed.

(** The new version is the newest. *)
Lemma new_newest fs hs : fs_closed fs → only_in (written_part a b) fs0 fs → stored_band a fs b hs → newest a fs b.
Proof.
  intros Hcl Ho Hst. assert (BandId.fits b) as Hfits.
  { unfold base in Hbase. unfold next_band, BandId.fits, u32_max in *. destruct last as [x|]; simpl; [|lia]. destruct Hbase as (_ & Hx & _). lia. }
  split.
  - destruct (sb_root _ _ _ _ Hst) as [m Hm]. rewrite index_path_in in Hm.
    assert (is_dir_node (fs !! band_path a b) = true) as Hd by (apply (Hcl _ [INDEX_DIR]); [done|by eexists]).
    destruct (fs !! band_path a b) as [[|m'| |]|] eqn:E; try done. exists (BandId.to_string b), m'.
    split; [done|]. split; [|by apply bandid_from_to_string]. exact (pad_decimal_utf8 4 _).
  - intros c (name & m & Hn & Hu & Hc). destruct (decide (name = BandId.to_string b)) as [->|Hne].
    { rewrite bandid_from_to_string in Hc by done. by injection Hc as <-. }
    assert (listed a fs0 c) as Hl.
    { exists name, m. split; [|done]. rewrite <-Ho; [done|]. unfold written_part. rewrite (pl_blocks _ _ _ Hplaced). unfold band_path.
      intros [[q Hq]|[q Hq]]; rewrite <-app_assoc in Hq; apply app_inv_head in Hq; injection Hq as Hq _; subst name; [|done].
      discriminate Hc. }
    unfold base, next_band in *. destruct last as [x|].
    + destruct Hbase as ([_ Hx] & _). simpl. specialize (Hx c Hl). lia.
    + destruct Hbase as [_ Hx]. by apply Hx in Hl.
Qed.

(** ** The whole backup *)

Lemma callback_reads R `{!PreOrder R} cb : bo_change_callback options = Some cb → ∀ c, respects (fs_rel R) (cb c).
Proof. intros Hcb c w. destruct (st_callback _ _ _ _ Htree cb c w Hcb) as (w' & -> & [Hfs _]). unfold fs_rel. simpl. by rewrite Hfs. Qed.

Lemma backup_run w : w_fs w = fs0 → ready_archive w → bo_max_entries_per_hunk options ≠ 0 →
  ∃ stats w' hs vs, backup a src options w = (Ret (Ok stats), w') ∧ stored_band a (w_fs w') b hs ∧
    Forall2 (λ e v, finished_as (ar_block_dir a) (w_fs w') e (item src options fs0 v)) (concat hs) vs ∧
    StronglySorted value_lt vs ∧ (∀ v, v ∈ vs ↔ in_tree src options fs0 v) ∧ newest a (w_fs w') b ∧ sound D (ar_block_dir a) w' ∧
    only_adds fs0 (w_fs w') ∧ only_in (written_part a b) fs0 (w_fs w') ∧ (∀ t, w_short w' t = None) ∧ w_errors w' = w_errors w.
Proof.
  intros Hfs0 Hrd Hmax.
  pose proof (backup_respects (λ _, True) options (callback_reads _) a src w) as Hadds.
  destruct (begin_run w Hfs0 Hrd) as (bw & w1 & Hr1 & Hs1).
  destruct (pl_source _ _ _ Hplaced) as [m Hm].
  destruct (new_pending src fs0 (bo_exclude options) m w1 (sv_rest _ _ _ _ _ _ _ _ _ _ _ _ Hs1) Hm)
    as (it & w2 & Hr2 & Hq2 & Hwk & How & Hp).
  apply (saving_quiet _ _ _ _ _ _ _ _ _ _ _ _ _ Hq2) in Hs1.
  destruct (backup_loop_run a b src options fs0 D Htree Hplaced (w_errors w) based (LiveIter.entries_bound it w2) [] [] bw 0 it None w2)
    as (groups & bw' & w3 & Hr3 & Hs3 & Hin); try done.
  { intros v p Hv. by apply not_elem_of_nil in Hv. }
  { intros v. apply Hp. }
  destruct (writer_finish_run _ groups bw' w3 Hs3) as (hs & w4 & Hr4 & Hst & Hes & Hsd & Hpt & Hsh & Herr).
  pose proof (sv_order _ _ _ _ _ _ _ _ _ _ _ _ Hs3) as Hso. rewrite app_nil_r in Hso.
  assert (∃ stats, backup a src options w = (Ret (Ok stats), w4)) as [stats Hr].
  { eexists. unfold backup. rewrite (try_run _ _ _ _ _ Hr1). cbv zeta. unfold live_iter_entries. cbn [lt_path LiveTree.open].
    rewrite (try_run _ _ _ _ _ Hr2). destruct (Nat.eqb_spec (bo_max_entries_per_hunk options) 0) as [|_]; [done|].
    erewrite bind_run by done. erewrite bind_run by done. rewrite (try_run _ _ _ _ _ Hr3). cbn [fst snd].
    by rewrite (try_run _ _ _ _ _ Hr4). }
  rewrite Hr in Hadds. unfold fs_rel in Hadds. rewrite Hfs0 in Hadds. exists stats, w4, hs, (concat groups). split; [done|]. split; [done|]. split; [done|].
  split; [done|]. split; [|split; [by eapply new_newest; [apply Hsd|..]|by split_and!]].
  - intros v. rewrite Hin, Hp. unfold in_tree. split; [|by right]. by intros [[]%not_elem_of_nil|].
Qed.
End basis.

(** C4: a backup is complete and exact. Without failures and short reads, on an archive
    that has no version yet, or whose newest version is finished and can be trusted where
    size and time have not changed, it succeeds. The new band is finished and the newest;
    its entries are, in order, one for each entry of the source that is not excluded,
    with the metadata of that entry, and the addresses of intact blocks that hold exactly
    its content. All that was there before is still there, nothing but blocks and the files
    of the band is new, and the monitor is told of no errors. *)
Theorem backup_exact `{Ext, !LruLaws, !HashLaws, !HexLaws, !SnapLaws} `{BuildCfg} `{Codecs, !CodecLaws, !CodecTotal}
    `{!CacheDir, !CacheDirLaws} (a : Archive) (src : Path) (options : BackupOptions) (D : string → Prop)
    (last : option BandId) (hs0 : list (list IndexEntry)) (w : World)
    (Hready : ready_archive a D last w) (Hplaced : placed a src (w_fs w)) (Htree : storable_tree src options (w_fs w) D)
    (Hbase : base a (w_fs w) last hs0) (Htrust : base_trusted a src options (w_fs w) hs0)
    (Hmax : bo_max_entries_per_hunk options ≠ 0) :
  ∃ stats w' hs vs, backup a src options w = (Ret (Ok stats), w') ∧ stored_band a (w_fs w') (next_band last) hs ∧
    Forall2 (λ e v, finished_as (ar_block_dir a) (w_fs w') e (item src options (w_fs w) v)) (concat hs) vs ∧
    StronglySorted value_lt vs ∧ (∀ v, v ∈ vs ↔ ∃ q, entry_at src (w_fs w) (bo_exclude options) q v) ∧
    newest a (w_fs w') (next_band last) ∧ sound D (ar_block_dir a) w' ∧
    only_adds (w_fs w) (w_fs w') ∧ only_in (written_part a (next_band last)) (w_fs w) (w_fs w') ∧ w_errors w' = w_errors w.
Proof.
  destruct (backup_run a src options (w_fs w) D last hs0 Hplaced Htrust Hbase Htree w eq_refl Hready Hmax)
    as (stats & w' & hs & vs & Hr & Hst & Hvs & Hso & Hin & Hnew & Hsd & Ha & Hp & _ & Her).
  by exists stats, w', hs, vs.
Qed.

(** ** Examples *)

#[local] Existing Instances sample_ext sample_build sample_hash_laws sample_hex_laws sample_snap_laws sample_lru_laws
  sample_codecs sample_codec_laws sample_codec_total sample_cachedir.

(** An empty archive, and the tree of the examples of the walk *)
Definition sample_home_files : list (Path * Node) := (["a"], sample_dir) :: (["a"; "d"], sample_dir) :: sample_tree_files.

Definition sample_home_fs : Fs := list_to_map sample_home_files.

Definition sample_contents (s : string) : Prop := s ∈ ["x"; "y"; "yx"].

Lemma sample_home_in p n : sample_home_fs !! p = Some n → (p, n) ∈ sample_home_files.
Proof. apply elem_of_list_to_map_2. Qed.

(** The nodes below the directory of the archive *)
Lemma sample_home_archive q n : sample_home_fs !! ("a" :: q) = Some n → q = [] ∨ q = ["d"].
Proof.
  intros Hp%sample_home_in. unfold sample_home_files in Hp.
  repeat (apply elem_of_cons in Hp as [Hp|Hp]; [injection Hp; intros; simplify_eq; auto|]). by apply not_elem_of_nil in Hp.
Qed.

Lemma sample_home_none q : q ≠ [] → sample_home_fs !! (["a"; "d"] ++ q)%list = None.
Proof.
  intros Hq. destruct (sample_home_fs !! _) as [n|] eqn:E; [|done]. apply (sample_home_archive ("d" :: q)) in E as [?|?]; by simplify_eq.
Qed.

Lemma sample_home_sound : sound sample_contents sample_blockdir (world_of sample_home_fs).
Proof.
  split.
  - apply sample_serving.
  - apply closed_files. vm_compute. reflexivity.
  - vm_compute. reflexivity.
  - intros h. left. unfold subdir_path. by apply sample_home_none.
  - intros data _. right. split; [|by vm_compute]. unfold block_path. by apply sample_home_none.
Qed.

Lemma sample_home_ready : ready_archive sample_archive sample_contents None (world_of sample_home_fs).
Proof.
  split; [exact sample_home_sound|vm_compute; reflexivity..| |done].
  intros now. split; [done|]. by eexists _, _.
Qed.

Lemma sample_home_placed : placed sample_archive ["s"] sample_home_fs.
Proof.
  split; [done|by split; intros [k Hk]| |by eexists]. apply named_files. vm_compute. reflexivity.
Qed.

Definition sample_home_item (a content : string) : Item :=
  (base_entry (sample_value a (KM_File 1)), content).

(** The files of the tree, in their order *)
Lemma sample_home_file v n :
  in_tree ["s"] default_backup_options sample_home_fs v → ev_kind_meta v = KM_File n →
  v = sample_value "/z" (KM_File 1) ∧ item ["s"] default_backup_options sample_home_fs v = sample_home_item "/z" "y" ∨
  v = sample_value "/b/c" (KM_File 1) ∧ item ["s"] default_backup_options sample_home_fs v = sample_home_item "/b/c" "x".
Proof.
  intros (q & _ & node & Hp%sample_home_in & Hv) Hk. change (["s"] ++ q)%list with ("s" :: q) in Hp.
  unfold sample_home_files, sample_tree_files in Hp.
  repeat (apply elem_of_cons in Hp as [Hp|Hp]; [injection Hp as Hq ->; simplify_eq|]); [..|by apply not_elem_of_nil in Hp];
    injection Hv as <-; try discriminate Hk; [right|left]; by split.
Qed.

Lemma sample_home_text its :
  its ≠ [] → StronglySorted item_lt its →
  Forall (small_item ["s"] default_backup_options sample_home_fs) its → text its ∈ ["x"; "y"; "yx"].
Proof.
  intros Hne Hs Hits. assert (Forall (λ it, it ∈ [sample_home_item "/z" "y"; sample_home_item "/b/c" "x"]) its) as Hin.
  { eapply Forall_impl; [exact Hits|]. intros it (v & n & Hv & Hk & _ & ->).
    destruct (sample_home_file v n Hv Hk) as [[_ ->]|[_ ->]]; set_solver. }
  apply (sorted_incl_sublist item_lt _ [sample_home_item "/z" "y"; sample_home_item "/b/c" "x"]) in Hs.
  - do 2 (apply sublist_cons_r in Hs as [Hs|(? & -> & Hs)]); apply sublist_nil_r in Hs as ->; try done; vm_compute; set_solver.
  - intros x. apply apath_lt_irrefl.
  - intros x y z. by apply (cmp_lt_trans (cmp := Apath.cmp)).
  - repeat constructor.
  - intros x Hx. by eapply Forall_forall in Hin.
Qed.

Lemma sample_home_storable : storable_tree ["s"] default_backup_options sample_home_fs sample_contents.
Proof.
  split.
  - apply storable_list. apply (bool_decide_unpack _). vm_compute. reflexivity.
  - by vm_compute.
  - intros v n Hv Hk Hn. exfalso. destruct (sample_home_file v n Hv Hk) as [[-> _]|[-> _]]; injection Hk as <-; by vm_compute in Hn.
  - intros its Hne Hs Hits. pose proof (sample_home_text its Hne Hs Hits) as Ht. split; [exact Ht|].
    repeat (apply elem_of_cons in Ht as [->|Ht]; [by vm_compute|]). by apply not_elem_of_nil in Ht.
  - intros es _ json _. by eexists.
  - by vm_compute.
  - intros cb c w Hcb. discriminate Hcb.
Qed.

Lemma sample_home_base : base sample_archive sample_home_fs None [].
Proof.
  split; [done|]. intros x (name & m & Hn & _ & Hx). apply (sample_home_archive [name]) in Hn as [?|?]; [done|]. by simplify_eq.
Qed.

Lemma backup_exact_witness :
  ∃ stats w' hs vs, backup sample_archive ["s"] default_backup_options (world_of sample_home_fs) = (Ret (Ok stats), w') ∧
    stored_band sample_archive (w_fs w') (MkBandId 0) hs ∧
    Forall2 (λ e v, finished_as sample_blockdir (w_fs w') e (item ["s"] default_backup_options sample_home_fs v)) (concat hs) vs ∧
    StronglySorted value_lt vs ∧ (∀ v, v ∈ vs ↔ ∃ q, entry_at ["s"] sample_home_fs Exclude.nothing q v) ∧
    newest sample_archive (w_fs w') (MkBandId 0) ∧ sound sample_contents sample_blockdir w' ∧
    only_adds sample_home_fs (w_fs w') ∧ only_in (written_part sample_archive (MkBandId 0)) sample_home_fs (w_fs w') ∧
    w_errors w' = w_errors (world_of sample_home_fs).
Proof.
  apply (backup_exact sample_archive ["s"] default_backup_options sample_contents None [] (world_of sample_home_fs)).
  - exact sample_home_ready.
  - exact sample_home_placed.
  - exact sample_home_storable.
  - exact sample_home_base.
  - intros v e _ He. by apply not_elem_of_nil in He.
  - unfold default_backup_options, bo_max_entries_per_hunk. lia.
Defined.
