(* ===== verification/GcSafety.v ===== *)
(** * What deletion leaves alone

    Theorems about [delete_bands] (src/archive.rs, modelled in [Gc]): the blocks that
    the bands that are kept refer to stay where they are; and what happens to them
    when an index cannot be read completely. *)

From Stdlib Require Import Ascii.
From S2P Require Import Prelude Text Apath Externals Ids Entry Counters Errors World Transport.
From S2P Require Import Sample Excludes Jsonio SampleWorld BlockDir Index Archive Footprint Stitch Gc HunkIndex.
From stdpp Require Import list gmap strings.

(** ** The references of one band *)

Section references.
Context `{Ext, !GlobLaws} `{BuildCfg} `{Codecs}.

(** Every file that a listing of the index takes for a hunk is where the writer puts
    hunks, and holds entries with valid paths. *)
Definition readable_index (fs : Fs) (t : Transport) : Prop :=
  ∀ d md f c m n, fs !! (tr_path t ++ [d])%list = Some (NDir md) →
    fs !! (path_join (tr_path t) d ++ [f])%list = Some (NFile c m) → parse_u32 f = Some n →
    ∃ es, stored_hunk fs t n es ∧ valid_entries es.

(** Every hunk that is listed can be read. *)
Lemma hunks_available_readable index w hunks w' n :
  readable_index (w_fs w) (ir_transport index) →
  IndexRead.hunks_available index w = (Ret (Ok hunks), w') → n ∈ hunks →
  ∃ es, stored_hunk (w_fs w) (ir_transport index) n es ∧ valid_entries es.
Proof.
  intros Hok. unfold IndexRead.hunks_available. intros Hr Hn. inv_run Hr. destruct a as [l|]; [|inv_run Hr].
  apply list_dir_NoDup in Hrun as (_ & _ & Hfs & _ & Hdirs). rewrite path_join_empty in Hdirs.
  inv_run Hr. inv_run Hr. rewrite sort_by_perm in Hn. apply list_elem_of_omap in Hn as (f & Hf & Hn).
  destruct (list_files_sound _ _ _ _ _ _ f Hrun Hf) as [Hnil|(d & c & m & Hd & Hl)];
    [by apply not_elem_of_nil in Hnil|].
  rewrite sort_by_perm in Hd. apply Hdirs in Hd as [md Hd]. rewrite Hfs in Hl. by eapply Hok.
Qed.

(** Hunks that can be read come one after the other. *)
Lemma drains_stored index hunks w :
  fault_free w →
  (∀ n, n ∈ hunks → ∃ es, stored_hunk (w_fs w) (ir_transport index) n es ∧ valid_entries es) →
  ∃ hs w', drains (MkIndexHunkIter hunks index None) w hs w' ∧ length hs ≤ length hunks ∧
    valid_entries (concat hs) ∧
    (∀ n es e, n ∈ hunks → stored_hunk (w_fs w) (ir_transport index) n es → e ∈ es → e ∈ concat hs) ∧
    (∀ e, e ∈ concat hs → ∃ n es, n ∈ hunks ∧ stored_hunk (w_fs w) (ir_transport index) n es ∧ e ∈ es) ∧ quiet w w'.
Proof.
  revert index w. induction hunks as [|n hunks IH]; intros index w Hf Hh.
  { exists [], w. split; [by eapply drains_end|]. split; [done|]. split; [constructor|].
    split; [by intros n es e []%not_elem_of_nil|]. split; [by intros e []%not_elem_of_nil|done]. }
  destruct (Hh n ltac:(by left)) as (es & Hst & Hv).
  pose proof Hst as (c & m & json & Hp & Hc & Hj).
  destruct (read_hunk_disk index n w c m json es Hf Hp Hc Hj) as (index' & w1 & Hr & Hfs & Hfr).
  pose proof (fault_free_frame _ _ Hfr Hf) as Hf1. pose proof (read_hunk_inv _ _ _ _ _ _ Hr) as (Ht & _).
  destruct (IH index' w1 Hf1) as (hs & w' & Hd & Hl & Hvs & Hall & Hsound & Hq).
  { intros k Hk. rewrite Hfs, Ht. apply Hh. by right. }
  assert (quiet w w') as Hq' by (etrans; [split; [exact Hfs|exact Hfr]|exact Hq]).
  assert (∀ e, e ∈ concat hs → ∃ k es, k ∈ n :: hunks ∧ stored_hunk (w_fs w) (ir_transport index) k es ∧ e ∈ es) as Hs'.
  { intros e (k & es' & Hk & Hst' & He)%Hsound. rewrite Hfs, Ht in Hst'. exists k, es'. split; [by right|done]. }
  rewrite Hfs, Ht in Hall. destruct es as [|e0 es].
  - exists hs, w'. split; [|split; [simpl; lia|split; [done|split; [|done]]]].
    + inversion Hd as [? ? hi' ? Hn|? ? h hi' w2 ? ? Hn Hd']; subst;
        [eapply drains_end|eapply drains_hunk; [|exact Hd']];
        change (next_hunk ?x) with (IndexHunkIter.next x) in *; unfold IndexHunkIter.next in *;
        cbn [hi_hunks hi_index hi_after IndexHunkIter.next_loop] in *;
        rewrite (bind_run _ _ _ _ _ Hr); exact Hn.
    + intros k es' e [->|Hk]%elem_of_cons Hst' He; [|by eapply Hall].
      rewrite (stored_hunk_fun _ _ _ _ _ Hst' Hst) in He. by apply not_elem_of_nil in He.
  - exists ((e0 :: es) :: hs), w'. split; [|split; [simpl; lia|split; [|split; [|split; [|done]]]]].
    + eapply drains_hunk; [|exact Hd]. change (next_hunk ?x) with (IndexHunkIter.next x).
      unfold IndexHunkIter.next. cbn [hi_hunks hi_index hi_after IndexHunkIter.next_loop].
      by rewrite (bind_run _ _ _ _ _ Hr).
    + cbn [concat]. apply Forall_app. by split.
    + intros k es' e [->|Hk]%elem_of_cons Hst' He; cbn [concat]; apply elem_of_app.
      * left. by rewrite <-(stored_hunk_fun _ _ _ _ _ Hst' Hst).
      * right. by eapply Hall.
    + cbn [concat]. intros e [He|He]%elem_of_app; [|by apply Hs']. exists n, (e0 :: es). split; [by left|done].
Qed.

Lemma wanted_all e : Apath.is_valid (apath_str (ie_apath e)) = true → is_wanted Apath.root Exclude.nothing e = true.
Proof.
  intros (ns & Hv & Ha)%is_valid_names. unfold is_wanted. rewrite Ha, is_prefix_of_root by done. simpl.
  by rewrite globset_empty_match.
Qed.

(** The references of a band that can be read are complete. *)
Lemma band_references_complete a b w hs w' n es e ad :
  fault_free w → readable_index (w_fs w) (index_transport a b) →
  Gc.band_references a b w = (Ret (Ok hs), w') →
  listed_hunk (w_fs w) (index_transport a b) n es → e ∈ es → ad ∈ ie_addrs e → a_hash ad ∈ hs.
Proof.
  intros Hf Hok Hr Hl He Had. unfold Gc.band_references in Hr.
  inv_run Hr. pose proof (reading_keeps _ _ _ _ (band_open_reading _ _ _) (band_open_reading _ _ _) Hrun Hf) as [Hfs Hf1].
  inv_run Hr. destruct a0 as [band|]; [|done]. apply ret_inv in Hrun0 as [<- <-].
  apply band_open_inv in Hrun as [_ Ht].
  assert (ir_transport (Band.index band) = index_transport a b) as Hit.
  { unfold Band.index. simpl. by rewrite Ht. }
  rewrite <-Hfs, <-Hit in Hok, Hl. clear Hfs Hit Ht Hf w. rename w0 into w.
  inv_run Hr. unfold index_iter_entries, IndexHunkIter.iter_available_hunks in Hrun. inv_run Hrun. inv_run Hrun0.
  pose proof (reading_keeps _ _ _ _ (hunks_available_reading _ _) (hunks_available_reading _ _) Hrun1 Hf1) as [Hfs Hf2].
  inv_run Hrun0. destruct a2 as [hunks|]; [|done]. apply ret_inv in Hrun2 as [<- <-]. inv_run Hrun0. inv_run Hrun.
  pose proof (hunks_available_complete _ _ _ _ _ _ Hf1 Hl Hrun1) as Hn.
  destruct (drains_stored (Band.index band) hunks w0 Hf2) as (hks & w1 & Hd & Hlen & Hv & Hall & _).
  { intros k Hk. rewrite Hfs. by eapply hunks_available_readable. }
  inv_run Hr. rewrite (collect_run _ _ _ _ _ _ Hd Hv) in Hrun by (simpl; lia). simplify_eq. inv_run Hr.
  apply list_elem_of_bind. exists e. split; [by apply list_elem_of_fmap_2|].
  destruct Hl as [Hst _]. rewrite Hfs in Hall. pose proof (Hall n es e Hn Hst He) as Hin.
  apply list_elem_of_filter. split; [|done]. apply wanted_all.
  unfold valid_entries in Hv. rewrite Forall_forall in Hv. by apply Hv.
Qed.
End references.

(** ** What changes at one path only *)

Section one_path.
Context `{Ext} `{BuildCfg}.

Lemma write_file_only_at (t : Transport) s c :
  respects (fs_rel (only_at (path_join (tr_path t) s))) (Transport.write_file t s c CreateNew).
Proof. by apply (write_file_within _ (λ q, q = path_join (tr_path t) s)). Qed.

Lemma remove_file_only_at (t : Transport) s :
  respects (fs_rel (only_at (path_join (tr_path t) s))) (Transport.remove_file t s).
Proof. by apply (remove_file_within _ (λ q, q = path_join (tr_path t) s)). Qed.

(** Removing a directory leaves what is not below it. *)
Lemma delete_all_preserves (P : Path → Prop) ps (fs : Fs) :
  Forall (λ p, ¬ P p) ps → preserves P fs (fs_delete_all ps fs).
Proof.
  induction 1 as [|p ps Hp _ IH]; simpl; [reflexivity|]. intros q n Pq Hq.
  rewrite lookup_delete_ne by (by intros ->). by apply IH.
Qed.

Lemma remove_dir_all_respects (P : Path → Prop) (t : Transport) s :
  (∀ q, ¬ P (path_join (tr_path t) s ++ q)%list) →
  respects (fs_rel (preserves P)) (Transport.remove_dir_all t s).
Proof.
  intros HP. rewrite tr_remove_dir_all. unfold Local.remove_dir_all.
  set (p := path_join (tr_path t) s) in *.
  assert (∀ fs, Forall (λ q, ¬ P q) (fs_subtree p fs)) as Hsub.
  { intros fs. apply Forall_forall. intros q Hq. unfold fs_subtree in Hq. rewrite merge_sort_Permutation in Hq.
    apply list_elem_of_filter in Hq as [[q' ->] _]. apply HP. }
  assert (¬ P p) as Hp by (specialize (HP []); by rewrite app_nil_r in HP).
  assert (respects (fs_rel (preserves P)) (sys_remove_dir_all p)).
  { apply syscall_respects; [apply _| |].
    - intros w [] fs'. unfold map_ok, fs_remove_dir_all.
      destruct (w_fs w !! p) as [[]|]; try done; intros [= <-]; [by apply delete_all_preserves|by apply delete_preserves].
    - intros n fs. destruct (fs_remove_dir_all p fs); [|reflexivity]. apply delete_all_preserves.
      by apply Forall_take. }
  apply full_path_bind; [apply _|]. solve_respects.
Qed.
End one_path.

(** ** Deletion *)

Section deletion.
Context `{Ext, !GlobLaws, !HashLaws, !HexLaws} `{BuildCfg} `{Codecs}.
Context (a : Archive) (Ha : tr_path (bd_transport (ar_block_dir a)) = (archive_path a ++ [BLOCK_DIR])%list).

Lemma lock_path_join : path_join (tr_path (ar_transport a)) GC_LOCK = lock_path a.
Proof. apply (path_join_names _ [GC_LOCK]). by repeat constructor. Qed.

(** Taking the lock, breaking it and dropping it touch the lock file only. *)
Lemma lock_new_only_at : respects (fs_rel (only_at (lock_path a))) (GarbageCollectionLock.new a).
Proof.
  unfold GarbageCollectionLock.new. rewrite <-lock_path_join.
  pose proof (write_file_only_at (ar_transport a) GC_LOCK GarbageCollectionLock.lock_content).
  pose proof (last_band_id_reading (fs_rel (only_at (path_join (tr_path (ar_transport a)) GC_LOCK)))).
  pose proof (band_is_closed_reading (fs_rel (only_at (path_join (tr_path (ar_transport a)) GC_LOCK)))).
  solve_respects.
Qed.

Lemma break_lock_only_at : respects (fs_rel (only_at (lock_path a))) (GarbageCollectionLock.break_lock a).
Proof.
  unfold GarbageCollectionLock.break_lock. pose proof lock_new_only_at. rewrite <-lock_path_join in *.
  pose proof (remove_file_only_at (ar_transport a) GC_LOCK).
  pose proof (is_locked_reading (fs_rel (only_at (path_join (tr_path (ar_transport a)) GC_LOCK)))).
  solve_respects.
Qed.

Lemma lock_new_inv w g w' : GarbageCollectionLock.new a w = (Ret (Ok g), w') → gl_archive g = a.
Proof.
  unfold GarbageCollectionLock.new. intros Hr. inv_run Hr. inv_run Hr. inv_run Hr.
  destruct (unwrap_or true a2); inv_run Hr. destruct a3; inv_run Hr. done.
Qed.

Lemma drop_only_at g : gl_archive g = a → respects (fs_rel (only_at (lock_path a))) (GarbageCollectionLock.drop g).
Proof.
  intros Hg. unfold GarbageCollectionLock.drop. rewrite Hg, <-lock_path_join.
  pose proof (remove_file_only_at (ar_transport a) GC_LOCK). solve_respects.
Qed.

(** Blocks are neither the lock nor in a band. *)
Lemma block_not_lock h : block_path (ar_block_dir a) h ≠ lock_path a.
Proof. unfold block_path, lock_path, block_names. rewrite Ha, <-app_assoc. by intros [=]%app_inv_head. Qed.

Lemma block_not_in_band h b q : block_path (ar_block_dir a) h ≠ (archive_path a ++ BandId.to_string b :: q)%list.
Proof.
  unfold block_path. rewrite Ha, <-app_assoc. intros Heq%app_inv_head.
  by injection Heq.
Qed.

Lemma only_at_preserves p (P : Path → Prop) fs fs' : ¬ P p → only_at p fs fs' → preserves P fs fs'.
Proof. intros HP. apply only_in_preserves. by intros q Pq ->. Qed.

Section block.
Context (h : BlockHash) (Hh : BlockHash.fits h).

(** The relation that keeps the file of the block [h] *)
#[local] Abbreviation Kept := (fs_rel (preserves (eq (block_path (ar_block_dir a) h)))).

Lemma measure_respects l : respects Kept (Gc.measure_loop (ar_block_dir a) l).
Proof. unfold Gc.measure_loop. solve_respects. Qed.

Lemma delete_blocks_keep l : Forall (λ k, BlockHash.fits k ∧ k ≠ h) l → respects Kept (Gc.delete_block_loop (ar_block_dir a) l).
Proof.
  intros Hl. unfold Gc.delete_block_loop. generalize 0%N as n.
  induction Hl as [|k l [Hk Hne] _ IH]; intros n; cbn [fold_st]; [apply respects_ret; apply _|].
  apply respects_bind; [apply _| |intros; apply IH].
  apply respects_bind; [apply _| |solve_respects].
  apply delete_block_respects; [done|]. intros Heq. apply Hne. by apply (block_path_inj (ar_block_dir a)).
Qed.

Lemma delete_bands_keep ids : respects Kept (Gc.delete_band_loop a ids).
Proof.
  unfold Gc.delete_band_loop. apply respects_try_fold; [apply _|]. intros n b.
  apply respects_try; [apply _| |solve_respects]. unfold Band.delete.
  apply respects_bind; [apply _| |solve_respects]. apply remove_dir_all_respects.
  intros q Heq. change (tr_path (ar_transport a)) with (archive_path a) in Heq.
  rewrite (path_join_names _ [BandId.to_string b]) in Heq by (repeat constructor; apply bandid_valid_name).
  rewrite <-app_assoc in Heq. by apply block_not_in_band in Heq.
Qed.
End block.
End deletion.

(** One run respects a relation when its parts do. *)
Lemma bind_at `{Ext} {A B} (R : relation World) `{!PreOrder R} (m : M A) (k : A → M B) w :
  R w (m w).2 → (∀ x w1, m w = (Ret x, w1) → R w1 (k x w1).2) → R w ((m ≫= k) w).2.
Proof.
  unfold mbind, ST_bind. destruct (m w) as [[x| | |] w1]; simpl; intros Hm Hk; try done.
  etrans; [exact Hm|]. by apply Hk.
Qed.

Lemma try_at `{Ext} {A B E} (R : relation World) `{!PreOrder R} (m : M (result A E)) (k : A → M (result B E)) w :
  R w (m w).2 → (∀ x w1, m w = (Ret (Ok x), w1) → R w1 (k x w1).2) → R w (try m k w).2.
Proof.
  intros Hm Hk. unfold try. apply bind_at; [apply _|done|]. intros [x|e] w1 Hr; [by apply Hk|]. simpl. reflexivity.
Qed.

Section references_reading.
Context `{Ext} `{BuildCfg} `{Codecs} (R : relation World) `{!Reading R} (a : Archive).

Lemma band_references_reading b : respects R (Gc.band_references a b).
Proof.
  unfold Gc.band_references, index_iter_entries. pose proof (band_open_reading R).
  pose proof (iter_available_hunks_reading R).
  apply respects_bind; [apply _|auto|]. intros x. apply respects_bind; [apply _|by apply respects_expect_ok, _|].
  intros band. apply respects_bind; [apply _| |].
  - apply respects_bind; [apply _|auto|]. intros it. apply respects_ret. apply _.
  - intros it. apply respects_try; [apply _| |intros; apply respects_ret; apply _].
    unfold IndexEntryIter.collect. apply for_entries_reading; [apply _..|]. intros. apply respects_ret. apply _.
Qed.

Lemma referenced_blocks_reading ids : respects R (Gc.referenced_blocks a ids).
Proof. unfold Gc.referenced_blocks. pose proof band_references_reading. solve_reading. Qed.
End references_reading.

Section keeping.
Context `{Ext, !GlobLaws, !HashLaws, !HexLaws} `{BuildCfg} `{Codecs}.
Context (a : Archive) (Ha : tr_path (bd_transport (ar_block_dir a)) = (archive_path a ++ [BLOCK_DIR])%list).

(** The band is there, its index can be read, and one of its entries refers to the
    block. *)
Definition refers (fs : Fs) (b : BandId) (h : BlockHash) : Prop :=
  listed a fs b ∧ readable_index fs (index_transport a b) ∧ BlockHash.fits h ∧
  ∃ n es e ad, listed_hunk fs (index_transport a b) n es ∧ e ∈ es ∧ ad ∈ ie_addrs e ∧ a_hash ad = h.

Lemma refers_only_at fs fs' b h : only_at (lock_path a) fs fs' → refers fs b h → refers fs' b h.
Proof.
  intros Ho ((name & m & Hn & Hu & Hb) & Hok & Hh & n & es & e & ad & (Hst & Hmax & (m1 & Hd1) & (m2 & Hd2)) & He & Had & Heq).
  set (t := index_transport a b) in *.
  assert (tr_path t = (archive_path a ++ [BandId.to_string b; INDEX_DIR])%list) as Ht.
  { unfold t, index_transport. change (tr_path (Transport.chdir ?t ?s)) with (path_join (tr_path t) s).
    rewrite (path_join_names _ [INDEX_DIR]) by (by repeat constructor).
    change (path_join (tr_path ?t) ?s) with (tr_path (Transport.chdir t s)). rewrite band_dir_path, <-app_assoc. done. }
  assert (∀ q, fs' !! (tr_path t ++ q)%list = fs !! (tr_path t ++ q)%list) as Hsame.
  { intros q. apply Ho. rewrite Ht. unfold lock_path. rewrite <-app_assoc. intros Hx%app_inv_head.
    by injection Hx. }
  assert (∀ k hes, stored_hunk fs' t k hes ↔ stored_hunk fs t k hes) as Hsth.
  { intros k hes. unfold stored_hunk, hunk_path. by rewrite Hsame. }
  split; [|split; [|split; [done|]]].
  - exists name, m. rewrite Ho; [done|]. unfold lock_path. intros Heq'%app_inj_tail.
    destruct Heq' as [_ ->]. by vm_compute in Hb.
  - intros d md f c m' k Hd Hf Hk. rewrite Hsame in Hd. rewrite Ho in Hf.
    + destruct (Hok d md f c m' k Hd Hf Hk) as (hes & Hs & Hv). exists hes. split; [by apply Hsth|done].
    + unfold lock_path. intros [_ ->]%app_inj_tail. by vm_compute in Hk.
  - exists n, es, e, ad. split; [|done]. split; [by apply Hsth|]. split; [done|].
    change (index_transport a b) with t.
    split; [exists m1; rewrite <-(app_nil_r (tr_path t)), Hsame, app_nil_r; done|].
    exists m2. unfold hunk_subdir in *. by rewrite Hsame.
Qed.

(** The references of several bands include those of each. *)
Lemma referenced_blocks_complete ids w r w' b h acc :
  fault_free w → refers (w_fs w) b h → b ∈ ids ∨ h ∈ acc →
  try_fold (λ acc band_id, hs ←? Gc.band_references a band_id;
     mret (Ok (acc ∪ list_to_set hs : gset BlockHash))) acc ids w = (Ret (Ok r), w') → h ∈ r.
Proof.
  revert acc w. induction ids as [|b' ids IH]; intros acc w Hf Hr Hin; cbn [try_fold]; intros Hrun.
  { inv_run Hrun. by destruct Hin as [[]%not_elem_of_nil|]. }
  inv_run Hrun. inv_run Hrun0.
  pose proof (reading_keeps _ _ _ _ (band_references_reading _ _ _) (band_references_reading _ _ _) Hrun1 Hf) as [Hfs Hf1].
  inv_run Hrun0. apply IH in Hrun; [done|done|by rewrite Hfs|].
  destruct Hin as [[->|Hin]%elem_of_cons|Hin]; [|by left|right; set_solver].
  right. apply elem_of_union_r, elem_of_list_to_set.
  destruct Hr as (_ & Hok & _ & n & es & e & ad & Hl & He & Had & <-).
  by apply (band_references_complete _ _ _ _ _ _ _ _ _ Hf Hok Hrun1 Hl He Had).
Qed.

Lemma parse_names_fits l h : h ∈ BlockDir.parse_names l → BlockHash.fits h.
Proof.
  intros (f & _ & Hf)%list_elem_of_omap. destruct (BlockHash.from_str f) eqn:E; simplify_eq/=.
  by eapply blockhash_from_str_fits.
Qed.

Lemma listed_blocks_fit bd ds acc w l w' :
  (∀ k, k ∈ acc → BlockHash.fits k) →
  fold_st (λ acc subdir_name,
         r ← Transport.list_dir (bd_transport bd) subdir_name;
         match r with
         | Err source => _ ← monitor_error (ListBlocks source); mret acc
         | Ok l => mret (acc ++ BlockDir.parse_names (ld_files l))%list
         end) acc ds w = (Ret l, w') →
  ∀ k, k ∈ l → BlockHash.fits k.
Proof.
  revert acc w. induction ds as [|d ds IH]; intros acc w Hacc; cbn [fold_st]; intros Hr; [by inv_run Hr|].
  inv_run Hr. eapply IH; [|exact Hr]. inv_run Hrun. destruct a1 as [ld|e]; inv_run Hrun; [|by inv_run Hrun].
  intros k [Hk|Hk]%elem_of_app; [by apply Hacc|by eapply parse_names_fits].
Qed.

Lemma blocks_fit bd w l w' h : BlockDir.blocks bd w = (Ret (Ok l), w') → h ∈ l → BlockHash.fits h.
Proof.
  unfold BlockDir.blocks. intros Hr. inv_run Hr. inv_run Hr. inv_run Hr. intros Hin.
  apply (listed_blocks_fit _ _ _ _ _ _ (λ k Hk, False_ind _ (not_elem_of_nil k Hk)) Hrun0 _ Hin).
Qed.

(** The part of a deletion under the lock keeps a block that a kept band refers to. *)
Lemma delete_locked_keeps g ids options w b h :
  fault_free w → refers (w_fs w) b h → b ∉ ids →
  fs_rel (preserves (eq (block_path (ar_block_dir a) h))) w (Gc.delete_locked a g ids options w).2.
Proof.
  intros Hf Hr Hb. pose proof Hr as (_ & _ & Hh & _). unfold Gc.delete_locked.
  apply try_at; [apply _|apply list_band_ids_reading; apply _|]. intros keep w1 Hk1.
  pose proof (reading_keeps _ _ _ _ (list_band_ids_reading _ _) (list_band_ids_reading _ _) Hk1 Hf) as [Hfs1 Hf1].
  assert (b ∈ keep) as Hkeep.
  { unfold Archive.list_band_ids in Hk1. inv_run Hk1. inv_run Hk1. destruct a0 as [l|]; simplify_eq/=.
    apply band_ids_inv in Hrun as [_ Hids]. rewrite sort_by_perm. apply Hids. by destruct Hr. }
  cbv zeta. rewrite <-Hfs1 in Hr. clear Hk1 Hfs1 Hf w.
  apply try_at; [apply _|apply referenced_blocks_reading; apply _|]. intros referenced w2 Hk2.
  assert (h ∈ referenced) as Href.
  { eapply referenced_blocks_complete; [exact Hf1|exact Hr| |exact Hk2]. left. by apply list_elem_of_filter. }
  apply try_at; [apply _|apply blocks_respects; apply _|]. intros present w3 Hk3. cbv zeta.
  set (unref := elements _). assert (Forall (λ k, BlockHash.fits k ∧ k ≠ h) unref) as Hun.
  { apply Forall_forall. intros k [Hk Hn]%elem_of_elements%elem_of_difference.
    apply elem_of_list_to_set in Hk. split; [by eapply blocks_fit|by intros ->]. }
  pose proof (measure_respects a h). pose proof (delete_blocks_keep a h Hh unref Hun).
  pose proof (delete_bands_keep a Ha h ids).
  pose proof (lock_check_reading (fs_rel (preserves (eq (block_path (ar_block_dir a) h)))) g).
  match goal with |- fs_rel ?R w3 (?m w3).2 => assert (respects (fs_rel R) m) as Hm; [|apply Hm] end.
  solve_respects.
Qed.

End keeping.

(** Taking the lock, by breaking it or not *)
Section acquire.
Context `{Ext} `{BuildCfg} `{Codecs} (a : Archive).

Definition acquire (options : DeleteOptions) : M (result GarbageCollectionLock Error) :=
  if break_lock options then GarbageCollectionLock.break_lock a else GarbageCollectionLock.new a.

Lemma acquire_only_at options : respects (fs_rel (only_at (lock_path a))) (acquire options).
Proof. unfold acquire. destruct (break_lock options); [by apply break_lock_only_at|by apply lock_new_only_at]. Qed.

Lemma acquire_faults options : respects same_faults (acquire options).
Proof.
  assert (respects same_faults (GarbageCollectionLock.new a)).
  { unfold GarbageCollectionLock.new. pose proof (last_band_id_reading same_faults).
    pose proof (band_is_closed_reading same_faults). solve_respects. }
  unfold acquire, GarbageCollectionLock.break_lock. pose proof (is_locked_reading same_faults). solve_respects.
Qed.

Lemma acquire_inv options w g w' : acquire options w = (Ret (Ok g), w') → gl_archive g = a.
Proof.
  unfold acquire, GarbageCollectionLock.break_lock. destruct (break_lock options); [|by apply lock_new_inv].
  intros Hr. inv_run Hr. inv_run Hr. destruct a1; [by apply lock_new_inv in Hr|inv_run Hr].
Qed.
End acquire.

(** C8: deletion keeps what is needed: without failures, a block that an entry of a
    kept band refers to is there afterwards, unchanged, whichever other bands are
    deleted, with whatever options, and however the deletion ends; provided that the
    index of that band can be read. *)
Theorem delete_bands_keeps_referenced `{Ext, !GlobLaws, !HashLaws, !HexLaws} `{BuildCfg} `{Codecs}
    (a : Archive) (ids : list BandId) (options : DeleteOptions) (w : World) (b : BandId) (h : BlockHash)
    (Ha : tr_path (bd_transport (ar_block_dir a)) = (archive_path a ++ [BLOCK_DIR])%list)
    (Hf : fault_free w) (Hr : refers a (w_fs w) b h) (Hb : b ∉ ids) :
  ∀ nd, w_fs w !! block_path (ar_block_dir a) h = Some nd →
    w_fs (Gc.delete_bands a ids options w).2 !! block_path (ar_block_dir a) h = Some nd.
Proof.
  intros nd Hnd. set (P := eq (block_path (ar_block_dir a) h)).
  assert (fs_rel (preserves P) w (Gc.delete_bands a ids options w).2) as Hall; [|by apply (Hall _ nd)].
  assert (¬ P (lock_path a)) as HP by (intros Heq; by apply (block_not_lock a Ha) in Heq).
  assert (∀ {A : Type} (m : M A), respects (fs_rel (only_at (lock_path a))) m → respects (fs_rel (preserves P)) m) as Hlift.
  { intros A m Hm w'. apply (only_at_preserves (lock_path a)); [done|apply Hm]. }
  change (Gc.delete_bands a ids options)
    with (try (acquire a options) (λ g, Gc.with_guard g (Gc.delete_locked a g ids options))).
  pose proof (acquire_only_at a options) as Hl. pose proof (acquire_faults a options w) as Hff.
  apply try_at; [apply _|by apply Hlift|]. intros g w1 Hg. specialize (Hl w). rewrite Hg in Hl, Hff. cbn [snd] in Hl, Hff.
  unfold Gc.with_guard. apply scoped_at; [apply _| |].
  - apply delete_locked_keeps with b; [done|by eapply same_faults_free|by eapply refers_only_at|done].
  - apply Hlift, drop_only_at. by eapply acquire_inv.
Qed.

(** ** Examples *)

#[local] Existing Instances sample_ext sample_build sample_glob_laws sample_hash_laws sample_hex_laws sample_codecs.

(** An archive with one finished band, whose only entry has its content in the sample
    block, and another block that nothing refers to *)
Definition sample_referring : IndexEntry :=
  MkIndexEntry (MkApath "/f") Kind_File 10 (UnixMode.from 420) (MkOwner None None) 0 [MkAddress sample_hash 0 5] None.

Definition sample_other_hash : BlockHash := BlockHash.hash_bytes "other".

Definition sample_gc_files : list (Path * Node) :=
  [(["a"; "b0000"; "i"; "00000"; "000000000"], sample_hunk [sample_referring]);
   (["a"; "b0000"; "i"; "00000"], sample_dir);
   (["a"; "b0000"; "i"], sample_dir);
   (["a"; "b0000"; "BANDTAIL"], NFile "" sample_meta);
   (["a"; "b0000"; "BANDHEAD"], sample_head 5);
   (["a"; "b0000"], sample_dir);
   (block_path sample_blockdir sample_hash, NFile "zhello" sample_meta);
   (subdir_path sample_blockdir sample_hash, sample_dir);
   (block_path sample_blockdir sample_other_hash, NFile "zother" sample_meta);
   (subdir_path sample_blockdir sample_other_hash, sample_dir);
   (["a"; "d"], sample_dir);
   (["a"], sample_dir);
   ([], sample_dir)].

Definition sample_gc_fs : Fs := list_to_map sample_gc_files.

Lemma sample_gc_in p n : sample_gc_fs !! p = Some n → (p, n) ∈ sample_gc_files.
Proof. apply elem_of_list_to_map_2. Qed.

Lemma sample_gc_keys : NoDup sample_gc_files.*1.
Proof. apply (bool_decide_unpack _). vm_compute. reflexivity. Qed.

Lemma sample_gc_lookup p n : (p, n) ∈ sample_gc_files → sample_gc_fs !! p = Some n.
Proof. apply elem_of_list_to_map_1, sample_gc_keys. Qed.

Lemma sample_gc_stored : stored_hunk sample_gc_fs (index_transport sample_archive (MkBandId 0)) 0 [sample_referring].
Proof.
  exists (String "z" (hunk_encode [sample_referring])), sample_meta, (hunk_encode [sample_referring]).
  split; [|split; [done|vm_compute; reflexivity]].
  unfold hunk_path. rewrite sample_index_path. apply sample_gc_lookup. by left.
Qed.

(** The only directory and the only file of the index *)
Definition index_key (p : Path) : bool :=
  match p with
  | [_; _; "i"; d] => String.eqb d "00000"
  | [_; _; "i"; _; f] => String.eqb f "000000000"
  | _ => true
  end.

Lemma sample_gc_key p n : sample_gc_fs !! p = Some n → index_key p = true.
Proof.
  intros Hp%sample_gc_in. assert (forallb index_key sample_gc_files.*1 = true) as Hall by (vm_compute; reflexivity).
  rewrite forallb_forall in Hall. apply Hall, list_elem_of_In. by apply (list_elem_of_fmap_2 fst) in Hp.
Qed.

Lemma sample_refers : refers sample_archive sample_gc_fs (MkBandId 0) sample_hash.
Proof.
  split; [|split; [|split; [apply hash_bytes_fits|]]].
  - exists "b0000", sample_meta. split; [by vm_compute|]. by split.
  - intros d md f c m n Hd Hf Hn. rewrite sample_index_path in Hd, Hf.
    pose proof (sample_gc_key _ _ Hd) as Hkd. cbn in Hkd. apply String.eqb_eq in Hkd as ->.
    change (path_join ["a"; BandId.to_string (MkBandId 0); "i"] "00000")
      with ["a"; "b0000"; "i"; "00000"] in Hf.
    pose proof (sample_gc_key _ _ Hf) as Hkf. cbn in Hkf. apply String.eqb_eq in Hkf as ->.
    vm_compute in Hn. injection Hn as <-. exists [sample_referring].
    split; [exact sample_gc_stored|by repeat constructor].
  - exists 0%N, [sample_referring], sample_referring, (MkAddress sample_hash 0 5).
    split; [|split; [by left|split; [by left|done]]]. split; [exact sample_gc_stored|]. split; [done|].
    split; [exists sample_meta|exists sample_meta; unfold hunk_subdir]; rewrite sample_index_path; by vm_compute.
Qed.

Lemma delete_bands_keeps_referenced_witness :
  w_fs (Gc.delete_bands sample_archive [] (MkDeleteOptions false false) (world_of sample_gc_fs)).2
    !! block_path sample_blockdir sample_hash = Some (NFile "zhello" sample_meta).
Proof.
  apply (delete_bands_keeps_referenced sample_archive [] (MkDeleteOptions false false) (world_of sample_gc_fs)
    (MkBandId 0)).
  - done.
  - done.
  - exact sample_refers.
  - apply not_elem_of_nil.
  - vm_compute. reflexivity.
Defined.

