(* ===== verification/GcExact.v ===== *)
(** * What deletion and garbage collection do (src/archive.rs, src/gc_lock.rs)

    The whole of [delete_bands] without failures: it ends in success, the bands that it
    was told to delete are gone, the blocks that no other band refers to are gone, the
    lock is gone, and everything else is as it was. *)

From Stdlib Require Import Ascii.
From S2P Require Import Prelude Text Apath Externals Ids Entry Counters Errors World Transport.
From S2P Require Import Sample Excludes Jsonio SampleWorld BlockDir Index Archive Footprint Stitch Gc HunkIndex StoredBand BandWriter RestoreTree BlockListing GcSafety.
From stdpp Require Import list gmap strings.

(** ** The blocks that a band refers to *)

Section references.
Context `{Ext, !GlobLaws} `{BuildCfg} `{Codecs} (a : Archive).

(** The band can be opened and its index can be read. *)
Record collectable (fs : Fs) (b : BandId) : Prop := {
  co_head : ∃ c m head, fs !! head_path a b = Some (NFile c m) ∧ from_json c = Some head ∧ accepted head;
  co_root : ∃ m, fs !! tr_path (index_transport a b) = Some (NDir m);
  co_names : ∀ d m, fs !! (tr_path (index_transport a b) ++ [d])%list = Some (NDir m) → valid_name d = true;
  co_index : readable_index fs (index_transport a b)
}.

(** An entry of the band has an address in the block. *)
Definition in_use (fs : Fs) (b : BandId) (h : BlockHash) : Prop :=
  ∃ n es e ad, listed_hunk fs (index_transport a b) n es ∧ e ∈ es ∧ ad ∈ ie_addrs e ∧ a_hash ad = h.

(** Listing the hunks of an index that can be read *)
Lemma readable_hunks_run b index w :
  fault_free w → fs_closed (w_fs w) → collectable (w_fs w) b → ir_transport index = index_transport a b →
  ∃ hunks w', IndexRead.hunks_available index w = (Ret (Ok hunks), w') ∧ quiet w w' ∧
    (∀ n, n ∈ hunks → ∃ es, stored_hunk (w_fs w) (index_transport a b) n es ∧ valid_entries es) ∧
    ∀ n, n ∈ hunks ↔ ∃ es, listed_hunk (w_fs w) (index_transport a b) n es.
Proof.
  intros Hf Hcl [_ [mr Hroot] Hnames Hok] Ht.
  assert (∃ hunks w', IndexRead.hunks_available index w = (Ret (Ok hunks), w')) as (hunks & w' & Hr).
  { unfold IndexRead.hunks_available. rewrite Ht.
    destruct (listing_run (index_transport a b) "" w mr) as (l & w1 & Hr & [_ Hfr] & _ & _ & Hdirs & _);
      [done|done|by rewrite path_join_empty|]. rewrite path_join_empty in Hdirs.
    rewrite (bind_run _ _ _ _ _ Hr). cbn iota beta zeta.
    edestruct (list_files_run (index_transport a b)) as (r & w2 & Hr2); [by eapply fault_free_frame| |].
    2: { erewrite bind_run by exact Hr2. by eexists _, _. }
    rewrite sort_by_perm. apply Forall_forall. intros d [m Hd]%Hdirs. by eapply Hnames. }
  exists hunks, w'. split; [done|].
  split; [apply (reading_quiet (IndexRead.hunks_available index) _ (Ret (Ok hunks))); [apply hunks_available_reading; apply _..|done]|].
  rewrite <-Ht in Hok.
  assert (∀ n, n ∈ hunks → ∃ es, stored_hunk (w_fs w) (index_transport a b) n es ∧ valid_entries es) as Hread.
  { intros n Hn. rewrite <-Ht. by eapply hunks_available_readable. }
  split; [done|]. intros n. split.
  - intros Hn. destruct (Hread n Hn) as (es & Hst & _). exists es. split; [done|]. split.
    + unfold IndexRead.hunks_available in Hr. inv_run Hr. destruct a0 as [l|]; [|inv_run Hr]. inv_run Hr. inv_run Hr.
      rewrite sort_by_perm in Hn. apply list_elem_of_omap in Hn as (f & _ & Hp). by eapply parse_u32_fits.
    + split; [by eexists|]. destruct Hst as (c & m & json & Hp & _).
      assert (is_dir_node (w_fs w !! hunk_subdir (index_transport a b) n) = true) as Hd.
      { apply (Hcl _ [pad_decimal 9 n]); [done|]. eexists. unfold hunk_subdir. rewrite <-app_assoc. exact Hp. }
      destruct (w_fs w !! hunk_subdir (index_transport a b) n) as [[?|md|?|?]|]; try done. by eexists.
  - intros (es & Hl). rewrite <-Ht in Hl. by eapply hunks_available_complete.
Qed.

(** The references of a band are exactly the blocks that its entries use. *)
Lemma band_references_run b w :
  fault_free w → fs_closed (w_fs w) → collectable (w_fs w) b →
  ∃ hs w', Gc.band_references a b w = (Ret (Ok hs), w') ∧ quiet w w' ∧ ∀ h, h ∈ hs ↔ in_use (w_fs w) b h.
Proof.
  intros Hf Hcl Hco. pose proof Hco as [(c & m & head & Hh & Hj & Hacc) _ _ Hok].
  destruct (band_open_run a b w c m head Hf Hh Hj Hacc) as (w1 & Hr1 & Hfs1 & Hfr1). set (band := MkBand b _ head) in *.
  assert (ir_transport (Band.index band) = index_transport a b) as Ht by done.
  pose proof (fault_free_frame _ _ Hfr1 Hf) as Hf1. rewrite <-Hfs1 in Hcl, Hco.
  destruct (readable_hunks_run b (Band.index band) w1 Hf1 Hcl Hco Ht) as (hunks & w2 & Hr2 & [Hfs2 Hfr2] & Hread & Hn).
  pose proof (fault_free_frame _ _ Hfr2 Hf1) as Hf2.
  destruct (drains_stored (Band.index band) hunks w2 Hf2) as (hks & w3 & Hd & Hlen & Hv & Hall & Hsound & [Hfs3 Hfr3]).
  { intros n Hin. rewrite Hfs2, Ht. by apply Hread. }
  rewrite Hfs2, Ht, Hfs1 in Hall, Hsound. rewrite Hfs1 in Hn.
  exists (filter (λ e, is_wanted Apath.root Exclude.nothing e = true) (concat hks) ≫= λ e, a_hash <$> ie_addrs e), w3.
  split; [|split; [split; [congruence|by do 2 (etrans; [eassumption|])]|]].
  - unfold Gc.band_references. rewrite (bind_run _ _ _ _ _ Hr1). erewrite bind_run by done.
    unfold index_iter_entries, IndexHunkIter.iter_available_hunks.
    erewrite bind_run.
    2: { erewrite bind_run; [done|]. rewrite (bind_run _ _ _ _ _ Hr2). by erewrite bind_run by done. }
    rewrite (try_run _ _ _ _ _ (collect_run _ _ _ _ _ _ Hd Hv Hlen)). done.
  - intros h. rewrite list_elem_of_bind. split.
    + intros (e & (ad & -> & Had)%list_elem_of_fmap & [_ He]%list_elem_of_filter).
      destruct (Hsound e He) as (n & es & Hin & Hst & Hes). apply Hn in Hin as (es' & Hl).
      rewrite (stored_hunk_fun _ _ _ _ _ Hst (proj1 Hl)) in Hes. by exists n, es', e, ad.
    + intros (n & es & e & ad & Hl & He & Had & <-). exists e. split; [by apply list_elem_of_fmap_2|].
      assert (e ∈ concat hks) as Hin by (eapply Hall; [apply Hn; by eexists|apply Hl|done]).
      apply list_elem_of_filter. split; [|done]. apply wanted_all. unfold valid_entries in Hv.
      rewrite Forall_forall in Hv. by apply Hv.
Qed.

(** The references of several bands *)
Lemma referenced_blocks_run ids w :
  fault_free w → fs_closed (w_fs w) → (∀ b, b ∈ ids → collectable (w_fs w) b) →
  ∃ r w', Gc.referenced_blocks a ids w = (Ret (Ok r), w') ∧ quiet w w' ∧
    ∀ h, h ∈ r ↔ ∃ b, b ∈ ids ∧ in_use (w_fs w) b h.
Proof.
  unfold Gc.referenced_blocks. intros Hf Hcl Hco.
  assert (∃ r w', try_fold (λ acc band_id, hs ←? Gc.band_references a band_id;
     mret (Ok (acc ∪ list_to_set hs : gset BlockHash))) ∅ ids w = (Ret (Ok r), w') ∧ quiet w w' ∧
     ∀ h, h ∈ r ↔ h ∈ (∅ : gset BlockHash) ∨ ∃ b, b ∈ ids ∧ in_use (w_fs w) b h) as (r & w' & Hr & Hq & Hh).
  2: { exists r, w'. split; [done|]. split; [done|]. set_solver. }
  generalize (∅ : gset BlockHash) as acc. revert w Hf Hcl Hco.
  induction ids as [|b ids IH]; intros w Hf Hcl Hco acc; cbn [try_fold].
  { exists acc, w. split; [done|]. split; [done|]. intros h. split; [by left|]. by intros [?|(b & []%not_elem_of_nil & _)]. }
  destruct (band_references_run b w Hf Hcl) as (hs & w1 & Hr1 & [Hfs1 Hfr1] & Hin1); [apply Hco; by left|].
  erewrite try_run by (erewrite try_run by exact Hr1; done).
  destruct (IH w1 (fault_free_frame _ _ Hfr1 Hf) ltac:(by rewrite Hfs1)) with (acc := acc ∪ list_to_set hs)
    as (r & w' & Hr & [Hfs2 Hfr2] & Hin).
  { intros b' Hb'. rewrite Hfs1. apply Hco. by right. }
  exists r, w'. split; [done|]. split; [split; [congruence|by etrans]|]. intros h. rewrite Hin, Hfs1, elem_of_union, elem_of_list_to_set, Hin1.
  setoid_rewrite elem_of_cons. naive_solver.
Qed.
End references.

(** ** The loops *)

Section loops.
Context `{Ext, !HashLaws, !HexLaws} `{BuildCfg} `{Codecs} (a : Archive).
#[local] Abbreviation bd := (ar_block_dir a).

(** The bytes that some blocks take *)
Definition block_bytes (fs : Fs) (l : list BlockHash) : N :=
  foldr (λ h n, match fs !! block_path bd h with Some (NFile c _) => BlockDir.len c + n | _ => n end)%N 0%N l.

Lemma measure_run l total w :
  fault_free w → Forall (is_block bd (w_fs w)) l → (total + block_bytes (w_fs w) l < u64_modulus)%N →
  ∃ w', fold_st (λ total hash, r ← BlockDir.compressed_size bd hash; add_u64 total (unwrap_or 0%N r)) total l w
    = (Ret (total + block_bytes (w_fs w) l)%N, w') ∧ quiet w w'.
Proof.
  revert total w. induction l as [|h l IH]; intros total w Hf Hl Hb; cbn [fold_st block_bytes foldr] in *.
  { exists w. by rewrite N.add_0_r. }
  apply Forall_cons in Hl as [(Hfit & c & m & Hc) Hl]. rewrite Hc in *.
  destruct (compressed_size_run bd h w c m Hf Hfit Hc) as (w1 & Hr1 & [Hfs1 Hfr1]).
  change (foldr _ 0%N l) with (block_bytes (w_fs w) l) in *.
  destruct (IH (total + BlockDir.len c)%N w1) as (w2 & Hr2 & [Hfs2 Hfr2]).
  { by eapply fault_free_frame. }
  { by rewrite Hfs1. }
  { rewrite Hfs1. lia. }
  exists w2. split; [|split; [congruence|by etrans]].
  erewrite bind_run; [rewrite Hr2, Hfs1; do 2 f_equal; lia|].
  rewrite (bind_run _ _ _ _ _ Hr1). cbn [unwrap_or]. apply add_u64_small. lia.
Qed.

(** Removing one file *)
Lemma remove_file_run (t : Transport) s w c m :
  plain s → fault_free w → w_fs w !! path_join (tr_path t) s = Some (NFile c m) →
  ∃ w', Transport.remove_file t s w = (Ret (Ok tt), w') ∧ fault_free w' ∧
    w_fs w' = delete (path_join (tr_path t) s) (w_fs w) ∧ w_errors w' = w_errors w.
Proof.
  intros Hs Hf Hc. rewrite tr_remove_file. unfold Local.remove_file, sys_remove_file.
  rewrite (bind_run _ _ _ _ _ (full_path_run t s w Hs)). unfold mbind, ST_bind. rewrite sys_write_run by done.
  unfold fs_remove_file. rewrite Hc. by eexists.
Qed.

(** The file system without what satisfies [P] *)
Definition without (P : Path → Prop) (fs fs' : Fs) : Prop :=
  (∀ p, P p → fs' !! p = None) ∧ (∀ p, ¬ P p → fs' !! p = fs !! p).

Lemma delete_block_run h w :
  fault_free w → is_block bd (w_fs w) h →
  ∃ w', BlockDir.delete_block bd h w = (Ret (Ok tt), w') ∧ fault_free w' ∧
    w_fs w' = delete (block_path bd h) (w_fs w) ∧ w_errors w' = w_errors w.
Proof.
  intros Hf (Hfit & c & m & Hc). unfold BlockDir.delete_block, BlockDir.update. erewrite bind_run by done. erewrite bind_run by done.
  match goal with |- context [(?m ≫= _) ?w0] => set (w1 := w0) end.
  rewrite (bind_run _ _ _ _ _ (block_relpath_run h w1 Hfit)).
  pose proof (block_names_valid h Hfit) as Hv.
  destruct (remove_file_run (bd_transport bd) (join_with "/" (block_names h)) w1 c m) as (w2 & Hr & Hf2 & Hfs & He).
  { by apply names_plain. }
  { done. }
  { rewrite bd_join by done. exact Hc. }
  rewrite bd_join in Hfs by done. exists w2. by rewrite (bind_run _ _ _ _ _ Hr).
Qed.

(** Deleting blocks that are there *)
Lemma delete_blocks_run l n w :
  fault_free w → NoDup l → Forall (is_block bd (w_fs w)) l →
  ∃ w', fold_st (λ n hash, r ← BlockDir.delete_block bd hash; mret (match r with Ok _ => n | Err _ => (n + 1)%N end)) n l w
    = (Ret n, w') ∧ fault_free w' ∧ w_errors w' = w_errors w ∧
    without (λ p, ∃ h, h ∈ l ∧ p = block_path bd h) (w_fs w) (w_fs w').
Proof.
  intros Hf Hnd. revert w Hf. induction Hnd as [|h l Hh Hnd IH]; intros w Hf Hl; cbn [fold_st].
  { exists w. split; [done|]. split; [done|]. split; [done|]. split; [|done]. by intros p (h & []%not_elem_of_nil & _). }
  apply Forall_cons in Hl as [Hb Hl]. destruct (delete_block_run h w Hf Hb) as (w1 & Hr1 & Hf1 & Hfs1 & He1).
  erewrite bind_run by (by rewrite (bind_run _ _ _ _ _ Hr1)).
  rewrite Forall_forall in Hl. destruct (IH w1 Hf1) as (w2 & Hr2 & Hf2 & He2 & Hd2 & Hs2).
  { apply Forall_forall. intros k Hk. destruct (Hl k Hk) as (Hfit & c & m & Hc). split; [done|]. exists c, m.
    rewrite Hfs1, lookup_delete_ne; [done|]. intros Heq. apply (block_path_inj bd) in Heq; [by subst|apply Hb|done]. }
  exists w2. split; [done|]. split; [done|]. split; [congruence|]. split.
  - intros p (k & [->|Hk]%elem_of_cons & ->).
    + rewrite Hs2, Hfs1 by (intros (k & Hk & Heq); apply (block_path_inj bd) in Heq; [by subst|apply Hb|by apply Hl]).
      apply lookup_delete_eq.
    + apply Hd2. by exists k.
  - intros p Hp. rewrite Hs2, Hfs1.
    + rewrite lookup_delete_ne; [done|]. intros <-. apply Hp. exists h. split; [by left|done].
    + intros (k & Hk & ->). apply Hp. exists k. split; [by right|done].
Qed.
End loops.

(** ** Deleting bands *)

Section bands.
Context `{Ext} `{BuildCfg} `{Codecs} (a : Archive).

Lemma delete_tree_without p (fs : Fs) : without (λ q, p `prefix_of` q) fs (fs_delete_all (fs_subtree p fs) fs).
Proof.
  split; intros q Hq; rewrite delete_all_lookup; case_decide as Hd; rewrite elem_of_fs_subtree in Hd.
  - done.
  - destruct (fs !! q) eqn:E; [|done]. destruct Hd. split; [done|by eexists].
  - by destruct Hd.
  - done.
Qed.

Lemma band_delete_run b w m :
  fault_free w → w_fs w !! band_path a b = Some (NDir m) →
  ∃ w', Band.delete a b w = (Ret (Ok tt), w') ∧ frame w w' ∧
    without (λ q, band_path a b `prefix_of` q) (w_fs w) (w_fs w').
Proof.
  intros Hf Hd. unfold Band.delete. rewrite tr_remove_dir_all.
  assert (valid_names [BandId.to_string b]) as Hv by (repeat constructor; apply bandid_valid_name).
  destruct (remove_dir_all_run (ar_transport a) (BandId.to_string b) w m (names_plain _ Hv) Hf) as (w' & Hr & Hfr & Hfs).
  { by rewrite (path_join_names _ _ Hv). }
  rewrite (path_join_names _ _ Hv) in Hfs. exists w'. split; [by rewrite (bind_run _ _ _ _ _ Hr)|]. split; [done|].
  rewrite Hfs. apply delete_tree_without.
Qed.

Lemma band_path_prefix b c q : band_path a b `prefix_of` (band_path a c ++ q)%list → b = c.
Proof.
  intros [k Hk]. unfold band_path in Hk. rewrite <-!app_assoc in Hk. apply app_inv_head in Hk.
  apply (f_equal head), (inj Some) in Hk. symmetry. by apply bandid_to_string_inj.
Qed.

(** Deleting several bands *)
Lemma delete_bands_run ids n w :
  fault_free w → NoDup ids → (∀ b, b ∈ ids → ∃ m, w_fs w !! band_path a b = Some (NDir m)) →
  ∃ w', try_fold (λ n band_id, _ ←? Band.delete a band_id; mret (Ok (n + 1)%N)) n ids w
    = (Ret (Ok (n + N.of_nat (length ids))%N), w') ∧ frame w w' ∧
    without (λ q, ∃ b, b ∈ ids ∧ band_path a b `prefix_of` q) (w_fs w) (w_fs w').
Proof.
  intros Hf Hnd. revert n w Hf. induction Hnd as [|b ids Hb Hnd IH]; intros n w Hf Hd; cbn [try_fold].
  { exists w. rewrite N.add_0_r. split; [done|]. split; [done|]. split; [|done]. by intros p (h & []%not_elem_of_nil & _). }
  destruct (Hd b ltac:(by left)) as [m Hm]. destruct (band_delete_run b w m Hf Hm) as (w1 & Hr1 & Hfr1 & [Hg1 Hs1]).
  erewrite try_run by (by rewrite (try_run _ _ _ _ _ Hr1)).
  destruct (IH (n + 1)%N w1) as (w2 & Hr2 & Hfr2 & [Hg2 Hs2]).
  { by eapply fault_free_frame. }
  { intros c Hc. rewrite Hs1; [apply Hd; by right|]. intros Hx. rewrite <-(app_nil_r (band_path a c)) in Hx.
    apply band_path_prefix in Hx as ->. done. }
  exists w2. split; [rewrite Hr2; cbn [length]; do 3 f_equal; lia|]. split; [by etrans|]. split.
  - intros p (c & [->|Hc]%elem_of_cons & Hp); [|apply Hg2; by exists c].
    rewrite Hs2; [by apply Hg1|]. intros (c & Hc & Hcp). destruct Hp as [k ->]. by apply band_path_prefix in Hcp as ->.
  - intros p Hp. rewrite Hs2, Hs1; [done| |].
    + intros Hx. apply Hp. exists b. split; [by left|done].
    + intros (c & Hc & Hx). apply Hp. exists c. split; [by right|done].
Qed.
End bands.

(** ** What other files do not matter *)

Section elsewhere.
Context `{Ext, !HashLaws, !HexLaws} `{BuildCfg} `{Codecs} (a : Archive).

Lemma index_root_same b fs fs' :
  same_below (band_path a b) fs fs' → fs' !! tr_path (index_transport a b) = fs !! tr_path (index_transport a b).
Proof. intros Hs. rewrite index_path_in. apply Hs. by apply prefix_app_r. Qed.

Lemma in_use_same b fs fs' h : same_below (band_path a b) fs fs' → in_use a fs b h → in_use a fs' b h.
Proof.
  intros Hs (n & es & e & ad & ((c & m & json & Hp & Hc) & Hmax & (m1 & Hd1) & (m2 & Hd2)) & Hrest).
  exists n, es, e, ad. split; [|done]. split; [exists c, m, json; split; [|done]; unfold hunk_path in *; by rewrite (index_same a b fs)|].
  split; [done|]. split; [exists m1; by rewrite (index_root_same b fs)|].
  exists m2. unfold hunk_subdir in *. by rewrite (index_same a b fs).
Qed.

Lemma collectable_same b fs fs' : same_below (band_path a b) fs fs' → collectable a fs b → collectable a fs' b.
Proof.
  intros Hs [(c & m & head & Hh & Hj) [mr Hr] Hn Hi]. split.
  - exists c, m, head. rewrite head_path_in in *. split; [|done]. rewrite Hs; [done|]. by apply prefix_app_r.
  - exists mr. by rewrite (index_root_same b fs).
  - intros d md. rewrite (index_same a b fs) by done. apply Hn.
  - intros d md f c' m' n Hd Hf Hp. rewrite (index_same a b fs) in Hd by done.
    assert (valid_names [d]) as Hv by (repeat constructor; by eapply Hn).
    rewrite (path_join_names _ [d] Hv), <-app_assoc, (index_same a b fs), app_assoc, <-(path_join_names _ [d] Hv) in Hf by done.
    destruct (Hi d md f c' m' n Hd Hf Hp) as (es & (c0 & m0 & json & Hst & Hrest) & Hve). exists es. split; [|done].
    exists c0, m0, json. split; [|done]. unfold hunk_path in *. by rewrite (index_same a b fs).
Qed.

Lemma is_block_same (bd : BlockDir) fs fs' h : same_below (tr_path (bd_transport bd)) fs fs' → is_block bd fs h → is_block bd fs' h.
Proof.
  intros Hs (Hfit & c & m & Hc). split; [done|]. exists c, m. unfold block_path in *. rewrite Hs; [done|]. by apply prefix_app_r.
Qed.

Lemma tidy_same (bd : BlockDir) fs fs' : same_below (tr_path (bd_transport bd)) fs fs' → tidy_blocks bd fs → tidy_blocks bd fs'.
Proof.
  intros Hs [[m Hm] Hd Hf]. assert (∀ q, fs' !! (tr_path (bd_transport bd) ++ q)%list = fs !! (tr_path (bd_transport bd) ++ q)%list) as Hq
    by (intros q; apply Hs; by apply prefix_app_r).
  split; [exists m; by rewrite Hs|intros d md; rewrite Hq; apply Hd|intros d f c mf h; rewrite Hq; apply Hf].
Qed.

(** The last band, if there is one *)
Definition is_last (fs : Fs) (o : option BandId) : Prop :=
  match o with Some x => newest a fs x | None => ∀ b, ¬ listed a fs b end.

Lemma is_last_unique fs o o' : is_last fs o → is_last fs o' → o = o'.
Proof.
  destruct o as [x|], o' as [y|]; simpl; intros Hx Hy; [|by destruct (Hy x); apply Hx|by destruct (Hx y); apply Hy|done].
  f_equal. apply (newest_unique a fs y x); [done|apply Hx|]. by apply Hx, Hy.
Qed.

Lemma newest_listed fs fs' : (∀ b, listed a fs b ↔ listed a fs' b) → ∀ x, newest a fs x ↔ newest a fs' x.
Proof. intros Hs x. unfold newest. rewrite Hs. by setoid_rewrite Hs. Qed.

Lemma is_last_listed fs fs' : (∀ b, listed a fs b ↔ listed a fs' b) → ∀ o, is_last fs o ↔ is_last fs' o.
Proof. intros Hs [x|]; simpl; [by apply newest_listed|]. by setoid_rewrite Hs. Qed.

(** Deleting something other than a directory *)
Lemma fs_closed_delete (fs : Fs) (p : list string) n : fs_closed fs → fs !! p = Some n → is_dir_node (Some n) = false → fs_closed (delete p fs).
Proof.
  intros Hcl Hn Hd p' q Hq [m Hm]. apply lookup_delete_Some in Hm as [_ Hm].
  assert (is_dir_node (fs !! p') = true) as Hp' by (by eapply Hcl).
  rewrite lookup_delete_ne; [done|]. intros <-. by rewrite Hn, Hd in Hp'.
Qed.

(** The file system with the lock in it *)
Context (fs fs1 : Fs) (Hlock : only_at (lock_path a) fs fs1).

Lemma lock_elsewhere d : ¬ d `prefix_of` lock_path a → same_below d fs fs1.
Proof. intros Hd p Hp. apply Hlock. by intros ->. Qed.

Lemma lock_not_in n : n ≠ GC_LOCK → ¬ (archive_path a ++ [n])%list `prefix_of` lock_path a.
Proof.
  intros Hn [k Hk]. unfold lock_path in Hk. rewrite <-app_assoc in Hk. apply app_inv_head in Hk. by injection Hk.
Qed.

Lemma lock_band_same b : same_below (band_path a b) fs fs1.
Proof. apply lock_elsewhere, lock_not_in. intros Hb. apply (f_equal (String.get 0)) in Hb. by vm_compute in Hb. Qed.

Lemma lock_listed b : (∃ n, fs1 !! lock_path a = Some n ∧ node_type n = ft_file) → listed a fs1 b ↔ listed a fs b.
Proof.
  intros (nd & Hnd & Hk). split; intros (name & m & Hn & Hu & Hb); exists name, m.
  - split; [|done]. rewrite <-Hlock; [done|]. intros Hx. assert (fs1 !! lock_path a = Some (NDir m)) as Hm by (rewrite <-Hx; exact Hn). rewrite Hnd in Hm. by injection Hm as ->.
  - split; [|done]. rewrite Hlock; [done|]. unfold lock_path. intros Hx%app_inv_head. injection Hx as ->. by vm_compute in Hb.
Qed.
End elsewhere.

(** ** Taking and checking the lock *)

Section locking.
Context `{Ext} `{BuildCfg} `{Codecs} (a : Archive).

Lemma last_band_is_last w :
  fault_free w → is_dir_node (w_fs w !! archive_path a) = true →
  ∃ o w', Archive.last_band_id a w = (Ret (Ok o), w') ∧ quiet w w' ∧ is_last a (w_fs w) o.
Proof. intros Hf Hd. destruct (last_band_run a w Hf Hd) as (o & w' & Hr & Hq & Ho). by exists o, w'. Qed.

Lemma lock_names : valid_names [GC_LOCK].
Proof. by repeat constructor. Qed.

Lemma lock_join : path_join (tr_path (ar_transport a)) GC_LOCK = lock_path a.
Proof. apply (path_join_names _ _ lock_names). Qed.

Lemma no_lock_run w :
  fault_free w → fs_closed (w_fs w) → is_dir_node (w_fs w !! archive_path a) = true → w_fs w !! lock_path a = None →
  ∃ w', Transport.is_file (ar_transport a) GC_LOCK w = (Ret (Ok false), w') ∧ quiet w w'.
Proof.
  intros Hf Hcl Hd Hl. destruct (is_file_run (ar_transport a) GC_LOCK w (names_plain _ lock_names) Hf) as (w' & Hr & Hq).
  rewrite lock_join, Hl in Hr. rewrite decide_True in Hr; [by exists w'|].
  apply (absent_below _ (archive_path a) [GC_LOCK]); [by apply fs_closed_wf|done|].
  intros k Hk. simpl in Hk. replace k with 0 by lia. rewrite app_nil_r. by right.
Qed.

Lemma lock_new_run w :
  fault_free w → fs_closed (w_fs w) → is_dir_node (w_fs w !! archive_path a) = true → w_fs w !! lock_path a = None →
  (∀ x, newest a (w_fs w) x → closed a (w_fs w) x) →
  ∃ o m w', GarbageCollectionLock.new a w = (Ret (Ok (MkGcLock a o)), w') ∧ frame w w' ∧ is_last a (w_fs w) o ∧
    w_fs w' = <[lock_path a := NFile GarbageCollectionLock.lock_content m]> (w_fs w).
Proof.
  intros Hf Hcl Hd Hl Hc. destruct (last_band_is_last w Hf Hd) as (o & w1 & Hr1 & [Hfs1 Hfr1] & Ho).
  pose proof (fault_free_frame _ _ Hfr1 Hf) as Hf1.
  assert (∃ w2, (match o with
       | Some b => closed ←? Archive.band_is_closed a b;
                   mret (if (closed : bool) then Ok tt else Err (DeleteWithIncompleteBackup b))
       | None => mret (Ok tt)
       end) w1 = (Ret (Ok tt), w2) ∧ quiet w1 w2) as (w2 & Hr2 & [Hfs2 Hfr2]).
  { destruct o as [x|]; [|by exists w1]. destruct (Hc x Ho) as (c & m & Ht).
    assert (valid_names [BandId.to_string x; BAND_TAIL_FILENAME]) as Hv by (repeat constructor; apply bandid_valid_name).
    destruct (is_file_run (ar_transport a) _ w1 (names_plain _ Hv) Hf1) as (w2 & Hr2 & Hq). exists w2. split; [|done].
    change (join_with "/" [BandId.to_string x; BAND_TAIL_FILENAME]) with (BandId.to_string x +:+ "/" +:+ BAND_TAIL_FILENAME) in Hr2.
    rewrite band_file_path in Hr2 by done. fold (tail_path a x) in Hr2. rewrite Hfs1, Ht in Hr2.
    unfold Archive.band_is_closed. erewrite try_run by (by rewrite (bind_run _ _ _ _ _ Hr2)). done. }
  pose proof (fault_free_frame _ _ Hfr2 Hf1) as Hf2. rewrite <-Hfs1, <-Hfs2 in Hcl, Hd, Hl.
  destruct (no_lock_run w2 Hf2 Hcl Hd Hl) as (w3 & Hr3 & [Hfs3 Hfr3]).
  destruct (write_new_run (ar_transport a) GC_LOCK GarbageCollectionLock.lock_content w3) as (w4 & m & Hr4 & Hfs4 & Hfr4).
  { apply (names_plain _ lock_names). }
  { by eapply fault_free_frame. }
  { by rewrite lock_join, Hfs3. }
  { rewrite lock_join, Hfs3. unfold lock_path. by rewrite parent_snoc. }
  rewrite lock_join, Hfs3, Hfs2, Hfs1 in Hfs4. exists o, m, w4. split; [|split; [by do 3 (etrans; [eassumption|])|done]].
  unfold GarbageCollectionLock.new. rewrite (try_run _ _ _ _ _ Hr1), (try_run _ _ _ _ _ Hr2), (bind_run _ _ _ _ _ Hr3).
  cbn [unwrap_or]. rewrite tr_write_file. by rewrite (bind_run _ _ _ _ _ Hr4).
Qed.

(** The lock can be taken: it is free, or it may be broken; and the newest band is
    finished. *)
Record lockable (options : DeleteOptions) (fs : Fs) : Prop := {
  lk_dir : is_dir_node (fs !! archive_path a) = true;
  lk_free : fs !! lock_path a = None ∨ break_lock options = true ∧ ∃ c m, fs !! lock_path a = Some (NFile c m);
  lk_closed : ∀ x, newest a fs x → closed a fs x
}.

Lemma acquire_run options w :
  fault_free w → fs_closed (w_fs w) → lockable options (w_fs w) →
  ∃ o m w', acquire a options w = (Ret (Ok (MkGcLock a o)), w') ∧ fault_free w' ∧ w_errors w' = w_errors w ∧
    is_last a (w_fs w) o ∧ w_fs w' = <[lock_path a := NFile GarbageCollectionLock.lock_content m]> (w_fs w).
Proof.
  intros Hf Hcl [Hd Hl Hc]. unfold acquire.
  assert (w_fs w !! lock_path a = None → ∃ o m w', GarbageCollectionLock.new a w = (Ret (Ok (MkGcLock a o)), w') ∧ fault_free w' ∧
    w_errors w' = w_errors w ∧ is_last a (w_fs w) o ∧
    w_fs w' = <[lock_path a := NFile GarbageCollectionLock.lock_content m]> (w_fs w)) as Hnew.
  { intros Hn. destruct (lock_new_run w Hf Hcl Hd Hn Hc) as (o & m & w' & Hr & Hfr & Ho & Hfs). exists o, m, w'.
    split; [done|]. split; [by eapply fault_free_frame|]. split; [apply Hfr|done]. }
  destruct (break_lock options) eqn:Eb; [|destruct Hl as [Hl|[? _]]; [by apply Hnew|done]].
  unfold GarbageCollectionLock.break_lock, GarbageCollectionLock.is_locked.
  destruct Hl as [Hl|[_ (c & m0 & Hl)]].
  - destruct (no_lock_run w Hf Hcl Hd Hl) as (w1 & Hr1 & [Hfs1 Hfr1]). erewrite try_run by (by rewrite (bind_run _ _ _ _ _ Hr1)).
    erewrite bind_run by done. pose proof (fault_free_frame _ _ Hfr1 Hf) as Hf1.
    rewrite <-Hfs1 in Hcl, Hd, Hc, Hl. destruct (lock_new_run w1 Hf1 Hcl Hd Hl Hc) as (o & m & w' & Hr & Hfr & Ho & Hfs).
    exists o, m, w'. rewrite Hfs1 in Ho, Hfs. split; [done|]. split; [by eapply fault_free_frame|].
    split; [by rewrite (frame_errors _ _ Hfr), (frame_errors _ _ Hfr1)|done].
  - destruct (is_file_run (ar_transport a) GC_LOCK w (names_plain _ lock_names) Hf) as (w1 & Hr1 & Hfs1 & Hfr1).
    rewrite lock_join, Hl in Hr1. erewrite try_run by (by rewrite (bind_run _ _ _ _ _ Hr1)).
    pose proof (fault_free_frame _ _ Hfr1 Hf) as Hf1.
    destruct (remove_file_run (ar_transport a) GC_LOCK w1 c m0 (names_plain _ lock_names) Hf1) as (w2 & Hr2 & Hf2 & Hfs2 & He2);
      [by rewrite lock_join, Hfs1|]. rewrite lock_join, Hfs1 in Hfs2. cbn iota. rewrite (bind_run _ _ _ _ _ Hr2).
    assert (only_at (lock_path a) (w_fs w2) (w_fs w)) as Ho.
    { intros p Hp. rewrite Hfs2, lookup_delete_ne; [done|]. by intros <-. }
    assert (∀ b, listed a (w_fs w) b ↔ listed a (w_fs w2) b) as Hsame by (intros b; apply lock_listed; [done|by eexists]).
    destruct (lock_new_run w2 Hf2) as (o & m & w' & Hr & Hfr & Hlast & Hfs).
    + rewrite Hfs2. by apply (fs_closed_delete (w_fs w) (lock_path a) (NFile c m0)).
    + rewrite Hfs2, lookup_delete_ne; [done|]. apply app_snoc_ne.
    + rewrite Hfs2. apply lookup_delete_eq.
    + intros x Hx. apply (newest_listed a _ _ Hsame) in Hx. destruct (Hc x Hx) as (c' & m' & Ht). exists c', m'.
      rewrite <-Ho; [done|]. rewrite tail_path_in. intros Heq. apply (lock_not_in a (BandId.to_string x)).
      * intros Hb. apply (f_equal (String.get 0)) in Hb. by vm_compute in Hb.
      * rewrite <-Heq. by apply prefix_app_r.
    + exists o, m, w'. split; [done|]. split; [by eapply fault_free_frame|].
      split; [by rewrite (frame_errors _ _ Hfr), He2, (frame_errors _ _ Hfr1)|].
      split; [by apply (is_last_listed a _ _ Hsame)|]. by rewrite Hfs, Hfs2, insert_delete_eq.
Qed.
End locking.

(** ** A whole deletion *)

Section whole.
Context `{Ext, !GlobLaws, !HashLaws, !HexLaws} `{BuildCfg} `{Codecs}.
Context (a : Archive) (Ha : tr_path (bd_transport (ar_block_dir a)) = (archive_path a ++ [BLOCK_DIR])%list).
#[local] Abbreviation bd := (ar_block_dir a).

(** The archive is in order: the blocks are where they belong, and every band that is
    kept can be read. *)
Record in_order (fs : Fs) (ids : list BandId) : Prop := {
  io_closed : fs_closed fs;
  io_blocks : tidy_blocks bd fs;
  io_kept : ∀ b, listed a fs b → b ∉ ids → collectable a fs b;
  io_given : ∀ b, b ∈ ids → ∃ m, fs !! band_path a b = Some (NDir m);
  io_bytes : ∀ l, NoDup l → Forall (is_block bd fs) l → (block_bytes a fs l < u64_modulus)%N
}.

(** A block that no band refers to but those that are to be deleted *)
Definition garbage (fs : Fs) (ids : list BandId) (h : BlockHash) : Prop :=
  is_block bd fs h ∧ ∀ b, listed a fs b → b ∉ ids → ¬ in_use a fs b h.

(** What a deletion takes away *)
Definition doomed (fs : Fs) (ids : list BandId) (p : Path) : Prop :=
  (∃ b, b ∈ ids ∧ band_path a b `prefix_of` p) ∨ (∃ h, garbage fs ids h ∧ p = block_path bd h).

(** What it says that it did, or would do *)
Definition delete_stats (options : DeleteOptions) (fs : Fs) (ids : list BandId) (l : list BlockHash) : DeleteStats :=
  let n := N.of_nat (length l) in
  if dry_run options then MkDeleteStats 0 n (block_bytes a fs l) 0 0
  else MkDeleteStats (N.of_nat (length ids)) n (block_bytes a fs l) 0 n.

Lemma band_not_block b h : ¬ band_path a b `prefix_of` block_path bd h.
Proof.
  intros [k Hk]. unfold block_path, band_path in Hk. rewrite Ha, <-!app_assoc in Hk. apply app_inv_head in Hk.
  apply (f_equal head), (inj Some) in Hk. discriminate Hk.
Qed.

Lemma list_bands_run w :
  fault_free w → is_dir_node (w_fs w !! archive_path a) = true →
  ∃ keep w', Archive.list_band_ids a w = (Ret (Ok keep), w') ∧ quiet w w' ∧ ∀ b, b ∈ keep ↔ listed a (w_fs w) b.
Proof.
  intros Hf Hd. destruct (band_ids_run a w Hf Hd) as (ids & w' & Hr & Hfs & Hfr & Hids).
  exists (sort_by BandId.cmp ids), w'. split; [unfold Archive.list_band_ids; by rewrite (bind_run _ _ _ _ _ Hr)|].
  split; [done|]. intros b. by rewrite sort_by_perm.
Qed.

Lemma check_run_same o w :
  fault_free w → is_dir_node (w_fs w !! archive_path a) = true → is_last a (w_fs w) o →
  ∃ w', GarbageCollectionLock.check (MkGcLock a o) w = (Ret (Ok tt), w') ∧ quiet w w'.
Proof.
  intros Hf Hd Ho. destruct (last_band_is_last a w Hf Hd) as (o' & w' & Hr & Hq & Ho'). exists w'. split; [|done].
  unfold GarbageCollectionLock.check. cbn [gl_archive gl_band_id]. rewrite (try_run _ _ _ _ _ Hr).
  by rewrite decide_True by (by eapply is_last_unique).
Qed.

(** The part of a deletion during which the lock is held *)
Lemma delete_locked_run o ids options w :
  fault_free w → in_order (w_fs w) ids → NoDup ids → is_dir_node (w_fs w !! archive_path a) = true → is_last a (w_fs w) o →
  ∃ l w', Gc.delete_locked a (MkGcLock a o) ids options w = (Ret (Ok (delete_stats options (w_fs w) ids l)), w') ∧
    NoDup l ∧ (∀ h, h ∈ l ↔ garbage (w_fs w) ids h) ∧ fault_free w' ∧ w_errors w' = w_errors w ∧
    without (λ p, dry_run options = false ∧ doomed (w_fs w) ids p) (w_fs w) (w_fs w').
Proof.
  intros Hf [Hcl Hb Hk Hg Hbytes] Hnd Hd Ho. set (fs := w_fs w) in *.
  destruct (list_bands_run w Hf Hd) as (keep & w1 & Hr1 & [Hfs1 Hfr1] & Hkeep).
  pose proof (fault_free_frame _ _ Hfr1 Hf) as Hf1. fold fs in Hkeep, Hfs1.
  destruct (referenced_blocks_run a (filter (λ b, b ∉ ids) keep) w1 Hf1) as (refd & w2 & Hr2 & [Hfs2 Hfr2] & Href).
  { by rewrite Hfs1. }
  { intros b [Hb1 Hb2%Hkeep]%list_elem_of_filter. rewrite Hfs1. by apply Hk. }
  pose proof (fault_free_frame _ _ Hfr2 Hf1) as Hf2. rewrite Hfs1 in Href, Hfs2.
  destruct (blocks_run bd w2 Hf2) as (present & w3 & Hr3 & [Hfs3 Hfr3] & Hpres); [by rewrite Hfs2..|].
  pose proof (fault_free_frame _ _ Hfr3 Hf2) as Hf3. rewrite Hfs2 in Hpres, Hfs3.
  set (l := elements ((list_to_set present : gset BlockHash) ∖ refd)).
  assert (NoDup l) as Hl by apply NoDup_elements.
  assert (∀ h, h ∈ l ↔ garbage fs ids h) as Hgar.
  { intros h. unfold l, garbage. rewrite elem_of_elements, elem_of_difference, elem_of_list_to_set, Hpres, Href.
    setoid_rewrite list_elem_of_filter. setoid_rewrite Hkeep. naive_solver. }
  assert (Forall (is_block bd fs) l) as Hblocks by (apply Forall_forall; intros h Hh%Hgar; apply Hh).
  destruct (measure_run a l 0 w3 Hf3) as (w4 & Hr4 & [Hfs4 Hfr4]); [by rewrite Hfs3|rewrite Hfs3; by apply Hbytes|].
  pose proof (fault_free_frame _ _ Hfr4 Hf3) as Hf4. rewrite Hfs3 in Hfs4. rewrite Hfs3, N.add_0_l in Hr4.
  exists l. unfold Gc.delete_locked. rewrite (try_run _ _ _ _ _ Hr1), (try_run _ _ _ _ _ Hr2), (try_run _ _ _ _ _ Hr3).
  fold l. cbv zeta. unfold Gc.measure_loop. rewrite (bind_run _ _ _ _ _ Hr4). unfold delete_stats.
  assert (w_errors w4 = w_errors w) as He4 by (by rewrite (frame_errors _ _ Hfr4), (frame_errors _ _ Hfr3), (frame_errors _ _ Hfr2), (frame_errors _ _ Hfr1)).
  destruct (dry_run options).
  { exists w4. split; [done|]. split; [done|]. split; [done|]. split; [done|]. split; [done|]. rewrite Hfs4. split; [by intros p [? _]|done]. }
  destruct (check_run_same o w4 Hf4) as (w5 & Hr5 & [Hfs5 Hfr5]); [by rewrite Hfs4..|].
  pose proof (fault_free_frame _ _ Hfr5 Hf4) as Hf5. rewrite Hfs4 in Hfs5.
  destruct (delete_bands_run a ids 0 w5 Hf5 Hnd) as (w6 & Hr6 & Hfr6 & [Hgone6 Hsame6]); [by rewrite Hfs5|].
  pose proof (fault_free_frame _ _ Hfr6 Hf5) as Hf6. rewrite Hfs5 in Hsame6.
  destruct (delete_blocks_run a l 0 w6 Hf6 Hl) as (w7 & Hr7 & Hf7 & He7 & [Hgone7 Hsame7]).
  { apply Forall_forall. intros h Hh. rewrite Forall_forall in Hblocks. destruct (Hblocks h Hh) as (Hfit & c & m & Hc).
    split; [done|]. exists c, m. rewrite Hsame6; [done|]. intros (b & _ & Hx). by apply band_not_block in Hx. }
  exists w7. split; [|split; [done|split; [done|split; [done|split]]]].
  - rewrite (try_run _ _ _ _ _ Hr5). unfold Gc.delete_band_loop. rewrite (try_run _ _ _ _ _ Hr6).
    unfold Gc.delete_block_loop. rewrite (bind_run _ _ _ _ _ Hr7). by rewrite N.sub_0_r, N.add_0_l.
  - by rewrite He7, (frame_errors _ _ Hfr6), (frame_errors _ _ Hfr5).
  - split.
    + intros p [_ [(b & Hin & Hp)|(h & Hh%Hgar & ->)]]; [|apply Hgone7; by exists h].
      rewrite Hsame7; [apply Hgone6; by exists b|]. intros (h & _ & ->). by apply band_not_block in Hp.
    + intros p Hp. rewrite Hsame7, Hsame6; [done| |].
      * intros Hx. apply Hp. split; [done|by left].
      * intros (h & Hh%Hgar & ->). apply Hp. split; [done|]. right. by exists h.
Qed.
End whole.

(** ** The lock does not matter *)

Section locked.
Context `{Ext, !GlobLaws, !HashLaws, !HexLaws} `{BuildCfg} `{Codecs}.
Context (a : Archive) (Ha : tr_path (bd_transport (ar_block_dir a)) = (archive_path a ++ [BLOCK_DIR])%list).
#[local] Abbreviation bd := (ar_block_dir a).
Context (fs fs1 : Fs) (c : string) (m : Meta) (Hfs1 : fs1 = <[lock_path a := NFile c m]> fs).

Lemma lock_only : only_at (lock_path a) fs fs1.
Proof. intros p Hp. rewrite Hfs1, lookup_insert_ne; [done|]. by intros <-. Qed.

Lemma locked_listed b : listed a fs1 b ↔ listed a fs b.
Proof. apply lock_listed; [apply lock_only|]. exists (NFile c m). split; [|done]. by rewrite Hfs1, lookup_insert_eq. Qed.

Lemma blocks_same : same_below (tr_path (bd_transport bd)) fs fs1.
Proof. rewrite Ha. apply (lock_elsewhere a fs fs1 lock_only). by apply lock_not_in. Qed.

Lemma locked_in_use b h : in_use a fs1 b h ↔ in_use a fs b h.
Proof. split; apply in_use_same; [apply same_below_sym|]; apply lock_band_same, lock_only. Qed.

Lemma locked_is_block h : is_block bd fs1 h ↔ is_block bd fs h.
Proof. split; apply is_block_same; [apply same_below_sym|]; apply blocks_same. Qed.

Lemma locked_bytes l : block_bytes a fs1 l = block_bytes a fs l.
Proof.
  induction l as [|h l IH]; [done|]. cbn [block_bytes foldr]. fold (block_bytes a fs1 l) (block_bytes a fs l). rewrite IH.
  unfold block_path. rewrite blocks_same; [done|]. by apply prefix_app_r.
Qed.

Lemma locked_garbage ids h : garbage a fs1 ids h ↔ garbage a fs ids h.
Proof. unfold garbage. rewrite locked_is_block. setoid_rewrite locked_listed. by setoid_rewrite locked_in_use. Qed.

Lemma locked_doomed ids p : doomed a fs1 ids p ↔ doomed a fs ids p.
Proof. unfold doomed. by setoid_rewrite locked_garbage. Qed.

Lemma locked_in_order ids :
  is_dir_node (fs !! archive_path a) = true → fs !! lock_path a = None ∨ (∃ c m, fs !! lock_path a = Some (NFile c m)) →
  in_order a fs ids → in_order a fs1 ids.
Proof.
  intros Hd Hl [Hcl Hb Hk Hg Hbytes]. split.
  - assert (lock_path a ≠ []) as Hne by (intros [_ ?]%app_eq_nil; done). rewrite Hfs1.
    assert (is_dir_node (fs !! parent (lock_path a)) = true) as Hp by (unfold lock_path; by rewrite parent_snoc).
    destruct Hl as [Hl|(c0 & m0 & Hl)]; [by apply fs_closed_insert|]. rewrite <-(insert_delete_eq fs).
    apply fs_closed_insert; [by eapply fs_closed_delete|apply lookup_delete_eq|done|].
    rewrite lookup_delete_ne; [done|]. unfold lock_path. rewrite parent_snoc. apply app_snoc_ne.
  - by eapply tidy_same, Hb; apply blocks_same.
  - intros b Hb' Hin. apply (collectable_same a b fs); [apply lock_band_same, lock_only|]. apply Hk; [by apply locked_listed|done].
  - intros b Hin. destruct (Hg b Hin) as [mb Hmb]. exists mb. rewrite (lock_band_same a fs fs1 lock_only b); [done|done].
  - intros l Hl' Hall. rewrite locked_bytes. apply Hbytes; [done|]. eapply Forall_impl; [exact Hall|]. intros h. by apply locked_is_block.
Qed.
End locked.

(** C9: deletion and collection make progress. Without failures, in an archive in order
    whose lock can be taken, [delete_bands] ends in success: the bands that it is given
    are gone, with everything in them, every block that no other band refers to is gone,
    the lock is gone, and everything else, the other blocks and bands among it, is as it
    was; its statistics are right and the monitor is told of no errors. When it is told
    to try only, nothing but a lock that was there is gone, and the statistics say what
    would have been deleted. *)
Theorem delete_bands_exact `{Ext, !GlobLaws, !HashLaws, !HexLaws} `{BuildCfg} `{Codecs}
    (a : Archive) (ids : list BandId) (options : DeleteOptions) (w : World)
    (Ha : tr_path (bd_transport (ar_block_dir a)) = (archive_path a ++ [BLOCK_DIR])%list)
    (Hf : fault_free w) (Hnd : NoDup ids) (Hlock : lockable a options (w_fs w)) (Ho : in_order a (w_fs w) ids) :
  ∃ l w', Gc.delete_bands a ids options w = (Ret (Ok (delete_stats a options (w_fs w) ids l)), w') ∧
    NoDup l ∧ (∀ h, h ∈ l ↔ garbage a (w_fs w) ids h) ∧ w_errors w' = w_errors w ∧
    without (λ p, p = lock_path a ∨ dry_run options = false ∧ doomed a (w_fs w) ids p) (w_fs w) (w_fs w').
Proof.
  pose proof Ho as [Hcl _ _ _ _]. pose proof Hlock as [Hd Hfree _].
  destruct (acquire_run a options w Hf Hcl Hlock) as (o & m & w1 & Hr1 & Hf1 & He1 & Hlast & Hfs1).
  set (fs := w_fs w) in *. pose proof (lock_only a fs (w_fs w1) _ m Hfs1) as Honly.
  destruct (delete_locked_run a Ha o ids options w1 Hf1) as (l & w2 & Hr2 & Hl & Hg & Hf2 & He2 & [Hgone Hsame]).
  { eapply locked_in_order; [done|exact Hfs1|done|naive_solver|done]. }
  { done. }
  { rewrite Hfs1, lookup_insert_ne; [done|]. apply app_snoc_ne. }
  { eapply is_last_listed; [|exact Hlast]. intros b. eapply locked_listed. exact Hfs1. }
  assert (∀ p, doomed a (w_fs w1) ids p ↔ doomed a fs ids p) as Hdoom by (intros p; by eapply locked_doomed).
  assert (¬ doomed a fs ids (lock_path a)) as Hlp.
  { intros [(b & _ & Hp)|(h & _ & Hp)]; [|by apply (block_not_lock a Ha h)]. apply (lock_not_in a (BandId.to_string b)); [|exact Hp].
    intros Hb. apply (f_equal (String.get 0)) in Hb. by vm_compute in Hb. }
  destruct (remove_file_run (ar_transport a) GC_LOCK w2 GarbageCollectionLock.lock_content m (names_plain _ lock_names) Hf2)
    as (w3 & Hr3 & _ & Hfs3 & He3).
  { rewrite lock_join, Hsame, Hfs1 by (rewrite Hdoom; tauto). apply lookup_insert_eq. }
  rewrite lock_join in Hfs3. exists l, w3. split; [|split; [done|split; [|split; [congruence|split]]]].
  - change (Gc.delete_bands a ids options w) with (try (acquire a options) (λ g, Gc.with_guard g (Gc.delete_locked a g ids options)) w).
    rewrite (try_run _ _ _ _ _ Hr1). unfold Gc.with_guard, scoped. rewrite Hr2.
    erewrite bind_run by (unfold GarbageCollectionLock.drop; by rewrite (bind_run _ _ _ _ _ Hr3)).
    unfold delete_stats. by rewrite (locked_bytes a Ha fs (w_fs w1) _ m Hfs1).
  - intros h. rewrite Hg. by eapply locked_garbage.
  - intros p [->|[Hdry Hp]]; rewrite Hfs3; [apply lookup_delete_eq|].
    rewrite lookup_delete_ne; [apply Hgone; by rewrite Hdoom|]. by intros <-.
  - intros p Hp. rewrite Hfs3, lookup_delete_ne, Hsame; [apply Honly|rewrite Hdoom|]; naive_solver.
Qed.

(** ** Examples *)

#[local] Existing Instances sample_ext sample_build sample_glob_laws sample_hash_laws sample_hex_laws sample_codecs.

(** The nodes of the sample archive that have a property that can be computed *)
Lemma sample_gc_check (P : Path * Node → bool) p n :
  forallb P sample_gc_files = true → sample_gc_fs !! p = Some n → P (p, n) = true.
Proof. intros Hall Hp%sample_gc_in. rewrite forallb_forall in Hall. by apply Hall, list_elem_of_In. Qed.

Definition sample_block_paths : list Path :=
  [block_path sample_blockdir sample_hash; block_path sample_blockdir sample_other_hash].

(** The files of the block directory are the two blocks, its directories those of the
    two blocks, and the only other directory of the archive is the band. *)
Definition sample_place (k : Path * Node) : bool :=
  match k with
  | ([a; b; d; f], NFile _ _) => if String.eqb b "d" then bool_decide ([a; b; d; f] ∈ sample_block_paths) else true
  | ([a; b; d], NDir _) => if String.eqb b "d" then valid_name d else true
  | ([a; n], NDir _) => bool_decide (n ∈ ["b0000"; "d"])
  | _ => true
  end.

Lemma sample_placed p n : sample_gc_fs !! p = Some n → sample_place (p, n) = true.
Proof. apply sample_gc_check. vm_compute. reflexivity. Qed.

Lemma sample_in_blocks d f c m :
  sample_gc_fs !! ["a"; "d"; d; f] = Some (NFile c m) → ∃ h, h ∈ [sample_hash; sample_other_hash] ∧ [d; f] = block_names h.
Proof.
  intros Hp%sample_placed. change (bool_decide (["a"; "d"; d; f] ∈ sample_block_paths) = true) in Hp.
  apply bool_decide_eq_true_1 in Hp. apply elem_of_cons in Hp as [Hp|[Hp|[]%not_elem_of_nil]%elem_of_cons]; [exists sample_hash|exists sample_other_hash];
    (split; [set_solver|exact (app_inv_head ["a"; "d"] _ _ Hp)]).
Qed.

Lemma sample_fits h : h ∈ [sample_hash; sample_other_hash] → BlockHash.fits h.
Proof. intros [->|[->|[]%not_elem_of_nil]%elem_of_cons]%elem_of_cons; apply hash_bytes_fits. Qed.

Lemma sample_gc_block h : is_block sample_blockdir sample_gc_fs h → h ∈ [sample_hash; sample_other_hash].
Proof.
  intros (Hfit & c & m & Hc). apply sample_in_blocks in Hc as (k & Hk & Heq).
  assert (h = k) as ->; [|done]. apply (block_path_inj sample_blockdir); [done|by apply sample_fits|]. unfold block_path. by rewrite <-Heq.
Qed.

Lemma sample_gc_tidy : tidy_blocks sample_blockdir sample_gc_fs.
Proof.
  split.
  - exists sample_meta. by vm_compute.
  - intros d m Hd%sample_placed _. exact Hd.
  - intros d f c m h Hf _ Hh. destruct (sample_in_blocks d f c m Hf) as (k & Hk & Heq). rewrite Heq.
    pose proof (f_equal last Heq) as Hl. change (Some f = Some (BlockHash.to_string k)) in Hl. apply (inj Some) in Hl.
    rewrite Hl, blockhash_from_to_string in Hh by by apply sample_fits. by injection Hh as <-.
Qed.

Lemma sample_gc_collectable : collectable sample_archive sample_gc_fs (MkBandId 0).
Proof.
  split.
  - eexists _, _, (MkHead 5 None []). split; [by vm_compute|]. split; [vm_compute; reflexivity|done].
  - exists sample_meta. by vm_compute.
  - intros d m Hd. rewrite sample_index_path in Hd. pose proof (sample_gc_key _ _ Hd) as Hkd. cbn in Hkd.
    by apply String.eqb_eq in Hkd as ->.
  - apply sample_refers.
Qed.

Lemma sample_gc_bands b : listed sample_archive sample_gc_fs b → b = MkBandId 0.
Proof.
  intros (name & m & Hn%sample_placed & _ & Hb). change (bool_decide (name ∈ ["b0000"; "d"]) = true) in Hn.
  apply bool_decide_eq_true_1 in Hn.
  apply elem_of_cons in Hn as [->|[->|[]%not_elem_of_nil]%elem_of_cons]; vm_compute in Hb; congruence.
Qed.

Lemma sample_gc_bytes l :
  NoDup l → Forall (is_block sample_blockdir sample_gc_fs) l → (block_bytes sample_archive sample_gc_fs l < u64_modulus)%N.
Proof.
  intros Hnd Hl. assert (l ⊆+ [sample_hash; sample_other_hash]) as Hsub.
  { apply NoDup_submseteq; [done|]. intros h Hh. rewrite Forall_forall in Hl. by apply sample_gc_block, Hl. }
  apply submseteq_length in Hsub. assert (block_bytes sample_archive sample_gc_fs l <= 6 * N.of_nat (length l))%N as Hb.
  { clear Hnd Hsub. induction Hl as [|h l Hh _ IH]; [done|]. cbn [block_bytes foldr length].
    fold (block_bytes sample_archive sample_gc_fs l). pose proof (sample_gc_block h Hh) as Hin.
    apply elem_of_cons in Hin as [->|[->|[]%not_elem_of_nil]%elem_of_cons].
    - assert (sample_gc_fs !! block_path (ar_block_dir sample_archive) sample_hash = Some (NFile "zhello" sample_meta)) as ->
        by (vm_compute; reflexivity). change (BlockDir.len "zhello") with 6%N. lia.
    - assert (sample_gc_fs !! block_path (ar_block_dir sample_archive) sample_other_hash = Some (NFile "zother" sample_meta)) as ->
        by (vm_compute; reflexivity). change (BlockDir.len "zother") with 6%N. lia. }
  cbn [length] in Hsub. assert (12 < u64_modulus)%N by done. lia.
Qed.

Lemma sample_gc_in_order : in_order sample_archive sample_gc_fs [].
Proof.
  split.
  - apply (closed_files sample_gc_files). vm_compute. reflexivity.
  - exact sample_gc_tidy.
  - intros b ->%sample_gc_bands _. exact sample_gc_collectable.
  - by intros b []%not_elem_of_nil.
  - exact sample_gc_bytes.
Qed.

Lemma delete_bands_exact_witness :
  ∃ l w', Gc.delete_bands sample_archive [] (MkDeleteOptions false true) (world_of sample_gc_fs)
      = (Ret (Ok (delete_stats sample_archive (MkDeleteOptions false true) sample_gc_fs [] l)), w') ∧
    NoDup l ∧ (∀ h, h ∈ l ↔ garbage sample_archive sample_gc_fs [] h) ∧ w_errors w' = [] ∧
    without (λ p, p = lock_path sample_archive ∨ false = false ∧ doomed sample_archive sample_gc_fs [] p) sample_gc_fs (w_fs w').
Proof.
  apply (delete_bands_exact sample_archive [] (MkDeleteOptions false true) (world_of sample_gc_fs)).
  - done.
  - done.
  - constructor.
  - split; [done|by left|]. intros x [->%sample_gc_bands _]. exists "", sample_meta. by vm_compute.
  - exact sample_gc_in_order.
Defined.

(** The collection, run: the block that nothing refers to is deleted. *)
Example sample_collection :
  let r := Gc.delete_bands sample_archive [] (MkDeleteOptions false true) (world_of sample_gc_fs) in
  r.1 = Ret (Ok (MkDeleteStats 0 1 6 0 1)) ∧
  is_Some (w_fs r.2 !! block_path sample_blockdir sample_hash) ∧
  w_fs r.2 !! block_path sample_blockdir sample_other_hash = None.
Proof. split_and!; vm_compute; [reflexivity|by eexists|reflexivity]. Qed.
