(* ===== verification/Validation.v ===== *)
(** * What validation finds (src/validate.rs, src/archive.rs, src/blockdir.rs)

    Without failures, [validate] tells the monitor of an error exactly when a block does
    not hold the content of its hash, or an address of a file is not inside a block;
    provided that the indexes can be read. An index that cannot be read is not an error
    that the monitor is told of. *)

From Stdlib Require Import Ascii.
From S2P Require Import Prelude Text Apath Externals Ids Entry Counters Errors World Console Transport.
From S2P Require Import Sample Excludes Jsonio SampleWorld BlockDir Index Archive Footprint Stitch Gc HunkIndex StoredBand RestoreTree.
From S2P Require Import BlockListing GcSafety GcExact.
From stdpp Require Import list gmap strings.

(** ** Reading every block *)

Section blocks.
Context `{Ext, !LruLaws, !HashLaws, !HexLaws} `{BuildCfg} (bd : BlockDir).

(** The file of the block holds content that has the hash. *)
Definition readable_block (fs : Fs) (h : BlockHash) (d : string) : Prop :=
  BlockHash.fits h ∧ BlockHash.hash_bytes d = h ∧
  ∃ c m, fs !! block_path bd h = Some (NFile c m) ∧ snap_decompress c = Some d.

Lemma readable_block_fun fs h d d' : readable_block fs h d → readable_block fs h d' → d = d'.
Proof. intros (_ & _ & c & m & Hc & Hd) (_ & _ & c' & m' & Hc' & Hd'). congruence. Qed.

(** Reading a block that is not in the cache *)
Lemma get_fresh_run h w :
  fault_free w → cached bd w h = None → is_block bd (w_fs w) h →
  ∃ r w', BlockDir.get_block_content bd h w = (Ret r, w') ∧ fault_free w' ∧ w_fs w' = w_fs w ∧ w_errors w' = w_errors w ∧
    (∀ h' c', h' ≠ h → cached bd w' h' = Some c' → cached bd w h' = Some c') ∧
    match r with Ok d => readable_block (w_fs w) h d | Err _ => ∀ d, ¬ readable_block (w_fs w) h d end.
Proof.
  intros Hf Hc (Hh & c & m & Hn). unfold BlockDir.get_block_content, BlockDir.state.
  erewrite bind_run by done. cbv beta.
  pose proof (lru_get_peek (bds_cache (w_blockdirs w (bd_handle bd))) h) as Hp.
  pose proof (λ h', lru_peek_get (bds_cache (w_blockdirs w (bd_handle bd))) h h') as Hg.
  unfold cached in Hc. rewrite Hc in Hp. destruct (lru_get _ _) as [hit cache]. simpl in Hp, Hg. subst hit.
  erewrite bind_run by apply modify_run. cbn iota. erewrite bind_run by apply modify_run.
  match goal with |- context [ (_ ≫= _) ?x ] => set (w1 := x) end.
  rewrite (bind_run _ _ _ _ _ (block_relpath_run h w1 Hh)).
  destruct (read_file_run (bd_transport bd) (join_with "/" (block_names h)) w1) as (w2 & Hr & Hfs & Hfr);
    [by apply names_plain, block_names_valid|done|].
  rewrite bd_join in Hr by by apply block_names_valid. fold (block_path bd h) in Hr.
  rewrite tr_read_file, (bind_run _ _ _ _ _ Hr). unfold fs_read_file. change (w_fs w1) with (w_fs w). rewrite Hn. cbn [map_err].
  pose proof (fault_free_frame _ _ Hfr (Hf : fault_free w1)) as Hf2.
  assert (∀ h' c', cached bd w2 h' = Some c' → cached bd w h' = Some c') as Hcache.
  { intros h' c'. unfold cached. rewrite (frame_blockdirs _ _ Hfr). simpl. rewrite decide_True by done. simpl.
    intros Hp. rewrite <-Hp. symmetry. apply Hg. }
  pose proof (frame_errors _ _ Hfr) as He. change (w_errors w1) with (w_errors w) in He.
  unfold decompress. destruct (snap_decompress c) as [d|] eqn:Es; cbn [ok_or].
  - destruct (decide (BlockHash.hash_bytes d = h)) as [Heq|Hne].
    + do 6 erewrite bind_run by apply modify_run. eexists (Ok d), _. split; [done|]. split; [exact Hf2|]. split; [exact Hfs|].
      split; [exact He|]. split; [|split; [done|]; split; [done|]; by exists c, m].
      intros h' c' Hne. unfold cached. simpl. rewrite !decide_True by done. simpl.
      intros [[-> _]|[_ Hx]]%lru_peek_put; [done|]. by apply Hcache.
    + eexists (Err _), w2. split; [done|]. split; [done|]. split; [done|]. split; [done|]. split; [by intros h' c' _; apply Hcache|].
      intros d' (_ & Hd & c' & m' & Hc' & Hd'). congruence.
  - eexists (Err _), w2. split; [done|]. split; [done|]. split; [done|]. split; [done|]. split; [by intros h' c' _; apply Hcache|].
    intros d' (_ & Hd & c' & m' & Hc' & Hd'). congruence.
Qed.

(** The loop over the blocks *)
Lemma read_blocks_run l (acc : gmap BlockHash N) w :
  fault_free w → NoDup l → (∀ h, h ∈ l → cached bd w h = None ∧ is_block bd (w_fs w) h) → (∀ h, h ∈ l → acc !! h = None) →
  ∃ (lens : gmap BlockHash N) errs w', fold_st (λ (acc : gmap BlockHash N) hash,
           r ← BlockDir.get_block_content bd hash;
           match r with
           | Ok bytes => mret (<[hash := BlockDir.len bytes]> acc)
           | Err err => _ ← monitor_error err; mret acc
           end) acc l w = (Ret lens, w') ∧ fault_free w' ∧ w_fs w' = w_fs w ∧ w_errors w' = (w_errors w ++ errs)%list ∧
    (errs = [] ↔ ∀ h, h ∈ l → ∃ d, readable_block (w_fs w) h d) ∧
    ∀ h n, lens !! h = Some n ↔ acc !! h = Some n ∨ h ∈ l ∧ ∃ d, readable_block (w_fs w) h d ∧ n = BlockDir.len d.
Proof.
  intros Hf Hnd. revert acc w Hf. induction Hnd as [|h l Hh Hnd IH]; intros acc w Hf Hl Hacc; cbn [fold_st].
  { exists acc, [], w. rewrite app_nil_r. split_and!; try done; [by split; [intros _ h []%not_elem_of_nil|]|].
    intros h n. split; [by left|]. by intros [?|[[]%not_elem_of_nil _]]. }
  destruct (Hl h ltac:(by left)) as [Hc Hb]. destruct (get_fresh_run h w Hf Hc Hb) as (r & w1 & Hr & Hf1 & Hfs1 & He1 & Hca & Hres).
  set (acc1 := match r with Ok d => <[h := BlockDir.len d]> acc | Err _ => acc end).
  set (es1 := match r with Ok _ => [] | Err e => [e] end).
  assert (∃ w2, (r ← BlockDir.get_block_content bd h;
     match r with
     | Ok bytes => mret (<[h := BlockDir.len bytes]> acc)
     | Err err => _ ← monitor_error err; mret acc
     end) w = (Ret acc1, w2) ∧ fault_free w2 ∧ w_fs w2 = w_fs w ∧ w_errors w2 = (w_errors w ++ es1)%list ∧
     ∀ h', cached bd w2 h' = cached bd w1 h') as (w2 & Hr2 & Hf2 & Hfs2 & He2 & Hca2).
  { unfold acc1, es1. destruct r as [d|e].
    - exists w1. rewrite (bind_run _ _ _ _ _ Hr). by rewrite app_nil_r.
    - exists (add_error e w1). rewrite (bind_run _ _ _ _ _ Hr). split; [done|]. split; [done|]. split; [done|].
      split; [simpl; by rewrite He1|done]. }
  rewrite (bind_run _ _ _ _ _ Hr2).
  destruct (IH acc1 w2 Hf2) as (lens & errs & w3 & Hr3 & Hf3 & Hfs3 & He3 & Herr & Hlens).
  { intros k Hk. destruct (Hl k ltac:(by right)) as [Hck Hbk]. rewrite Hfs2. split; [|done].
    rewrite Hca2. destruct (cached bd w1 k) as [c'|] eqn:E; [|done]. apply Hca in E; [congruence|by intros ->]. }
  { intros k Hk. unfold acc1. destruct r; [|by apply Hacc; right]. rewrite lookup_insert_ne by (by intros ->). apply Hacc. by right. }
  rewrite Hfs2 in Herr, Hlens. exists lens, (es1 ++ errs)%list, w3. split; [done|]. split; [done|]. split; [congruence|].
  split; [by rewrite He3, He2, app_assoc|]. split.
  - unfold es1. setoid_rewrite elem_of_cons. destruct r as [d|e].
    + rewrite app_nil_l, Herr. split; [|naive_solver]. intros Hx k [->|Hk]; [by exists d|by apply Hx].
    + split; [done|]. intros Hx. destruct (Hx h ltac:(by left)) as [d Hd]. by apply Hres in Hd.
  - intros k n. rewrite Hlens. unfold acc1. setoid_rewrite elem_of_cons. destruct r as [d|e].
    + destruct (decide (k = h)) as [->|Hne].
      * rewrite lookup_insert_eq. rewrite (Hacc h) by (by left). split.
        -- intros [[= <-]|[? _]]; [|done]. right. split; [by left|]. by exists d.
        -- intros [?|[_ (d' & Hd' & ->)]]; [done|]. left. by rewrite (readable_block_fun _ _ _ _ Hd' Hres).
      * rewrite lookup_insert_ne by done. naive_solver.
    + split; [naive_solver|]. intros [?|[[->|Hk] (d & Hd & ->)]]; [by left|by apply Hres in Hd|]. right. split; [done|]. by exists d.
Qed.

(** [validate()] of the block directory *)
Lemma bd_validate_run w :
  fault_free w → fs_closed (w_fs w) → tidy_blocks bd (w_fs w) → (∀ h, cached bd w h = None) →
  ∃ lens errs w', BlockDir.validate bd w = (Ret (Ok lens), w') ∧ fault_free w' ∧ w_fs w' = w_fs w ∧
    w_errors w' = (w_errors w ++ errs)%list ∧
    (errs = [] ↔ ∀ h, is_block bd (w_fs w) h → ∃ d, readable_block (w_fs w) h d) ∧
    ∀ h n, lens !! h = Some n ↔ ∃ d, readable_block (w_fs w) h d ∧ n = BlockDir.len d.
Proof.
  intros Hf Hcl Ht Hc. destruct (blocks_run bd w Hf Hcl Ht) as (l & w1 & Hr1 & [Hfs1 Hfr1] & Hin).
  destruct (read_blocks_run (elements (list_to_set l : gset BlockHash)) ∅ w1) as (lens & errs & w2 & Hr2 & Hf2 & Hfs2 & He2 & Herr & Hlens).
  { by eapply fault_free_frame. }
  { apply NoDup_elements. }
  { intros h Hh%elem_of_elements%elem_of_list_to_set%Hin. rewrite Hfs1. split; [|done].
    unfold cached. rewrite (frame_blockdirs _ _ Hfr1). apply Hc. }
  { done. }
  rewrite Hfs1 in Herr, Hlens, Hfs2. exists lens, errs, w2. split; [|split; [done|split; [done|split; [|split]]]].
  - unfold BlockDir.validate. rewrite (try_run _ _ _ _ _ Hr1). by rewrite (bind_run _ _ _ _ _ Hr2).
  - by rewrite He2, (frame_errors _ _ Hfr1).
  - rewrite Herr. setoid_rewrite elem_of_elements. setoid_rewrite elem_of_list_to_set. by setoid_rewrite Hin.
  - intros h n. rewrite Hlens, lookup_empty, elem_of_elements, elem_of_list_to_set, Hin. split; [naive_solver|].
    intros (d & Hd & ->). right. split; [|by exists d]. destruct Hd as (Hfit & _ & c & m & Hn & _). split; [done|]. by exists c, m.
Qed.
End blocks.

(** ** The lengths that the indexes ask for *)

Section lengths.
Context `{Ext} `{BuildCfg} `{Codecs}.

(** The block of an address, and where it ends in it *)
Definition reach (ad : Address) : BlockHash * N := (a_hash ad, (a_start ad + a_len ad)%N).

(** The addresses of the files among some entries *)
Definition file_reach (es : list IndexEntry) : list (BlockHash * N) :=
  filter (λ e, ie_kind e = Kind_File) es ≫= λ e, reach <$> ie_addrs e.

(** The map gives the greatest end for each block. *)
Definition covers (lens : gmap BlockHash N) (ps : list (BlockHash * N)) : Prop :=
  (∀ h e, (h, e) ∈ ps → ∃ l, lens !! h = Some l ∧ (e <= l)%N) ∧ (∀ h l, lens !! h = Some l → (h, l) ∈ ps).

Lemma covers_raise lens ps h e : covers lens ps → covers (Gc.raise_len h e lens) (ps ++ [(h, e)]).
Proof.
  intros [H1' H2']. unfold Gc.raise_len. split.
  - intros k x [Hk|[= -> ->]%list_elem_of_singleton]%elem_of_app.
    + destruct (H1' k x Hk) as (l & Hl & Hle). destruct (decide (k = h)) as [->|Hne].
      * rewrite lookup_insert_eq, Hl. eexists. split; [done|]. lia.
      * rewrite lookup_insert_ne by done. by exists l.
    + rewrite lookup_insert_eq. destruct (lens !! h); (eexists; split; [done|lia]).
  - intros k l. destruct (decide (k = h)) as [->|Hne]; [|rewrite lookup_insert_ne by done; intros Hl; apply elem_of_app; left; by apply H2'].
    rewrite lookup_insert_eq. destruct (lens !! h) as [l0|] eqn:E; intros [= <-]; [|apply elem_of_app; right; by left].
    destruct (N.max_spec l0 e) as [[_ ->]|[_ ->]]; apply elem_of_app; [right; by left|left; by apply H2'].
Qed.

Lemma covers_raises qs lens ps : covers lens ps → covers (foldl (λ into hl, Gc.raise_len hl.1 hl.2 into) lens qs) (ps ++ qs).
Proof.
  revert lens ps. induction qs as [|[h e] qs IH]; intros lens ps Hc; cbn [foldl fst snd]; [by rewrite app_nil_r|].
  rewrite cons_middle, app_assoc. by apply IH, covers_raise.
Qed.

(** The maps of two bands together *)
Lemma covers_merge lens1 lens2 ps1 ps2 :
  covers lens1 ps1 → covers lens2 ps2 → covers (Gc.merge_block_lens lens1 lens2) (ps1 ++ ps2).
Proof.
  intros Hc1 [H1' H2']. destruct (covers_raises (map_to_list lens2) lens1 ps1 Hc1) as [H3' H4']. fold (Gc.merge_block_lens lens1 lens2) in *.
  split.
  - intros h e [He|He]%elem_of_app; [apply H3', elem_of_app; by left|]. destruct (H1' h e He) as (l & Hl & Hle).
    destruct (H3' h l) as (l' & Hl' & Hle'); [apply elem_of_app; right; by apply elem_of_map_to_list|].
    exists l'. split; [done|lia].
  - intros h l [Hl|Hl%elem_of_map_to_list]%H4'%elem_of_app; apply elem_of_app; [by left|right; by apply H2'].
Qed.

Lemma entry_lens_run ads lens ps (w : World) :
  Forall (λ ad, (a_start ad + a_len ad < u64_modulus)%N) ads → covers lens ps →
  ∃ lens', Gc.entry_lens lens ads w = (Ret lens', w) ∧ covers lens' (ps ++ (reach <$> ads)).
Proof.
  unfold Gc.entry_lens. intros Hads. revert lens ps. induction Hads as [|ad ads Had Hads IH]; intros lens ps Hc; cbn [fold_st fmap list_fmap].
  { exists lens. by rewrite app_nil_r. }
  destruct (IH (Gc.raise_len (a_hash ad) (a_start ad + a_len ad) lens) (ps ++ [reach ad])) as (lens' & Hr & Hc'); [by apply covers_raise|].
  exists lens'. rewrite cons_middle, app_assoc. split; [|done]. erewrite bind_run; [exact Hr|].
  by rewrite (bind_run _ _ _ _ _ (add_u64_small _ _ w Had)).
Qed.

Lemma file_reach_snoc es e : file_reach (es ++ [e]) = (file_reach es ++ file_reach [e])%list.
Proof. unfold file_reach. by rewrite filter_app, bind_app. Qed.

Lemma stored_bound (a : Archive) b hs w :
  fault_free w → stored_band a (w_fs w) b hs → length hs ≤ hunks_bound (Stitch.new a b) w.
Proof.
  intros Hf Hst. cbn. unfold Stitch.bound, Stitch.bound_at. cbn.
  destruct (hunks_available_run a b hs (IndexRead.open (index_transport a b)) w Hf Hst) as (w' & Hr & _); [done|].
  apply hunks_available_length in Hr. unfold numbers in Hr. rewrite length_fmap, length_seq in Hr. lia.
Qed.

Context `{!GlobLaws}.

(** A finished band whose entries can be measured *)
Definition measurable (hs : list (list IndexEntry)) : Prop :=
  valid_entries (concat hs) ∧ ∀ e ad, e ∈ concat hs → ad ∈ ie_addrs e → (a_start ad + a_len ad < u64_modulus)%N.

Lemma all_wanted es : valid_entries es → filter (λ e, is_wanted Apath.root Exclude.nothing e = true) es = es.
Proof.
  intros Hv. apply filter_all. eapply Forall_impl; [exact Hv|]. intros e. apply wanted_all.
Qed.

Lemma validate_tree_run (a : Archive) b hs st w :
  fault_free w → stored_band a (w_fs w) b hs → measurable hs → sto_archive st = a → b_band_id (sto_band st) = b →
  ∃ lens w', Gc.validate_stored_tree st w = (Ret (Ok lens), w') ∧ quiet w w' ∧ covers lens (file_reach (concat hs)).
Proof.
  intros Hf Hst [Hv Hads] Ha Hb. unfold Gc.validate_stored_tree, StoredTree.iter_entries, Band.id. rewrite Ha, Hb.
  destruct (for_entries_serves (steady a b (w_fs w))
    (λ lens e, if decide (ie_kind e = Kind_File) then l ← Gc.entry_lens lens (ie_addrs e); mret (Ok l) else mret (Ok lens))
    Apath.root Exclude.nothing
    (λ before lens w1, quiet w w1 ∧ covers lens (file_reach before)) (concat hs)) with (hs := hs) (hi := Stitch.new a b)
    (s := ∅ : gmap BlockHash N) (w := w) as (lens & w' & Hr & Hq & Hc).
  - intros before lens w1 [[Hfs Hfr] _]. split; [by eapply fault_free_frame|]. intros p _. by rewrite Hfs.
  - intros before lens w1 w2 [[Hfs Hfr] Hc] Hfs' Hfr'. split; [split; [congruence|by etrans]|done].
  - intros before e rest lens w1 Hall [Hq Hc]. rewrite file_reach_snoc. unfold file_reach at 2. rewrite filter_cons, filter_nil.
    destruct (decide (ie_kind e = Kind_File)) as [Hk|Hk].
    + destruct (entry_lens_run (ie_addrs e) lens (file_reach before) w1) as (lens' & Hr & Hc'); [|done|].
      * apply Forall_forall. intros ad Had. apply (Hads e); [|done]. rewrite Hall. apply elem_of_app. right. by left.
      * exists lens', w1. rewrite (bind_run _ _ _ _ _ Hr). split; [done|]. split; [done|]. cbn [mbind list_bind]. by rewrite app_nil_r.
    + exists lens, w1. split; [done|]. split; [done|]. cbn. by rewrite app_nil_r.
  - by apply stored_band_serves.
  - done.
  - by apply stored_bound.
  - by rewrite all_wanted.
  - split; [done|]. split; [by intros h e []%not_elem_of_nil|done].
  - by exists lens, w'.
Qed.
End lengths.

(** ** Bands *)

Section bands.
Context `{Ext, !GlobLaws} `{BuildCfg} `{Codecs} (a : Archive).

Lemma band_validate_run b head hs w :
  fault_free w → fs_closed (w_fs w) → stored_band a (w_fs w) b hs →
  ∃ w', Band.validate (MkBand b (Transport.chdir (ar_transport a) (BandId.to_string b)) head) w = (Ret (Ok tt), w') ∧ quiet w w'.
Proof.
  intros Hf Hcl Hst. destruct (sb_head _ _ _ _ Hst) as (c & m & hd & Hh & _).
  assert (is_dir_node (w_fs w !! band_path a b) = true) as Hd.
  { apply (Hcl _ [BAND_HEAD_FILENAME]); [done|]. eexists. rewrite <-head_path_in. exact Hh. }
  destruct (w_fs w !! band_path a b) as [[?|md|?|?]|] eqn:Ed; try done.
  set (t := Transport.chdir (ar_transport a) (BandId.to_string b)).
  assert (path_join (tr_path t) "" = band_path a b) as Hj by (rewrite path_join_empty; apply band_dir_path).
  destruct (listing_run t "" w md) as (l & w' & Hr & Hq & _ & Hall & _); [done|done|by rewrite Hj|]. rewrite Hj in Hall.
  exists w'. split; [|done]. unfold Band.validate. cbn [b_transport b_band_id]. fold t. rewrite (bind_run _ _ _ _ _ Hr).
  rewrite bool_decide_true; [by erewrite bind_run by done|].
  apply (Hall _ c m); [done|]. by rewrite <-head_path_in.
Qed.

Lemma validate_band_run b hs w :
  fault_free w → fs_closed (w_fs w) → stored_band a (w_fs w) b hs → measurable hs →
  ∃ lens w', Gc.validate_band a b w = (Ret (Ok lens), w') ∧ quiet w w' ∧ covers lens (file_reach (concat hs)).
Proof.
  intros Hf Hcl Hst Hm. destruct (sb_head _ _ _ _ Hst) as (c & m & head & Hh & Hj & Hacc).
  destruct (band_open_run a b w c m head Hf Hh Hj Hacc) as (w1 & Hr1 & Hfs1 & Hfr1).
  pose proof (fault_free_frame _ _ Hfr1 Hf) as Hf1.
  destruct (band_validate_run b head hs w1 Hf1) as (w2 & Hr2 & [Hfs2 Hfr2]); [by rewrite Hfs1..|].
  pose proof (fault_free_frame _ _ Hfr2 Hf1) as Hf2.
  destruct (open_stored_run a b hs (Specified b) w2 Hf2) as (band & w3 & Hr3 & Hb & Hfs3 & Hfr3); [by rewrite Hfs2, Hfs1|done|].
  pose proof (fault_free_frame _ _ Hfr3 Hf2) as Hf3.
  destruct (validate_tree_run a b hs (MkStoredTree band a (ar_block_dir a)) w3 Hf3) as (lens & w4 & Hr4 & [Hfs4 Hfr4] & Hc);
    [by rewrite Hfs3, Hfs2, Hfs1|done|done|done|].
  exists lens, w4. split; [|split; [split; [congruence|by do 3 (etrans; [eassumption|])]|done]].
  unfold Gc.validate_band. by rewrite (try_run _ _ _ _ _ Hr1), (try_run _ _ _ _ _ Hr2), (try_run _ _ _ _ _ Hr3).
Qed.

Lemma validate_bands_run (hs : BandId → list (list IndexEntry)) ids w :
  fault_free w → fs_closed (w_fs w) → (∀ b, b ∈ ids → stored_band a (w_fs w) b (hs b) ∧ measurable (hs b)) →
  ∃ lens w', Gc.validate_bands a ids w = (Ret lens, w') ∧ quiet w w' ∧
    covers lens (ids ≫= λ b, file_reach (concat (hs b))).
Proof.
  unfold Gc.validate_bands. intros Hf Hcl Hids.
  assert (covers ∅ []) as Hc0 by (split; [by intros h e []%not_elem_of_nil|done]).
  rewrite <-(app_nil_l (ids ≫= _)). revert Hc0. generalize (∅ : gmap BlockHash N) ([] : list (BlockHash * N)).
  intros lens ps. revert w lens ps Hf Hcl Hids.
  induction ids as [|b ids IH]; intros w lens ps Hf Hcl Hids Hc; cbn [fold_st].
  { exists lens, w. cbn. by rewrite app_nil_r. }
  destruct (Hids b ltac:(by left)) as [Hst Hm]. destruct (validate_band_run b (hs b) w Hf Hcl Hst Hm) as (lb & w1 & Hr1 & [Hfs1 Hfr1] & Hcb).
  destruct (IH w1 (Gc.merge_block_lens lens lb) (ps ++ file_reach (concat (hs b)))%list (fault_free_frame _ _ Hfr1 Hf))
    as (lens' & w2 & Hr2 & [Hfs2 Hfr2] & Hc').
  { by rewrite Hfs1. }
  { intros c Hb. rewrite Hfs1. apply Hids. by right. }
  { by apply covers_merge. }
  exists lens', w2. split; [by erewrite bind_run by (by rewrite (bind_run _ _ _ _ _ Hr1))|].
  split; [split; [congruence|by etrans]|]. rewrite bind_cons, app_assoc. exact Hc'.
Qed.

(** The directory of the archive: no band is there twice. *)
Lemma check_dirs_run dirs (seen : gset BandId) (w : World) :
  NoDup dirs → (∀ d b, d ∈ dirs → BandId.from_str d = Ok b → d = BandId.to_string b ∧ b ∉ seen) →
  Gc.check_band_dirs seen dirs w = (Ret tt, w).
Proof.
  intros Hnd. revert seen. induction Hnd as [|d dirs Hd Hnd IH]; intros seen Hs; cbn [Gc.check_band_dirs]; [done|].
  destruct (BandId.from_str d) as [b|] eqn:E; [|apply IH; intros d' b' Hd'; apply Hs; by right].
  destruct (Hs d b ltac:(by left) E) as [Heq Hb]. rewrite decide_False by done. erewrite bind_run by done.
  apply IH. intros d' b' Hd' Hb'. destruct (Hs d' b' ltac:(by right) Hb') as [Heq' Hseen]. split; [done|].
  intros [Hx%elem_of_singleton|Hx]%elem_of_union; [|done]. subst b'. congruence.
Qed.

Lemma archive_dir_run w :
  fault_free w → is_dir_node (w_fs w !! archive_path a) = true →
  (∀ name m b, w_fs w !! (archive_path a ++ [name])%list = Some (NDir m) → BandId.from_str name = Ok b → name = BandId.to_string b) →
  ∃ w', Gc.validate_archive_dir a w = (Ret (Ok tt), w') ∧ quiet w w'.
Proof.
  intros Hf Hd Hn. destruct (w_fs w !! archive_path a) as [[?|md|?|?]|] eqn:Ed; try done.
  destruct (listing_run (ar_transport a) "" w md) as (l & w' & Hr & Hq & _ & _ & Hdirs & _); [done|done|by rewrite path_join_empty|].
  rewrite path_join_empty in Hdirs. exists w'. split; [|done]. unfold Gc.validate_archive_dir. rewrite (bind_run _ _ _ _ _ Hr).
  erewrite bind_run; [done|]. apply list_dir_NoDup in Hr as (_ & Hnd & _). apply check_dirs_run; [done|].
  intros d b [m Hm]%Hdirs Hb. split; [by eapply Hn|]. apply not_elem_of_empty.
Qed.
End bands.

(** ** The verdict *)

Section verdict.
Context `{Ext, !GlobLaws, !LruLaws, !HashLaws, !HexLaws} `{BuildCfg} `{Codecs} (a : Archive).
#[local] Abbreviation bd := (ar_block_dir a).

Lemma omap_nil {A B : Type} (f : A → option B) l : omap f l = [] ↔ ∀ x, x ∈ l → f x = None.
Proof.
  induction l as [|x l IH]; cbn [omap list_omap]; [split; [by intros _ x []%not_elem_of_nil|done]|].
  setoid_rewrite elem_of_cons. destruct (f x) eqn:E; [split; [done|]|rewrite IH; naive_solver].
  intros Hx. specialize (Hx x ltac:(by left)). congruence.
Qed.

Lemma check_present_nil lens ps present :
  covers lens ps → Gc.check_present lens present = [] ↔ ∀ h e, (h, e) ∈ ps → h ∈ present.
Proof.
  intros [H1' H2']. unfold Gc.check_present. rewrite omap_nil. split.
  - intros Hx h e He. destruct (H1' h e He) as (l & Hl & _). specialize (Hx (h, l) ltac:(by apply elem_of_map_to_list)). simpl in Hx.
    by case_decide.
  - intros Hx [h l] Hl%elem_of_map_to_list%H2'. simpl. by rewrite decide_True by (by eapply Hx).
Qed.

Lemma check_lengths_nil lens ps actual :
  covers lens ps → Gc.check_lengths lens actual = [] ↔ ∀ h e, (h, e) ∈ ps → ∃ l, actual !! h = Some l ∧ (e <= l)%N.
Proof.
  intros [H1' H2']. unfold Gc.check_lengths. rewrite omap_nil. split.
  - intros Hx h e He. destruct (H1' h e He) as (l & Hl & Hle). specialize (Hx (h, l) ltac:(by apply elem_of_map_to_list)). simpl in Hx.
    destruct (actual !! h) as [n|]; [|done]. exists n. split; [done|]. destruct (N.ltb_spec n l); [done|lia].
  - intros Hx [h l] Hl%elem_of_map_to_list%H2'. simpl. destruct (Hx h l Hl) as (n & -> & Hle). by destruct (N.ltb_spec n l); [lia|].
Qed.

(** The indexes of the archive are whole, one for each band. *)
Record validatable (fs : Fs) (hs : BandId → list (list IndexEntry)) : Prop := {
  va_closed : fs_closed fs;
  va_dir : is_dir_node (fs !! archive_path a) = true;
  va_names : ∀ name m b, fs !! (archive_path a ++ [name])%list = Some (NDir m) → BandId.from_str name = Ok b → name = BandId.to_string b;
  va_blocks : tidy_blocks bd fs;
  va_bands : ∀ b, listed a fs b → stored_band a fs b (hs b) ∧ measurable (hs b)
}.

(** The end of an address of a file of some band, in a block *)
Definition asked (fs : Fs) (hs : BandId → list (list IndexEntry)) (h : BlockHash) (end_ : N) : Prop :=
  ∃ b e ad, listed a fs b ∧ e ∈ concat (hs b) ∧ ie_kind e = Kind_File ∧ ad ∈ ie_addrs e ∧ reach ad = (h, end_).

(** What is asked of an archive: that the blocks of all files are there; and in a full
    validation, that every block has the content of its hash, and is long enough. *)
Definition sound_blocks (options : ValidateOptions) (fs : Fs) (hs : BandId → list (list IndexEntry)) : Prop :=
  if skip_block_hashes options then ∀ h end_, asked fs hs h end_ → is_block bd fs h
  else (∀ h, is_block bd fs h → ∃ d, readable_block bd fs h d) ∧
       (∀ h end_, asked fs hs h end_ → ∃ d, readable_block bd fs h d ∧ (end_ <= BlockDir.len d)%N).

Lemma asked_in fs hs ids h end_ :
  (∀ b, b ∈ ids ↔ listed a fs b) → (h, end_) ∈ (ids ≫= λ b, file_reach (concat (hs b))) ↔ asked fs hs h end_.
Proof.
  intros Hids. rewrite list_elem_of_bind. unfold asked, file_reach. split.
  - intros (b & (e & (ad & Heq & Had)%list_elem_of_fmap & [Hk He]%list_elem_of_filter)%list_elem_of_bind & Hb%Hids).
    by exists b, e, ad.
  - intros (b & e & ad & Hb & He & Hk & Had & Heq). exists b. split; [|by apply Hids]. apply list_elem_of_bind. exists e.
    split; [|by apply list_elem_of_filter]. rewrite <-Heq. by apply list_elem_of_fmap_2.
Qed.

Lemma tell_all_run errs w :
  ∃ w', for_each errs monitor_error w = (Ret tt, w') ∧ w_fs w' = w_fs w ∧ w_errors w' = (w_errors w ++ errs)%list.
Proof.
  revert w. induction errs as [|e errs IH]; intros w; cbn [for_each]; [exists w; by rewrite app_nil_r|].
  destruct (IH (add_error e w)) as (w' & Hr & Hfs & He). exists w'. erewrite bind_run by done. split; [done|].
  split; [done|]. rewrite He. simpl. by rewrite <-app_assoc.
Qed.

(** C10: validation decides. Without failures, in an archive whose indexes are whole and
    with nothing in the block cache, [validate] ends in success, changes no file, and
    tells the monitor of no error exactly when the blocks are sound: in a quick
    validation, when every block that a file of any version needs is there; in a full
    one, when every block holds the content of its hash, and every address of a file
    is inside its block. *)
Theorem validate_decides (hs : BandId → list (list IndexEntry)) (options : ValidateOptions) (w : World)
    (Hf : fault_free w) (Hv : validatable (w_fs w) hs) (Hcache : ∀ h, cached bd w h = None) :
  ∃ errs w', Gc.validate a options w = (Ret (Ok tt), w') ∧ w_fs w' = w_fs w ∧ w_errors w' = (w_errors w ++ errs)%list ∧
    (errs = [] ↔ sound_blocks options (w_fs w) hs).
Proof.
  destruct Hv as [Hcl Hd Hn Hb Hbands]. destruct (archive_dir_run a w Hf Hd Hn) as (w1 & Hr1 & [Hfs1 Hfr1]).
  pose proof (fault_free_frame _ _ Hfr1 Hf) as Hf1.
  destruct (list_bands_run a w1 Hf1) as (ids & w2 & Hr2 & [Hfs2 Hfr2] & Hids); [by rewrite Hfs1|].
  pose proof (fault_free_frame _ _ Hfr2 Hf1) as Hf2. rewrite Hfs1 in Hids, Hfs2.
  destruct (validate_bands_run a hs ids w2 Hf2) as (lens & w3 & Hr3 & [Hfs3 Hfr3] & Hcov).
  { by rewrite Hfs2. }
  { intros b Hin%Hids. rewrite Hfs2. by apply Hbands. }
  pose proof (fault_free_frame _ _ Hfr3 Hf2) as Hf3. rewrite Hfs2 in Hfs3.
  assert (w_errors w3 = w_errors w) as He3 by (by rewrite (frame_errors _ _ Hfr3), (frame_errors _ _ Hfr2), (frame_errors _ _ Hfr1)).
  assert (∀ h, cached bd w3 h = None) as Hc3.
  { intros h. unfold cached. rewrite (frame_blockdirs _ _ Hfr3), (frame_blockdirs _ _ Hfr2), (frame_blockdirs _ _ Hfr1). apply Hcache. }
  unfold Gc.validate. setoid_rewrite (try_run _ _ _ _ _ Hr1). setoid_rewrite (try_run _ _ _ _ _ Hr2).
  setoid_rewrite (bind_run _ _ _ _ _ Hr3). unfold sound_blocks.
  pose proof (λ h end_, asked_in (w_fs w) hs ids h end_ Hids) as Hasked.
  destruct (skip_block_hashes options).
  - destruct (blocks_run bd w3 Hf3) as (present & w4 & Hr4 & [Hfs4 Hfr4] & Hpres); [by rewrite Hfs3..|].
    destruct (tell_all_run (Gc.check_present lens (list_to_set present)) w4) as (w5 & Hr5 & Hfs5 & He5).
    exists (Gc.check_present lens (list_to_set present)), w5. rewrite (try_run _ _ _ _ _ Hr4). erewrite bind_run by exact Hr5.
    split; [done|]. split; [congruence|]. split; [by rewrite He5, (frame_errors _ _ Hfr4), He3|].
    rewrite (check_present_nil _ _ _ Hcov). setoid_rewrite Hasked. setoid_rewrite elem_of_list_to_set. setoid_rewrite Hpres.
    by rewrite Hfs3.
  - destruct (bd_validate_run bd w3 Hf3) as (actual & errs & w4 & Hr4 & Hf4 & Hfs4 & He4 & Herr & Hlens); [by rewrite Hfs3..|done|].
    destruct (tell_all_run (Gc.check_lengths lens actual) w4) as (w5 & Hr5 & Hfs5 & He5).
    exists (errs ++ Gc.check_lengths lens actual)%list, w5. rewrite (try_run _ _ _ _ _ Hr4). erewrite bind_run by exact Hr5.
    split; [done|]. split; [congruence|]. split; [by rewrite He5, He4, He3, app_assoc|].
    rewrite app_nil, Herr, (check_lengths_nil _ _ _ Hcov), Hfs3. setoid_rewrite Hasked. setoid_rewrite Hlens. rewrite Hfs3.
    apply and_iff_compat_l. split; intros Hx h end_ Hh; destruct (Hx h end_ Hh) as (x & Hd' & Hle).
    + destruct Hd' as (d & Hd' & ->). by exists d.
    + exists (BlockDir.len x). split; [by exists x|done].
Qed.
End verdict.

(** ** Examples *)

#[local] Existing Instances sample_ext sample_build sample_glob_laws sample_lru_laws sample_hash_laws sample_hex_laws sample_codecs.

Lemma sample_gc_hunk n nd : sample_gc_fs !! hunk_path (index_transport sample_archive (MkBandId 0)) n = Some nd → n = 0%N.
Proof.
  unfold hunk_path. rewrite sample_index_path. intros Hk%sample_gc_key.
  change (String.eqb (pad_decimal 9 n) "000000000" = true) in Hk. apply String.eqb_eq in Hk.
  by apply (pad_decimal_inj 9 n 0).
Qed.

Lemma sample_gc_hunk_entries n es :
  stored_hunk sample_gc_fs (index_transport sample_archive (MkBandId 0)) n es → n = 0%N ∧ es = [sample_referring].
Proof.
  intros Hst. assert (n = 0%N) as -> by (destruct Hst as (c & m & json & Hp & _); by eapply sample_gc_hunk).
  split; [done|]. by eapply stored_hunk_fun, sample_gc_stored.
Qed.

Lemma sample_gc_stored_band : stored_band sample_archive sample_gc_fs (MkBandId 0) [[sample_referring]].
Proof.
  pose proof sample_gc_collectable as [Hh Hr Hn _]. split; [done|by exists "", sample_meta; vm_compute|done|done| | | |by repeat constructor].
  - split.
    + intros d md f c m n Hd Hf Hp. rewrite sample_index_path in Hd, Hf. pose proof (sample_gc_key _ _ Hd) as Hkd. cbn in Hkd.
      apply String.eqb_eq in Hkd as ->.
      change (path_join ["a"; BandId.to_string (MkBandId 0); "i"] "00000") with ["a"; "b0000"; "i"; "00000"] in Hf.
      pose proof (sample_gc_key _ _ Hf) as Hkf. cbn in Hkf. apply String.eqb_eq in Hkf as ->. vm_compute in Hp. by injection Hp as <-.
    + intros n es [_ ->]%sample_gc_hunk_entries. by repeat constructor.
    + intros n n' es es' e e' Hlt [-> _]%sample_gc_hunk_entries [-> _]%sample_gc_hunk_entries. lia.
  - intros [|n] es Hes; [|by destruct n]. injection Hes as <-. split; [exact sample_gc_stored|split; [done|split; [done|]]].
    unfold hunk_subdir. rewrite sample_index_path. exists sample_meta. by vm_compute.
  - intros n c m Hp%sample_gc_hunk. subst n. simpl. lia.
Qed.

Lemma sample_validatable : validatable sample_archive sample_gc_fs (λ _, [[sample_referring]]).
Proof.
  split.
  - apply (closed_files sample_gc_files). vm_compute. reflexivity.
  - done.
  - intros name m b Hn Hb. pose proof (sample_placed _ _ Hn) as Hp. change (bool_decide (name ∈ ["b0000"; "d"]) = true) in Hp.
    apply bool_decide_eq_true_1 in Hp. apply elem_of_cons in Hp as [->|[->|[]%not_elem_of_nil]%elem_of_cons]; vm_compute in Hb; [|done].
    by injection Hb as <-.
  - exact sample_gc_tidy.
  - intros b ->%sample_gc_bands. split; [exact sample_gc_stored_band|]. split; [by repeat constructor|].
    intros e ad [->|[]%not_elem_of_nil]%elem_of_cons Had. apply list_elem_of_singleton in Had as ->. done.
Qed.

Lemma validate_decides_witness :
  ∃ errs w', Gc.validate sample_archive (MkValidateOptions false) (world_of sample_gc_fs) = (Ret (Ok tt), w') ∧
    w_fs w' = sample_gc_fs ∧ w_errors w' = ([] ++ errs)%list ∧
    (errs = [] ↔ sound_blocks sample_archive (MkValidateOptions false) sample_gc_fs (λ _, [[sample_referring]])).
Proof.
  apply (validate_decides sample_archive (λ _, [[sample_referring]]) (MkValidateOptions false) (world_of sample_gc_fs)).
  - done.
  - exact sample_validatable.
  - done.
Defined.

(** A sound archive; one that lacks a block; and one whose block has other content, which
    a quick validation does not notice. *)
Example sample_verdicts :
  let validated quick fs := w_errors (Gc.validate sample_archive (MkValidateOptions quick) (world_of fs)).2 in
  let path := block_path sample_blockdir sample_hash in
  validated false sample_gc_fs = [] ∧
  validated false (delete path sample_gc_fs) = [BlockMissing sample_hash] ∧
  validated false (<[path := NFile "zhallo" sample_meta]> sample_gc_fs) = [BlockCorrupt sample_hash; BlockMissing sample_hash] ∧
  validated true (<[path := NFile "zhallo" sample_meta]> sample_gc_fs) = [].
Proof. split_and!; vm_compute; reflexivity. Qed.
