(* ===== verification/RoundTrip.v ===== *)
(** * Backing up and restoring a tree

    The whole round trip, when nothing fails: what [restore] (src/restore.rs) makes of a
    version that [backup] (src/backup.rs) has stored is the source tree again -- every
    file with its content, every link with its target, with the times and permissions
    that they had -- and nothing else. *)

From Stdlib Require Import Ascii.
From S2P Require Import Prelude Text Apath Externals Sample Ids Entry Counters Errors World Transport Excludes Jsonio SampleWorld.
From S2P Require Import BlockDir BlockStore Index Archive Footprint Stitch LiveTree LiveOrder LiveWhole Backup BackupRun Combine.
From S2P Require Import Restore HunkIndex StoredBand BandWriter BackupTree RestoreTree BackupWhole GcSafety.
From stdpp Require Import list gmap strings sorting.

(** Choosing for each element of a list *)
Lemma choose_list {A B : Type} `{EqDecision A} (R : A → B → Prop) (b0 : B) (l : list A) :
  (∀ x, x ∈ l → ∃ y, R x y) → ∃ f, ∀ x, x ∈ l → R x (f x).
Proof.
  induction l as [|x l IH]; intros Hl; [exists (λ _, b0); by intros x ?%not_elem_of_nil|].
  destruct IH as [f Hf]; [intros y Hy; apply Hl; by right|]. destruct (Hl x ltac:(by left)) as [y Hy].
  exists (λ z, if decide (z = x) then y else f z). intros z Hz. case_decide as Heq; [by subst|].
  apply Hf. by apply elem_of_cons in Hz as [?|?].
Qed.

Section copying.
Context `{Ext} `{BuildCfg} `{CacheDir} (src : Path) (options : BackupOptions) (fs0 : Fs).

(** What a restored node keeps of the metadata: the time, the permission bits, and the
    owner, when it is recorded and known. *)
Definition copied_meta (mode : N) (base m : Meta) : Meta :=
  let owner := if bo_owner options then Owner.from_ids (m_uid m) (m_gid m) else Owner.clear (Owner.from_ids (m_uid m) (m_gid m)) in
  MkMeta mode (m_mtime m) (m_uid (set_ids owner base)) (m_gid (set_ids owner base)).

(** The copy of the node at [q], when the root of the copy had the metadata [root] *)
Definition copied (root : Meta) (q : list string) (node : Node) : Node :=
  let m := node_meta node in
  let bits := N.land (m_mode m) UnixMode.MODE_BITS in
  match node with
  | NFile c _ => NFile c (copied_meta bits (blank 420) m)
  | NDir _ => NDir (copied_meta bits (if decide (q = []) then root else blank 493) m)
  | NSymlink t _ => NSymlink t (copied_meta 511 (blank 511) m)
  | NOther _ => node
  end.

(** The time that is recorded *)
Definition recorded_time (e : IndexEntry) : OffsetDateTime := MkTime (ie_mtime e) (ie_mtime_nanos e).

Lemma recorded_value v : recorded_time (index_value v) = ev_mtime v.
Proof. unfold recorded_time, index_value. cbn. by destruct (ev_mtime v). Qed.

Lemma meta_copied e v m base :
  ie_owner e = ev_owner (owned options v) → ie_unix_mode e = ev_unix_mode v → recorded_time e = m_mtime m →
  ev_unix_mode v = UnixMode.from (m_mode m) → ev_owner v = Owner.from_ids (m_uid m) (m_gid m) →
  restored_meta e (recorded_time e) base = copied_meta (N.land (m_mode m) UnixMode.MODE_BITS) base m.
Proof.
  intros Ho Hm Ht Hv Hvo. unfold restored_meta, copied_meta, set_ids. rewrite Ho, Hm, Ht, Hv.
  unfold owned. destruct (bo_owner options); cbn; rewrite ?Hvo; by destruct (m_mtime m).
Qed.

(** The node that a stored entry becomes *)
Lemma node_copied e v q node (pieces : IndexEntry → list string) m0 :
  names_ok q → value_of (of_names q) node = Some v → names_of e = q →
  e = IndexEntry.with_addrs (ie_addrs e) (index_value (owned options v)) →
  (∀ c m, node = NFile c m → parts (ie_addrs e) (pieces e) = c) →
  restored_node recorded_time pieces m0 e = copied m0 q node.
Proof.
  intros Hq Hv Hn He Hc.
  assert (ev_apath v = of_names q ∧ ev_mtime v = m_mtime (node_meta node) ∧ ev_unix_mode v = UnixMode.from (m_mode (node_meta node)) ∧
    ev_owner v = Owner.from_ids (m_uid (node_meta node)) (m_gid (node_meta node))) as (_ & Ht & Hm & Ho).
  { unfold value_of in Hv. destruct node as [| |t m|]; try (by simplify_eq/=). by destruct (utf8_valid t); simplify_eq/=. }
  assert (recorded_time e = m_mtime (node_meta node)) as Hrt.
  { rewrite <-Ht, <-(recorded_value v), He. unfold owned. by destruct (bo_owner options). }
  assert (ie_owner e = ev_owner (owned options v) ∧ ie_unix_mode e = ev_unix_mode v ∧ ie_kind e = kind v ∧ ie_target e = symlink_target v)
    as (Heo & Hem & Hek & Het).
  { rewrite He. unfold owned. by destruct (bo_owner options). }
  unfold restored_node, copied. rewrite Hek, Het.
  assert (∀ base, restored_meta e (recorded_time e) base = copied_meta (N.land (m_mode (node_meta node)) UnixMode.MODE_BITS) base (node_meta node))
    as Hmeta by (intros base; by apply (meta_copied e v)). rewrite !Hmeta.
  unfold value_of in Hv. destruct node as [c m|m|t m|m]; [..|done].
  - injection Hv as <-. cbn. f_equal. by eapply Hc.
  - injection Hv as <-. cbn. unfold dir_base. by rewrite Hn.
  - destruct (utf8_valid t); [|done]. injection Hv as <-. cbn. f_equal. unfold link_meta, copied_meta. rewrite Hrt, Heo.
    unfold owned. destruct (bo_owner options); cbn; by destruct (m_mtime m).
Qed.
End copying.

(** ** The stored tree can be restored *)

Section restoring.
Context `{Ext, !LruLaws, !HashLaws, !HexLaws, !TimeLaws} `{!GlobLaws} `{BuildCfg} `{Codecs} `{!CacheDir}.
Context (a : Archive) (src : Path) (options : BackupOptions) (fs0 fs : Fs) (ropts : RestoreOptions) (b : BandId).
Context (hs : list (list IndexEntry)) (vs : list EntryValue).

(** Times that the time library can represent *)
Definition representable (t : OffsetDateTime) : Prop :=
  is_Some (time_from_unix_timestamp (unix_timestamp t)) ∧ (nanosecond t < 1000000000)%N.

(** The whole version is to be restored. *)
Record whole_version : Prop := {
  wv_callback : ro_change_callback ropts = None;
  wv_subtree : ro_only_subtree ropts = None;
  wv_exclude : ro_exclude ropts = Exclude.nothing;
  wv_band : match ro_band_selection ropts with Specified c => c = b | _ => True end
}.

Context (Hplaced : placed a src fs0) (Hwhole : whole_version) (Hstored : stored_band a fs b hs).
Context (Hvs : Forall2 (λ e v, finished_as (ar_block_dir a) fs e (item src options fs0 v)) (concat hs) vs).
Context (Hin : ∀ v, v ∈ vs ↔ in_tree src options fs0 v).
Context (Htimes : ∀ v, in_tree src options fs0 v → representable (ev_mtime v)).

(** An entry of the version, and what it stands for *)
Definition stands_for (e : IndexEntry) (q : list string) (v : EntryValue) (node : Node) : Prop :=
  finished_as (ar_block_dir a) fs e (item src options fs0 v) ∧ in_tree src options fs0 v ∧
  reached src fs0 (bo_exclude options) q ∧ names_ok q ∧ names_of e = q ∧ ie_apath e = of_names q ∧
  fs0 !! (src ++ q)%list = Some node ∧ value_of (of_names q) node = Some v.

Lemma finished_stands e q v node :
  finished_as (ar_block_dir a) fs e (item src options fs0 v) → reached src fs0 (bo_exclude options) q →
  fs0 !! (src ++ q)%list = Some node → value_of (of_names q) node = Some v → stands_for e q v node.
Proof.
  intros Hf Hr Hn Hv. assert (names_ok q) as Hq by (eapply reached_names; [by apply Hplaced|done]).
  assert (ie_apath e = of_names q) as Ha.
  { destruct Hf as [-> _]. cbn. destruct (owned_kind options v) as (_ & -> & _).
    unfold value_of in Hv. destruct node as [| |t m|]; try (by simplify_eq/=). by destruct (utf8_valid t); simplify_eq/=. }
  split_and!; try done.
  - exists q. split; [done|]. by exists node.
  - unfold names_of. rewrite Ha. apply valid_names_components, Hq.
Qed.

Lemma stored_entry e : e ∈ concat hs → ∃ q v node, stands_for e q v node.
Proof.
  intros [i Hi]%list_elem_of_lookup. destruct (Forall2_lookup_l _ _ _ _ _ Hvs Hi) as (v & Hv & Hf).
  apply list_elem_of_lookup_2, Hin in Hv as (q & Hr & node & Hn & Hv). exists q, v, node. by apply finished_stands.
Qed.

Lemma tree_entry q node v : reached src fs0 (bo_exclude options) q → fs0 !! (src ++ q)%list = Some node →
  value_of (of_names q) node = Some v → ∃ e, e ∈ concat hs ∧ stands_for e q v node.
Proof.
  intros Hr Hn Hv. assert (v ∈ vs) as [i Hi]%list_elem_of_lookup by (apply Hin; exists q; split; [done|]; by exists node).
  destruct (Forall2_lookup_r _ _ _ _ _ Hvs Hi) as (e & He & Hf). exists e. split; [by eapply list_elem_of_lookup_2|].
  by apply finished_stands.
Qed.

Lemma all_chosen : chosen ropts hs = concat hs.
Proof.
  unfold chosen. apply filter_all. rewrite (wv_subtree Hwhole), (wv_exclude Hwhole). apply Forall_forall.
  intros e (q & v & node & _ & _ & _ & [Hq _] & _ & Ha & _)%stored_entry. apply wanted_all. rewrite Ha. by apply of_names_valid.
Qed.

(** What the blocks of a file hold *)
Definition holds_pieces (e : IndexEntry) (ds : list string) : Prop :=
  Forall2 (part_ok (ar_block_dir a) fs) (ie_addrs e) ds ∧
  ∀ q v node c m, stands_for e q v node → node = NFile c m → parts (ie_addrs e) ds = c.

Lemma stands_content e q v c m : stands_for e q v (NFile c m) → content src fs0 v = c.
Proof.
  intros (_ & _ & _ & Hq & _ & _ & Hn & Hv). injection Hv as <-. unfold content. cbn [ev_kind_meta ev_apath].
  rewrite below_ok by done. by rewrite (fs_read_file_at _ _ _ _ Hn).
Qed.

Lemma entry_pieces e : e ∈ concat hs → ∃ ds, holds_pieces e ds.
Proof.
  intros (q & v & node & Hs)%stored_entry. pose proof Hs as ((_ & ds & Hds & Hp) & _ & _ & _ & Hq & _ & Hn & Hv).
  exists ds. split; [done|]. intros q' v' node' c m Hs' ->. pose proof Hs' as (_ & _ & _ & _ & Hq' & _ & Hn' & Hv').
  rewrite Hq' in Hq. subst q'. rewrite Hn in Hn'. injection Hn' as ->. rewrite Hv in Hv'. injection Hv' as <-.
  rewrite Hp. by eapply stands_content.
Qed.

Lemma stands_fields e q v node : stands_for e q v node →
  ie_kind e = kind v ∧ ie_target e = symlink_target v ∧ ie_mtime e = unix_timestamp (ev_mtime v) ∧
  ie_mtime_nanos e = nanosecond (ev_mtime v).
Proof. intros ((-> & _) & _). unfold item, owned. by destruct (bo_owner options). Qed.

(** The time of an entry can be read. *)
Lemma time_run e q v node (w : World) : stands_for e q v node → mtime e w = (Ret (recorded_time e), w).
Proof.
  intros Hs. pose proof (stands_fields e q v node Hs) as (_ & _ & Ht & Hn). destruct Hs as (_ & Hv & _).
  destruct (Htimes v Hv) as [[t Htime] Hnano]. cbn. unfold from_unix_seconds_and_nanos. rewrite Ht, Hn, Htime.
  erewrite bind_run by done. rewrite time_replace by done. apply time_from_timestamp in Htime as ->.
  unfold recorded_time. by rewrite Ht, Hn.
Qed.

Lemma entry_restorable e (pieces : IndexEntry → list string) : e ∈ concat hs → holds_pieces e (pieces e) →
  restorable (ar_block_dir a) recorded_time pieces fs e.
Proof.
  intros (q & v & node & Hs)%stored_entry [Hds _]. pose proof (stands_fields e q v node Hs) as (Hk & Ht & _).
  pose proof Hs as (_ & Hv & _ & Hq & Hn & Ha & Hnode & Hval). split.
  - by rewrite Hn.
  - by rewrite Hn.
  - intros w. by eapply time_run.
  - rewrite Hn. intros ->. destruct (pl_source _ _ _ Hplaced) as [m Hm].
    assert (fs0 !! (src ++ [])%list = Some (NDir m)) as Hm' by (by rewrite app_nil_r). rewrite Hm' in Hnode.
    injection Hnode as <-. rewrite Hk. by injection Hval as <-.
  - rewrite Hk, Ht. unfold value_of in Hval. destruct node as [c m|m|t m|m]; [..|done].
    + by injection Hval as <-.
    + by injection Hval as <-.
    + destruct (utf8_valid t); [|done]. injection Hval as <-. by eexists.
Qed.

Lemma version_restorable (pieces : IndexEntry → list string) :
  (∀ e, e ∈ concat hs → holds_pieces e (pieces e)) → selects a fs (ro_band_selection ropts) b →
  version_ok a fs ropts b hs recorded_time pieces.
Proof.
  intros Hpieces Hsel. split; [done..| | |]; rewrite ?all_chosen.
  - apply Forall_forall. intros e (q & v & node & _ & _ & _ & [Hq _] & _ & Ha & _)%stored_entry.
    rewrite Ha. by apply of_names_valid.
  - intros e He. apply entry_restorable; [done|by apply Hpieces].
  - intros e ps n (q & v & node & Hs)%stored_entry Hn. right. destruct Hs as (_ & _ & Hr & _ & Hq & _). rewrite <-Hq, Hn in Hr.
    apply reached_inv in Hr as (Hr & Hd & _). unfold is_dir_at in Hd.
    destruct (fs0 !! (src ++ ps)%list) as [[|m| |]|] eqn:E; try done.
    destruct (tree_entry ps (NDir m) _ Hr E eq_refl) as (d & Hd' & Hs'). exists d. split; [done|].
    pose proof (stands_fields _ _ _ _ Hs') as (Hk & _). by destruct Hs' as (_ & _ & _ & _ & Hn' & _).
Qed.
End restoring.

Lemma vacant_same (a : Archive) (fs fs' : Fs) (dest : Path) :
  separate (archive_path a) dest → (∀ p : Path, ¬ archive_path a `prefix_of` p → fs' !! p = fs !! p) →
  vacant fs dest → vacant fs' dest.
Proof.
  intros Hsep Hout [Hroom Hempty]. assert (fs' !! dest = fs !! dest) as Hd by (apply Hout, Hsep). split.
  - rewrite Hd. destruct Hroom as [?|(Hn & Hp & Hne)]; [by left|right]. split; [done|]. split; [|done]. rewrite Hout; [done|].
    destruct dest as [|n ps _] using rev_ind; [done|]. rewrite parent_snoc. intros Hx. apply (proj1 Hsep). etrans; [exact Hx|]. by apply prefix_app_r.
  - intros q Hq. rewrite Hout; [by apply Hempty|]. intros Hp. by apply (separate_not _ _ _ Hsep Hp), prefix_app_r.
Qed.

(** Another way to open the archive: only the handle of the block directory differs. *)
Definition reopened (a a' : Archive) : Prop :=
  ar_transport a' = ar_transport a ∧ bd_transport (ar_block_dir a') = bd_transport (ar_block_dir a).

Lemma version_ok_reopened `{Ext} `{BuildCfg} `{Codecs} (a a' : Archive) fs options b hs tm pieces :
  reopened a a' → version_ok a fs options b hs tm pieces → version_ok a' fs options b hs tm pieces.
Proof.
  destruct a as [[t h] t'], a' as [[u k] u']. intros [Ht Hu] [Hsel [] Hv Hok Hpar]. cbn in Ht, Hu. subst u u'.
  split; [done|by split|done| |done]. intros e He. by destruct (Hok e He).
Qed.

(** The round trip, when the archive is opened again for the restore *)
Lemma round_trip_run `{Ext, !LruLaws, !HashLaws, !HexLaws, !SnapLaws, !TimeLaws} `{!GlobLaws} `{BuildCfg}
    `{Codecs, !CodecLaws, !CodecTotal} `{!CacheDir, !CacheDirLaws} (a : Archive) (src dest : Path) (options : BackupOptions)
    (ropts : RestoreOptions) (D : string → Prop) (last : option BandId) (hs0 : list (list IndexEntry)) (w : World)
    (Hready : ready_archive a D last w) (Hplaced : placed a src (w_fs w)) (Htree : storable_tree src options (w_fs w) D)
    (Hbase : base a (w_fs w) last hs0) (Htrust : base_trusted a src options (w_fs w) hs0)
    (Hmax : bo_max_entries_per_hunk options ≠ 0)
    (Htimes : ∀ v, in_tree src options (w_fs w) v → representable (ev_mtime v))
    (Hwhole : whole_version ropts (next_band last)) (Hsep : separate (archive_path a) dest) (Hdest : vacant (w_fs w) dest) :
  ∃ stats w1, backup a src options w = (Ret (Ok stats), w1) ∧ w_errors w1 = w_errors w ∧ sound D (ar_block_dir a) w1 ∧
    only_adds (w_fs w) (w_fs w1) ∧ only_in (written_part a (next_band last)) (w_fs w) (w_fs w1) ∧
    ∀ a' w', reopened a a' → w_fs w' = w_fs w1 → serving (ar_block_dir a') w' →
    ∃ w2, Restore.restore a' dest ropts w' = (Ret (Ok tt), w2) ∧ w_errors w2 = w_errors w' ∧
    (∀ q node, reached src (w_fs w) (bo_exclude options) q → w_fs w !! (src ++ q)%list = Some node →
       is_Some (value_of (of_names q) node) →
       w_fs w2 !! (dest ++ q)%list = Some (copied options (root_meta (w_fs w) dest) q node)) ∧
    (∀ q, q ≠ [] → is_Some (w_fs w2 !! (dest ++ q)%list) → reached src (w_fs w) (bo_exclude options) q) ∧
    (∀ (p : Path) node, ¬ dest `prefix_of` p → w_fs w !! p = Some node → w_fs w2 !! p = Some node).
Proof.
  destruct (backup_run a src options (w_fs w) D last hs0 Hplaced Htrust Hbase Htree w eq_refl Hready Hmax)
    as (stats & w1 & hs & vs & Hr1 & Hst & Hvs & _ & Hin & Hnew & Hsd & Hadd & Hpart & _ & Her).
  exists stats, w1. do 5 (split; [done|]). intros a' w' Hre Hfs' Hserve.
  destruct (choose_list (holds_pieces a src options (w_fs w) (w_fs w1)) [] (concat hs)) as [pieces Hpieces].
  { intros e. by apply (entry_pieces a src options (w_fs w) (w_fs w1) hs vs Hplaced). }
  assert (archive_path a' = archive_path a) as Hpath by (unfold archive_path; by destruct Hre as [-> _]).
  assert (∀ p : Path, ¬ archive_path a `prefix_of` p → w_fs w1 !! p = w_fs w !! p) as Hout.
  { intros p Hp. apply Hpart. intros [Hx|Hx]; apply Hp; (etrans; [|exact Hx]); [|apply band_path_below].
    rewrite (pl_blocks _ _ _ Hplaced). by apply prefix_app_r. }
  destruct (restore_run a' dest ropts (next_band last) hs recorded_time pieces w') as (w2 & Hr2 & Hnodes & Honly & Hother & Her2);
    rewrite ?Hfs', ?Hpath in *.
  { apply Hwhole. }
  { done. }
  { destruct Hre as [_ ->]. rewrite (pl_blocks _ _ _ Hplaced). by apply prefix_app_r. }
  { done. }
  { apply Hsd. }
  { by apply (vacant_same a (w_fs w)). }
  { apply (version_ok_reopened a); [done|].
    apply (version_restorable a src options (w_fs w) (w_fs w1) ropts (next_band last) hs vs); try done.
    unfold selects. pose proof (wv_band _ _ Hwhole) as Hb. assert (is_dir_node (w_fs w1 !! archive_path a) = true) as Hdir.
    { pose proof (rd_dir _ _ _ _ Hready) as Hx. destruct (w_fs w !! archive_path a) as [nd|] eqn:E; [|done]. by rewrite (Hadd _ nd). }
    by destruct (ro_band_selection ropts). }
  rewrite (all_chosen a src options (w_fs w) (w_fs w1) ropts (next_band last) hs vs Hplaced Hwhole Hvs Hin) in Hnodes, Honly.
  assert (root_meta (w_fs w1) dest = root_meta (w_fs w) dest) as Hroot by (unfold root_meta; by rewrite Hout by apply Hsep).
  exists w2. split; [done|]. split; [done|]. split; [|split].
  - intros q node Hr Hn [v Hv].
    destruct (tree_entry a src options (w_fs w) (w_fs w1) hs vs Hplaced Hvs Hin q node v Hr Hn Hv) as (e & He & Hs).
    pose proof Hs as ((Hf & _) & _ & _ & Hq & Hnames & _). specialize (Hnodes e He). rewrite Hnames in Hnodes.
    rewrite Hnodes, Hroot. f_equal. apply (node_copied options e v q node); [done..|].
    intros c m ->. destruct (Hpieces e He) as [_ Hc]. by eapply Hc.
  - intros q Hq Hx. destruct (Honly q Hq Hx) as (e & He & <-).
    apply (stored_entry a src options (w_fs w) (w_fs w1) hs vs Hplaced Hvs Hin) in He as (q & v & node & _ & _ & Hr & _ & -> & _). done.
  - intros p node Hp Hn. rewrite Hother by done. by apply Hadd.
Qed.


(** ** Examples *)

#[local] Existing Instances sample_ext sample_build sample_hash_laws sample_hex_laws sample_snap_laws sample_lru_laws
  sample_glob_laws sample_time_laws sample_codecs sample_codec_laws sample_codec_total sample_cachedir.

Definition sample_restore_options : RestoreOptions := MkRestoreOptions _ Exclude.nothing None false LatestClosed None.

Lemma sample_home_time v : in_tree ["s"] default_backup_options sample_home_fs v → ev_mtime v = MkTime 0 0.
Proof.
  intros (q & _ & node & Hp%sample_home_in & Hv). change (["s"] ++ q)%list with ("s" :: q) in Hp.
  unfold sample_home_files, sample_tree_files in Hp.
  repeat (apply elem_of_cons in Hp as [Hp|Hp]; [simplify_eq|]); [..|by apply not_elem_of_nil in Hp];
    by injection Hv as <-.
Qed.

(** The round trip, run *)
Example sample_round_trip_run :
  ((_ ← backup sample_archive ["s"] default_backup_options; Restore.restore sample_archive ["r"] sample_restore_options)
     (world_of sample_home_fs)).2.(w_fs) !! ["r"; "b"; "c"] = Some (NFile "x" (MkMeta 420 (MkTime 0 0) 0 0)).
Proof. vm_compute. reflexivity. Qed.

