(* ===== verification/Incremental.v ===== *)
(** * One backup after another

    A backup on top of the version that an earlier backup has left, when the source has
    changed in the meantime: the entries of the earlier version can be trusted, as long as
    no file has changed without a change of its size or time; the new version is exact,
    and the earlier one is still what it was. *)

From Stdlib Require Import Ascii.
From S2P Require Import Prelude Text Apath Externals Sample Ids Entry Counters Errors World Transport Excludes Jsonio SampleWorld.
From S2P Require Import BlockDir BlockStore Index Archive Footprint Stitch LiveTree LiveOrder LiveWhole Backup BackupRun Combine.
From S2P Require Import Restore HunkIndex StoredBand BandWriter BackupTree RestoreTree BackupWhole GcSafety RoundTrip.
From stdpp Require Import list gmap strings sorting.

Section again.
Context `{Ext, !LruLaws, !HashLaws, !HexLaws, !SnapLaws, !TimeLaws} `{BuildCfg} `{Codecs, !CodecLaws, !CodecTotal} `{!CacheDir, !CacheDirLaws}.
Context (a : Archive) (src : Path).

(** The version of a tree, with its blocks *)
Definition version_of (options : BackupOptions) (tree fs : Fs) (b : BandId) (hs : list (list IndexEntry)) : Prop :=
  stored_band a fs b hs ∧
  ∃ vs, Forall2 (λ e v, finished_as (ar_block_dir a) fs e (item src options tree v)) (concat hs) vs ∧
    StronglySorted value_lt vs ∧ ∀ v, v ∈ vs ↔ in_tree src options tree v.

(** No file has other content with the same size and time. *)
Definition honest (options options' : BackupOptions) (tree tree' : Fs) : Prop :=
  ∀ v v' n, in_tree src options tree v → in_tree src options' tree' v' → ev_apath v = ev_apath v' →
    ev_kind_meta v = KM_File n → ev_kind_meta v' = KM_File n → ev_mtime v = ev_mtime v' →
    content src tree v = content src tree' v'.

Lemma version_kept options tree fs fs' b hs :
  same_below (archive_path a) fs fs' → tr_path (bd_transport (ar_block_dir a)) = (archive_path a ++ [BLOCK_DIR])%list →
  version_of options tree fs b hs → version_of options tree fs' b hs.
Proof.
  intros Hs Hbd (Hst & vs & Hvs & Hrest). split; [|exists vs; split; [|done]].
  - eapply stored_band_same; [|exact Hst]. eapply same_below_mono; [apply band_path_below|done].
  - eapply Forall2_impl; [exact Hvs|]. intros e v (He & ds & Hds & Hp). split; [done|]. exists ds. split; [|done].
    eapply Forall2_impl; [exact Hds|]. intros ad d ((Hfit & Hh & Hx) & Hl). split; [|done]. split; [done|]. split; [done|].
    destruct Hx as (c & m & Hc & Hrest'). exists c, m. split; [|done]. rewrite <-Hc. apply Hs.
    unfold block_path. rewrite Hbd, <-app_assoc. by apply prefix_app_r.
Qed.

Lemma version_adds options tree fs fs' b hs :
  same_below (band_path a b) fs fs' → only_adds fs fs' → version_of options tree fs b hs → version_of options tree fs' b hs.
Proof.
  intros Hs Ha (Hst & vs & Hvs & Hrest). split; [by eapply stored_band_same|]. exists vs. split; [|done].
  eapply Forall2_impl; [exact Hvs|]. intros e v. by apply finished_adds.
Qed.

(** What can be recorded of a value: its time, and its size *)
Definition recordable (v : EntryValue) : Prop :=
  representable (ev_mtime v) ∧ ∀ n, ev_kind_meta v = KM_File n → (n < u64_modulus)%N.

Lemma parts_sum fs addrs ds : Forall2 (part_ok (ar_block_dir a) fs) addrs ds → sum_N (a_len <$> addrs) = BlockDir.len (parts addrs ds).
Proof.
  induction 1 as [|ad d addrs ds Hp _ IH]; [done|]. rewrite fmap_cons. cbn [sum_N foldr parts]. fold (sum_N (a_len <$> addrs)).
  rewrite IH, len_app. f_equal. unfold BlockDir.len. rewrite (part_length _ _ _ _ Hp). by rewrite N2Nat.id.
Qed.

(** The entry of a value reads as the value does. *)
Lemma stored_reads options tree fs e v : placed a src tree → in_tree src options tree v → recordable v →
  finished_as (ar_block_dir a) fs e (item src options tree v) →
  reads_as e (ev_mtime v) (Some (BlockDir.len (content src tree v))).
Proof.
  intros Hpl Hv [[Ht Hn] Hlen] [He (ds & Hds & Hp)]. cbn [snd item] in Hp.
  assert (ie_kind e = kind v ∧ ie_target e = symlink_target v ∧ ie_mtime e = unix_timestamp (ev_mtime v) ∧
    ie_mtime_nanos e = nanosecond (ev_mtime v)) as (Hk & Htg & Hm & Hns) by (rewrite He; unfold item, owned; by destruct (bo_owner options)).
  pose proof (parts_sum _ _ _ Hds) as Hsum. rewrite Hp in Hsum.
  replace (ev_mtime v) with (MkTime (ie_mtime e) (ie_mtime_nanos e)) by (rewrite Hm, Hns; by destruct (ev_mtime v)).
  rewrite <-Hsum. apply index_entry_reads_as.
  - by rewrite Hm.
  - by rewrite Hns.
  - rewrite Hsum. destruct (ev_kind_meta v) as [n| | |] eqn:E; try (unfold content; rewrite E; done).
    rewrite <-(content_length a src options tree Hpl v n Hv E). by apply Hlen.
  - rewrite Hk. by eapply in_tree_known.
  - rewrite Hk, Htg. destruct v as [p [] ti u o]; done.
Qed.

Lemma reads_as_fun (e : IndexEntry) t s t' s' : reads_as e t s → reads_as e t' s' → t = t' ∧ s = s'.
Proof.
  intros (Hm & Hs & _) (Hm' & Hs' & _). specialize (Hm unit tt). rewrite Hm' in Hm. specialize (Hs unit tt). rewrite Hs' in Hs.
  by injection Hm as ->; injection Hs as ->.
Qed.

(** The entries of the version of an earlier state can be trusted. *)
Lemma version_trusted options options' tree tree' fs b hs :
  placed a src tree → (∀ v, in_tree src options tree v → recordable v) → honest options options' tree tree' →
  placed a src tree' → version_of options tree fs b hs →
  ∀ v e, in_tree src options' tree' v → e ∈ concat hs → ie_apath e = ev_apath v → trusted a src tree' fs v e.
Proof.
  intros Hpl Hrec Hh Hpl' (_ & vs & Hvs & _ & Hin) v' e Hv' [i Hi]%list_elem_of_lookup Ha.
  destruct (Forall2_lookup_l _ _ _ _ _ Hvs Hi) as (v & Hv & Hf). apply list_elem_of_lookup_2, Hin in Hv.
  pose proof (stored_reads options tree fs e v Hpl Hv (Hrec v Hv) Hf) as Hrd. pose proof Hf as [He (ds & Hds & Hp)]. cbn [snd item] in Hp.
  assert (ie_apath e = ev_apath v ∧ kind e = kind v) as [Hav Hk] by (rewrite He; unfold item, owned; by destruct (bo_owner options)).
  split; [done|by eexists _, _|]. intros t s Hrd' Hke Ht Hn. destruct (reads_as_fun _ _ _ _ _ Hrd Hrd') as [<- [= <-]].
  exists ds. split; [done|]. rewrite Hp. destruct (decide (kind v' = Kind_File)) as [Hf'|Hf'].
  - assert (∃ n, ev_kind_meta v' = KM_File n) as [n' En'] by (cbn in Hf'; destruct (ev_kind_meta v'); try done; by eexists).
    assert (∃ n, ev_kind_meta v = KM_File n) as [n En] by (rewrite <-Hke, Hk in Hf'; cbn in Hf'; destruct (ev_kind_meta v); try done; by eexists).
    apply (Hh v v' n'); [done|done|congruence| |done|done].
    rewrite En. f_equal. rewrite (content_length a src options tree Hpl v n Hv En). by apply Hn.
  - rewrite (content_none src tree' v') by done. apply content_none. by rewrite <-Hk, Hke.
Qed.
End again.

(** ** The archive between two backups *)

Section between.
Context `{Ext, !LruLaws, !HashLaws, !HexLaws, !SnapLaws, !TimeLaws} `{BuildCfg} `{Codecs, !CodecLaws, !CodecTotal} `{!CacheDir, !CacheDirLaws}.

Lemma newest_same (a : Archive) fs fs' b : same_below (archive_path a) fs fs' → newest a fs b → newest a fs' b.
Proof.
  intros Hs. assert (∀ c, listed a fs' c ↔ listed a fs c) as Hl.
  { intros c. split; intros (name & m & Hn & Hc); exists name, m; (split; [|done]); rewrite <-Hn;
      [symmetry|]; apply Hs; by apply prefix_app_r. }
  intros [Hb Hmax]. split; [by apply Hl|]. intros c Hc%Hl. by apply Hmax.
Qed.

(** The archive after a backup is ready for the next, whatever has become of the rest. *)
Lemma ready_again (a : Archive) D last w w1 hs fs' :
  tr_path (bd_transport (ar_block_dir a)) = (archive_path a ++ [BLOCK_DIR])%list →
  ready_archive a D last w → only_adds (w_fs w) (w_fs w1) → only_in (written_part a (next_band last)) (w_fs w) (w_fs w1) →
  sound D (ar_block_dir a) w1 → (∀ t, w_short w1 t = None) → stored_band a (w_fs w1) (next_band last) hs →
  w_fs w !! band_path a (next_band (Some (next_band last))) = None →
  same_below (archive_path a) (w_fs w1) fs' → fs_closed fs' →
  ready_archive a D (Some (next_band last)) (with_fs (λ _, fs') w1).
Proof.
  intros Hbd [_ Hdir Hlock _ Hacc _] Ha Hpt Hsd Hsh Hst Hroom Hs Hcl.
  assert (∀ p : Path, archive_path a `prefix_of` p → fs' !! p = w_fs w1 !! p) as Hsame by exact Hs.
  split.
  - apply (sound_same D _ w1); [|done|done|done]. intros p Hp. apply Hs. rewrite Hbd in Hp. etrans; [|exact Hp]. by apply prefix_app_r.
  - cbn. rewrite Hsame by done. destruct (w_fs w !! archive_path a) as [nd|] eqn:E; [|done]. by rewrite (Ha _ nd).
  - cbn. rewrite Hsame by by apply prefix_app_r. rewrite Hpt; [done|]. unfold written_part, lock_path. rewrite Hbd. unfold band_path.
    by intros [[q Hq]|[q Hq]]; rewrite <-app_assoc in Hq; apply app_inv_head in Hq.
  - cbn [w_fs with_fs]. rewrite Hsame by apply band_path_below. rewrite Hpt; [done|]. intros [Hx|Hx].
    + eapply (separate_not _ _ _ (band_blocks a (next_band (Some (next_band last))) Hbd)); [reflexivity|exact Hx].
    + eapply (separate_not _ _ _ (bands_apart a _ _ (next_band_ne (next_band last)))); [exact Hx|reflexivity].
  - done.
  - done.
Qed.
End between.

(** C3: incremental backups are exact. After a backup of a source, under the conditions
    of [backup_exact], the source may change, and so may everything else outside of the
    archive; as long as no file has other content with the same size and time, the next
    backup succeeds again with a version that is exactly what the source has become,
    although it takes the content of unchanged files from the blocks of the version
    before; and that version is still, with its blocks, exactly the source as it was. *)
Theorem incremental_backup_exact `{Ext, !LruLaws, !HashLaws, !HexLaws, !SnapLaws, !TimeLaws} `{BuildCfg}
    `{Codecs, !CodecLaws, !CodecTotal} `{!CacheDir, !CacheDirLaws} (a : Archive) (src : Path) (options : BackupOptions)
    (D : string → Prop) (last : option BandId) (hs0 : list (list IndexEntry)) (w : World)
    (Hready : ready_archive a D last w) (Hplaced : placed a src (w_fs w)) (Htree : storable_tree src options (w_fs w) D)
    (Hbase : base a (w_fs w) last hs0) (Htrust : base_trusted a src options (w_fs w) hs0)
    (Hmax : bo_max_entries_per_hunk options ≠ 0) (Hrec : ∀ v, in_tree src options (w_fs w) v → recordable v)
    (Hnum : (band_num (next_band last) < u32_max)%N)
    (Hroom : w_fs w !! band_path a (next_band (Some (next_band last))) = None) :
  ∃ stats w1 hs, backup a src options w = (Ret (Ok stats), w1) ∧
    version_of a src options (w_fs w) (w_fs w1) (next_band last) hs ∧
    ∀ options' fs', same_below (archive_path a) (w_fs w1) fs' → fs_closed fs' → placed a src fs' →
      storable_tree src options' fs' D → bo_max_entries_per_hunk options' ≠ 0 → honest src options options' (w_fs w) fs' →
      ∃ stats' w2 hs', backup a src options' (with_fs (λ _, fs') w1) = (Ret (Ok stats'), w2) ∧
        version_of a src options' fs' (w_fs w2) (next_band (Some (next_band last))) hs' ∧
        version_of a src options (w_fs w) (w_fs w2) (next_band last) hs.
Proof.
  destruct (backup_run a src options (w_fs w) D last hs0 Hplaced Htrust Hbase Htree w eq_refl Hready Hmax)
    as (stats & w1 & hs & vs & Hr & Hst & Hvs & Hso & Hin & Hnew & Hsd & Hadd & Hpart & Hsh & _).
  assert (version_of a src options (w_fs w) (w_fs w1) (next_band last) hs) as Hver by (split; [done|by exists vs]).
  exists stats, w1, hs. split; [done|]. split; [done|]. intros options' fs' Hs Hcl Hplaced' Htree' Hmax' Hh.
  set (w' := with_fs (λ _, fs') w1). pose proof (pl_blocks _ _ _ Hplaced) as Hbd.
  pose proof (version_kept a src options (w_fs w) (w_fs w1) fs' (next_band last) hs Hs Hbd Hver) as Hver'.
  assert (ready_archive a D (Some (next_band last)) w') as Hready' by (by eapply ready_again).
  assert (base a fs' (Some (next_band last)) hs) as Hbase'.
  { split; [by eapply newest_same|split; [done|apply Hver']]. }
  destruct (backup_run a src options' fs' D (Some (next_band last)) hs Hplaced') with (w := w')
    as (stats' & w2 & hs' & vs' & Hr' & Hst' & Hvs' & Hso' & Hin' & _ & _ & Hadd' & Hpart' & _); try done.
  { intros v e. by apply (version_trusted a src options options' (w_fs w) fs' fs' (next_band last) hs). }
  exists stats', w2, hs'. split; [done|]. split; [split; [done|by exists vs']|].
  apply (version_adds a src options (w_fs w) fs'); [|done|done]. intros p Hp. apply Hpart'. intros [Hx|Hx].
  - by apply (separate_not _ _ p (band_blocks a (next_band last) Hbd)).
  - by apply (separate_not _ _ p (bands_apart a _ _ (next_band_ne (next_band last)))).
Qed.

(** ** Examples *)

#[local] Existing Instances sample_ext sample_build sample_hash_laws sample_hex_laws sample_snap_laws sample_lru_laws
  sample_time_laws sample_codecs sample_codec_laws sample_codec_total sample_cachedir.

Definition sample_restore_band (n : N) : RestoreOptions :=
  MkRestoreOptions _ Exclude.nothing None false (Specified (MkBandId n)) None.

(** Two backups, with a change of a file between them, and both versions restored *)
Definition sample_two_backups : M (list (option Node)) :=
  _ ← backup sample_archive ["s"] default_backup_options;
  _ ← modify (with_fs (<[["s"; "z"] := NFile "yz" (MkMeta 420 (MkTime 7 0) 0 0)]>));
  _ ← backup sample_archive ["s"] default_backup_options;
  _ ← Restore.restore sample_archive ["r0"] (sample_restore_band 0);
  _ ← Restore.restore sample_archive ["r1"] (sample_restore_band 1);
  gets (λ w, [w_fs w !! ["r0"; "z"]; w_fs w !! ["r1"; "z"]; w_fs w !! ["r0"; "b"; "c"]; w_fs w !! ["r1"; "b"; "c"]]).

Example sample_two_backups_run :
  (sample_two_backups (world_of sample_home_fs)).1 = Ret
    [Some (NFile "y" (MkMeta 420 (MkTime 0 0) 0 0)); Some (NFile "yz" (MkMeta 420 (MkTime 7 0) 0 0));
     Some (NFile "x" (MkMeta 420 (MkTime 0 0) 0 0)); Some (NFile "x" (MkMeta 420 (MkTime 0 0) 0 0))].
Proof. vm_compute. reflexivity. Qed.

Lemma incremental_backup_exact_witness :
  ∃ stats w1 hs, backup sample_archive ["s"] default_backup_options (world_of sample_home_fs) = (Ret (Ok stats), w1) ∧
    version_of sample_archive ["s"] default_backup_options sample_home_fs (w_fs w1) (MkBandId 0) hs ∧
    ∀ options' fs', same_below ["a"] (w_fs w1) fs' → fs_closed fs' → placed sample_archive ["s"] fs' →
      storable_tree ["s"] options' fs' sample_contents → bo_max_entries_per_hunk options' ≠ 0 →
      honest ["s"] default_backup_options options' sample_home_fs fs' →
      ∃ stats' w2 hs', backup sample_archive ["s"] options' (with_fs (λ _, fs') w1) = (Ret (Ok stats'), w2) ∧
        version_of sample_archive ["s"] options' fs' (w_fs w2) (MkBandId 1) hs' ∧
        version_of sample_archive ["s"] default_backup_options sample_home_fs (w_fs w2) (MkBandId 0) hs.
Proof.
  apply (incremental_backup_exact sample_archive ["s"] default_backup_options sample_contents None [] (world_of sample_home_fs)).
  - exact sample_home_ready.
  - exact sample_home_placed.
  - exact sample_home_storable.
  - exact sample_home_base.
  - intros v e _ He. by apply not_elem_of_nil in He.
  - unfold default_backup_options, bo_max_entries_per_hunk. lia.
  - intros v Hv. split; [rewrite (sample_home_time v Hv); split; [by eexists|done]|]. intros n Hk.
    destruct (sample_home_file v n Hv Hk) as [[-> _]|[-> _]]; by injection Hk as <-.
  - done.
  - apply eq_None_not_Some. intros [n Hn]. by apply (sample_home_archive ["b0001"]) in Hn as [?|?].
Defined.
