(* ===== verification/Remote.v ===== *)
(** * What remote transports share

    The parts of the [url] crate that the S3 and SFTP transports use, the errors
    of remote services as the program classifies them (the [From] instances of
    [transport::ErrorKind]), and the functions of the standard library on the ends of
    strings. The state of a service is any type: the code is a function of the
    operations of a client, and what it relies on of them are laws. *)

From Stdlib Require Import Ascii.
From S2P Require Import Prelude Text Externals Errors.
From stdpp Require Import list strings.

(** [crate::version()], from Cargo.toml *)
Definition version : string := "23.11.0".

(** The parts of a URL, and [Url::join]. *)
Class UrlOps : Type := {
  Url : Type;
  url_scheme : Url → string;
  url_authority : Url → string;
  url_path : Url → string;
  url_host_str : Url → option string;
  url_port : Url → option N;
  url_username : Url → string;
  url_join : Url → string → option Url
}.

(** [impl From<&E> for ErrorKind]: the kind of a service's error. *)
Class ErrorKindFrom (E : Type) : Type := error_kind_from : E → TransportErrorKind.

(** A transport error whose source is an error of a third-party library. *)
Definition remote_error (kind : TransportErrorKind) : TransportError := MkTransportError kind None None.

(** [s.trim_end_matches(c)] for a character *)
Fixpoint trim_end_char (c : ascii) (s : string) : string :=
  match s with
  | EmptyString => EmptyString
  | String a s =>
      match trim_end_char c s with
      | EmptyString => if Ascii.eqb a c then EmptyString else String a EmptyString
      | t => String a t
      end
  end.

(** [s.strip_suffix(c)] for a character *)
Fixpoint strip_suffix_char (c : ascii) (s : string) : option string :=
  match s with
  | EmptyString => None
  | String a EmptyString => if Ascii.eqb a c then Some EmptyString else None
  | String a s => String a <$> strip_suffix_char c s
  end.

Lemma trim_end_char_end c s : ends_with_char c (trim_end_char c s) = false.
Proof.
  induction s as [|a s IH]; simpl; [done|].
  destruct (trim_end_char c s) as [|b t] eqn:E; [|done].
  destruct (Ascii.eqb a c) eqn:Ea; simpl; [done|by rewrite Ea].
Qed.

Lemma strip_suffix_char_app c s : strip_suffix_char c (s +:+ String c "") = Some s.
Proof.
  induction s as [|a s IH]; simpl; [by rewrite Ascii.eqb_refl|].
  rewrite IH. by destruct s.
Qed.
