(* ===== verification/S3.v ===== *)
(** * The S3 transport (src/transport/s3.rs)

    Access to an archive that is kept as objects of a bucket. The AWS client is a
    parameter, the class [S3Client] of its operations on the state of the service; what
    the documentation of S3 says about them is the class [S3Laws]. The theorems give what
    each operation of the transport does to the objects of the bucket. *)

From Stdlib Require Import Ascii.
From S2P Require Import Prelude Text Apath Externals Ids Errors World Transport Remote.
From stdpp Require Import list gmap strings.

(** ** The AWS client *)

(** [SdkError]: the service's answer, or that there was none. *)
Inductive SdkError (E : Type) : Type :=
  | ServiceError (err : E)
  | OtherSdkError.
Arguments ServiceError {E} err.
Arguments OtherSdkError {E}.

(** [ListObjectsV2Output]: common prefixes, and objects of which the key is used *)
Record ListPage : Type := MkListPage {
  pg_common_prefixes : option (list (option string));
  pg_contents : option (list (option string))
}.

(** The operations of the SDK. Errors are known by the one case that the program
    distinguishes. A listing is made of pages that are asked for one by one. *)
Class S3Client (St : Type) : Type := {
  Runtime : Type;
  AppName : Type;
  SdkConfig : Type;
  Client : Type;
  StorageClass : Type;
  IntelligentTiering : StorageClass;
  ByteStream : Type;
  DateTime : Type;
  Paginator : Type;
  LocationError : Type;
  GetObjectError : Type;
  ListObjectsV2Error : Type;
  PutObjectError : Type;
  HeadObjectError : Type;
  DeleteObjectError : Type;
  ByteStreamError : Type;
  GetObjectError_NoSuchKey : GetObjectError → bool;
  ListObjectsV2Error_NoSuchBucket : ListObjectsV2Error → bool;
  HeadObjectError_NotFound : HeadObjectError → bool;
  runtime_build : ST St (result Runtime IoKind);
  app_name_new : string → option AppName;
  config_load : Runtime → AppName → string → ST St SdkConfig;
  client_new : SdkConfig → Client;
  get_bucket_location : Client → string → ST St (result (option string) (SdkError LocationError));
  list_objects_v2 : Client → string → string → option string → Paginator;
  paginator_next : Paginator → ST St (option (result ListPage (SdkError ListObjectsV2Error)) * Paginator);
  get_object : Client → string → string → ST St (result ByteStream (SdkError GetObjectError));
  body_collect : ByteStream → ST St (result string ByteStreamError);
  (** storage class, checksum, body, and [if_none_match] *)
  put_object : Client → string → string → StorageClass → string → string → option string →
    ST St (result unit (SdkError PutObjectError));
  delete_object : Client → string → string → ST St (result unit (SdkError DeleteObjectError));
  (** the length of the content and the time of the last change *)
  head_object : Client → string → string →
    ST St (result (option Z * option DateTime) (SdkError HeadObjectError));
  system_time : DateTime → option OffsetDateTime;
  (** [crc32c] in base 64, of the bytes in big-endian order *)
  crc32c_base64 : string → string
}.

(** [s3::Protocol] *)
Record S3Protocol `{UrlOps} {St : Type} `{!S3Client St} : Type := MkS3Protocol {
  s3_url : Url;
  s3_runtime : Runtime;
  s3_client : Client;
  s3_bucket : string;
  s3_base_path : string;
  s3_storage_class : StorageClass
}.
Arguments MkS3Protocol {_ _ _} _ _ _ _ _ _.

Module S3.
Section s3.
Context `{BuildCfg} `{UrlOps} {St : Type} `{!S3Client St}.
Implicit Types self : S3Protocol.

(** [From<&GetObjectError> for ErrorKind] and the others *)
#[global] Instance kind_get_object : ErrorKindFrom GetObjectError :=
  λ source, if GetObjectError_NoSuchKey source then TE_NotFound else TE_Other.
#[global] Instance kind_list_objects : ErrorKindFrom ListObjectsV2Error :=
  λ source, if ListObjectsV2Error_NoSuchBucket source then TE_NotFound else TE_Other.
#[global] Instance kind_put_object : ErrorKindFrom PutObjectError := λ _, TE_Other.
#[global] Instance kind_head_object : ErrorKindFrom HeadObjectError :=
  λ source, if HeadObjectError_NotFound source then TE_NotFound else TE_Other.
#[global] Instance kind_delete_object : ErrorKindFrom DeleteObjectError := λ _, TE_Other.

(** [s3_error(key, source)]; the URL only serves messages. *)
Definition s3_error `{ErrorKindFrom E} (source : SdkError E) : TransportError :=
  remote_error (match source with
                | ServiceError err => error_kind_from err
                | OtherSdkError => TE_Other
                end).

(** [load_aws_config(runtime, region)] *)
Definition load_aws_config (runtime : Runtime) (region : option string) : ST St SdkConfig :=
  name ← expect (app_name_new ("conserve-" +:+ version));
  config_load runtime name (default "us-east-1" region).

(** [Protocol::new(url)] *)
Definition new (url : Url) : ST St (result S3Protocol TransportError) :=
  _ ← rust_assert (String.eqb (url_scheme url) "s3");
  r ← runtime_build;
  match r with
  | Err source => mret (Err (MkTransportError TE_CreateTransport (Some source) None))
  | Ok runtime =>
      let bucket := url_authority url in
      _ ← rust_assert (negb (String.eqb bucket ""));
      config ← load_aws_config runtime None;
      response ← get_bucket_location (client_new config) bucket;
      region ← expect_ok response;
      config ← load_aws_config runtime region;
      let client := client_new config in
      base_path ←
        (if String.eqb (url_path url) "" then mret ""
         else path ← expect (str_strip_prefix "/" (url_path url)); mret (trim_end_char "/" path));
      mret (Ok (MkS3Protocol url runtime client bucket base_path IntelligentTiering))
  end.

(** [join_paths(a, b)] *)
Definition join_paths (a b : string) : ST St string :=
  if String.eqb b "" then mret a
  else if String.eqb a "" then mret b
  else
    let result := (if ends_with_char "/" a then a else a +:+ "/") +:+ b in
    _ ← debug_assert (negb (contains_str "//" result));
    _ ← debug_assert (negb (starts_with "/" result));
    _ ← debug_assert (negb (contains_str "/../" result));
    _ ← debug_assert (negb (ends_with_char "/" result));
    mret result.

Definition join_path self (relpath : string) : ST St string :=
  join_paths (s3_base_path self) relpath.

(** The names that [list_dir] takes from a common prefix and from an object *)
Definition prefix_name (prefix : string) (common_prefix : option string) : ST St string :=
  name ← expect common_prefix;
  name ← expect (str_strip_prefix prefix name);
  name ← expect (strip_suffix_char "/" name);
  _ ← debug_assert (negb (contains_char "/" name));
  mret name.

Definition object_name (prefix : string) (key : option string) : ST St string :=
  name ← expect key;
  name ← expect (str_strip_prefix prefix name);
  _ ← debug_assert (negb (contains_char "/" name));
  mret name.

(** One page of the listing *)
Definition add_page (prefix : string) (result : ListDir) (response : ListPage) : ST St ListDir :=
  result ← fold_st (λ r p, name ← prefix_name prefix p; mret (MkListDir (ld_files r) (ld_dirs r ++ [name])))
    result (default [] (pg_common_prefixes response));
  fold_st (λ r k, name ← object_name prefix k; mret (MkListDir (ld_files r ++ [name]) (ld_dirs r)))
    result (default [] (pg_contents response)).

(** The loop of [list_dir], for at most [pages] pages *)
Fixpoint list_loop (pages : nat) (prefix : string) (stream : Paginator) (result : ListDir) :
    ST St (Prelude.result ListDir TransportError) :=
  match pages with
  | O => no_fuel
  | S pages =>
      '(next, stream) ← paginator_next stream;
      match next with
      | Some (Ok response) =>
          result ← add_page prefix result response;
          list_loop pages prefix stream result
      | Some (Err err) => mret (Err (s3_error err))
      | None => mret (Ok result)
      end
  end.

Definition list_dir (pages : nat) self (relpath : string) : ST St (result ListDir TransportError) :=
  prefix ← join_path self relpath;
  _ ← debug_assert (negb (ends_with_char "/" prefix));
  let prefix := if String.eqb prefix "" then prefix else prefix +:+ "/" in
  list_loop pages prefix (list_objects_v2 (s3_client self) (s3_bucket self) prefix (Some "/")) (MkListDir [] []).

Definition read_file self (relpath : string) : ST St (result string TransportError) :=
  key ← join_path self relpath;
  response ← get_object (s3_client self) (s3_bucket self) key;
  match response with
  | Err source => mret (Err (s3_error source))
  | Ok body =>
      r ← body_collect body;
      mret (map_err (λ _, remote_error TE_Other) r)
  end.

(** There are no directory objects, so there is nothing to create. *)
Definition create_dir self (relpath : string) : ST St (result unit TransportError) := mret (Ok tt).

Definition write_file self (relpath content : string) (write_mode : WriteMode) :
    ST St (result unit TransportError) :=
  key ← join_path self relpath;
  response ← put_object (s3_client self) (s3_bucket self) key (s3_storage_class self)
    (crc32c_base64 content) content
    (match write_mode with CreateNew => Some "*" | Overwrite => None end);
  mret (map_err s3_error response).

Definition remove_file self (relpath : string) : ST St (result unit TransportError) :=
  key ← join_path self relpath;
  response ← delete_object (s3_client self) (s3_bucket self) key;
  mret (map_err s3_error response).

(** One object of the loop of [remove_dir_all] *)
Definition remove_object self (_ : unit) (object : option string) : ST St (result unit TransportError) :=
  key ← expect object;
  response ← delete_object (s3_client self) (s3_bucket self) key;
  mret (map_err s3_error response).

Fixpoint remove_loop (pages : nat) self (stream : Paginator) : ST St (result unit TransportError) :=
  match pages with
  | O => no_fuel
  | S pages =>
      '(next, stream) ← paginator_next stream;
      match next with
      | None => mret (Ok tt)
      | Some (Err err) => mret (Err (s3_error err))
      | Some (Ok response) =>
          contents ← expect (pg_contents response);
          _ ←? try_fold (remove_object self) tt contents;
          remove_loop pages self stream
      end
  end.

Definition remove_dir_all (pages : nat) self (relpath : string) : ST St (result unit TransportError) :=
  prefix ← join_path self relpath;
  remove_loop pages self (list_objects_v2 (s3_client self) (s3_bucket self) prefix None).

Definition metadata self (relpath : string) : ST St (result Metadata TransportError) :=
  key ← join_path self relpath;
  response ← head_object (s3_client self) (s3_bucket self) key;
  match response with
  | Ok (content_length, last_modified) =>
      len ← expect content_length;
      len ← expect (if (0 <=? len)%Z then Some (Z.to_N len) else None);
      modified ← expect last_modified;
      modified ← expect (system_time modified);
      mret (Ok (MkMetadata len Kind_File modified))
  | Err err => mret (Err (s3_error err))
  end.

(** [Transport::is_file], on this protocol *)
Definition is_file self (path : string) : ST St (result bool TransportError) :=
  r ← metadata self path;
  mret (match r with
        | Ok m => Ok (bool_decide (md_kind m = Kind_File))
        | Err err => if is_not_found err then Ok false else Err err
        end).

Definition chdir self (relpath : string) : ST St S3Protocol :=
  base_path ← join_paths (s3_base_path self) relpath;
  url ← expect (url_join (s3_url self) relpath);
  mret (MkS3Protocol url (s3_runtime self) (s3_client self) (s3_bucket self) base_path (s3_storage_class self)).

End s3.
End S3.

(** ** What S3 promises *)

(** What a listing lists: an object by its key, or the common prefix of several. *)
Inductive Item : Type := Obj (key : string) | Pre (prefix : string).

Definition item_key (i : Item) : option string := match i with Obj k => Some k | Pre _ => None end.
Definition item_prefix (i : Item) : option string := match i with Pre p => Some p | Obj _ => None end.

(** The items of a listing with [prefix]; with a slash as delimiter, the keys that have
    a slash after the prefix are rolled up into one common prefix. *)
Definition is_item (keys : string → Prop) (prefix : string) (slash : bool) (i : Item) : Prop :=
  match i with
  | Obj k => keys k ∧ ∃ rest, k = prefix +:+ rest ∧ (slash = true → contains_char "/" rest = false)
  | Pre p => slash = true ∧ ∃ name rest, p = prefix +:+ name +:+ "/" ∧ contains_char "/" name = false ∧
      keys (prefix +:+ name +:+ String "/" rest)
  end.

Definition delimiter (slash : bool) : option string := if slash then Some "/" else None.

(** A page that has these items *)
Definition page_has (page : ListPage) (items : list Item) : Prop :=
  default [] (pg_common_prefixes page) = Some <$> omap item_prefix items ∧
  default [] (pg_contents page) = Some <$> omap item_key items.

(** The service keeps objects by bucket and key. While it is [serving], it answers every
    request, and an operation changes only what it is about. A listing has each of its
    items once, on pages that are not empty, except that the first one can be; deleting
    an object that is not still to come does not disturb the listing of the others. *)
Class S3Laws (St : Type) `{!S3Client St} : Type := {
  objects : St → gmap (string * string) string;
  serving : St → Prop;
  pending : Paginator → list Item → St → Prop;
  first_page : ∀ client b prefix slash st, serving st →
    ∃ page items later stream st',
      paginator_next (list_objects_v2 client b prefix (delimiter slash)) st =
        (Ret (Some (Ok page), stream), st') ∧
      page_has page items ∧ NoDup (items ++ later) ∧
      (∀ i, i ∈ items ++ later ↔ is_item (λ k, is_Some (objects st !! (b, k))) prefix slash i) ∧
      (items = [] → later = []) ∧
      pending stream later st' ∧ objects st' = objects st ∧ serving st';
  last_page : ∀ stream st, serving st → pending stream [] st →
    ∃ stream' st', paginator_next stream st = (Ret (None, stream'), st') ∧
      objects st' = objects st ∧ serving st';
  next_page : ∀ stream l st, serving st → pending stream l st → l ≠ [] →
    ∃ page items later stream' st',
      paginator_next stream st = (Ret (Some (Ok page), stream'), st') ∧
      page_has page items ∧ l = (items ++ later)%list ∧ items ≠ [] ∧
      pending stream' later st' ∧ objects st' = objects st ∧ serving st';
  get_present : ∀ client b k st c, serving st → objects st !! (b, k) = Some c →
    ∃ body st1 st', get_object client b k st = (Ret (Ok body), st1) ∧
      body_collect body st1 = (Ret (Ok c), st') ∧ objects st' = objects st ∧ serving st';
  get_absent : ∀ client b k st, k ≠ "" → serving st → objects st !! (b, k) = None →
    ∃ e st', get_object client b k st = (Ret (Err (ServiceError e)), st') ∧
      GetObjectError_NoSuchKey e = true ∧ objects st' = objects st ∧ serving st';
  put_done : ∀ client b k class crc c cond st, k ≠ "" → serving st →
    cond = None ∨ objects st !! (b, k) = None →
    ∃ st', put_object client b k class crc c cond st = (Ret (Ok tt), st') ∧
      objects st' = <[ (b, k) := c ]> (objects st) ∧ serving st';
  put_refused : ∀ client b k class crc c st, serving st → is_Some (objects st !! (b, k)) →
    ∃ e st', put_object client b k class crc c (Some "*") st = (Ret (Err (ServiceError e)), st') ∧
      objects st' = objects st ∧ serving st';
  delete_done : ∀ client b k st, k ≠ "" → serving st →
    ∃ st', delete_object client b k st = (Ret (Ok tt), st') ∧
      objects st' = delete (b, k) (objects st) ∧ serving st' ∧
      ∀ stream ks, pending stream (Obj <$> ks) st → k ∉ ks → pending stream (Obj <$> ks) st';
  head_present : ∀ client b k st c, serving st → objects st !! (b, k) = Some c →
    ∃ t m st', head_object client b k st =
        (Ret (Ok (Some (Z.of_nat (String.length c)), Some t)), st') ∧
      system_time t = Some m ∧ objects st' = objects st ∧ serving st';
  head_absent : ∀ client b k st, k ≠ "" → serving st → objects st !! (b, k) = None →
    ∃ e st', head_object client b k st = (Ret (Err (ServiceError e)), st') ∧
      HeadObjectError_NotFound e = true ∧ objects st' = objects st ∧ serving st'
}.

(** ** Keys *)

(** A path of valid names has nothing that [join_paths] asserts against. *)
Lemma contains_between ns a : valid_names ns → valid_name a = false → contains_char "/" a = false →
  contains_str (String "/" (a +:+ "/")) (join_with "/" ns) = false.
Proof.
  intros Hv Ha Hs. apply not_true_iff_false. intros (x & y & Heq)%contains_str_split.
  destruct ns as [|n ns]; [by destruct x|].
  pose proof (split_valid_names _ Hv ltac:(done)) as Hsp. rewrite Heq in Hsp.
  assert (x +:+ String "/" (a +:+ "/") +:+ y = x +:+ String "/" (a +:+ String "/" y)) as Hxy.
  { f_equal. simpl. f_equal. by rewrite string_app_assoc. }
  rewrite Hxy, !split_on_app in Hsp. unfold valid_names in Hv. rewrite <-Hsp in Hv.
  apply Forall_app in Hv as [_ Hv]. rewrite split_on_no_sep in Hv by done.
  inversion_clear Hv. congruence.
Qed.

Lemma join_not_ending ns : valid_names ns → ends_with_char "/" (join_with "/" ns) = false.
Proof.
  intros Hv. apply not_true_iff_false. intros [t Ht]%ends_with_char_split.
  destruct ns as [|n ns]; [by destruct t|].
  pose proof (split_valid_names _ Hv ltac:(done)) as Hs. rewrite Ht, split_on_app in Hs.
  unfold valid_names in Hv. rewrite <-Hs in Hv. apply Forall_app in Hv as [_ Hv]. by inversion_clear Hv.
Qed.

Lemma join_not_nil ns : valid_names ns → ns ≠ [] → join_with "/" ns ≠ "".
Proof. intros Hv Hn Hj. by apply Hn, join_valid_names_nil. Qed.

Section facts.
Context `{BuildCfg} `{UrlOps} {St : Type} `{!S3Client St} `{!S3Laws St}.

(** Joining two paths of names, of which one may be empty, gives the path of all. *)
Lemma join_paths_names (base ns : list string) (st : St) :
  valid_names (base ++ ns) →
  S3.join_paths (join_with "/" base) (join_with "/" ns) st = (Ret (join_with "/" (base ++ ns)), st).
Proof.
  intros Hv. pose proof Hv as [Hb Hn]%Forall_app. unfold S3.join_paths.
  destruct (String.eqb_spec (join_with "/" ns) "") as [He|He].
  { apply join_valid_names_nil in He as ->; [|done]. by rewrite app_nil_r. }
  destruct (String.eqb_spec (join_with "/" base) "") as [Hz|Hz].
  { by apply join_valid_names_nil in Hz as ->. }
  rewrite join_not_ending by done.
  assert ((join_with "/" base +:+ "/") +:+ join_with "/" ns = join_with "/" (base ++ ns)) as ->.
  { rewrite string_app_assoc, join_with_app; [done|by intros ->..]. }
  pose proof (contains_between (base ++ ns) "" Hv eq_refl eq_refl) as H1. simpl in H1. rewrite H1.
  pose proof (contains_between (base ++ ns) ".." Hv eq_refl eq_refl) as H2. simpl in H2. rewrite H2.
  rewrite join_not_absolute, join_not_ending by done. cbn [negb].
  by do 4 (erewrite bind_run by apply debug_assert_true).
Qed.

(** The transport addresses the directory of these names in its bucket. *)
Definition addresses (self : S3Protocol) (base : list string) : Prop :=
  valid_names base ∧ s3_base_path self = join_with "/" base.

Lemma join_path_names self base ns (st : St) :
  addresses self base → valid_names ns →
  S3.join_path self (join_with "/" ns) st = (Ret (join_with "/" (base ++ ns)), st).
Proof. intros [Hb Hs] Hn. unfold S3.join_path. rewrite Hs. apply join_paths_names. by apply Forall_app. Qed.

(** [m] ends with [r] and leaves the objects as [os], the service still serving. *)
Definition leaves {A : Type} (m : ST St A) (st : St) (r : A) (os : gmap (string * string) string) : Prop :=
  ∃ st', m st = (Ret r, st') ∧ objects st' = os ∧ serving st'.

Lemma leaves_bind {A B : Type} (m : ST St A) (k : A → ST St B) st a os r os' :
  leaves m st a os → (∀ st', objects st' = os → serving st' → leaves (k a) st' r os') → leaves (m ≫= k) st r os'.
Proof.
  intros (st1 & Hm & Ho & Hs) Hk. destruct (Hk st1 Ho Hs) as (st2 & Hr & Ho2 & Hs2).
  exists st2. by erewrite bind_run by exact Hm.
Qed.

(** The key of a path of names, and that the operations compute it *)
Lemma keyed {B : Type} self base ns (k : string → ST St B) st r os :
  addresses self base → valid_names ns →
  leaves (k (join_with "/" (base ++ ns))) st r os →
  leaves (S3.join_path self (join_with "/" ns) ≫= k) st r os.
Proof.
  intros Ha Hn (st' & Hr & Hos). exists st'. by erewrite bind_run by by apply join_path_names.
Qed.

Lemma read_file_object self base ns st :
  addresses self base → valid_names ns → base ++ ns ≠ [] → serving st →
  leaves (S3.read_file self (join_with "/" ns)) st
    (match objects st !! (s3_bucket self, join_with "/" (base ++ ns)) with
     | Some c => Ok c
     | None => Err (remote_error TE_NotFound)
     end) (objects st).
Proof.
  intros Ha Hn Hne Hs. eapply keyed; [done..|].
  pose proof (join_not_nil _ (proj2 (Forall_app _ _ _) (conj (proj1 Ha) Hn)) Hne) as Hk.
  destruct (objects st !! _) as [c|] eqn:E.
  - destruct (get_present (s3_client self) _ _ _ _ Hs E) as (body & st1 & st2 & Hg & Hc & Ho & Hs2).
    exists st2. by rewrite (bind_run _ _ _ _ _ Hg), (bind_run _ _ _ _ _ Hc).
  - destruct (get_absent (s3_client self) _ _ _ Hk Hs E) as (e & st1 & Hg & He & Ho & Hs2).
    exists st1. rewrite (bind_run _ _ _ _ _ Hg). split; [|done].
    unfold S3.s3_error, error_kind_from, S3.kind_get_object. by rewrite He.
Qed.

Lemma is_file_object self base ns st :
  addresses self base → valid_names ns → base ++ ns ≠ [] → serving st →
  leaves (S3.is_file self (join_with "/" ns)) st
    (Ok (bool_decide (is_Some (objects st !! (s3_bucket self, join_with "/" (base ++ ns)))))) (objects st).
Proof.
  intros Ha Hn Hne Hs. unfold S3.is_file, S3.metadata.
  pose proof (join_not_nil _ (proj2 (Forall_app _ _ _) (conj (proj1 Ha) Hn)) Hne) as Hk.
  destruct (objects st !! _) as [c|] eqn:E.
  - destruct (head_present (s3_client self) _ _ _ _ Hs E) as (t & m & st1 & Hh & Ht & Ho & Hs1).
    eapply (leaves_bind _ _ _ (Ok (MkMetadata (Z.to_N (Z.of_nat (String.length c))) Kind_File m)) (objects st)).
    + eapply keyed; [done..|]. exists st1. rewrite (bind_run _ _ _ _ _ Hh).
      assert ((0 <=? Z.of_nat (String.length c))%Z = true) as Hle by (apply Z.leb_le; lia).
      erewrite bind_run by done. rewrite Hle. do 2 (erewrite bind_run by done). by rewrite Ht.
    + intros st' Ho' Hs'. by exists st'.
  - destruct (head_absent (s3_client self) _ _ _ Hk Hs E) as (e & st1 & Hh & He & Ho & Hs1).
    eapply (leaves_bind _ _ _ (Err (remote_error TE_NotFound)) (objects st)).
    + eapply keyed; [done..|]. exists st1. rewrite (bind_run _ _ _ _ _ Hh). split; [|done].
      unfold S3.s3_error, error_kind_from, S3.kind_head_object. by rewrite He.
    + intros st' Ho' Hs'. by exists st'.
Qed.

Lemma write_file_object self base ns content mode st :
  addresses self base → valid_names ns → base ++ ns ≠ [] → serving st →
  let k := (s3_bucket self, join_with "/" (base ++ ns)) in
  let refused := bool_decide (mode = CreateNew ∧ is_Some (objects st !! k)) in
  leaves (S3.write_file self (join_with "/" ns) content mode) st
    (if refused then Err (remote_error TE_Other) else Ok tt)
    (if refused then objects st else <[k := content]> (objects st)).
Proof.
  intros Ha Hn Hne Hs k refused. eapply keyed; [done..|].
  pose proof (join_not_nil _ (proj2 (Forall_app _ _ _) (conj (proj1 Ha) Hn)) Hne) as Hk.
  unfold refused. case_bool_decide as Hr.
  - destruct Hr as [-> Hp].
    destruct (put_refused (s3_client self) _ _ (s3_storage_class self) (crc32c_base64 content) content _ Hs Hp)
      as (e & st1 & Hput & Ho & Hs1).
    exists st1. by rewrite (bind_run _ _ _ _ _ Hput).
  - destruct (put_done (s3_client self) (s3_bucket self) _ (s3_storage_class self) (crc32c_base64 content)
      content (match mode with CreateNew => Some "*" | Overwrite => None end) _ Hk Hs) as (st1 & Hput & Ho & Hs1).
    { destruct mode; [by left|right]. apply eq_None_not_Some. intros Hp. by apply Hr. }
    exists st1. by rewrite (bind_run _ _ _ _ _ Hput).
Qed.

Lemma remove_file_object self base ns st :
  addresses self base → valid_names ns → base ++ ns ≠ [] → serving st →
  leaves (S3.remove_file self (join_with "/" ns)) st (Ok tt)
    (delete (s3_bucket self, join_with "/" (base ++ ns)) (objects st)).
Proof.
  intros Ha Hn Hne Hs. eapply keyed; [done..|].
  pose proof (join_not_nil _ (proj2 (Forall_app _ _ _) (conj (proj1 Ha) Hn)) Hne) as Hk.
  destruct (delete_done (s3_client self) (s3_bucket self) _ _ Hk Hs) as (st1 & Hd & Ho & Hs1 & _).
  exists st1. by rewrite (bind_run _ _ _ _ _ Hd).
Qed.

(** [chdir] addresses the subdirectory. *)
Lemma chdir_addresses self base ns url st :
  addresses self base → valid_names ns → url_join (s3_url self) (join_with "/" ns) = Some url →
  ∃ self', S3.chdir self (join_with "/" ns) st = (Ret self', st) ∧ addresses self' (base ++ ns) ∧
    s3_bucket self' = s3_bucket self.
Proof.
  intros [Hb He] Hn Hu. eexists. unfold S3.chdir. rewrite He.
  erewrite bind_run by (apply join_paths_names; by apply Forall_app). rewrite Hu.
  split; [done|]. split; [|done]. split; [by apply Forall_app|done].
Qed.

(** ** Listing *)

(** The names that the items stand for *)
Definition dir_name (prefix : string) (i : Item) : option string :=
  p ← item_prefix i; r ← str_strip_prefix prefix p; strip_suffix_char "/" r.
Definition file_name (prefix : string) (i : Item) : option string :=
  k ← item_key i; str_strip_prefix prefix k.

Lemma strip_app (p t : string) : str_strip_prefix p (p +:+ t) = Some t.
Proof. by apply str_strip_prefix_spec. Qed.

Lemma string_app_inj_l (p s t : string) : p +:+ s = p +:+ t → s = t.
Proof. intros Heq. pose proof (strip_app p s) as H1. rewrite Heq, strip_app in H1. by injection H1. Qed.

Lemma prefix_name_run K prefix p (st : St) :
  is_item K prefix true (Pre p) →
  ∃ name, dir_name prefix (Pre p) = Some name ∧ S3.prefix_name prefix (Some p) st = (Ret name, st) ∧
    p = prefix +:+ name +:+ "/".
Proof.
  intros (_ & name & rest & -> & Hn & _). exists name. split_and!; [|..|done].
  - unfold dir_name. simpl. by rewrite strip_app; simpl; rewrite strip_suffix_char_app.
  - unfold S3.prefix_name. erewrite bind_run by done. rewrite strip_app. erewrite bind_run by done.
    rewrite strip_suffix_char_app. erewrite bind_run by done. rewrite Hn.
    by erewrite bind_run by apply debug_assert_true.
Qed.

Lemma object_name_run K prefix k (st : St) :
  is_item K prefix true (Obj k) →
  ∃ name, file_name prefix (Obj k) = Some name ∧ S3.object_name prefix (Some k) st = (Ret name, st) ∧
    k = prefix +:+ name.
Proof.
  intros (_ & rest & -> & Hn). exists rest. split_and!; [|..|done].
  - unfold file_name. simpl. apply strip_app.
  - unfold S3.object_name. erewrite bind_run by done. rewrite strip_app. erewrite bind_run by done.
    rewrite (Hn eq_refl). by erewrite bind_run by apply debug_assert_true.
Qed.

Lemma add_page_run K prefix page items r (st : St) :
  page_has page items → Forall (is_item K prefix true) items →
  S3.add_page prefix r page st =
    (Ret (MkListDir (ld_files r ++ omap (file_name prefix) items) (ld_dirs r ++ omap (dir_name prefix) items)), st).
Proof.
  intros [Hp Hc] Hi. unfold S3.add_page. rewrite Hp, Hc. clear Hp Hc.
  rewrite (bind_run _ _ st (MkListDir (ld_files r) (ld_dirs r ++ omap (dir_name prefix) items)) st).
  - generalize (ld_dirs r ++ omap (dir_name prefix) items)%list. destruct r as [fs ds0]. cbn [ld_files ld_dirs].
    intros ds. clear ds0. revert fs.
    induction Hi as [|[k|p] items Hk _ IH]; intros fs; cbn [omap list_omap fmap list_fmap item_key fold_st].
    + by rewrite app_nil_r.
    + destruct (object_name_run _ _ _ st Hk) as (name & Hf & Hr & _). rewrite Hf.
      erewrite bind_run by (erewrite bind_run by exact Hr; done). rewrite IH. cbn [ld_files ld_dirs].
      by rewrite <-app_assoc.
    + exact (IH fs).
  - destruct r as [fs ds]. cbn [ld_files ld_dirs]. revert ds.
    induction Hi as [|[k|p] items Hk _ IH]; intros ds; cbn [omap list_omap fmap list_fmap item_prefix fold_st].
    + by rewrite app_nil_r.
    + exact (IH ds).
    + destruct (prefix_name_run _ _ _ st Hk) as (name & Hf & Hr & _). rewrite Hf.
      erewrite bind_run by (erewrite bind_run by exact Hr; done). rewrite IH. cbn [ld_files ld_dirs].
      by rewrite <-app_assoc.
Qed.

Lemma list_loop_run K prefix pages l : ∀ stream r st,
  serving st → pending stream l st → Forall (is_item K prefix true) l → length l < pages →
  leaves (S3.list_loop pages prefix stream r) st
    (Ok (MkListDir (ld_files r ++ omap (file_name prefix) l) (ld_dirs r ++ omap (dir_name prefix) l))) (objects st).
Proof.
  revert l. induction pages as [|pages IH]; intros l stream r st Hs Hp Hi Hl; [lia|]. cbn [S3.list_loop].
  destruct (decide (l = [])) as [->|Hne].
  - destruct (last_page _ _ Hs Hp) as (stream' & st' & Hr & Ho & Hs'). exists st'.
    erewrite bind_run by exact Hr. simpl. rewrite !app_nil_r. by destruct r.
  - destruct (next_page _ _ _ Hs Hp Hne) as (page & now & later & stream' & st' & Hr & Hpg & -> & Hnow & Hp' & Ho & Hs').
    apply Forall_app in Hi as [Hi1 Hi2]. rewrite length_app in Hl.
    assert (0 < length now) by (destruct now; simpl; [done|lia]).
    destruct (IH later stream' (MkListDir (ld_files r ++ omap (file_name prefix) now)
      (ld_dirs r ++ omap (dir_name prefix) now)) st' Hs' Hp' Hi2 ltac:(lia)) as (st2 & Hr2 & Ho2 & Hs2).
    exists st2. erewrite bind_run by exact Hr. cbn beta iota.
    erewrite bind_run by (by eapply add_page_run). rewrite Hr2, !omap_app, !app_assoc. cbn. by rewrite Ho2.
Qed.

(** The prefix of the keys in the directory of these names *)
Definition dir_prefix (ns : list string) : string :=
  let path := join_with "/" ns in if String.eqb path "" then path else path +:+ "/".

Lemma names_of_items (os : gmap (string * string) string) b prefix l :
  (∀ i, i ∈ l ↔ is_item (λ k, is_Some (os !! (b, k))) prefix true i) → NoDup l →
  NoDup (omap (file_name prefix) l) ∧ NoDup (omap (dir_name prefix) l) ∧
  (∀ f, f ∈ omap (file_name prefix) l ↔ contains_char "/" f = false ∧ is_Some (os !! (b, prefix +:+ f))) ∧
  (∀ d, d ∈ omap (dir_name prefix) l ↔ contains_char "/" d = false ∧
     ∃ rest, is_Some (os !! (b, prefix +:+ d +:+ String "/" rest))).
Proof.
  intros Hl Hn.
  assert (∀ i f, i ∈ l → file_name prefix i = Some f →
    i = Obj (prefix +:+ f) ∧ is_item (λ k, is_Some (os !! (b, k))) prefix true i) as Hfile.
  { intros [k|p] f Hi%Hl Hf; [|done]. split; [|done]. apply str_strip_prefix_spec in Hf. by subst. }
  assert (∀ i d, i ∈ l → dir_name prefix i = Some d →
    i = Pre (prefix +:+ d +:+ "/") ∧ is_item (λ k, is_Some (os !! (b, k))) prefix true i) as Hdir.
  { intros [k|p] d Hi%Hl Hd; [done|]. split; [|done].
    destruct Hi as (_ & name & rest & -> & _). unfold dir_name in Hd. simpl in Hd.
    rewrite strip_app in Hd. simpl in Hd. rewrite strip_suffix_char_app in Hd. by injection Hd as ->. }
  split_and!.
  - apply omap_NoDup; [done|]. intros x y z Hx Hy Hfx Hfy.
    by rewrite (proj1 (Hfile x z Hx Hfx)), (proj1 (Hfile y z Hy Hfy)).
  - apply omap_NoDup; [done|]. intros x y z Hx Hy Hfx Hfy.
    by rewrite (proj1 (Hdir x z Hx Hfx)), (proj1 (Hdir y z Hy Hfy)).
  - intros f. rewrite list_elem_of_omap. split.
    + intros (i & Hi & Hf). destruct (Hfile i f Hi Hf) as (-> & Hk & rest & Heq & Hs).
      apply string_app_inj_l in Heq as <-. auto.
    + intros [Hs Hk]. exists (Obj (prefix +:+ f)). split; [apply Hl; split; [done|by exists f]|].
      unfold file_name. simpl. apply strip_app.
  - intros d. rewrite list_elem_of_omap. split.
    + intros (i & Hi & Hd). destruct (Hdir i d Hi Hd) as (-> & _ & name & rest & Heq & Hs & Hk).
      apply string_app_inj_l in Heq. assert (d = name) as ->; [|eauto].
      pose proof (strip_suffix_char_app "/" d) as H1. rewrite Heq, strip_suffix_char_app in H1. by injection H1.
    + intros [Hs [rest Hk]]. exists (Pre (prefix +:+ d +:+ "/")). split; [apply Hl; split; [done|by exists d, rest]|].
      unfold dir_name. simpl. rewrite strip_app. simpl. apply strip_suffix_char_app.
Qed.

(** C35: listing is exact. While the service answers, [list_dir] of a directory gives, once
    each and for every number of pages that is large enough, as files the names without a
    slash that make the key of an object when put after the prefix of the directory, and
    as directories those that do when a slash and something more follow; the objects are
    as before. *)
Theorem list_dir_exact self base ns st (Ha : addresses self base) (Hn : valid_names ns) (Hs : serving st) :
  let prefix := dir_prefix (base ++ ns) in
  let key k := is_Some (objects st !! (s3_bucket self, k)) in
  ∃ r, (∃ n, ∀ pages, n ≤ pages → leaves (S3.list_dir pages self (join_with "/" ns)) st (Ok r) (objects st)) ∧
    NoDup (ld_files r) ∧ NoDup (ld_dirs r) ∧
    (∀ f, f ∈ ld_files r ↔ contains_char "/" f = false ∧ key (prefix +:+ f)) ∧
    (∀ d, d ∈ ld_dirs r ↔ contains_char "/" d = false ∧ ∃ rest, key (prefix +:+ d +:+ String "/" rest)).
Proof.
  intros prefix key.
  destruct (first_page (s3_client self) (s3_bucket self) prefix true st Hs)
    as (page & now & later & stream & st1 & Hr & Hpg & Hnd & Hex & _ & Hp & Ho & Hs1).
  exists (MkListDir (omap (file_name prefix) (now ++ later)) (omap (dir_name prefix) (now ++ later))).
  split; [|by apply names_of_items].
  exists (2 + length later). intros pages Hle. destruct pages as [|pages]; [lia|].
  assert (Forall (is_item key prefix true) (now ++ later)) as [Hi1 Hi2]%Forall_app.
  { apply Forall_forall. intros i. apply Hex. }
  eapply keyed; [done..|].
  destruct (list_loop_run key prefix pages later stream
    (MkListDir (omap (file_name prefix) now) (omap (dir_name prefix) now)) st1 Hs1 Hp Hi2 ltac:(lia))
    as (st2 & Hr2 & Ho2 & Hs2).
  exists st2. rewrite join_not_ending by (apply Forall_app; by destruct Ha).
  erewrite bind_run by apply debug_assert_true. fold (dir_prefix (base ++ ns)) prefix. change (Some "/") with (delimiter true).
  cbn [S3.list_loop].
  erewrite bind_run by exact Hr. cbn beta iota. erewrite bind_run by (by eapply add_page_run).
  cbn [ld_files ld_dirs]. rewrite !app_nil_l, Hr2, !omap_app. cbn. by rewrite Ho2.
Qed.

(** ** Removing *)

Definition without_keys (b : string) (ks : list string) (os : gmap (string * string) string) :
    gmap (string * string) string :=
  foldl (λ os k, delete (b, k) os) os ks.

(** The objects whose keys do not begin with [prefix] *)
Definition without_prefix (b prefix : string) (os : gmap (string * string) string) :
    gmap (string * string) string :=
  filter (λ kv, ¬ (kv.1.1 = b ∧ starts_with prefix kv.1.2 = true)) os.

Lemma lookup_without_keys b ks os b' k' :
  without_keys b ks os !! (b', k') = if decide (b' = b ∧ k' ∈ ks) then None else os !! (b', k').
Proof.
  revert os. induction ks as [|k ks IH]; intros os; simpl.
  { rewrite decide_False; [done|]. intros [_ Hk]. by apply not_elem_of_nil in Hk. }
  rewrite IH. destruct (decide (b' = b ∧ k' ∈ ks)) as [[-> Hk]|Hk].
  { rewrite decide_True; [done|]. split; [done|by right]. }
  destruct (decide (b' = b ∧ k' = k)) as [[-> ->]|Hne].
  - rewrite lookup_delete_eq, decide_True; [done|]. split; [done|left].
  - rewrite lookup_delete_ne by (intros [= -> ->]; by apply Hne).
    rewrite decide_False; [done|]. intros [-> [->|Hk']%elem_of_cons]; [by apply Hne|by apply Hk].
Qed.

Lemma without_prefix_keys b prefix ks os :
  (∀ k, k ∈ ks ↔ is_Some (os !! (b, k)) ∧ starts_with prefix k = true) →
  without_keys b ks os = without_prefix b prefix os.
Proof.
  intros Hks. apply map_eq. intros [b' k']. rewrite lookup_without_keys. unfold without_prefix.
  destruct (decide (b' = b ∧ k' ∈ ks)) as [[-> Hk]|Hk].
  - symmetry. apply map_lookup_filter_None. right. intros c Hc Hp. apply Hp. split; [done|]. by apply Hks in Hk as [_ Hk].
  - destruct (os !! (b', k')) as [c|] eqn:E; symmetry.
    + apply map_lookup_filter_Some. split; [done|]. intros [Hb Hp]. simpl in *. subst. apply Hk.
      split; [done|]. apply Hks. split; [by eexists|done].
    + apply map_lookup_filter_None. by left.
Qed.

Lemma only_objects K prefix l :
  Forall (is_item K prefix false) l →
  ∃ ks, l = Obj <$> ks ∧ Forall (λ k, K k ∧ starts_with prefix k = true) ks.
Proof.
  induction 1 as [|[k|p] l Hk _ (ks & -> & Hks)]; [by exists []| |by destruct Hk].
  exists (k :: ks). split; [done|]. constructor; [|done]. destruct Hk as (Hk & rest & -> & _).
  split; [done|]. apply starts_with_spec. by eexists.
Qed.

(** A page of objects has the list of its contents. *)
Lemma page_contents page ks :
  page_has page (Obj <$> ks) → ks ≠ [] → pg_contents page = Some (Some <$> ks).
Proof.
  intros [_ Hc] Hne. assert (omap item_key (Obj <$> ks) = ks) as Hk by (clear; induction ks; f_equal/=; done).
  rewrite Hk in Hc. destruct (pg_contents page); simpl in Hc; [by rewrite Hc|]. by destruct ks.
Qed.

Lemma remove_objects_run self ks : ∀ st stream later,
  serving st → Forall (λ k, k ≠ "") ks → NoDup (ks ++ later) → pending stream (Obj <$> later) st →
  ∃ st', try_fold (S3.remove_object self) tt (Some <$> ks) st = (Ret (Ok tt), st') ∧
    objects st' = without_keys (s3_bucket self) ks (objects st) ∧ serving st' ∧ pending stream (Obj <$> later) st'.
Proof.
  induction ks as [|k ks IH]; intros st stream later Hs Hk Hnd Hp; cbn [fmap list_fmap try_fold]; [by exists st|].
  inversion_clear Hk as [|? ? Hne Hks]. apply NoDup_cons in Hnd as [Hni Hnd].
  destruct (delete_done (s3_client self) (s3_bucket self) k st Hne Hs) as (st1 & Hd & Ho & Hs1 & Hpend).
  assert (k ∉ later) as Hkl by (intros Hk; apply Hni, elem_of_app; by right).
  destruct (IH st1 stream later Hs1 Hks Hnd (Hpend _ _ Hp Hkl)) as (st2 & Hr & Ho2 & Hs2 & Hp2).
  exists st2. erewrite try_run by (unfold S3.remove_object; erewrite bind_run by done; by rewrite (bind_run _ _ _ _ _ Hd)).
  by rewrite Hr, Ho2, Ho.
Qed.

Lemma without_keys_app b ks ks' os :
  without_keys b ks' (without_keys b ks os) = without_keys b (ks ++ ks') os.
Proof. unfold without_keys. by rewrite foldl_app. Qed.

Lemma remove_loop_run self pages : ∀ ks stream st,
  serving st → Forall (λ k, k ≠ "") ks → NoDup ks → pending stream (Obj <$> ks) st → length ks < pages →
  leaves (S3.remove_loop pages self stream) st (Ok tt) (without_keys (s3_bucket self) ks (objects st)).
Proof.
  induction pages as [|pages IH]; intros ks stream st Hs Hk Hnd Hp Hl; [lia|]. cbn [S3.remove_loop].
  destruct (decide (ks = [])) as [->|Hne].
  - destruct (last_page _ _ Hs Hp) as (stream' & st' & Hr & Ho & Hs'). exists st'. by erewrite bind_run by exact Hr.
  - destruct (next_page _ _ _ Hs Hp) as (page & now & later & stream' & st' & Hr & Hpg & Heq & Hnow & Hp' & Ho & Hs').
    { by intros ?%fmap_nil_inv. }
    apply fmap_app_inv in Heq as (ks1 & ks2 & -> & -> & ->).
    assert (ks1 ≠ []) as Hne1 by by intros ->.
    apply Forall_app in Hk as [Hk1 Hk2].
    destruct (remove_objects_run self ks1 st' stream' ks2 Hs' Hk1 Hnd Hp') as (st2 & Hr2 & Ho2 & Hs2 & Hp2).
    rewrite length_app in Hl. assert (0 < length ks1) by (destruct ks1; simpl; [done|lia]).
    apply NoDup_app in Hnd as (_ & _ & Hnd2).
    destruct (IH ks2 stream' st2 Hs2 Hk2 Hnd2 Hp2 ltac:(lia)) as (st3 & Hr3 & Ho3 & Hs3).
    exists st3. erewrite bind_run by exact Hr. cbn beta iota. rewrite (page_contents page ks1) by done.
    erewrite bind_run by done. erewrite try_run by exact Hr2. by rewrite Hr3, Ho3, Ho2, Ho, without_keys_app.
Qed.

(** C13: removing a directory removes every object whose key begins with its path. While
    the service answers, and when there is an object to remove, [remove_dir_all] succeeds
    for every number of pages that is large enough, and leaves exactly the objects whose
    keys do not begin with the path of the directory: the objects of other directories
    whose names begin in the same way are gone as well. *)
Theorem remove_dir_all_exact self base ns st (Ha : addresses self base) (Hn : valid_names ns)
    (Hne : base ++ ns ≠ []) (Hs : serving st)
    (Hsome : ∃ k, starts_with (join_with "/" (base ++ ns)) k = true ∧
                  is_Some (objects st !! (s3_bucket self, k))) :
  ∃ n, ∀ pages, n ≤ pages →
    leaves (S3.remove_dir_all pages self (join_with "/" ns)) st (Ok tt)
      (without_prefix (s3_bucket self) (join_with "/" (base ++ ns)) (objects st)).
Proof.
  set (prefix := join_with "/" (base ++ ns)) in *.
  destruct (first_page (s3_client self) (s3_bucket self) prefix false st Hs)
    as (page & now & later & stream & st1 & Hr & Hpg & Hnd & Hex & Hempty & Hp & Ho & Hs1).
  assert (Forall (is_item (λ k, is_Some (objects st !! (s3_bucket self, k))) prefix false) (now ++ later))
    as (ks & Heq & Hks)%only_objects by (apply Forall_forall; intros i; apply Hex).
  assert (∀ k, k ∈ ks ↔ is_Some (objects st !! (s3_bucket self, k)) ∧ starts_with prefix k = true) as Hiff.
  { intros k. split; [by intros Hk; apply (Forall_forall _ ks) with (x := k) in Hks|]. intros [Hk Hpre].
    assert (Obj k ∈ Obj <$> ks) as (k' & [= ->] & Hk')%list_elem_of_fmap; [|done].
    rewrite <-Heq. apply Hex. split; [done|]. apply starts_with_spec in Hpre as [rest ->]. by exists rest. }
  assert (Forall (λ k, k ≠ "") ks) as Hnil.
  { eapply Forall_impl; [exact Hks|]. intros k [_ [rest ->]%starts_with_spec] Hk. simpl in Hk.
    apply (join_not_nil (base ++ ns)); [apply Forall_app; by destruct Ha|done|].
    fold prefix. by destruct prefix. }
  rewrite Heq in Hnd. apply NoDup_fmap_1 in Hnd.
  symmetry in Heq. apply fmap_app_inv in Heq as (ks1 & ks2 & -> & -> & ->).
  assert (ks1 ≠ []) as Hne1.
  { intros ->. destruct Hsome as (k & Hpre & Hk). simpl in Hempty.
    assert (k ∈ [] ++ ks2) as Hin by by apply Hiff. rewrite (fmap_nil_inv _ _ (Hempty eq_refl)) in Hin.
    by apply not_elem_of_nil in Hin. }
  apply Forall_app in Hnil as [Hnil1 Hnil2].
  destruct (remove_objects_run self ks1 st1 stream ks2 Hs1 Hnil1 Hnd Hp) as (st2 & Hr2 & Ho2 & Hs2 & Hp2).
  exists (2 + length ks2). intros pages Hle. destruct pages as [|pages]; [lia|].
  pose proof (proj2 (proj2 (proj1 (NoDup_app _ _) Hnd))) as Hnd2.
  destruct (remove_loop_run self pages ks2 stream st2 Hs2 Hnil2 Hnd2 Hp2 ltac:(lia)) as (st3 & Hr3 & Ho3 & Hs3).
  eapply keyed; [done..|]. fold prefix. exists st3. change None with (delimiter false). cbn [S3.remove_loop].
  erewrite bind_run by exact Hr. cbn beta iota. rewrite (page_contents page ks1) by done.
  erewrite bind_run by done. erewrite try_run by exact Hr2. split; [done|]. split; [|done].
  rewrite Ho3, Ho2, Ho, without_keys_app. by apply without_prefix_keys.
Qed.


End facts.

(** ** A service in memory *)

(** Text before and after the first slash *)
Fixpoint first_slash (s : string) : option (string * string) :=
  match s with
  | EmptyString => None
  | String a s =>
      if Ascii.eqb a "/" then Some ("", s)
      else match first_slash s with Some (x, y) => Some (String a x, y) | None => None end
  end.

Lemma first_slash_spec s :
  match first_slash s with
  | Some (x, y) => s = x +:+ String "/" y ∧ contains_char "/" x = false
  | None => contains_char "/" s = false
  end.
Proof.
  induction s as [|a s IH]; simpl; [done|]. destruct (Ascii.eqb_spec a "/") as [->|Hne]; [done|].
  destruct (first_slash s) as [[x y]|]; [|done]. destruct IH as [-> Hx]. split; [done|].
  simpl. by destruct (Ascii.eqb_spec a "/").
Qed.

Lemma contains_char_mid c x y : contains_char c (x +:+ String c y) = true.
Proof. induction x as [|a x IH]; simpl; [by rewrite Ascii.eqb_refl|]. rewrite IH. apply orb_true_r. Qed.

Lemma first_slash_unique x y :
  contains_char "/" x = false → first_slash (x +:+ String "/" y) = Some (x, y).
Proof.
  induction x as [|a x IH]; simpl; [done|]. intros [Ha Hx]%orb_false_iff. by rewrite Ha, IH.
Qed.

#[export] Instance Item_eq_dec : EqDecision Item.
Proof. solve_decision. Defined.

Definition sample_item (prefix : string) (slash : bool) (rest : string) : Item :=
  match first_slash rest with
  | Some (name, _) => if slash then Pre (prefix +:+ name +:+ "/") else Obj (prefix +:+ rest)
  | None => Obj (prefix +:+ rest)
  end.

Definition sample_items (b prefix : string) (slash : bool) (os : gmap (string * string) string) : list Item :=
  remove_dups (omap (λ kv : string * string * string,
    if decide (kv.1.1 = b) then sample_item prefix slash <$> str_strip_prefix prefix kv.1.2 else None)
    (map_to_list os)).

Inductive SamplePaginator : Type :=
  | SampleFresh (b prefix : string) (slash : bool)
  | SampleRest (items : list Item).

Definition sample_page (items : list Item) : ListPage :=
  MkListPage (Some (Some <$> omap item_prefix items)) (Some (Some <$> omap item_key items)).

Definition sample_next (p : SamplePaginator) :
    ST (gmap (string * string) string) (option (result ListPage (SdkError unit)) * SamplePaginator) := λ os,
  match p with
  | SampleFresh b prefix slash =>
      let l := sample_items b prefix slash os in
      (Ret (Some (Ok (sample_page (take 2 l))), SampleRest (drop 2 l)), os)
  | SampleRest [] => (Ret (None, p), os)
  | SampleRest l => (Ret (Some (Ok (sample_page (take 2 l))), SampleRest (drop 2 l)), os)
  end.

Definition sample_s3 : S3Client (gmap (string * string) string) := {|
  Runtime := unit; AppName := string; SdkConfig := string; Client := string; StorageClass := unit;
  IntelligentTiering := tt; ByteStream := string; DateTime := OffsetDateTime; Paginator := SamplePaginator;
  LocationError := unit; GetObjectError := unit; ListObjectsV2Error := unit; PutObjectError := unit;
  HeadObjectError := unit; DeleteObjectError := unit; ByteStreamError := unit;
  GetObjectError_NoSuchKey _ := true; ListObjectsV2Error_NoSuchBucket _ := true;
  HeadObjectError_NotFound _ := true;
  runtime_build := mret (Ok tt); app_name_new := Some;
  config_load _ _ region := mret region; client_new config := config;
  get_bucket_location _ _ := mret (Ok (Some "eu-west-1"));
  list_objects_v2 _ b prefix d := SampleFresh b prefix (bool_decide (is_Some d));
  paginator_next := sample_next;
  get_object _ b k := λ os,
    (Ret (match os !! (b, k) with Some c => Ok c | None => Err (ServiceError tt) end), os);
  body_collect body := mret (Ok body);
  put_object _ b k _ _ c cond := λ os,
    match cond, os !! (b, k) with
    | Some _, Some _ => (Ret (Err (ServiceError tt)), os)
    | _, _ => (Ret (Ok tt), <[ (b, k) := c ]> os)
    end;
  delete_object _ b k := λ os, (Ret (Ok tt), delete (b, k) os);
  head_object _ b k := λ os,
    (Ret (match os !! (b, k) with
          | Some c => Ok (Some (Z.of_nat (String.length c)), Some (MkTime 0 0))
          | None => Err (ServiceError tt)
          end), os);
  system_time := Some;
  crc32c_base64 _ := "AAAAAA=="
|}.

Lemma sample_items_spec b prefix slash os i :
  i ∈ sample_items b prefix slash os ↔ is_item (λ k, is_Some (os !! (b, k))) prefix slash i.
Proof.
  unfold sample_items. rewrite elem_of_remove_dups, list_elem_of_omap. split.
  - intros ([[b' k] c] & Hk%elem_of_map_to_list & Hi). simpl in Hi. case_decide; [subst|done].
    apply fmap_Some in Hi as (rest & Hr%str_strip_prefix_spec & ->). subst. unfold sample_item.
    pose proof (first_slash_spec rest) as Hf. destruct (first_slash rest) as [[x y]|].
    + destruct Hf as [-> Hx]. destruct slash.
      * split; [done|]. exists x, y. split_and!; [done..|]. by eexists.
      * split; [by eexists|]. by exists (x +:+ String "/" y).
    + split; [by eexists|]. by exists rest.
  - intros Hi. destruct i as [k|p].
    + destruct Hi as ([c Hc] & rest & -> & Hs). exists (b, prefix +:+ rest, c).
      split; [by apply elem_of_map_to_list|]. simpl. rewrite decide_True, strip_app by done. simpl. f_equal.
      unfold sample_item. pose proof (first_slash_spec rest) as Hf. destruct (first_slash rest) as [[x y]|]; [|done].
      destruct slash; [|done]. destruct Hf as [-> _]. specialize (Hs eq_refl). by rewrite contains_char_mid in Hs.
    + destruct Hi as (-> & name & rest & -> & Hs & [c Hc]). exists (b, prefix +:+ name +:+ String "/" rest, c).
      split; [by apply elem_of_map_to_list|]. simpl. rewrite decide_True, strip_app by done. simpl. f_equal.
      unfold sample_item. by rewrite first_slash_unique.
Qed.

Lemma sample_page_has items : page_has (sample_page items) items.
Proof. done. Qed.

Definition sample_s3_laws : @S3Laws _ sample_s3.
Proof.
  refine (@Build_S3Laws _ sample_s3 (λ os, os) (λ _, True) (λ p l _, p = SampleRest l) _ _ _ _ _ _ _ _ _ _).
  - intros client b prefix slash os _. set (l := sample_items b prefix slash os).
    exists (sample_page (take 2 l)), (take 2 l), (drop 2 l), (SampleRest (drop 2 l)), os.
    rewrite take_drop. split_and!; try done.
    + by destruct slash.
    + apply NoDup_remove_dups.
    + intros i. apply sample_items_spec.
    + by destruct l.
  - intros stream os _ ->. by exists (SampleRest []), os.
  - intros stream l os _ -> Hne.
    exists (sample_page (take 2 l)), (take 2 l), (drop 2 l), (SampleRest (drop 2 l)), os.
    rewrite take_drop. by destruct l.
  - intros client b k os c _ Hc. exists c, os, os. simpl. by rewrite Hc.
  - intros client b k os _ _ Hc. exists tt, os. simpl. by rewrite Hc.
  - intros client b k class crc c cond os _ _ Hc. exists (<[(b, k):=c]> os). simpl.
    destruct cond; [|done]. destruct Hc as [|Hc]; [done|]. by rewrite Hc.
  - intros client b k class crc c os _ [d Hd]. exists tt, os. simpl. by rewrite Hd.
  - intros client b k os _ _. by exists (delete (b, k) os).
  - intros client b k os c _ Hc. exists (MkTime 0 0), (MkTime 0 0), os. simpl. by rewrite Hc.
  - intros client b k os _ _ Hc. exists tt, os. simpl. by rewrite Hc.
Defined.

#[local] Existing Instance sample_s3.
#[local] Existing Instance sample_s3_laws.

#[local] Instance sample_s3_build : BuildCfg := true.

#[local] Instance sample_urls : UrlOps := {|
  Url := string; url_scheme _ := "s3"; url_authority _ := "bucket"; url_path _ := "/backups/home/";
  url_host_str _ := Some "bucket"; url_port _ := None; url_username _ := "";
  url_join u s := Some (u +:+ "/" +:+ s)
|}.

(** An archive in a bucket, with bands 1000 and 10000 *)
Definition sample_objects : gmap (string * string) string := list_to_map [
  (("bucket", "backups/home/CONSERVE"), "header");
  (("bucket", "backups/home/b1000/BANDHEAD"), "head");
  (("bucket", "backups/home/b1000/i/00000/000000000"), "hunk");
  (("bucket", "backups/home/b1000/BANDTAIL"), "tail");
  (("bucket", "backups/home/b10000/BANDHEAD"), "head");
  (("other", "backups/home/b1000/BANDHEAD"), "head")
].

Definition sample_protocol : S3Protocol :=
  MkS3Protocol ("s3://bucket/backups/home/" : Url) (tt : Runtime) ("eu-west-1" : Client) "bucket" "backups/home"
    (tt : StorageClass).

Example sample_opens :
  match (S3.new ("s3://bucket/backups/home/" : Url) sample_objects).1 with
  | Ret (Ok p) => (s3_bucket p, s3_base_path p) = ("bucket", "backups/home")
  | _ => False
  end.
Proof. vm_compute. reflexivity. Qed.

Example sample_lists :
  (S3.list_dir 9 sample_protocol "" sample_objects).1 = Ret (Ok (MkListDir ["CONSERVE"] ["b1000"; "b10000"])) ∧
  (S3.list_dir 9 sample_protocol "b1000" sample_objects).1 =
    Ret (Ok (MkListDir ["BANDTAIL"; "BANDHEAD"] ["i"])).
Proof. split; vm_compute; reflexivity. Qed.

(** Removing band 1000 removes band 10000. *)
Example sample_removes :
  map_to_list (S3.remove_dir_all 9 sample_protocol "b1000" sample_objects).2 =
    [(("other", "backups/home/b1000/BANDHEAD"), "head"); (("bucket", "backups/home/CONSERVE"), "header")].
Proof. vm_compute. reflexivity. Qed.

Lemma sample_addresses : addresses sample_protocol ["backups"; "home"].
Proof. split; [by repeat constructor|done]. Qed.

Lemma sample_tail : objects sample_objects !! ("bucket", "backups/home/b1000/BANDTAIL") = Some "tail".
Proof. vm_compute. reflexivity. Qed.


Lemma list_dir_exact_witness :
  ∃ r n, (∀ pages, n ≤ pages →
      leaves (S3.list_dir pages sample_protocol (join_with "/" ["b1000"])) sample_objects (Ok r) (objects sample_objects)) ∧
    "BANDHEAD" ∈ ld_files r ∧ "i" ∈ ld_dirs r.
Proof.
  destruct (list_dir_exact sample_protocol ["backups"; "home"] ["b1000"] sample_objects sample_addresses)
    as (r & (n & Hr) & _ & _ & Hf & Hd).
  - by repeat constructor.
  - done.
  - exists r, n. split; [exact Hr|]. split.
    + apply Hf. split; [done|]. exists "head". vm_compute. reflexivity.
    + apply Hd. split; [done|]. exists "00000/000000000", "hunk". vm_compute. reflexivity.
Defined.

Lemma remove_dir_all_exact_witness :
  ∃ n, ∀ pages, n ≤ pages →
    leaves (S3.remove_dir_all pages sample_protocol (join_with "/" ["b1000"])) sample_objects (Ok tt)
      (without_prefix (s3_bucket sample_protocol) (join_with "/" (["backups"; "home"] ++ ["b1000"])%list)
        (objects sample_objects)).
Proof.
  apply (remove_dir_all_exact sample_protocol ["backups"; "home"] ["b1000"] sample_objects sample_addresses).
  - by repeat constructor.
  - done.
  - done.
  - exists "backups/home/b10000/BANDHEAD". split; [reflexivity|]. exists "head". vm_compute. reflexivity.
Defined.
