(* ===== verification/Sftp.v ===== *)
(** * The SFTP transport (src/transport/sftp.rs)

    Access to an archive on a host that is reached by SSH. The SSH library is a
    parameter, the class [Ssh2] of its operations on the state of the session and the
    remote host; what a server does with the files that it keeps is the class [SftpLaws].
    The theorems compare the transport with the local one. *)

From Stdlib Require Import Ascii.
From S2P Require Import Prelude Text Apath Externals Ids Errors World Transport Stitch BlockListing Remote.
From S2P Require Import Sample SampleWorld.
From stdpp Require Import list gmap strings.

(** ** The SSH library *)

(** [ssh2::ErrorCode] and [ssh2::FileType] *)
Inductive ErrorCode : Type := Session_code (code : Z) | SFTP_code (code : Z).

#[export] Instance ErrorCode_eq_dec : EqDecision ErrorCode.
Proof. solve_decision. Defined.

Inductive SshFileType : Type := RegularFile | Directory | Symlink | OtherFileType.

#[export] Instance SshFileType_eq_dec : EqDecision SshFileType.
Proof. solve_decision. Defined.

(** [ssh2::FileStat], as far as it is used *)
Record FileStat : Type := MkFileStat {
  st_file_type : SshFileType;
  st_size : option N;
  st_mtime : option N
}.

(** [ssh2::OpenFlags] *)
Inductive OpenFlag : Type := WRITE | CREATE | EXCLUSIVE | TRUNCATE.

(** The operations of the [ssh2] crate, of the system's TCP and of [whoami]. Sessions,
    directories and files are handles; what they stand for is in the state. *)
Class Ssh2 (St : Type) : Type := {
  TcpStream : Type;
  Session : Type;
  SftpSession : Type;
  Dir : Type;
  File : Type;
  SshError : Type;
  ssh_code : SshError → ErrorCode;
  LIBSSH2_FX_FAILURE : Z;
  LIBSSH2_FX_NO_SUCH_FILE : Z;
  LIBSSH2_FX_NO_SUCH_PATH : Z;
  tcp_connect : string → ST St (result TcpStream IoKind);
  session_new : ST St (result Session SshError);
  set_tcp_stream : Session → TcpStream → ST St unit;
  handshake : Session → ST St (result unit SshError);
  whoami_username : ST St string;
  userauth_agent : Session → string → ST St (result unit SshError);
  session_sftp : Session → ST St (result SftpSession SshError);
  sftp_lstat : SftpSession → Path → ST St (result FileStat SshError);
  sftp_opendir : SftpSession → Path → ST St (result Dir SshError);
  dir_readdir : Dir → ST St (result (string * FileStat) SshError);
  sftp_open : SftpSession → Path → ST St (result File SshError);
  sftp_open_mode : SftpSession → Path → list OpenFlag → N → ST St (result File SshError);
  (** the length that was read, and the content *)
  file_read_to_end : File → ST St (result (N * string) IoKind);
  file_write_all : File → string → ST St (result unit IoKind);
  sftp_mkdir : SftpSession → Path → N → ST St (result unit SshError);
  sftp_unlink : SftpSession → Path → ST St (result unit SshError);
  sftp_rmdir : SftpSession → Path → ST St (result unit SshError)
}.

(** [sftp::Protocol] *)
Record SftpProtocol `{UrlOps} {St : Type} `{!Ssh2 St} : Type := MkSftpProtocol {
  sf_url : Url;
  sf_sftp : SftpSession;
  sf_base_path : Path
}.
Arguments MkSftpProtocol {_ _ _} _ _ _.

Module Sftp.
Section sftp.
Context `{Ext} `{UrlOps} {St : Type} `{!Ssh2 St}.
Implicit Types self : SftpProtocol.

(** [From<ssh2::FileType> for Kind] *)
Definition Kind_from (kind : SshFileType) : Kind :=
  match kind with
  | RegularFile => Kind_File
  | Directory => Kind_Dir
  | Symlink => Kind_Symlink
  | _ => Kind_Unknown
  end.

(** [From<ssh2::ErrorCode> for ErrorKind] *)
#[global] Instance ErrorKind_from : ErrorKindFrom ErrorCode := λ code,
  if decide (code = SFTP_code LIBSSH2_FX_NO_SUCH_FILE ∨ code = SFTP_code LIBSSH2_FX_NO_SUCH_PATH)
  then TE_NotFound else TE_Other.

(** The free functions [ssh_error] and [io_error]; the URL only serves messages. *)
Definition ssh_error_at (source : SshError) : TransportError := remote_error (error_kind_from (ssh_code source)).
Definition io_error_at (source : IoKind) : TransportError :=
  MkTransportError (TransportErrorKind_from source) (Some source) None.

(** [Protocol::new(url)] *)
Definition new (url : Url) : ST St (result SftpProtocol TransportError) :=
  _ ← rust_assert (String.eqb (url_scheme url) "sftp");
  host ← expect (url_host_str url);
  let addr := host +:+ ":" +:+ decimal (default 22%N (url_port url)) in
  tcp_stream ←? (r ← tcp_connect addr; mret (map_err io_error_at r));
  session ←? (r ← session_new; mret (map_err ssh_error_at r));
  _ ← set_tcp_stream session tcp_stream;
  _ ←? (r ← handshake session; mret (map_err ssh_error_at r));
  username ← (if String.eqb (url_username url) "" then whoami_username else mret (url_username url));
  _ ←? (r ← userauth_agent session username; mret (map_err ssh_error_at r));
  sftp ←? (r ← session_sftp session; mret (map_err ssh_error_at r));
  mret (Ok (MkSftpProtocol url sftp (path_join [] (url_path url)))).

Definition relative_url self (path : string) : ST St Url := expect (url_join (sf_url self) path).

(** [self.ssh_error(source, path)] *)
Definition ssh_error self (source : SshError) (path : string) : ST St TransportError :=
  url ← relative_url self path;
  mret (ssh_error_at source).

(** [map_err(|err| self.ssh_error(err, path))] *)
Definition or_ssh_error {A : Type} self (path : string) (r : result A SshError) : ST St (result A TransportError) :=
  match r with
  | Ok a => mret (Ok a)
  | Err err => e ← ssh_error self err path; mret (Err e)
  end.

Definition lstat self (path : string) : ST St (result FileStat TransportError) :=
  r ← sftp_lstat (sf_sftp self) (path_join (sf_base_path self) path);
  or_ssh_error self path r.

(** The loop of [list_dir], for at most [fuel] entries. *)
Fixpoint readdir_loop (fuel : nat) self (path : string) (dir : Dir) (names : ListDir) :
    ST St (result ListDir TransportError) :=
  match fuel with
  | O => no_fuel
  | S fuel =>
      r ← dir_readdir dir;
      match r with
      | Ok (pathbuf, file_stat) =>
          let name := to_string_lossy pathbuf in
          if (String.eqb name "." || String.eqb name "..")%bool then readdir_loop fuel self path dir names
          else
            readdir_loop fuel self path dir
              (match Kind_from (st_file_type file_stat) with
               | Kind_File => MkListDir (ld_files names ++ [name]) (ld_dirs names)
               | Kind_Dir => MkListDir (ld_files names) (ld_dirs names ++ [name])
               | _ => names
               end)
      | Err err =>
          if decide (ssh_code err = Session_code (-16)) then mret (Ok names)
          else e ← ssh_error self err path; mret (Err e)
      end
  end.

Definition list_dir (fuel : nat) self (path : string) : ST St (result ListDir TransportError) :=
  let full_path := path_join (sf_base_path self) path in
  dir ←? (r ← sftp_opendir (sf_sftp self) full_path; or_ssh_error self path r);
  readdir_loop fuel self path dir (MkListDir [] []).

Definition read_file self (path : string) : ST St (result string TransportError) :=
  let full_path := path_join (sf_base_path self) path in
  url ← expect (url_join (sf_url self) path);
  file ←? (r ← sftp_open (sf_sftp self) full_path; or_ssh_error self path r);
  '(len, buf) ←? (r ← file_read_to_end file; mret (map_err io_error_at r));
  _ ← rust_assert (len =? N.of_nat (String.length buf))%N;
  mret (Ok buf).

(** OpenSSH seems to say "failure" when the directory exists. *)
Definition create_dir self (relpath : string) : ST St (result unit TransportError) :=
  r ← sftp_mkdir (sf_sftp self) (path_join (sf_base_path self) relpath) 448;
  match r with
  | Ok _ => mret (Ok tt)
  | Err err =>
      if decide (ssh_code err = SFTP_code LIBSSH2_FX_FAILURE) then mret (Ok tt)
      else e ← ssh_error self err relpath; mret (Err e)
  end.

(** A failure to write removes the file again. *)
Definition write_file self (relpath content : string) (write_mode : WriteMode) :
    ST St (result unit TransportError) :=
  let full_path := path_join (sf_base_path self) relpath in
  let flags := [WRITE; CREATE; match write_mode with CreateNew => EXCLUSIVE | Overwrite => TRUNCATE end] in
  file ←? (r ← sftp_open_mode (sf_sftp self) full_path flags 420; or_ssh_error self relpath r);
  r ← file_write_all file content;
  match r with
  | Err err =>
      _ ← sftp_unlink (sf_sftp self) full_path;
      url ← relative_url self relpath;
      mret (Err (MkTransportError TE_Other (Some err) None))
  | Ok _ => mret (Ok tt)
  end.

(** [modified as i64] *)
Definition as_i64 (n : N) : Z :=
  if (n <? 2 ^ 63)%N then Z.of_N n else (Z.of_N n - 2 ^ 64)%Z.

Definition metadata self (relpath : string) : ST St (result Metadata TransportError) :=
  stat ←? lstat self relpath;
  match st_mtime stat with
  | None => url ← relative_url self relpath; mret (Err (remote_error TE_Other))
  | Some modified =>
      match time_from_unix_timestamp (as_i64 modified) with
      | None => url ← relative_url self relpath; mret (Err (remote_error TE_Other))
      | Some modified =>
          mret (Ok (MkMetadata (default 0%N (st_size stat)) (Kind_from (st_file_type stat)) modified))
      end
  end.

Definition remove_file self (relpath : string) : ST St (result unit TransportError) :=
  r ← sftp_unlink (sf_sftp self) (path_join (sf_base_path self) relpath);
  or_ssh_error self relpath r.

(** The first loop of [remove_dir_all]: a stack of directories whose files are removed.
    At most [dirs] directories, of at most [entries] entries, are walked. *)
Fixpoint walk_loop (dirs entries : nat) self (dirs_to_walk dirs_to_delete : list string) :
    ST St (result (list string) TransportError) :=
  match dirs with
  | O => no_fuel
  | S dirs =>
      match last dirs_to_walk with
      | None => mret (Ok dirs_to_delete)
      | Some dir =>
          list ←? list_dir entries self dir;
          _ ←? try_fold (λ _ file, remove_file self (dir +:+ "/" +:+ file)) tt (ld_files list);
          let subdirs := (λ subdir, dir +:+ "/" +:+ subdir) <$> ld_dirs list in
          walk_loop dirs entries self (removelast dirs_to_walk ++ subdirs) (dirs_to_delete ++ subdirs)
      end
  end.

Definition rmdir self (dir : string) : ST St (result unit TransportError) :=
  r ← sftp_rmdir (sf_sftp self) (path_join (sf_base_path self) dir);
  or_ssh_error self dir r.

Definition remove_dir_all (dirs entries : nat) self (path : string) : ST St (result unit TransportError) :=
  dirs_to_delete ←? walk_loop dirs entries self [path] [path];
  try_fold (λ _ dir, rmdir self dir) tt (reverse dirs_to_delete).

Definition chdir self (relpath : string) : ST St SftpProtocol :=
  let base_path := path_join (sf_base_path self) relpath in
  url ← expect (url_join (sf_url self) relpath);
  mret (MkSftpProtocol url (sf_sftp self) base_path).

End sftp.
End Sftp.

(** ** What a server does *)

Definition ssh_type (n : Node) : SshFileType :=
  match n with
  | NFile _ _ => RegularFile
  | NDir _ => Directory
  | NSymlink _ _ => Symlink
  | NOther _ => OtherFileType
  end.

(** The entries of a directory listing stand for its children: besides the directory
    itself and its parent, there is one for each. *)
Definition lists_children (l : list (string * FileStat)) (children : list (string * Node)) : Prop :=
  length l ≤ 2 + length children ∧
  (λ e, (e.1, st_file_type e.2)) <$> filter (λ e, e.1 ≠ "." ∧ e.1 ≠ "..") l
  ≡ₚ (λ c, (c.1, ssh_type c.2)) <$> children.

(** The server keeps a file system. While it is [serving], a request that can be met is
    met, and changes only what it is about; a listing under way has these entries left,
    and then ends with an error of code -16; a directory that exists cannot be made, with
    the code for "failure". *)
Class SftpLaws (St : Type) `{!Ssh2 St} : Type := {
  remote_fs : St → Fs;
  serving : St → Prop;
  listing : Dir → list (string * FileStat) → St → Prop;
  fx_distinct : LIBSSH2_FX_FAILURE ≠ LIBSSH2_FX_NO_SUCH_FILE ∧ LIBSSH2_FX_FAILURE ≠ LIBSSH2_FX_NO_SUCH_PATH;
  opendir_dir : ∀ s p st, serving st → is_dir_node (remote_fs st !! p) = true →
    (∀ n, is_Some (remote_fs st !! (p ++ [n])) → n ≠ "." ∧ n ≠ "..") →
    ∃ d l st', sftp_opendir s p st = (Ret (Ok d), st') ∧ listing d l st' ∧
      lists_children l (fs_children p (remote_fs st)) ∧ remote_fs st' = remote_fs st ∧ serving st';
  readdir_next : ∀ d e l st, serving st → listing d (e :: l) st →
    ∃ st', dir_readdir d st = (Ret (Ok e), st') ∧ listing d l st' ∧ remote_fs st' = remote_fs st ∧ serving st';
  readdir_end : ∀ d st, serving st → listing d [] st →
    ∃ e st', dir_readdir d st = (Ret (Err e), st') ∧ ssh_code e = Session_code (-16) ∧
      remote_fs st' = remote_fs st ∧ serving st';
  unlink_file : ∀ s p st c m, serving st → remote_fs st !! p = Some (NFile c m) →
    ∃ st', sftp_unlink s p st = (Ret (Ok tt), st') ∧ remote_fs st' = delete p (remote_fs st) ∧ serving st';
  rmdir_empty : ∀ s p st, serving st → is_dir_node (remote_fs st !! p) = true →
    (∀ n, remote_fs st !! (p ++ [n]) = None) →
    ∃ st', sftp_rmdir s p st = (Ret (Ok tt), st') ∧ remote_fs st' = delete p (remote_fs st) ∧ serving st';
  mkdir_new : ∀ s p mode st, serving st → remote_fs st !! p = None → is_dir_node (remote_fs st !! parent p) = true →
    ∃ m st', sftp_mkdir s p mode st = (Ret (Ok tt), st') ∧
      remote_fs st' = <[p := NDir m]> (remote_fs st) ∧ serving st';
  mkdir_exists : ∀ s p mode st, serving st → is_Some (remote_fs st !! p) →
    ∃ e st', sftp_mkdir s p mode st = (Ret (Err e), st') ∧ ssh_code e = SFTP_code LIBSSH2_FX_FAILURE ∧
      remote_fs st' = remote_fs st ∧ serving st';
  open_read : ∀ s p st c m, serving st → remote_fs st !! p = Some (NFile c m) →
    ∃ f st1 st', sftp_open s p st = (Ret (Ok f), st1) ∧
      file_read_to_end f st1 = (Ret (Ok (N.of_nat (String.length c), c)), st') ∧
      remote_fs st' = remote_fs st ∧ serving st';
  open_absent : ∀ s p st, serving st → remote_fs st !! p = None →
    ∃ e st', sftp_open s p st = (Ret (Err e), st') ∧ ssh_code e = SFTP_code LIBSSH2_FX_NO_SUCH_FILE ∧
      remote_fs st' = remote_fs st ∧ serving st';
  open_new : ∀ s p mode c st, serving st → remote_fs st !! p = None →
    is_dir_node (remote_fs st !! parent p) = true →
    ∃ f m st1 st', sftp_open_mode s p [WRITE; CREATE; EXCLUSIVE] mode st = (Ret (Ok f), st1) ∧
      file_write_all f c st1 = (Ret (Ok tt), st') ∧
      remote_fs st' = <[p := NFile c m]> (remote_fs st) ∧ serving st';
  open_exists : ∀ s p mode st, serving st → is_Some (remote_fs st !! p) →
    ∃ e st', sftp_open_mode s p [WRITE; CREATE; EXCLUSIVE] mode st = (Ret (Err e), st') ∧
      ssh_code e = SFTP_code LIBSSH2_FX_FAILURE ∧ remote_fs st' = remote_fs st ∧ serving st'
}.

(** A name that is the same in a path and on the remote host *)
Definition remote_name (n : string) : Prop := valid_name n = true ∧ utf8_valid n = true.

Lemma remote_name_plain n : remote_name n → utf8_valid n = true ∧ n ≠ "." ∧ n ≠ "..".
Proof. intros [Hv Hu]. split; [done|]. split; by intros ->. Qed.

Section facts.
Context `{Ext} `{UrlOps} {St : Type} `{!Ssh2 St} `{!SftpLaws St}.
Implicit Types self : SftpProtocol.

(** [m] ends with [r] and leaves the file system as [fs], the server still serving. *)
Definition leaves {A : Type} (m : ST St A) (st : St) (r : A) (fs : Fs) : Prop :=
  ∃ st', m st = (Ret r, st') ∧ remote_fs st' = fs ∧ serving st'.

(** ** Listing *)

(** The names that [list_dir] takes from the entries *)
Definition names_of (t : SshFileType) (l : list (string * FileStat)) : list string :=
  fst <$> filter (λ e, st_file_type e.2 = t) (filter (λ e : string * FileStat, e.1 ≠ "." ∧ e.1 ≠ "..") l).

Lemma names_of_cons t e l :
  names_of t (e :: l) =
    if decide ((e.1 ≠ "." ∧ e.1 ≠ "..") ∧ st_file_type e.2 = t) then e.1 :: names_of t l else names_of t l.
Proof.
  unfold names_of. rewrite filter_cons. destruct (decide (e.1 ≠ "." ∧ e.1 ≠ "..")) as [Hd|Hd].
  - rewrite filter_cons. destruct (decide (st_file_type e.2 = t)) as [Ht|Ht].
    + by rewrite decide_True.
    + rewrite decide_False; [done|]. by intros [_ ?].
  - rewrite decide_False; [done|]. by intros [? _].
Qed.

(** What the loop adds for one entry *)
Definition seen (names : ListDir) (e : string * FileStat) : ListDir :=
  if decide (e.1 ≠ "." ∧ e.1 ≠ "..") then
    match Sftp.Kind_from (st_file_type e.2) with
    | Kind_File => MkListDir (ld_files names ++ [e.1]) (ld_dirs names)
    | Kind_Dir => MkListDir (ld_files names) (ld_dirs names ++ [e.1])
    | _ => names
    end
  else names.

Lemma readdir_step self path fuel d e names st st' :
  dir_readdir d st = (Ret (Ok e), st') → utf8_valid e.1 = true →
  Sftp.readdir_loop (S fuel) self path d names st = Sftp.readdir_loop fuel self path d (seen names e) st'.
Proof.
  intros Hr Hu. cbn [Sftp.readdir_loop]. erewrite bind_run by exact Hr. destruct e as [n stat].
  cbn beta iota zeta. rewrite to_string_lossy_valid by done. unfold seen. simpl.
  destruct (String.eqb_spec n "."), (String.eqb_spec n ".."); simpl;
    first [by rewrite decide_True | rewrite decide_False; [done|tauto]].
Qed.

Lemma seen_names names e l :
  MkListDir (ld_files (seen names e) ++ names_of RegularFile l) (ld_dirs (seen names e) ++ names_of Directory l) =
  MkListDir (ld_files names ++ names_of RegularFile (e :: l)) (ld_dirs names ++ names_of Directory (e :: l)).
Proof.
  rewrite !names_of_cons. unfold seen. destruct (decide (e.1 ≠ "." ∧ e.1 ≠ "..")) as [Hd|Hd].
  - destruct (st_file_type e.2); simpl; repeat case_decide; try tauto; try (exfalso; naive_solver);
      by rewrite <-?app_assoc.
  - repeat case_decide; try tauto; done.
Qed.

Lemma readdir_run self path fuel : ∀ d l names st,
  serving st → listing d l st → Forall (λ e, utf8_valid e.1 = true) l → length l < fuel →
  leaves (Sftp.readdir_loop fuel self path d names) st
    (Ok (MkListDir (ld_files names ++ names_of RegularFile l) (ld_dirs names ++ names_of Directory l)))
    (remote_fs st).
Proof.
  induction fuel as [|fuel IH]; intros d l names st Hs Hl Hu Hlen; [lia|].
  destruct l as [|e l].
  - destruct (readdir_end d st Hs Hl) as (e & st' & Hr & Hc & Ho & Hs'). exists st'. cbn [Sftp.readdir_loop].
    erewrite bind_run by exact Hr. cbn beta iota. rewrite decide_True by done. unfold names_of. simpl.
    rewrite !app_nil_r. by destruct names.
  - destruct (readdir_next d _ l st Hs Hl) as (st' & Hr & Hl' & Ho & Hs').
    inversion_clear Hu as [|? ? Hn Hu']. simpl in Hlen.
    destruct (IH d l (seen names e) st' Hs' Hl' Hu' ltac:(lia)) as (st2 & Hr2 & Ho2 & Hs2).
    exists st2. rewrite (readdir_step _ _ _ _ _ _ _ _ Hr Hn), Hr2, seen_names. by rewrite <-Ho.
Qed.

(** The names of a directory with these children, without doubles *)
Lemma names_of_children t l p (fs : Fs) :
  lists_children l (fs_children p fs) →
  NoDup (names_of t l) ∧ ∀ n, n ∈ names_of t l ↔ ∃ nd, fs !! (p ++ [n]) = Some nd ∧ ssh_type nd = t.
Proof.
  unfold lists_children, names_of. set (l' := filter _ l). intros [_ Hp]. split.
  - assert (NoDup l'.*1) as Hnd.
    { assert (l'.*1 = ((λ e, (e.1, st_file_type e.2)) <$> l').*1) as -> by by rewrite <-list_fmap_compose.
      rewrite Hp, <-list_fmap_compose. apply fs_children_NoDup. }
    clear Hp. induction l' as [|e l' IH]; [constructor|]. simpl in Hnd. apply NoDup_cons in Hnd as [Hni Hnd].
    rewrite filter_cons. case_decide; [|by apply IH]. simpl. constructor; [|by apply IH].
    intros (e' & He & Hin)%list_elem_of_fmap. apply list_elem_of_filter in Hin as [_ Hin].
    apply Hni. rewrite He. by apply list_elem_of_fmap_2.
  - intros n. assert ((n, t) ∈ (λ e, (e.1, st_file_type e.2)) <$> l' ↔ (n, t) ∈ (λ c, (c.1, ssh_type c.2)) <$> fs_children p fs)
      as Hiff by by rewrite Hp.
    rewrite !list_elem_of_fmap in Hiff. rewrite list_elem_of_fmap. split.
    + intros (e & -> & [Ht Hin]%list_elem_of_filter). subst t.
      destruct (proj1 Hiff ltac:(by exists e)) as ([n' nd] & [= H1 H2] & Hin').
      apply elem_of_fs_children in Hin'. simpl in *. subst. by exists nd.
    + intros (nd & Hn & <-). apply elem_of_fs_children in Hn.
      destruct (proj2 Hiff ltac:(by exists (n, nd))) as (e & [= H1 H2] & Hin).
      exists e. split; [done|]. by apply list_elem_of_filter.
Qed.

(** The entries of a listing have names that the program reads as they are. *)
Lemma entries_utf8 l p (fs : Fs) :
  lists_children l (fs_children p fs) → (∀ n, is_Some (fs !! (p ++ [n])) → utf8_valid n = true) →
  Forall (λ e, utf8_valid e.1 = true) l.
Proof.
  intros [_ Hp] Hu. apply Forall_forall. intros e He.
  destruct (decide (e.1 ≠ "." ∧ e.1 ≠ "..")) as [Hd|Hd].
  - assert ((e.1, st_file_type e.2) ∈ (λ e, (e.1, st_file_type e.2)) <$> filter (λ e, e.1 ≠ "." ∧ e.1 ≠ "..") l) as Hin.
    { apply list_elem_of_fmap. exists e. split; [done|]. by apply list_elem_of_filter. }
    rewrite Hp in Hin. apply list_elem_of_fmap in Hin as ([n nd] & [= H1 _] & Hin).
    apply elem_of_fs_children in Hin. rewrite H1. apply Hu. by eexists.
  - destruct (decide (e.1 = ".")) as [->|]; [done|]. destruct (decide (e.1 = "..")) as [->|]; [done|]. tauto.
Qed.

Lemma list_dir_sftp self path p fuel st :
  serving st → path_join (sf_base_path self) path = p → is_dir_node (remote_fs st !! p) = true →
  (∀ n, is_Some (remote_fs st !! (p ++ [n])) → remote_name n) → 2 + size (remote_fs st) < fuel →
  ∃ r, leaves (Sftp.list_dir fuel self path) st (Ok r) (remote_fs st) ∧
    NoDup (ld_files r) ∧ NoDup (ld_dirs r) ∧
    (∀ n, n ∈ ld_files r ↔ ∃ nd, remote_fs st !! (p ++ [n]) = Some nd ∧ ssh_type nd = RegularFile) ∧
    (∀ n, n ∈ ld_dirs r ↔ ∃ nd, remote_fs st !! (p ++ [n]) = Some nd ∧ ssh_type nd = Directory).
Proof.
  intros Hs <- Hd Hu Hle. set (p := path_join _ _) in *.
  destruct (opendir_dir (sf_sftp self) p st Hs Hd) as (d & l & st1 & Hr & Hl & Hc & Ho & Hs1).
  { intros n Hn%Hu%remote_name_plain. by destruct Hn. }
  exists (MkListDir (names_of RegularFile l) (names_of Directory l)).
  destruct (names_of_children RegularFile l p _ Hc) as [Hnf Hf].
  destruct (names_of_children Directory l p _ Hc) as [Hnd Hdd].
  split; [|done].
  destruct (readdir_run self path fuel d l (MkListDir [] []) st1 Hs1 Hl) as (st2 & Hr2 & Ho2 & Hs2).
  - eapply entries_utf8; [exact Hc|]. intros n Hn%Hu%remote_name_plain. by destruct Hn.
  - pose proof (fs_children_length p (remote_fs st)). destruct Hc as [Hlen _]. lia.
  - exists st2. unfold Sftp.list_dir. erewrite try_run by (by erewrite bind_run by exact Hr).
    rewrite Hr2. simpl. by rewrite <-Ho.
Qed.

(** ** Removing a directory *)

Section removing.
Context (self : SftpProtocol).

Definition at_path (ns : list string) : Path := (sf_base_path self ++ ns)%list.

Lemma at_path_join ns : Forall remote_name ns → path_join (sf_base_path self) (join_with "/" ns) = at_path ns.
Proof. intros Hn. apply path_join_names. eapply Forall_impl; [exact Hn|]. by intros n []. Qed.

Lemma join_child (w : list string) n : w ≠ [] → join_with "/" w +:+ "/" +:+ n = join_with "/" (w ++ [n]).
Proof. intros Hw. by rewrite join_with_app. Qed.

(** What the loops rely on: the directories on the stack are there, none is in another,
    and in them are only files and directories. *)
Definition walkable (ws : list (list string)) (fs : Fs) : Prop :=
  NoDup ws ∧ (∀ u v, u ∈ ws → v ∈ ws → u `prefix_of` v → u = v) ∧
  ∀ w, w ∈ ws → w ≠ [] ∧ Forall remote_name w ∧ is_dir_node (fs !! at_path w) = true ∧
    (∀ q nd, fs !! at_path (w ++ q) = Some nd →
      Forall remote_name q ∧ (ssh_type nd = RegularFile ∨ ssh_type nd = Directory)) ∧
    (∀ q r, r ≠ [] → is_Some (fs !! at_path (w ++ q ++ r)) → is_dir_node (fs !! at_path (w ++ q)) = true).

Definition below (ws : list (list string)) (q : Path) : Prop := Exists (λ w, at_path w `prefix_of` q) ws.

#[local] Instance below_dec ws q : Decision (below ws q).
Proof. unfold below. apply _. Defined.

(** The directories that are still to be walked *)
Definition dirs_below (ws : list (list string)) (fs : Fs) : gset Path :=
  filter (λ q, below ws q ∧ is_dir_node (fs !! q) = true) (dom fs).

(** The first loop removes the files, and finds the directories [extra] in an order in
    which none is in a later one. *)
Definition walked (ws : list (list string)) (extra : list (list string)) (fs fs' : Fs) : Prop :=
  (∀ q, is_dir_node (fs !! q) = true ∨ ¬ below ws q → fs' !! q = fs !! q) ∧
  (∀ q, below ws q → is_dir_node (fs !! q) = false → fs' !! q = None) ∧
  NoDup extra ∧ StronglySorted (λ x y, ¬ y `prefix_of` x) extra ∧
  ∀ y, y ∈ extra ↔ is_dir_node (fs !! at_path y) = true ∧ ∃ w q, w ∈ ws ∧ q ≠ [] ∧ y = (w ++ q)%list.

Lemma is_dir_typed (o : option Node) :
  is_dir_node o = true ↔ ∃ nd, o = Some nd ∧ ssh_type nd = Directory.
Proof.
  split; [|by intros ([] & -> & ?)]. destruct o as [[]|]; try done. intros _. by eexists.
Qed.

Lemma remove_files_run w fs_ : ∀ st,
  serving st → w ≠ [] → Forall remote_name w → Forall remote_name fs_ → NoDup fs_ →
  (∀ f, f ∈ fs_ → ∃ c m, remote_fs st !! at_path (w ++ [f]) = Some (NFile c m)) →
  leaves (try_fold (λ _ file, Sftp.remove_file self (join_with "/" w +:+ "/" +:+ file)) tt fs_) st (Ok tt)
    (fs_delete_all (reverse ((λ f, at_path (w ++ [f])) <$> fs_)) (remote_fs st)).
Proof.
  induction fs_ as [|f l IH]; intros st Hs Hw Hn Hl Hnd Hf; cbn [try_fold]; [by exists st|].
  inversion_clear Hl as [|? ? Hn1 Hl']. apply NoDup_cons in Hnd as [Hni Hnd].
  destruct (Hf f ltac:(left)) as (c & m & Hc).
  destruct (unlink_file (sf_sftp self) _ _ _ _ Hs Hc) as (st1 & Hr & Ho & Hs1).
  destruct (IH st1 Hs1 Hw Hn Hl' Hnd) as (st2 & Hr2 & Ho2 & Hs2).
  - intros g Hg. destruct (Hf g ltac:(by right)) as (c' & m' & Hg'). exists c', m'.
    rewrite Ho, lookup_delete_ne; [done|]. unfold at_path. intros Heq%app_inv_head%app_inv_head.
    injection Heq as ->. done.
  - exists st2. erewrite try_run.
    2: { unfold Sftp.remove_file. rewrite join_child, at_path_join by (done || by apply Forall_app_2, Forall_singleton).
         by erewrite bind_run by exact Hr. }
    rewrite Hr2. split; [done|]. split; [|done]. rewrite Ho2, Ho, fmap_cons, reverse_cons.
    unfold fs_delete_all. by rewrite foldr_app.
Qed.

Lemma rmdir_run l : ∀ st,
  serving st → NoDup l → StronglySorted (λ x y, ¬ y `prefix_of` x) l → Forall (Forall remote_name) l →
  (∀ y, y ∈ l → is_dir_node (remote_fs st !! at_path y) = true) →
  (∀ y q, y ∈ l → is_Some (remote_fs st !! at_path (y ++ q)) → y ++ q ∈ l) →
  leaves (try_fold (λ _ dir, Sftp.rmdir self dir) tt (reverse (join_with "/" <$> l))) st (Ok tt)
    (fs_delete_all (at_path <$> l) (remote_fs st)).
Proof.
  induction l as [|x l IH] using rev_ind; intros st Hs Hnd Hsort Hn Hd Hc; [by exists st|].
  rewrite fmap_app. change (join_with "/" <$> [x]) with [join_with "/" x]. rewrite reverse_snoc. cbn [try_fold].
  apply Forall_app in Hn as [Hn [Hx _]%Forall_cons].
  assert (x ∈ l ++ [x]) as Hxin by (apply elem_of_app; right; left).
  apply NoDup_app in Hnd as (Hnd & Hdis & _).
  assert (∀ y, y ∈ l → ¬ x `prefix_of` y) as Hpre.
  { intros y Hy. clear -Hsort Hy. induction l as [|z l IH]; [by apply not_elem_of_nil in Hy|].
    inversion_clear Hsort as [|? ? Hs Hz]. apply elem_of_cons in Hy as [->|Hy]; [|by apply IH].
    rewrite Forall_app, Forall_singleton in Hz. by destruct Hz. }
  destruct (rmdir_empty (sf_sftp self) (at_path x) st Hs (Hd x Hxin)) as (st1 & Hr & Ho & Hs1).
  { intros n. apply eq_None_not_Some. intros Hsome. unfold at_path in Hsome. rewrite <-app_assoc in Hsome.
    apply (Hc x [n] Hxin) in Hsome. apply elem_of_app in Hsome as [Hin|Hin].
    - apply (Hpre _ Hin). by exists [n].
    - apply list_elem_of_singleton in Hin. apply (f_equal length) in Hin. rewrite length_app in Hin. simpl in Hin. lia. }
  assert (∀ y, y ≠ x → at_path y ≠ at_path x) as Hinj by (intros y Hy Heq; by apply app_inv_head in Heq).
  destruct (IH st1 Hs1 Hnd) as (st2 & Hr2 & Ho2 & Hs2).
  - clear -Hsort. by apply StronglySorted_app_1_l in Hsort.
  - done.
  - intros y Hy. rewrite Ho, lookup_delete_ne.
    + apply Hd, elem_of_app. by left.
    + apply not_eq_sym, Hinj. intros ->. apply (Hdis x Hy). left.
  - intros y q Hy [nd Hq]. rewrite Ho in Hq. apply lookup_delete_Some in Hq as [Hne Hq].
    assert (y ++ q ∈ l ++ [x]) as [Hin|Hin%list_elem_of_singleton]%elem_of_app; [|done|].
    { apply Hc; [apply elem_of_app; by left|by eexists]. }
    by rewrite Hin in Hne.
  - exists st2. erewrite try_run.
    2: { unfold Sftp.rmdir. rewrite at_path_join by done. by erewrite bind_run by exact Hr. }
    rewrite Hr2. split; [done|]. split; [|done]. rewrite Ho2, Ho, fmap_app. unfold fs_delete_all. by rewrite foldr_app.
Qed.
(** The files of directory [w] are gone, and nothing else has changed. *)
Definition files_gone (w : list string) (fs fs1 : Fs) : Prop :=
  (∀ q, fs1 !! q = fs !! q ∨
     fs1 !! q = None ∧ ∃ f c m, q = at_path (w ++ [f]) ∧ fs !! q = Some (NFile c m)) ∧
  (∀ f c m, fs !! at_path (w ++ [f]) = Some (NFile c m) → fs1 !! at_path (w ++ [f]) = None).

Lemma files_gone_delete w files (fs : Fs) :
  (∀ n, n ∈ files ↔ ∃ nd, fs !! (at_path w ++ [n]) = Some nd ∧ ssh_type nd = RegularFile) →
  files_gone w fs (fs_delete_all (reverse ((λ f, at_path (w ++ [f])) <$> files)) fs).
Proof.
  intros Hf. assert (∀ f, at_path (w ++ [f]) = at_path w ++ [f]) as Hp by (intros f; apply app_assoc).
  split.
  - intros q. rewrite delete_all_lookup. case_decide as Hq; [right|by left]. split; [done|].
    apply elem_of_reverse, list_elem_of_fmap in Hq as (f & -> & (nd & Hn & Ht)%Hf).
    destruct nd as [c m| | |]; try done. exists f, c, m. by rewrite Hp.
  - intros f c m Hc. rewrite delete_all_lookup, decide_True; [done|]. apply elem_of_reverse, list_elem_of_fmap.
    exists f. split; [done|]. apply Hf. exists (NFile c m). by rewrite <-Hp.
Qed.

Section step.
Context (ws : list (list string)) (w : list string) (cs : list string) (fs fs1 : Fs).
Hypothesis Hw : walkable (ws ++ [w]) fs.
Hypothesis Hgone : files_gone w fs fs1.
Hypothesis Hnd : NoDup cs.
Hypothesis Hcs : ∀ c, c ∈ cs ↔ is_dir_node (fs !! at_path (w ++ [c])) = true.

Abbreviation children := ((λ c, w ++ [c]) <$> cs).

Lemma gone_dir q : is_dir_node (fs1 !! q) = is_dir_node (fs !! q).
Proof using Hgone. destruct (proj1 Hgone q) as [->|(-> & f & c & m & _ & ->)]; done. Qed.

Lemma gone_some q : is_Some (fs1 !! q) → fs1 !! q = fs !! q.
Proof using Hgone. intros Hs. destruct (proj1 Hgone q) as [->|(Hn & _)]; [done|]. rewrite Hn in Hs. by destruct Hs. Qed.

Lemma prefix_snoc_cases {A} (u v : list A) x : u `prefix_of` v ++ [x] → u `prefix_of` v ∨ u = v ++ [x].
Proof.
  intros [k Hk]. destruct k as [|y k _] using rev_ind.
  - right. by rewrite app_nil_r in Hk.
  - left. rewrite app_assoc in Hk. apply app_inj_tail in Hk as [-> _]. by exists k.
Qed.

Lemma top_not_in : w ∉ ws.
Proof using Hw. destruct Hw as [Hn _]. apply NoDup_app in Hn as (_ & Hn & _). intros Hin. apply (Hn w Hin). left. Qed.

Lemma top_apart v : v ∈ ws → ¬ v `prefix_of` w ∧ ¬ w `prefix_of` v.
Proof using Hw.
  intros Hv. destruct Hw as (_ & Hp & _). pose proof top_not_in as Hn.
  assert (v ∈ ws ++ [w] ∧ w ∈ ws ++ [w]) as [Hv' Hw'] by (rewrite !elem_of_app, !list_elem_of_singleton; auto).
  split; intros Hx; apply Hn; [by rewrite <-(Hp v w)|by rewrite (Hp w v)].
Qed.

Lemma child_in v : v ∈ children ↔ ∃ c, v = w ++ [c] ∧ c ∈ cs.
Proof using. apply list_elem_of_fmap. Qed.

Lemma walkable_step : walkable (ws ++ children) fs1.
Proof using Hcs Hgone Hnd Hw.
  destruct Hw as (Hn & Hp & Hall). pose proof top_apart as Hap. split; [|split].
  - apply NoDup_app in Hn as (Hn & _ & _). apply NoDup_app. split; [done|]. split.
    + intros v Hv (c & -> & _)%child_in. apply (proj2 (Hap _ Hv)). by exists [c].
    + apply NoDup_fmap_2; [|done]. intros c c' Heq. by apply app_inv_head in Heq as [= ->].
  - intros u v [Hu|(c & -> & Hc)%child_in]%elem_of_app [Hv|(c' & -> & Hc')%child_in]%elem_of_app Hpre.
    + apply Hp; [apply elem_of_app; by left..|done].
    + apply prefix_snoc_cases in Hpre as [Hpre|]; [|done]. by destruct (Hap _ Hu).
    + destruct (Hap _ Hv) as [_ []]. etrans; [|exact Hpre]. by exists [c].
    + apply prefix_length_eq; [done|]. rewrite !length_app. simpl. lia.
  - intros v Hv.
    assert (∃ v0 q0, v0 ∈ ws ++ [w] ∧ v = v0 ++ q0 ∧ Forall remote_name q0 ∧ is_dir_node (fs !! at_path v) = true)
      as (v0 & q0 & Hv0 & -> & Hq0 & Hd).
    { apply elem_of_app in Hv as [Hv|(c & -> & Hc)%child_in].
      - exists v, []. rewrite app_nil_r. assert (v ∈ ws ++ [w]) as Hv' by (apply elem_of_app; by left).
        destruct (Hall v Hv') as (_ & _ & Hd & _). by repeat constructor.
      - assert (w ∈ ws ++ [w]) as Hw' by (apply elem_of_app; right; left). exists w, [c].
        apply Hcs in Hc. split_and!; [done..| |done].
        destruct (Hall w Hw') as (_ & _ & _ & Hnodes & _).
        destruct (fs !! at_path (w ++ [c])) as [nd|] eqn:E; [|done]. by destruct (Hnodes _ _ E). }
    destruct (Hall v0 Hv0) as (Hne & Hr & _ & Hnodes & Hclosed). split_and!.
    + by destruct v0.
    + by apply Forall_app.
    + by rewrite gone_dir.
    + intros q nd Hq. rewrite gone_some in Hq by by eexists. rewrite <-app_assoc in Hq.
      destruct (Hnodes _ _ Hq) as [Hf Ht]. apply Forall_app in Hf as [_ Hf]. done.
    + intros q r Hr0 Hs. rewrite gone_some in Hs by done. rewrite gone_dir. rewrite <-!app_assoc in *.
      apply (Hclosed (q0 ++ q) r Hr0). by rewrite <-app_assoc.
Qed.

Lemma below_step q : below (ws ++ children) q → below (ws ++ [w]) q.
Proof using.
  unfold below. rewrite !Exists_exists. intros (v & [Hv|(c & -> & _)%child_in]%elem_of_app & Hp).
  - exists v. split; [apply elem_of_app; by left|done].
  - exists w. split; [apply elem_of_app; right; left|]. etrans; [|exact Hp]. unfold at_path.
    apply prefix_app. by exists [c].
Qed.

Lemma at_path_prefix u v : at_path u `prefix_of` at_path v → u `prefix_of` v.
Proof using. intros [k Hk]. unfold at_path in Hk. rewrite <-app_assoc in Hk. apply app_inv_head in Hk. by exists k. Qed.

Lemma dirs_below_step : size (dirs_below (ws ++ children) fs1) < size (dirs_below (ws ++ [w]) fs).
Proof using Hcs Hgone Hw.
  apply subset_size. split.
  - intros q. unfold dirs_below. rewrite !elem_of_filter, gone_dir. intros ([Hb Hd] & _). split.
    + split; [by apply below_step|done].
    + apply elem_of_dom. by apply is_dir_is_Some.
  - intros Hsub. destruct Hw as (_ & _ & Hall).
    assert (w ∈ ws ++ [w]) as Hw' by (apply elem_of_app; right; left).
    destruct (Hall w Hw') as (_ & _ & Hd & _).
    assert (at_path w ∈ dirs_below (ws ++ [w]) fs) as Hin.
    { apply elem_of_filter. split; [|apply elem_of_dom; by apply is_dir_is_Some]. split; [|done].
      apply Exists_exists. by exists w. }
    apply Hsub, elem_of_filter in Hin as ([Hb _] & _). apply Exists_exists in Hb as (v & Hv & Hp%at_path_prefix).
    apply elem_of_app in Hv as [Hv|(c & -> & _)%child_in]; [by destruct (top_apart v Hv)|].
    apply prefix_length in Hp. rewrite length_app in Hp. simpl in Hp. lia.
Qed.

Lemma below_inv q : below (ws ++ [w]) q → below (ws ++ children) q ∨ at_path w `prefix_of` q.
Proof using.
  unfold below. rewrite !Exists_exists. intros (v & [Hv|Hv%list_elem_of_singleton]%elem_of_app & Hp);
    [left|right; by subst].
  exists v. split; [apply elem_of_app; by left|done].
Qed.

Lemma deeper_not_child extra fs' y c :
  walked (ws ++ children) extra fs1 fs' → y ∈ extra → ¬ y `prefix_of` w ++ [c].
Proof using Hw.
  intros (_ & _ & _ & _ & Hin) (_ & v & q & Hv & Hq & ->)%Hin Hp.
  assert (0 < length q) as Hlen by (destruct q; simpl; [done|lia]).
  apply elem_of_app in Hv as [Hv|(c' & -> & _)%child_in].
  - apply prefix_snoc_cases in Hp as [Hp|Heq].
    + apply (proj1 (top_apart v Hv)). etrans; [|exact Hp]. by exists q.
    + assert (v `prefix_of` w ++ [c]) as [Hp|Hp]%prefix_snoc_cases by (rewrite <-Heq; by exists q).
      * by apply (proj1 (top_apart v Hv)).
      * rewrite <-Heq in Hp. apply (f_equal length) in Hp. rewrite length_app in Hp. lia.
  - apply prefix_length in Hp. rewrite !length_app in Hp. simpl in Hp. lia.
Qed.

Lemma children_sorted : StronglySorted (λ x y, ¬ y `prefix_of` x) children.
Proof using Hnd.
  clear -Hnd. induction cs as [|c l IH]; [constructor|]. apply NoDup_cons in Hnd as [Hc Hl].
  cbn [fmap list_fmap]. constructor; [by apply IH|]. apply Forall_fmap, Forall_forall. intros d Hd Hp.
  apply prefix_length_eq in Hp; [|rewrite !length_app; simpl; lia].
  apply app_inv_head in Hp as [= ->]. done.
Qed.

Lemma walked_extra extra fs' y :
  walked (ws ++ children) extra fs1 fs' →
  y ∈ children ++ extra ↔
    is_dir_node (fs !! at_path y) = true ∧ ∃ v q, v ∈ ws ++ [w] ∧ q ≠ [] ∧ y = (v ++ q)%list.
Proof using Hcs Hgone Hw.
  intros (_ & _ & _ & _ & Hin). rewrite elem_of_app, Hin, child_in, gone_dir. split.
  - intros [(c & -> & Hc)|(Hd & v & q & Hv & Hq & ->)].
    + split; [by apply Hcs|]. exists w, [c]. split; [apply elem_of_app; right; left|done].
    + split; [done|]. apply elem_of_app in Hv as [Hv|(c & -> & Hc)%child_in].
      * exists v, q. split; [apply elem_of_app; by left|done].
      * exists w, (c :: q). split; [apply elem_of_app; right; left|]. split; [done|]. by rewrite <-app_assoc.
  - intros (Hd & v & q & Hv & Hq & ->).
    assert (v ∈ ws ++ [w]) as Hv' by done.
    apply elem_of_app in Hv as [Hv|Hv%list_elem_of_singleton]; [|subst v].
    { right. split; [done|]. exists v, q. split; [apply elem_of_app; by left|done]. }
    destruct q as [|c q]; [done|]. destruct Hw as (_ & _ & Hall). destruct (Hall w Hv') as (_ & _ & _ & _ & Hclosed).
    destruct q as [|n q]; [left; exists c; split; [done|by apply Hcs]|]. right. split; [done|].
    exists (w ++ [c]), (n :: q). rewrite <-app_assoc. split; [|done]. apply elem_of_app. right. apply child_in.
    exists c. split; [done|]. apply Hcs, (Hclosed [c] (n :: q)); [done|]. by apply is_dir_is_Some.
Qed.

Lemma walked_step extra fs' :
  walked (ws ++ children) extra fs1 fs' → walked (ws ++ [w]) (children ++ extra) fs fs'.
Proof using Hcs Hgone Hnd Hw.
  intros Hwk. pose proof Hwk as (Hkeep & Hfiles & Hne & Hse & _).
  assert (w ∈ ws ++ [w]) as Hw' by (apply elem_of_app; right; left).
  destruct Hw as (_ & _ & Hall). destruct (Hall w Hw') as (_ & _ & Hdw & Hnodes & Hclosed).
  split; [|split; [|split; [|split]]].
  - intros q Hq. rewrite Hkeep.
    + destruct (proj1 Hgone q) as [->|(_ & f & c & m & -> & Hf)]; [done|]. exfalso.
      destruct Hq as [Hq|Hq]; [by rewrite Hf in Hq|]. apply Hq, Exists_exists. exists w. split; [done|].
      apply prefix_app. by exists [f].
    + rewrite gone_dir. destruct Hq as [|Hq]; [by left|right]. intros Hb. by apply Hq, below_step.
  - intros q Hb Hd. destruct (decide (below (ws ++ children) q)) as [Hb'|Hb'].
    { apply Hfiles; [done|]. by rewrite gone_dir. }
    rewrite Hkeep by by right. apply below_inv in Hb as [Hb|[r ->]]; [done|].
    destruct (fs !! (at_path w ++ r)) as [nd|] eqn:E.
    2: { destruct (proj1 Hgone (at_path w ++ r)) as [->|[-> _]]; done. }
    unfold at_path in E. rewrite <-app_assoc in E. fold (at_path (w ++ r)) in E.
    destruct (Hnodes _ _ E) as [_ Ht].
    destruct r as [|n r]; [unfold at_path in Hd, Hdw; rewrite app_nil_r in Hd; congruence|].
    destruct r as [|n' r].
    + destruct nd as [c m|m| |]; try (by destruct Ht).
      * unfold at_path. rewrite <-app_assoc. apply (proj2 Hgone n c m E).
      * exfalso. assert (is_dir_node (fs !! at_path (w ++ [n])) = true) as Hx by exact (f_equal is_dir_node E).
        unfold at_path in Hx, Hd. rewrite <-app_assoc in Hd. exact (eq_true_false_abs _ Hx Hd).
    + exfalso. apply Hb', Exists_exists. exists (w ++ [n]). split.
      * apply elem_of_app. right. apply child_in. exists n. split; [done|]. apply Hcs.
        apply (Hclosed [n] (n' :: r)); [done|]. by eexists.
      * unfold at_path. rewrite <-app_assoc. do 2 apply prefix_app. by exists (n' :: r).
  - apply NoDup_app. split; [apply NoDup_fmap_2; [|done]; intros c c' Heq; by apply app_inv_head in Heq as [= ->]|].
    split; [|done]. intros y (c & -> & _)%child_in Hy. by apply (deeper_not_child _ _ _ c Hwk Hy).
  - apply StronglySorted_app_2; [|apply children_sorted|done].
    intros x y (c & -> & _)%child_in Hy. by apply (deeper_not_child _ _ _ c Hwk Hy).
  - intros y. by apply (walked_extra extra fs').
Qed.
End step.

Lemma last_stack ws w : last (join_with "/" <$> ws ++ [w]) = Some (join_with "/" w).
Proof. rewrite fmap_app. apply last_snoc. Qed.

Lemma rest_of_stack ws w : removelast (join_with "/" <$> ws ++ [w]) = join_with "/" <$> ws.
Proof. rewrite fmap_app. apply removelast_last. Qed.

Lemma delete_all_size ps (fs : Fs) : size (fs_delete_all ps fs) ≤ size fs.
Proof.
  apply map_subseteq_size. induction ps as [|p ps IH]; [done|]. etrans; [apply delete_subseteq|exact IH].
Qed.

(** One round of the first loop: the files of the directory on top are gone, and its
    subdirectories are on the stack in its place. *)
Lemma walk_round dirs entries ws w del st :
  serving st → walkable (ws ++ [w]) (remote_fs st) → 2 + size (remote_fs st) < entries →
  ∃ cs st', Sftp.walk_loop (S dirs) entries self (join_with "/" <$> ws ++ [w]) (join_with "/" <$> del) st =
      Sftp.walk_loop dirs entries self (join_with "/" <$> ws ++ ((λ c, w ++ [c]) <$> cs))
        (join_with "/" <$> del ++ ((λ c, w ++ [c]) <$> cs)) st' ∧
    serving st' ∧ size (remote_fs st') ≤ size (remote_fs st) ∧ NoDup cs ∧
    files_gone w (remote_fs st) (remote_fs st') ∧
    ∀ c, c ∈ cs ↔ is_dir_node (remote_fs st !! at_path (w ++ [c])) = true.
Proof.
  intros Hs (_ & _ & Hall) Hent. cbn [Sftp.walk_loop]. rewrite last_stack, rest_of_stack.
  destruct (Hall w ltac:(apply elem_of_app; right; left)) as (Hne & Hrn & Hd & Hnodes & _).
  assert (∀ n, is_Some (remote_fs st !! (at_path w ++ [n])) → remote_name n) as Hnames.
  { intros n [nd Hn]. destruct (Hnodes [n] nd) as [[Hf _]%Forall_cons _]; [|done].
    unfold at_path in *. by rewrite app_assoc. }
  destruct (list_dir_sftp self (join_with "/" w) (at_path w) entries st Hs) as
    (r & (st1 & Hr & Ho & Hs1) & Hnf & Hndirs & Hf & Hdirs); [by apply at_path_join|done..|].
  erewrite try_run by exact Hr.
  destruct (remove_files_run w (ld_files r) st1 Hs1 Hne Hrn) as (st2 & Hr2 & Ho2 & Hs2).
  { apply Forall_forall. intros f (nd & Hn & _)%Hf. apply Hnames. by eexists. }
  { done. }
  { intros f (nd & Hn & Ht)%Hf. destruct nd as [c m| | |]; try done. exists c, m. rewrite Ho.
    unfold at_path in *. by rewrite app_assoc. }
  erewrite try_run by exact Hr2. exists (ld_dirs r), st2. split_and!; [|done|..|done| |].
  - assert ((λ subdir, join_with "/" w +:+ "/" +:+ subdir) <$> ld_dirs r =
      join_with "/" <$> ((λ c, w ++ [c]) <$> ld_dirs r)) as Hsub.
    { rewrite <-list_fmap_compose. apply list_fmap_ext. intros i c _. exact (join_child w c Hne). }
    cbv zeta. by rewrite Hsub, <-!fmap_app.
  - rewrite Ho2, Ho. apply delete_all_size.
  - rewrite Ho2, Ho. by apply files_gone_delete.
  - intros c. rewrite Hdirs. unfold at_path. rewrite app_assoc. symmetry. apply is_dir_typed.
Qed.

(** The first loop, when there is room for every directory and for every entry *)
Lemma walk_run dirs entries : ∀ ws del st,
  serving st → walkable ws (remote_fs st) → size (dirs_below ws (remote_fs st)) < dirs →
  2 + size (remote_fs st) < entries →
  ∃ extra st', Sftp.walk_loop dirs entries self (join_with "/" <$> ws) (join_with "/" <$> del) st =
      (Ret (Ok (join_with "/" <$> del ++ extra)), st') ∧
    serving st' ∧ walked ws extra (remote_fs st) (remote_fs st').
Proof.
  induction dirs as [|dirs IH]; intros ws del st Hs Hw Hsize Hent; [lia|].
  destruct ws as [|w ws _] using rev_ind.
  { exists [], st. rewrite app_nil_r. split_and!; [done..|]. split_and!; [done| |constructor..|].
    - by intros q Hb%Exists_nil.
    - intros y. split; [by intros ?%not_elem_of_nil|]. intros (_ & v & q & Hv & _). by apply not_elem_of_nil in Hv. }
  destruct (walk_round dirs entries ws w del st Hs Hw Hent) as (cs & st1 & -> & Hs1 & Hle & Hnd & Hgone & Hcs).
  pose proof (dirs_below_step ws w cs _ _ Hw Hgone Hcs).
  destruct (IH (ws ++ ((λ c, w ++ [c]) <$> cs)) (del ++ ((λ c, w ++ [c]) <$> cs)) st1 Hs1)
    as (extra & st2 & Hr & Hs2 & Hwd); [by eapply walkable_step|lia..|].
  exists (((λ c, w ++ [c]) <$> cs) ++ extra), st2. rewrite app_assoc. split; [exact Hr|]. split; [done|].
  by eapply walked_step.
Qed.

(** What the first loop has found are the directories of the tree; ... *)
Lemma found_dirs ns extra (fs fs1 : Fs) y :
  walkable [ns] fs → walked [ns] extra fs fs1 →
  y ∈ ns :: extra ↔ is_dir_node (fs !! at_path y) = true ∧ ns `prefix_of` y.
Proof.
  intros (_ & _ & Hall) (_ & _ & _ & _ & Hin). destruct (Hall ns ltac:(left)) as (_ & _ & Hd & _).
  rewrite elem_of_cons, Hin. split.
  - intros [->|(Hy & v & q & ->%list_elem_of_singleton & _ & ->)]; [done|]. split; [done|]. by exists q.
  - intros [Hy [q ->]]. destruct (decide (q = [])) as [->|Hq]; [left; apply app_nil_r|]. right. split; [done|].
    exists ns, q. split; [left|done].
Qed.

(** ... removing them removes what is left of it. *)
Lemma removed_tree ns extra (fs fs1 : Fs) :
  walkable [ns] fs → walked [ns] extra fs fs1 →
  fs_delete_all (at_path <$> ns :: extra) fs1 = fs_delete_all (fs_subtree (at_path ns) fs) fs.
Proof.
  intros Hw Hwd. pose proof (λ y, found_dirs ns extra fs fs1 y Hw Hwd) as Hl. destruct Hwd as (Hkeep & Hgone & _).
  apply map_eq. intros q. rewrite !delete_all_lookup.
  case_decide as H1; case_decide as H2; rewrite elem_of_fs_subtree in H2; try done.
  - exfalso. apply list_elem_of_fmap in H1 as (y & -> & [Hy Hp]%Hl). apply H2.
    split; [by apply prefix_app|]. by apply is_dir_is_Some.
  - destruct H2 as [[r ->] Hsome].
    assert (is_dir_node (fs !! (at_path ns ++ r)) = false) as Hnd'.
    { apply not_true_iff_false. intros Hdir. apply H1. apply list_elem_of_fmap. exists (ns ++ r).
      split; [by unfold at_path; rewrite app_assoc|]. apply Hl. split; [|by exists r].
      unfold at_path in *. by rewrite app_assoc. }
    apply Hgone; [|done]. apply Exists_exists. exists ns. split; [left|]. by exists r.
  - destruct (decide (at_path ns `prefix_of` q)) as [Hp|Hp].
    + destruct (fs !! q) as [nd|] eqn:E; [destruct H2; split; [done|by eexists]|].
      apply Hgone; [|by rewrite E]. apply Exists_exists. exists ns. split; [left|done].
    + apply Hkeep. right. intros (v & ->%list_elem_of_singleton & Hv)%Exists_exists. done.
Qed.

(** The whole removal *)
Lemma remove_dir_all_sftp dirs entries ns st :
  serving st → walkable [ns] (remote_fs st) → size (remote_fs st) < dirs → 2 + size (remote_fs st) < entries →
  leaves (Sftp.remove_dir_all dirs entries self (join_with "/" ns)) st (Ok tt)
    (fs_delete_all (fs_subtree (at_path ns) (remote_fs st)) (remote_fs st)).
Proof.
  intros Hs Hw Hdirs Hent. pose proof Hw as (_ & _ & Hall).
  destruct (Hall ns ltac:(left)) as (Hne & Hrn & Hd & Hnodes & _).
  destruct (walk_run dirs entries [ns] [ns] st Hs Hw) as (extra & st1 & Hr & Hs1 & Hwd).
  { eapply Nat.le_lt_trans; [|exact Hdirs]. rewrite <-(size_dom (remote_fs st)). apply subseteq_size.
    intros q. unfold dirs_below. by intros [_ ?]%elem_of_filter. }
  { done. }
  pose proof (λ y, found_dirs ns extra _ _ y Hw Hwd) as Hl. pose proof Hwd as (Hkeep & Hgone & Hnd & Hsort & Hin).
  assert (∀ y, y ∈ extra → length ns < length y) as Hlen.
  { intros y (_ & v & q & ->%list_elem_of_singleton & Hq & ->)%Hin. rewrite length_app. destruct q; simpl; [done|lia]. }
  destruct (rmdir_run (ns :: extra) st1 Hs1) as (st2 & Hr2 & Ho2 & Hs2).
  - apply NoDup_cons. split; [|done]. intros Hns%Hlen. lia.
  - constructor; [done|]. apply Forall_forall. intros y Hy%Hlen Hp%prefix_length. lia.
  - apply Forall_forall. intros y [Hy [q ->]]%Hl. apply Forall_app. split; [done|].
    apply is_dir_typed in Hy as (nd & Hy & _). by destruct (Hnodes q nd).
  - intros y [Hy _]%Hl. rewrite Hkeep by by left. done.
  - intros y q [Hy Hp]%Hl Hs0. apply Hl. split; [|by apply prefix_app_r].
    destruct (is_dir_node (remote_fs st !! at_path (y ++ q))) eqn:E; [done|]. exfalso.
    rewrite Hgone in Hs0; [by destruct Hs0| |done]. apply Exists_exists. exists ns. split; [left|].
    apply prefix_app. by apply prefix_app_r.
  - exists st2. unfold Sftp.remove_dir_all. change [join_with "/" ns] with (join_with "/" <$> [ns]).
    erewrite try_run by exact Hr. split; [exact Hr2|]. split; [|done]. rewrite Ho2. by apply removed_tree.
Qed.
End removing.
(** ** The same as the local transport *)

Section as_local.
Context `{BuildCfg} (t : Transport) (self : SftpProtocol) (st : St) (w : World).
Hypothesis Hbase : tr_path t = sf_base_path self.
Hypothesis Hsame : w_fs w = remote_fs st.
Hypothesis Hs : serving st.
Hypothesis Hf : fault_free w.

Lemma local_path ns : Forall remote_name ns →
  plain (join_with "/" ns) ∧ path_join (tr_path t) (join_with "/" ns) = at_path self ns.
Proof using Hbase.
  intros Hn. split; [|rewrite Hbase; by apply at_path_join]. apply names_plain.
  eapply Forall_impl; [exact Hn|]. by intros n [].
Qed.

Lemma list_dir_both entries ns :
  walkable self [ns] (remote_fs st) → 2 + size (remote_fs st) < entries →
  ∃ l l' w', leaves (Sftp.list_dir entries self (join_with "/" ns)) st (Ok l) (remote_fs st) ∧
    Local.list_dir t (join_with "/" ns) w = (Ret (Ok l'), w') ∧ w_fs w' = w_fs w ∧
    ld_files l ≡ₚ ld_files l' ∧ ld_dirs l ≡ₚ ld_dirs l'.
Proof using Hbase Hf Hs Hsame.
  intros (_ & _ & Hall) Hent. destruct (Hall ns ltac:(left)) as (Hne & Hrn & Hd & Hnodes & _).
  destruct (local_path ns Hrn) as [Hp Hj].
  assert (∀ n, is_Some (remote_fs st !! (at_path self ns ++ [n])) → remote_name n) as Hu.
  { intros n [nd Hn]. destruct (Hnodes [n] nd) as [[Hx _]%Forall_cons _]; [|done].
    unfold at_path in *. by rewrite app_assoc. }
  destruct (list_dir_sftp self (join_with "/" ns) (at_path self ns) entries st Hs) as (l & Hr & Hnf & Hnd & Hfi & Hdi);
    [by apply at_path_join|done..|].
  destruct (remote_fs st !! at_path self ns) as [[|m| |]|] eqn:Em; try done.
  destruct (listing_run t (join_with "/" ns) w m Hp Hf) as (l' & w' & Hr' & [Hfs _] & Hl1 & Hl2 & Hl3 & Hl4).
  { by rewrite Hj, Hsame. }
  pose proof Hr' as (Hnf' & Hnd' & _)%list_dir_NoDup. rewrite Hj, Hsame in Hl1, Hl2, Hl3, Hl4.
  exists l, l', w'. split; [exact Hr|]. split; [exact Hr'|]. split; [done|]. split.
  - apply NoDup_Permutation; [done..|]. intros n. rewrite Hfi. split.
    + intros (nd & Hn & Ht). destruct nd as [c mf| | |]; try done. apply (Hl2 n c mf); [|done]. apply Hu. by eexists.
    + intros (c & mf & Hn)%Hl1. by eexists.
  - apply NoDup_Permutation; [done..|]. intros n. rewrite Hdi. split.
    + intros (nd & Hn & Ht). destruct nd as [|md| |]; try done. apply (Hl4 n md); [|done]. apply Hu. by eexists.
    + intros (md & Hn)%Hl3. by eexists.
Qed.

(** C11: directories are the same over SFTP. When the server serves the files that the
    local transport works on, and a directory holds only files and directories with
    ordinary names, then both transports list the same names, in whatever order, and
    change nothing; and both remove the directory with all that is in it, and leave the
    same files -- although over SFTP that is a walk with a stack of directories, where
    the local transport asks the system. The walk ends as soon as there is room for the
    directories and the entries. *)
Theorem directories_as_local dirs entries ns
    (Hw : walkable self [ns] (remote_fs st)) (Hdirs : size (remote_fs st) < dirs)
    (Hent : 2 + size (remote_fs st) < entries) :
  let path := join_with "/" ns in
  (∃ l l' st' w', Sftp.list_dir entries self path st = (Ret (Ok l), st') ∧
     Local.list_dir t path w = (Ret (Ok l'), w') ∧ ld_files l ≡ₚ ld_files l' ∧ ld_dirs l ≡ₚ ld_dirs l' ∧
     remote_fs st' = remote_fs st ∧ w_fs w' = w_fs w) ∧
  (∃ st' w', Sftp.remove_dir_all dirs entries self path st = (Ret (Ok tt), st') ∧
     Local.remove_dir_all t path w = (Ret (Ok tt), w') ∧ remote_fs st' = w_fs w').
Proof using Hbase Hf Hs Hsame.
  cbv zeta. split.
  - destruct (list_dir_both entries ns Hw Hent) as (l & l' & w' & (st' & Hr & Ho & _) & Hr' & Hw' & Hpf & Hpd).
    by exists l, l', st', w'.
  - destruct (remove_dir_all_sftp self dirs entries ns st Hs Hw Hdirs Hent) as (st' & Hr & Ho & _).
    destruct Hw as (_ & _ & Hall). destruct (Hall ns ltac:(left)) as (_ & Hrn & Hd & _).
    destruct (local_path ns Hrn) as [Hp Hj].
    destruct (remote_fs st !! at_path self ns) as [[|m| |]|] eqn:Em; try done.
    destruct (remove_dir_all_run t (join_with "/" ns) w m Hp Hf) as (w' & Hr' & _ & Hw'); [by rewrite Hj, Hsame|].
    exists st', w'. split; [exact Hr|]. split; [exact Hr'|]. by rewrite Ho, Hw', Hj, Hsame.
Qed.

Section file.
Context (ns : list string) (n content : string).
Hypothesis Hn : Forall remote_name (ns ++ [n]).
Hypothesis Hwf : fs_wf (remote_fs st).
Hypothesis Hparent : is_dir_node (remote_fs st !! at_path self ns) = true.
Hypothesis Hkind : ∀ nd, remote_fs st !! at_path self (ns ++ [n]) = Some nd → ssh_type nd = RegularFile.
Hypothesis Hurl : ∀ s, is_Some (url_join (sf_url self) s).
#[local] Abbreviation path := (join_with "/" (ns ++ [n])).
#[local] Abbreviation p := (at_path self (ns ++ [n])).
#[local] Abbreviation fs := (remote_fs st).

Lemma parent_path : parent p = at_path self ns.
Proof using. unfold parent, at_path. rewrite app_assoc. apply removelast_last. Qed.

Lemma absent_not_found : fs !! p = None → absent_kind fs p = Io_NotFound.
Proof using Hparent Hwf.
  intros Hx. unfold at_path. rewrite app_assoc. apply absent_below; [done|exact Hparent|].
  intros k Hk. assert (k = 0) as -> by (simpl in Hk; lia). right. rewrite app_nil_r. exact Hparent.
Qed.

Lemma or_ssh_error_run {A : Type} e (st' : St) :
  Sftp.or_ssh_error (A:=A) self path (Err e) st' = (Ret (Err (Sftp.ssh_error_at e)), st').
Proof using Hurl.
  unfold Sftp.or_ssh_error, Sftp.ssh_error, Sftp.relative_url. destruct (Hurl path) as [u Hu]. rewrite Hu.
  by erewrite bind_run by done.
Qed.

Lemma read_both :
  ∃ r r' w', leaves (Sftp.read_file self path) st r fs ∧ Local.read_file t path w = (Ret r', w') ∧
    w_fs w' = fs ∧ map_err te_kind r = map_err te_kind r' ∧
    match fs !! p with Some (NFile c _) => r = Ok c | _ => map_err te_kind r = Err TE_NotFound end.
Proof using Hbase Hf Hkind Hn Hparent Hs Hsame Hurl Hwf.
  destruct (local_path (ns ++ [n]) Hn) as [Hp Hj]. pose proof (at_path_join self _ Hn) as Hjs.
  destruct (read_file_run t path w Hp Hf) as (w' & Hr' & Hfs & _). rewrite Hj, Hsame in Hr'. rewrite Hsame in Hfs.
  destruct (Hurl path) as [u Hu].
  destruct (fs !! p) as [nd|] eqn:E.
  - pose proof (Hkind _ eq_refl) as Ht. destruct nd as [c m| | |]; try done.
    destruct (open_read (sf_sftp self) _ _ _ _ Hs E) as (f & st1 & st2 & Ho & Hc & Hfs2 & Hs2).
    exists (Ok c), (Ok c), w'. split_and!; [|rewrite Hr'; unfold fs_read_file; by rewrite E|done..].
    exists st2. split; [|done]. unfold Sftp.read_file. rewrite Hjs, Hu. erewrite bind_run by done.
    erewrite try_run by (by erewrite bind_run by exact Ho). erewrite try_run by (by erewrite bind_run by exact Hc).
    cbn beta iota. by rewrite N.eqb_refl.
  - destruct (open_absent (sf_sftp self) _ _ Hs E) as (e & st1 & Ho & Hc & Hfs1 & Hs1).
    exists (Err (Sftp.ssh_error_at e)), (Err (io_error p Io_NotFound)), w'.
    assert (te_kind (Sftp.ssh_error_at e) = TE_NotFound) as Hk.
    { unfold Sftp.ssh_error_at, error_kind_from, Sftp.ErrorKind_from. simpl. rewrite Hc. rewrite decide_True; [done|by left]. }
    split_and!; [|rewrite Hr'; unfold fs_read_file; rewrite E, absent_not_found by done; done|done|cbn [map_err]; by rewrite Hk..].
    exists st1. split; [|done]. unfold Sftp.read_file. rewrite Hjs, Hu. erewrite bind_run by done.
    erewrite try_run_err by (erewrite bind_run by exact Ho; apply or_ssh_error_run). done.
Qed.

Lemma create_dir_both :
  ∃ m m' w', let made x := match fs !! p with None => <[p := NDir x]> fs | Some _ => fs end in
    leaves (Sftp.create_dir self path) st (Ok tt) (made m) ∧
    Local.create_dir t path w = (Ret (Ok tt), w') ∧ w_fs w' = made m'.
Proof using Hbase Hf Hn Hparent Hs Hsame.
  clear Hkind.
  destruct (local_path (ns ++ [n]) Hn) as [Hp Hj]. pose proof (at_path_join self _ Hn) as Hjs.
  destruct (create_dir_run t path w Hp Hf) as (w' & fs' & Hr' & <- & _ & Hfs'). rewrite Hj, Hsame in Hr', Hfs'.
  unfold fs_create in Hr', Hfs'. rewrite parent_path, Hparent in Hr', Hfs'.
  destruct (fs !! p) as [nd|] eqn:E.
  - destruct (mkdir_exists (sf_sftp self) p 448 st Hs ltac:(by eexists)) as (e & st1 & Hm & Hc & Hfs1 & Hs1).
    exists (new_meta 0 w), (new_meta 0 w), w'. split_and!; [|exact Hr'|done].
    exists st1. split; [|done]. unfold Sftp.create_dir. rewrite Hjs. erewrite bind_run by exact Hm.
    cbn beta iota. by rewrite decide_True.
  - destruct (mkdir_new (sf_sftp self) p 448 st Hs E) as (m & st1 & Hm & Hfs1 & Hs1); [by rewrite parent_path|].
    exists m, (new_meta 493 w), w'. split_and!; [|exact Hr'|done].
    exists st1. split; [|done]. unfold Sftp.create_dir. rewrite Hjs. by erewrite bind_run by exact Hm.
Qed.

Lemma write_both :
  ∃ r r' m m' w', let made x := match fs !! p with None => <[p := NFile content x]> fs | Some _ => fs end in
    leaves (Sftp.write_file self path content CreateNew) st r (made m) ∧
    Local.write_file t path content CreateNew w = (Ret r', w') ∧ w_fs w' = made m' ∧
    match fs !! p with
    | None => r = Ok tt ∧ r' = Ok tt
    | Some _ => map_err te_kind r = Err TE_Other ∧ map_err te_kind r' = Err TE_AlreadyExists
    end.
Proof using Hbase Hf Hn Hparent Hs Hsame Hurl.
  clear Hkind.
  destruct (local_path (ns ++ [n]) Hn) as [Hp Hj]. pose proof (at_path_join self _ Hn) as Hjs.
  destruct (fs !! p) as [nd|] eqn:E.
  - destruct (open_exists (sf_sftp self) p 420 st Hs ltac:(by eexists)) as (e & st1 & Ho & Hc & Hfs1 & Hs1).
    exists (Err (Sftp.ssh_error_at e)), (Err (io_error p Io_AlreadyExists)), (new_meta 0 w), (new_meta 0 w), (tick w).
    split_and!; [|rewrite <-Hj; apply (write_new_exists_run t path content nd w Hp Hf); by rewrite Hj, Hsame|done| |done].
    + exists st1. split; [|done]. unfold Sftp.write_file. rewrite Hjs. cbv zeta.
      erewrite try_run_err by (erewrite bind_run by exact Ho; apply or_ssh_error_run). done.
    + cbn [map_err]. unfold Sftp.ssh_error_at, error_kind_from, Sftp.ErrorKind_from. cbn [te_kind remote_error].
      destruct fx_distinct as [Hd1 Hd2]. rewrite Hc, decide_False; [done|]. by intros [[= Hx]|[= Hx]].
  - destruct (open_new (sf_sftp self) p 420 content st Hs E) as (f & m & st1 & st2 & Ho & Hw & Hfs2 & Hs2);
      [by rewrite parent_path|].
    destruct (write_new_run t path content w Hp Hf) as (w' & m' & Hr' & Hfs' & _).
    { by rewrite Hj, Hsame. }
    { by rewrite Hj, Hsame, parent_path. }
    exists (Ok tt), (Ok tt), m, m', w'. split_and!; [|exact Hr'|by rewrite Hfs', Hj, Hsame|done..].
    exists st2. split; [|done]. unfold Sftp.write_file. rewrite Hjs. cbv zeta.
    erewrite try_run by (by erewrite bind_run by exact Ho). by erewrite bind_run by exact Hw.
Qed.
End file.

End as_local.
End facts.

(** ** A server in memory *)

Section sample.
#[local] Existing Instances sample_ext sample_build.

(** The files, and what is left of the listing that was asked for last *)
Definition SampleHost : Type := Fs * list (string * FileStat).

Definition sample_stat (n : Node) : FileStat :=
  MkFileStat (ssh_type n) (Some (match n with NFile c _ => N.of_nat (String.length c) | _ => 0%N end))
    (Some (Z.to_N (unix_timestamp (m_mtime (node_meta n))))).

Definition dots : list (string * FileStat) :=
  [(".", MkFileStat Directory None None); ("..", MkFileStat Directory None None)].

(** Codes of errors: 2 when there is nothing, 4 when there is something, or it is in use *)
Definition sample_change (r : Fs → result Fs ErrorCode) : ST SampleHost (result unit ErrorCode) := λ st,
  match r st.1 with
  | Ok fs => (Ret (Ok tt), (fs, st.2))
  | Err e => (Ret (Err e), st)
  end.

Definition sample_create (p : Path) (n : Node) (fs : Fs) : result Fs ErrorCode :=
  match fs_create p n fs with
  | Ok fs => Ok fs
  | Err Io_AlreadyExists => Err (SFTP_code 4)
  | Err _ => Err (SFTP_code 2)
  end.

#[local] Instance sample_ssh : Ssh2 SampleHost := {|
  TcpStream := unit; Session := unit; SftpSession := unit; Dir := unit; File := Path; SshError := ErrorCode;
  ssh_code e := e; LIBSSH2_FX_FAILURE := 4; LIBSSH2_FX_NO_SUCH_FILE := 2; LIBSSH2_FX_NO_SUCH_PATH := 10;
  tcp_connect _ := mret (Ok tt); session_new := mret (Ok tt); set_tcp_stream _ _ := mret tt;
  handshake _ := mret (Ok tt); whoami_username := mret "me"; userauth_agent _ _ := mret (Ok tt);
  session_sftp _ := mret (Ok tt);
  sftp_lstat _ p := λ st,
    (Ret (match st.1 !! p with Some n => Ok (sample_stat n) | None => Err (SFTP_code 2) end), st);
  sftp_opendir _ p := λ st,
    match st.1 !! p with
    | Some (NDir _) => (Ret (Ok tt), (st.1, dots ++ ((λ c, (c.1, sample_stat c.2)) <$> fs_children p st.1)))
    | _ => (Ret (Err (SFTP_code 2)), st)
    end;
  dir_readdir _ := λ st,
    match st.2 with
    | [] => (Ret (Err (Session_code (-16))), st)
    | e :: l => (Ret (Ok e), (st.1, l))
    end;
  sftp_open _ p := λ st,
    (Ret (match st.1 !! p with Some (NFile _ _) => Ok p | _ => Err (SFTP_code 2) end), st);
  sftp_open_mode _ p flags mode := λ st,
    match (match flags with
           | [WRITE; CREATE; EXCLUSIVE] => sample_create p (NFile "" sample_meta) st.1
           | _ => match fs_open_truncate p sample_meta st.1 with Ok fs => Ok fs | Err _ => Err (SFTP_code 2) end
           end) with
    | Ok fs => (Ret (Ok p), (fs, st.2))
    | Err e => (Ret (Err e), st)
    end;
  file_read_to_end p := λ st,
    (Ret (match st.1 !! p with Some (NFile c _) => Ok (N.of_nat (String.length c), c) | _ => Err Io_Other end), st);
  file_write_all p s := λ st, (Ret (Ok tt), (fs_append p s st.1, st.2));
  sftp_mkdir _ p mode := sample_change (sample_create p (NDir sample_meta));
  sftp_unlink _ p := sample_change (λ fs,
    match fs_remove_file p fs with Ok fs => Ok fs | Err _ => Err (SFTP_code 2) end);
  sftp_rmdir _ p := sample_change (λ fs,
    match fs !! p, fs_children p fs with
    | Some (NDir _), [] => Ok (delete p fs)
    | Some _, _ => Err (SFTP_code 4)
    | None, _ => Err (SFTP_code 2)
    end)
|}.

Lemma dots_children p (fs : Fs) :
  (∀ n, is_Some (fs !! (p ++ [n])) → n ≠ "." ∧ n ≠ "..") →
  lists_children (dots ++ ((λ c, (c.1, sample_stat c.2)) <$> fs_children p fs)) (fs_children p fs).
Proof.
  intros Hn. split; [by rewrite length_app, length_fmap|]. unfold dots.
  assert (∀ c, c ∈ fs_children p fs → c.1 ≠ "." ∧ c.1 ≠ "..") as Hc.
  { intros [n nd] Hin%elem_of_fs_children. apply Hn. by eexists. }
  cbn [app]. rewrite filter_cons_False by (by intros [? _]). rewrite filter_cons_False by (by intros [_ ?]).
  clear Hn. induction (fs_children p fs) as [|c l IH]; [done|]. cbn [fmap list_fmap].
  rewrite filter_cons_True by (simpl; apply Hc; left). cbn [fmap list_fmap]. constructor.
  apply IH. intros c' Hc'. apply Hc. by right.
Qed.

(** Rewrite the lookup in the goal, up to the type of its key. *)
Ltac use_lookup H :=
  lazymatch type of H with
  | _ = ?r => match goal with |- context [@lookup ?A ?B ?C ?D ?p ?m] =>
                replace (@lookup A B C D p m) with r by (symmetry; exact H) end
  end.

#[local] Instance sample_ssh_laws : SftpLaws SampleHost.
Proof.
  refine (Build_SftpLaws SampleHost sample_ssh fst (λ _, True) (λ _ l st, st.2 = l) _ _ _ _ _ _ _ _ _ _ _ _).
  - done.
  - intros s p st _ Hd Hn. exists tt. apply is_dir_typed in Hd as ([|m| |] & Hd & [=]).
    eexists _, _. split; [simpl; by use_lookup Hd|]. split; [done|]. split; [by apply dots_children|done].
  - intros d e l [fs l0] _ Hl. exists (fs, l). simpl in Hl. by subst l0.
  - intros d [fs l0] _ Hl. exists (Session_code (-16)), (fs, l0). simpl in Hl. by subst l0.
  - intros s p st c m _ Hp. exists (delete p st.1, st.2). simpl. unfold sample_change, fs_remove_file. by rewrite Hp.
  - intros s p st _ Hd Hn. exists (delete p st.1, st.2). simpl. unfold sample_change.
    assert (fs_children p st.1 = []) as ->.
    { apply elem_of_nil_inv. intros [n nd] Hin%elem_of_fs_children. by rewrite Hn in Hin. }
    apply is_dir_typed in Hd as ([|m| |] & Hd & [=]). by use_lookup Hd.
  - intros s p mode st _ Hp Hd. exists sample_meta, (<[p := NDir sample_meta]> st.1, st.2). simpl.
    unfold sample_change, sample_create, fs_create. by rewrite Hp, Hd.
  - intros s p mode st _ [n Hp]. exists (SFTP_code 4), st. simpl.
    unfold sample_change, sample_create, fs_create. by rewrite Hp.
  - intros s p st c m _ Hp. exists p, st, st. simpl. by rewrite Hp.
  - intros s p st _ Hp. exists (SFTP_code 2), st. simpl. by rewrite Hp.
  - intros s p mode c st _ Hp Hd. exists p, sample_meta, (<[p := NFile "" sample_meta]> st.1, st.2),
      (<[p := NFile c sample_meta]> st.1, st.2). simpl. unfold sample_create, fs_create, fs_append. rewrite Hp, Hd. simpl.
    by rewrite lookup_insert_eq, insert_insert_eq.
  - intros s p mode st _ [n Hp]. exists (SFTP_code 4), st. simpl. unfold sample_create, fs_create. by rewrite Hp.
Defined.

#[local] Instance sample_sftp_urls : UrlOps := {|
  Url := string; url_scheme _ := "sftp"; url_authority _ := "host"; url_path _ := "/srv";
  url_host_str _ := Some "host"; url_port _ := None; url_username _ := "";
  url_join u s := Some (u +:+ "/" +:+ s)
|}.

(** A host with an archive that has one band *)
Definition sample_nodes : list (Path * Node) := [
  ([], NDir sample_meta);
  (["srv"], NDir sample_meta);
  (["srv"; "CONSERVE"], NFile "header" sample_meta);
  (["srv"; "b0000"], NDir sample_meta);
  (["srv"; "b0000"; "BANDHEAD"], NFile "head" sample_meta);
  (["srv"; "b0000"; "i"], NDir sample_meta);
  (["srv"; "b0000"; "i"; "00000"], NDir sample_meta);
  (["srv"; "b0000"; "i"; "00000"; "000000000"], NFile "hunk" sample_meta)
].

Definition sample_host_fs : Fs := list_to_map sample_nodes.
Definition sample_host : SampleHost := (sample_host_fs, []).
Definition sample_sftp : SftpProtocol := MkSftpProtocol ("sftp://host/srv" : Url) (tt : SftpSession) ["srv"].

Example sample_removes_tree :
  match Sftp.remove_dir_all 9 12 sample_sftp "b0000" sample_host with
  | (Ret (Ok _), st) => (map_to_list st.1).*1 = [["srv"]; ["srv"; "CONSERVE"]; []]
  | _ => False
  end.
Proof. vm_compute. reflexivity. Qed.

(** Over SFTP, making a directory again succeeds, and making a file again fails. *)
Example sample_makes_again :
  (Sftp.create_dir sample_sftp "b0000" sample_host).1 = Ret (Ok tt) ∧
  (Sftp.write_file sample_sftp "CONSERVE" "new" CreateNew sample_host).1 = Ret (Err (remote_error TE_Other)).
Proof. split; vm_compute; reflexivity. Qed.

Lemma sample_node k nd : sample_host_fs !! (k : list string) = Some nd → (k, nd) ∈ sample_nodes.
Proof. apply elem_of_list_to_map_2. Qed.

Lemma sample_walkable : walkable sample_sftp [["b0000"]] sample_host_fs.
Proof.
  split; [by repeat constructor; intros ?%not_elem_of_nil|]. split.
  { by intros u v ->%list_elem_of_singleton ->%list_elem_of_singleton. }
  intros w ->%list_elem_of_singleton. split; [done|]. split; [by repeat constructor|]. split; [vm_compute; reflexivity|].
  split.
  - intros q nd Hq%sample_node. unfold sample_nodes, at_path in Hq. simpl in Hq.
    repeat (apply elem_of_cons in Hq as [Hq|Hq];
      [simplify_eq; try (split; [by repeat constructor|by (left + right)])|]).
    by apply not_elem_of_nil in Hq.
  - intros q r Hr [nd Hq%sample_node]. unfold sample_nodes, at_path in Hq. simpl in Hq.
    destruct q as [|x [|y [|z [|]]]]; simpl in Hq;
      repeat (apply elem_of_cons in Hq as [Hq|Hq]; [simplify_eq; try first [done|vm_compute; reflexivity]|]);
      by apply not_elem_of_nil in Hq.
Qed.

(** The same files, for the local transport *)
Definition sample_local : Transport := MkTransport ["srv"].

Lemma sample_same : w_fs (world_of sample_host_fs) = remote_fs sample_host.
Proof. reflexivity. Qed.

Lemma directories_as_local_witness :
  ∃ st' w', Sftp.remove_dir_all 9 12 sample_sftp (join_with "/" ["b0000"]) sample_host = (Ret (Ok tt), st') ∧
    Local.remove_dir_all sample_local (join_with "/" ["b0000"]) (world_of sample_host_fs) = (Ret (Ok tt), w') ∧
    remote_fs st' = w_fs w'.
Proof.
  apply (directories_as_local sample_local sample_sftp sample_host (world_of sample_host_fs) eq_refl sample_same I
    ltac:(done) 9 12 ["b0000"] sample_walkable).
  - apply Nat.ltb_lt. vm_compute. reflexivity.
  - apply Nat.ltb_lt. vm_compute. reflexivity.
Defined.

Lemma sample_host_wf : fs_wf sample_host_fs.
Proof.
  intros q r Hr [nd Hq%sample_node]. unfold sample_nodes in Hq.
  destruct q as [|x [|y [|z [|u [|v [|]]]]]]; simpl in Hq;
    repeat (apply elem_of_cons in Hq as [Hq|Hq]; [simplify_eq; try first [done|right; vm_compute; reflexivity]|]);
    by apply not_elem_of_nil in Hq.
Qed.

End sample.
