(* ===== verification/Mount.v ===== *)
(** * The projected file system (src/mount/projfs.rs)

    The parts of the mount that are not calls to the Windows API: reading a
    stored file from an offset, converting times and entries, listing a
    directory and finding a file. The caches of opened trees, indexes and
    listings are not modelled: every request opens what it needs. *)

From Stdlib Require Import Ascii.
From S2P Require Import Prelude Text Apath Externals Ids Entry Counters Errors World Transport.
From S2P Require Import Sample Excludes Jsonio SampleWorld BlockDir Index Archive Stitch HunkIndex.
From stdpp Require Import list gmap strings.

(** ** Definitions *)

Definition UNIX_WIN_DIFF_SECS : Z := 11644473600.

(** [unix_time_to_windows]: [i64] and [u64] arithmetic *)
Definition i64_max : Z := 2 ^ 63 - 1.

Definition unix_time_to_windows {W} `{BuildCfg} (unix_seconds : Z) (unix_nanos : N) : ST W N :=
  if (unix_seconds <? - UNIX_WIN_DIFF_SECS)%Z then mret 0%N
  else
    let sum := (unix_seconds + UNIX_WIN_DIFF_SECS)%Z in
    win_seconds ← (if (sum <=? i64_max)%Z then mret (Z.to_N sum)
                   else if debug_assertions then panic
                   else mret (Z.to_N sum));
    let p := (win_seconds * 1000000000)%N in
    p ← (if (p <? u64_modulus)%N then mret p
         else if debug_assertions then panic else mret (p mod u64_modulus)%N);
    add_u64 (p / 100) (unix_nanos / 100).

Definition FILE_ATTRIBUTE_READONLY : N := 1.
Definition DIRECTORY_ATTRIBUTES : N := N.lor (N.lor 16 8192) 262144.

Record DirectoryInfo : Type := MkDirectoryInfo {
  di_name : string; di_attributes : N; di_time : N }.
Record FileInfo : Type := MkFileInfo {
  fi_name : string; fi_size : N; fi_attributes : N; fi_time : N }.

Inductive DirectoryEntry : Type :=
  | DE_Directory (d : DirectoryInfo)
  | DE_File (f : FileInfo).

(** [index_entry_to_directory_entry(entry)]; the three times are equal. *)
Definition index_entry_to_directory_entry {W} `{BuildCfg} (entry : IndexEntry) :
    ST W (option DirectoryEntry) :=
  match last (split_on "/" (apath_str (ie_apath entry))) with
  | None => mret None
  | Some file_name =>
      match ie_kind entry with
      | Kind_Dir =>
          t ← unix_time_to_windows (ie_mtime entry) (ie_mtime_nanos entry);
          mret (Some (DE_Directory (MkDirectoryInfo file_name DIRECTORY_ATTRIBUTES t)))
      | Kind_File =>
          s ← sum_u64 (a_len <$> ie_addrs entry);
          t ← unix_time_to_windows (ie_mtime entry) (ie_mtime_nanos entry);
          mret (Some (DE_File (MkFileInfo file_name s FILE_ATTRIBUTE_READONLY t)))
      | _ => mret None
      end
  end.

(** ** Reading a stored file *)

(** [StoredFileReader]: the chunk that has been peeked, and the addresses that
    are left. *)
Record StoredFileReader : Type := MkStoredFileReader {
  sr_block_dir : BlockDir;
  sr_peeked : option string;
  sr_addrs : list Address
}.

Module StoredFileReader.

(** The [scan] over the addresses: an address that is skipped whole ends the
    iterator, because its closure returns [None]. *)
Fixpoint scan (skip_bytes : N) (addrs : list Address) : list Address :=
  match addrs with
  | [] => []
  | entry :: addrs =>
      if (skip_bytes =? 0)%N then entry :: scan 0 addrs
      else if (skip_bytes <? a_len entry)%N then
        MkAddress (a_hash entry) (a_start entry + skip_bytes) (a_len entry - skip_bytes) :: scan 0 addrs
      else []
  end.

Section reader.
Context `{Ext} `{BuildCfg}.

Definition new (block_dir : BlockDir) (entry : IndexEntry) (byte_offset : N) : StoredFileReader :=
  MkStoredFileReader block_dir None (scan byte_offset (ie_addrs entry)).

(** The chunk of one address *)
Definition chunk (block_dir : BlockDir) (entry : Address) : M (result string Error) :=
  content ←? BlockDir.get_block_content block_dir (a_hash entry);
  end_ ← add_u64 (a_start entry) (a_len entry);
  s ← BlockDir.slice content (a_start entry) end_;
  mret (Ok s).

(** [peek_mut()]: an error is consumed when it is reported. *)
Definition peek (self : StoredFileReader) : M (result (option string) Error * StoredFileReader) :=
  match sr_peeked self with
  | Some s => mret (Ok (Some s), self)
  | None =>
      match sr_addrs self with
      | [] => mret (Ok None, self)
      | a :: addrs =>
          r ← chunk (sr_block_dir self) a;
          match r with
          | Err e => mret (Err e, MkStoredFileReader (sr_block_dir self) None addrs)
          | Ok s => mret (Ok (Some s), MkStoredFileReader (sr_block_dir self) (Some s) addrs)
          end
      end
  end.

(** The loop of [read(buf)]: every round uses up a chunk or fills the buffer. *)
Fixpoint read_loop (fuel : nat) (buf_len : nat) (acc : string) (self : StoredFileReader) :
    M (result string Error * StoredFileReader) :=
  if (String.length acc <? buf_len)%nat then
    '(r, self) ← peek self;
    match r with
    | Err e => mret (Err e, self)
    | Ok None => mret (Ok acc, self)
    | Ok (Some current_chunk) =>
        let bytes_pending := Nat.min (buf_len - String.length acc) (String.length current_chunk) in
        let acc := acc +:+ string_take bytes_pending current_chunk in
        let self :=
          MkStoredFileReader (sr_block_dir self)
            (if (bytes_pending =? String.length current_chunk)%nat then None
             else Some (string_drop bytes_pending current_chunk)) (sr_addrs self) in
        match fuel with
        | O => no_fuel
        | S fuel => read_loop fuel buf_len acc self
        end
    end
  else mret (Ok acc, self).

Definition read (self : StoredFileReader) (buf_len : nat) :
    M (result string Error * StoredFileReader) :=
  read_loop (S (S (length (sr_addrs self)))) buf_len "" self.

End reader.
End StoredFileReader.

(** ** Requests *)

Module Projection.
Section projection.
Context `{Ext} `{BuildCfg} `{Codecs}.

(** [load_hunk_contents]: a missing hunk is empty. *)
Definition load_hunk_contents (stored_tree : StoredTree) (hunk_id : N) : M (result (list IndexEntry) Error) :=
  '(r, _) ← IndexRead.read_hunk (Band.index (sto_band stored_tree)) hunk_id;
  mret (map_ok (default []) r).

Definition get_or_open_tree (archive : Archive) (policy : BandSelectionPolicy) : M (result StoredTree Error) :=
  band_id ←? Select.resolve_band_id archive policy;
  open_stored_tree archive (Specified band_id).

Definition get_or_create_hunk_index (stored_tree : StoredTree) : M (result IndexHunkIndex Error) :=
  IndexHunkIndex.from_index (Band.index (sto_band stored_tree)).

(** [parse_path_band_policy(components)], with the components that are left *)
Definition parse_path_band_policy (components : list string) :
    option (BandSelectionPolicy * list string) :=
  match components with
  | "latest" :: rest => Some (Latest, rest)
  | "all" :: b :: rest =>
      match BandId.from_str b with Ok band_id => Some (Specified band_id, rest) | Err _ => None end
  | _ => None
  end.

Definition band_id_to_directory_info (archive : Archive) (policy : BandSelectionPolicy) :
    M (option DirectoryInfo) :=
  r ← get_or_open_tree archive policy;
  match r with
  | Err _ => mret None
  | Ok stored_tree =>
      r ← Band.get_info (sto_band stored_tree);
      match r with
      | Err _ => mret None
      | Ok band_info =>
          t ← unix_time_to_windows (unix_timestamp (i_start_time band_info))
                (Z.to_N ((unix_timestamp (i_start_time band_info) * 1000000000
                          + Z.of_N (nanosecond (i_start_time band_info))) mod 2 ^ 32));
          mret (Some (MkDirectoryInfo (BandId.to_string (i_id band_info)) DIRECTORY_ATTRIBUTES t))
      end
  end.

(** The entries of the hunks that are listed in a directory: those that start
    with its path, are longer, and have no slash in the rest *)
Definition in_directory {W} (path_prefix : string) (entry : IndexEntry) : ST W bool :=
  let a := apath_str (ie_apath entry) in
  if negb (starts_with path_prefix a) then mret false
  else if (String.length a <=? String.length path_prefix)%nat then mret false
  else
    rest ← expect (slice_from (String.length path_prefix) a);
    mret (negb (contains_char "/" (UnixMode.trim_start_matches "/" rest))).

Definition list_band_dirs (archive : Archive) (ids : list BandId) : M (list DirectoryEntry) :=
  fold_st (λ acc band_id,
    d ← band_id_to_directory_info archive (Specified band_id);
    mret (match d with Some d => acc ++ [DE_Directory d] | None => acc end)%list) [] ids.

(** The listing of a directory inside a stored tree *)
Definition serve_tree_dir (archive : Archive) (target_band : BandSelectionPolicy)
    (components : list string) : M (result (list DirectoryEntry) Error) :=
  let target_path := foldl Apath.append Apath.root components in
  stored_tree ←? get_or_open_tree archive target_band;
  hunk_index ←? get_or_create_hunk_index stored_tree;
  dir_hunks ← IndexHunkIndex.find_hunks_for_subdir hunk_index target_path false;
  hunks ← fold_st (λ acc hunk_id,
            r ← load_hunk_contents stored_tree hunk_id;
            mret (match r with Ok es => acc ++ es | Err _ => acc end)%list) [] dir_hunks;
  entries ← fold_st (λ acc entry,
            b ← in_directory (apath_str target_path) entry;
            if (b : bool) then
              d ← index_entry_to_directory_entry entry;
              mret (match d with Some d => acc ++ [d] | None => acc end)%list
            else mret acc) [] hunks;
  mret (Ok entries).

(** [serve_dir(path)] *)
Definition serve_dir (archive : Archive) (components : list string) :
    M (result (list DirectoryEntry) Error) :=
  match components with
  | [] =>
      info ← band_id_to_directory_info archive Latest;
      mret (Ok (DE_Directory (MkDirectoryInfo "all" DIRECTORY_ATTRIBUTES 0)
                :: match info with
                   | Some i => [DE_Directory (MkDirectoryInfo "latest" (di_attributes i) (di_time i))]
                   | None => []
                   end))
  | "latest" :: rest => serve_tree_dir archive Latest rest
  | ["all"] =>
      ids ←? Archive.list_band_ids archive;
      entries ← list_band_dirs archive ids;
      mret (Ok entries)
  | "all" :: b :: rest =>
      match BandId.from_str b with
      | Err version => mret (Err (InvalidVersion version))
      | Ok band_id => serve_tree_dir archive (Specified band_id) rest
      end
  | _ => mret (Ok [])
  end.

(** [serve_file(path, byte_offset, length)]: the bytes that reading the result
    to its end gives. [None] is the error of kind [NotFound]. *)
Definition serve_file (archive : Archive) (components : list string) (byte_offset : N) (length : nat) :
    M (result (option string) Error) :=
  match parse_path_band_policy components with
  | None => mret (Ok None)
  | Some (target_band, rest) =>
      let target_path := foldl Apath.append Apath.root rest in
      stored_tree ←? get_or_open_tree archive target_band;
      hunk_index ←? get_or_create_hunk_index stored_tree;
      match IndexHunkIndex.find_hunk_for_file hunk_index target_path with
      | None => mret (Ok None)
      | Some file_hunk =>
          entries ←? load_hunk_contents stored_tree file_hunk;
          match snd <$> list_find (λ e, ie_apath e = target_path) entries with
          | None => mret (Ok None)
          | Some index_entry =>
              '(r, _) ← StoredFileReader.read
                          (StoredFileReader.new (sto_block_dir stored_tree) index_entry byte_offset) length;
              mret (map_ok Some r)
          end
      end
  end.

End projection.
End Projection.

(** ** Reading a stored file from an offset *)

Section reader_facts.
Context `{Ext, !LruLaws, !HashLaws, !HexLaws} `{BuildCfg}.

Lemma chunk_intact self a d w :
  serving self w → part_ok self (w_fs w) a d →
  ∃ w', StoredFileReader.chunk self a w = (Ret (Ok (part a d)), w') ∧ w_fs w' = w_fs w ∧ serving self w'.
Proof.
  intros Hs (Hi & Hle & Hlt). destruct (read_intact self _ d w Hs Hi) as (w' & Hr & Hfs & Hs').
  exists w'. split; [|done]. unfold StoredFileReader.chunk. erewrite try_run by exact Hr.
  unfold add_u64. destruct (N.ltb_spec (a_start a + a_len a) u64_modulus) as [_|]; [|lia].
  erewrite bind_run by done. by erewrite bind_run by by apply slice_part.
Qed.

(** What is left to read *)
Definition pending (self : StoredFileReader) (ds : list string) : string :=
  default "" (sr_peeked self) +:+ parts (sr_addrs self) ds.

Definition rounds_left (self : StoredFileReader) : nat :=
  (if sr_peeked self is Some _ then 1 else 0) + length (sr_addrs self).

(** One chunk, from the front of what is left *)
Lemma peek_run self ds w :
  serving (sr_block_dir self) w →
  Forall2 (part_ok (sr_block_dir self) (w_fs w)) (sr_addrs self) ds →
  ∃ r self' ds' w', StoredFileReader.peek self w = (Ret (Ok r, self'), w') ∧
    w_fs w' = w_fs w ∧ serving (sr_block_dir self) w' ∧ sr_block_dir self' = sr_block_dir self ∧
    Forall2 (part_ok (sr_block_dir self) (w_fs w)) (sr_addrs self') ds' ∧
    sr_peeked self' = r ∧ pending self' ds' = pending self ds ∧
    rounds_left self' = rounds_left self ∧ (r = None → sr_addrs self' = []).
Proof.
  destruct self as [bd pk addrs]. cbn. intros Hs Hds. unfold StoredFileReader.peek, pending, rounds_left. cbn.
  destruct pk as [s|].
  { by exists (Some s), (MkStoredFileReader bd (Some s) addrs), ds, w. }
  destruct Hds as [|a d addrs ds Hp Hds].
  { by exists None, (MkStoredFileReader bd None []), [], w. }
  destruct (chunk_intact _ a d w Hs Hp) as (w' & Hr & Hfs & Hs').
  erewrite bind_run by exact Hr.
  by exists (Some (part a d)), (MkStoredFileReader bd (Some (part a d)) addrs), ds, w'.
Qed.

(** A full buffer ends the loop. *)
Lemma sfr_loop_full fuel buf_len acc self w :
  buf_len ≤ String.length acc →
  StoredFileReader.read_loop fuel buf_len acc self w = (Ret (Ok acc, self), w).
Proof.
  intros Hle. destruct fuel; cbn [StoredFileReader.read_loop];
    by destruct (Nat.ltb_spec (String.length acc) buf_len); [lia|].
Qed.

Lemma string_take_nil n : string_take n "" = "".
Proof. by destruct n. Qed.

Lemma sfr_loop_run fuel buf_len acc self ds w :
  serving (sr_block_dir self) w →
  Forall2 (part_ok (sr_block_dir self) (w_fs w)) (sr_addrs self) ds →
  rounds_left self ≤ fuel →
  ∃ self' w', StoredFileReader.read_loop fuel buf_len acc self w
    = (Ret (Ok (acc +:+ string_take (buf_len - String.length acc) (pending self ds)), self'), w') ∧
    w_fs w' = w_fs w.
Proof.
  revert acc self ds w. induction fuel as [|fuel IH]; intros acc self ds w Hs Hds Hf;
    cbn [StoredFileReader.read_loop]; (destruct (Nat.ltb_spec (String.length acc) buf_len) as [Hlt|Hge];
      [|exists self, w; rewrite (proj2 (Nat.sub_0_le _ _) Hge); cbn [string_take];
        rewrite string_app_nil_r; by destruct (pending self ds)]);
    destruct (peek_run self ds w Hs Hds) as (r & self1 & ds1 & w1 & Hr & Hfs & Hs1 & Hbd & Hds1 & Hp & Hpe & Hro & Hnone);
    rewrite (bind_run _ _ _ _ _ Hr); rewrite <-Hpe; unfold pending, rounds_left in *; rewrite Hp in *.
  - destruct r as [s|]; [lia|]. rewrite Hnone by done. exists self1, w1. split; [|done].
    cbn [parts default String.append]. by rewrite string_take_nil, string_app_nil_r.
  - destruct r as [s|]; cycle 1.
    { rewrite Hnone by done. exists self1, w1. split; [|done].
      cbn [parts default String.append]. by rewrite string_take_nil, string_app_nil_r. }
    cbn [default]. set (room := buf_len - String.length acc).
    destruct (decide (String.length s ≤ room)) as [Hle|Hgt].
    + rewrite (Nat.min_r _ _ Hle), Nat.eqb_refl, (string_take_ge (String.length s) s) by done.
      destruct (IH (acc +:+ s) (MkStoredFileReader (sr_block_dir self1) None (sr_addrs self1)) ds1 w1)
        as (self' & w' & Hr' & Hfs'); [by rewrite Hbd|by rewrite Hfs, Hbd|cbn; lia|].
      exists self', w'. split; [|congruence]. rewrite Hr'. unfold pending. cbn [sr_peeked sr_addrs default].
      replace room with (String.length s + (buf_len - String.length (acc +:+ s)))
        by (rewrite string_length_app; unfold room; lia).
      by rewrite string_take_app_add, string_app_assoc.
    + rewrite (Nat.min_l room) by lia. destruct (Nat.eqb_spec room (String.length s)) as [|_]; [lia|].
      assert (buf_len ≤ String.length (acc +:+ string_take room s)) as Hfull. { rewrite string_length_app, string_length_take. rewrite Nat.min_l by lia. subst room. lia. }
      rewrite sfr_loop_full by exact Hfull. rewrite (string_take_app_le room s) by lia. by eexists _, w1.
Qed.

(** The addresses from an offset that lies in the first of them *)
Lemma scan_zero addrs : StoredFileReader.scan 0 addrs = addrs.
Proof. induction addrs as [|a addrs IH]; cbn; congruence. Qed.

Lemma part_skip a d off :
  part (MkAddress (a_hash a) (a_start a + off) (a_len a - off)) d = string_drop (N.to_nat off) (part a d).
Proof.
  unfold part. cbn. rewrite string_drop_take, string_drop_drop. f_equal; [lia|]. f_equal. lia.
Qed.

(** C38: what a mounted file reads as, when its blocks are intact. A read that begins
    at the start of the file, or inside the part of its first address, gives exactly
    the bytes there, to the end of the buffer or of the file. A read that begins
    after that gives nothing, as at the end of the file, although there are bytes
    there: [scan] stops at the first address that is skipped whole. *)
Theorem stored_file_reader_exact (bd : BlockDir) (entry : IndexEntry) (off : N) (buf_len : nat)
    (ds : list string) (w : World) (Hs : serving bd w)
    (Hds : Forall2 (part_ok bd (w_fs w)) (ie_addrs entry) ds) :
  let content := parts (ie_addrs entry) ds in
  let first_len := match ie_addrs entry with a :: _ => a_len a | [] => 0%N end in
  ∃ self' w',
    StoredFileReader.read (StoredFileReader.new bd entry off) buf_len w
    = (Ret (Ok (if (off =? 0)%N || (off <? first_len)%N
                then string_take buf_len (string_drop (N.to_nat off) content)
                else ""), self'), w') ∧ w_fs w' = w_fs w.
Proof.
  intros content first_len.
  assert (∀ addrs' ds', StoredFileReader.scan off (ie_addrs entry) = addrs' →
    Forall2 (part_ok bd (w_fs w)) addrs' ds' →
    ∃ self' w', StoredFileReader.read (StoredFileReader.new bd entry off) buf_len w
      = (Ret (Ok (string_take buf_len (parts addrs' ds')), self'), w') ∧ w_fs w' = w_fs w) as Hread.
  { intros addrs' ds' Ha Hds'. unfold StoredFileReader.read, StoredFileReader.new. rewrite Ha.
    destruct (sfr_loop_run (S (S (length addrs'))) buf_len "" (MkStoredFileReader bd None addrs') ds' w)
      as (self' & w' & Hr & Hfs); [done|done|unfold rounds_left; cbn; lia|].
    exists self', w'. split; [|done]. cbn [sr_addrs]. rewrite Hr. cbn [String.length String.append].
    by rewrite Nat.sub_0_r. }
  destruct (N.eqb_spec off 0) as [->|Hoff]; cbn [orb].
  { apply Hread; [apply scan_zero|done]. }
  unfold first_len, content. revert Hread. destruct Hds as [|a d addrs ds Hp Hds]; intros Hread; cbn [StoredFileReader.scan] in Hread.
  { destruct (N.ltb_spec off 0) as [|_]; [lia|]. destruct (Hread [] []) as (self' & w' & Hr & Hfs); [done|constructor|].
    exists self', w'. rewrite Hr. cbn [parts]. by rewrite string_take_nil. }
  destruct (N.eqb_spec off 0) as [|_]; [done|].
  destruct (N.ltb_spec off (a_len a)) as [Hlt|Hge].
  - rewrite scan_zero in Hread.
    destruct (Hread _ (d :: ds) eq_refl) as (self' & w' & Hr & Hfs).
    { constructor; [|done]. destruct Hp as (Hi & Hle & Hmax). split; [done|]. cbn. lia. }
    exists self', w'. split; [|done]. rewrite Hr. cbn [parts]. rewrite part_skip.
    rewrite string_drop_app_le; [done|]. rewrite (part_length _ _ _ _ Hp). lia.
  - destruct (Hread [] [] eq_refl) as (self' & w' & Hr & Hfs); [constructor|].
    exists self', w'. rewrite Hr. cbn [parts]. by rewrite string_take_nil.
Qed.
End reader_facts.


(** ** Times *)

Section times.
Context `{BuildCfg}.

(** The time that Windows is told, in units of 100 nanoseconds since 1601: it is
    exact for every time from then on whose nanoseconds fit in 64 bits, until the year
    2185, and zero for earlier times. For later times the multiplication overflows:
    a panic with overflow checks, and a wrapped time, before the right one, without. *)
Theorem unix_time_to_windows_exact {W} (s : Z) (n : N) (w : W)
    (Hs : (s <= i64_max - UNIX_WIN_DIFF_SECS)%Z) (Hn : (n < 1000000000)%N) :
  let secs := (s + UNIX_WIN_DIFF_SECS)%Z in
  unix_time_to_windows s n w =
    (if (secs <? 0)%Z then Ret 0%N
     else if (secs * 1000000000 <? 2 ^ 64)%Z then Ret (Z.to_N (secs * 10000000 + Z.of_N n / 100))
     else if debug_assertions then Panic
     else Ret (Z.to_N ((secs * 1000000000) mod 2 ^ 64 / 100 + Z.of_N n / 100)), w).
Proof.
  intros secs. unfold unix_time_to_windows. unfold secs, i64_max, UNIX_WIN_DIFF_SECS in *.
  destruct (Z.ltb_spec s (Z.opp 11644473600)) as [Hlt|Hge].
  { by destruct (Z.ltb_spec (s + 11644473600) 0); [|lia]. }
  destruct (Z.ltb_spec (s + 11644473600) 0) as [|_]; [lia|].
  destruct (Z.leb_spec (s + 11644473600) (2 ^ 63 - 1)) as [_|]; [|lia].
  erewrite bind_run by done. cbv zeta. clear secs.
  assert (∃ k, (s + 11644473600)%Z = Z.of_N k) as [k Hk] by (exists (Z.to_N (s + 11644473600)); lia).
  rewrite Hk, N2Z.id. clear s Hs Hge Hk.
  assert (n / 100 < 10000000)%N as Hn' by (by apply N.Div0.div_lt_upper_bound).
  assert (u64_modulus = 18446744073709551616%N) as Hm by done.
  change (2 ^ 64)%Z with 18446744073709551616%Z. change (Z.of_N n / 100)%Z with (Z.of_N n / Z.of_N 100)%Z.
  rewrite <-N2Z.inj_div. revert Hn'. generalize (n / 100)%N. clear n Hn. intros n Hn.
  destruct (Z.ltb_spec (Z.of_N k * 1000000000) 18446744073709551616) as [Hl|Hg].
  - destruct (N.ltb_spec (k * 1000000000) u64_modulus) as [_|]; [|lia].
    erewrite bind_run by done. replace (k * 1000000000)%N with (k * 10000000 * 100)%N by lia.
    rewrite N.div_mul by done. rewrite add_u64_small by lia. do 2 f_equal. lia.
  - destruct (N.ltb_spec (k * 1000000000) u64_modulus) as [|_]; [lia|].
    destruct debug_assertions; [done|]. erewrite bind_run by done.
    change 18446744073709551616%Z with (Z.of_N 18446744073709551616). rewrite <-Hm.
    change 1000000000%Z with (Z.of_N 1000000000). change 100%Z with (Z.of_N 100).
    rewrite <-N2Z.inj_mul, <-N2Z.inj_mod, <-N2Z.inj_div.
    assert ((k * 1000000000) mod u64_modulus / 100 < 184467440737095517)%N as Hd.
    { apply N.Div0.div_lt_upper_bound. pose proof (N.mod_lt (k * 1000000000) u64_modulus ltac:(done)). lia. }
    revert Hd. generalize ((k * 1000000000) mod u64_modulus / 100)%N. intros p Hp.
    rewrite add_u64_small by lia. do 2 f_equal. lia.
Qed.
End times.

(** ** Examples *)

#[local] Existing Instances sample_ext sample_build sample_hash_laws sample_hex_laws sample_lru_laws.

Definition sample_big_file : IndexEntry := IndexEntry.with_addrs sample_parts (sample_entry "/f").

(** Reading from the start of the second part gives nothing. *)
Lemma stored_file_reader_exact_witness :
  ∃ self' w',
    StoredFileReader.read (StoredFileReader.new sample_blockdir sample_big_file 2) 5 (world_of sample_block_fs)
    = (Ret (Ok "", self'), w') ∧ w_fs w' = sample_block_fs.
Proof.
  apply (stored_file_reader_exact sample_blockdir sample_big_file 2 5 ["hello"; "hello"] (world_of sample_block_fs)).
  - apply sample_serving.
  - exact sample_parts_ok.
Defined.

Lemma unix_time_to_windows_exact_witness :
  unix_time_to_windows 0 100 tt = (Ret 116444736000000001%N, tt).
Proof. apply (unix_time_to_windows_exact 0 100 tt); [done|done]. Defined.
