(* ===== verification/Cli.v ===== *)
(** * The command line (src/bin/conserve.rs)

    The commands, each as the composition of library operations that it is, and the
    program around them with its exit status. Parsing the arguments is done by a library,
    so the program starts from the parsed arguments; what is logged is not modelled. The
    build is the one without the features [s3] and [sftp], on Unix. *)

From Stdlib Require Import Ascii.
From S2P Require Import Prelude Text Apath Externals Ids Entry Counters Errors World Console Transport.
From S2P Require Import Excludes Jsonio BlockDir Index Archive Stitch LiveTree Diff Show Gc Backup Restore.
From stdpp Require Import list gmap strings.

(** ** Third-party code and the environment *)

(** Of the [url] crate: parsing, and the parts of a URL that are used. Of [serde_json]:
    the text for an entry, a change and the counters. Of the system: the current directory,
    the offset of local time, and how long a deletion took. *)
Class CliExt `{Ext} : Type := {
  Url : Type;
  url_parse : string → option Url;
  url_scheme : Url → string;
  url_to_file_path : Url → option Path;
  url_as_str : Url → string;
  json_entry : EntryValue → option string;
  json_change : EntryChange → option string;
  json_counters : Counters → option string;
  current_dir : Path;
  current_local_offset : option Z;
  elapsed_secs : World → N
}.

(** ** Opening a transport (src/transport.rs) *)

(** [ExitCode] *)
Inductive ExitCode : Type := Success | Failure | NonFatalErrors.

#[export] Instance ExitCode_eq_dec : EqDecision ExitCode.
Proof. solve_decision. Defined.

(** [StoredTreeOrSource] *)
Record StoredTreeOrSource : Type := MkStos {
  stos_archive : option string;
  stos_source : option Path;
  stos_backup : option BandId
}.

(** [Debug] *)
Inductive DebugCommand : Type :=
  | DebugIndex (archive : string) (backup : option BandId)
  | DebugBlocks (archive : string)
  | DebugReferenced (archive : string)
  | DebugUnreferenced (archive : string).

(** [Command] *)
Inductive Command : Type :=
  | CmdBackup (archive : string) (source : Path) (changes_json : option Path) (verbose : bool)
      (exclude exclude_from : list string) (no_stats long_listing : bool)
  | CmdDebug (debug : DebugCommand)
  | CmdDelete (archive : string) (backup : list BandId) (dry_run break_lock no_stats : bool)
  | CmdDiff (archive : string) (source : Path) (backup : option BandId)
      (exclude exclude_from : list string) (include_unchanged json : bool)
  | CmdInit (archive : string)
  | CmdGc (archive : string) (dry_run break_lock no_stats : bool)
  | CmdLs (stos : StoredTreeOrSource) (exclude exclude_from : list string) (json long_listing : bool)
  | CmdRestore (archive : string) (destination : Path) (backup : option BandId)
      (changes_json : option Path) (force_overwrite verbose : bool) (exclude exclude_from : list string)
      (only_subtree : option Apath) (no_stats long_listing : bool)
  | CmdSize (stos : StoredTreeOrSource) (bytes : bool) (exclude exclude_from : list string)
  | CmdValidate (archive : string) (quick no_stats : bool)
  | CmdVersions (archive : string) (short newest sizes utc : bool).

(** [Args], without the options of progress bars and logs *)
Record Args : Type := MkArgs {
  arg_command : Command;
  arg_metrics_json : option Path
}.

Module Cli.
Section cli.
Context `{Ext} `{BuildCfg} `{CacheDir} `{Codecs} `{ShowExt} `{!CliExt}.

(** [Transport::local(Path::new(s))]: making the path absolute fails when it is empty. *)
Definition transport_local (s : string) : M Transport :=
  _ ← rust_assert (negb (String.eqb s ""));
  mret (MkTransport (path_join current_dir s)).

(** [Transport::from_url(url)] *)
Definition transport_from_url (url : Url) : M (result Transport TransportError) :=
  let scheme := url_scheme url in
  if String.eqb scheme "file" then
    path ← expect (url_to_file_path url);
    mret (Ok (MkTransport path))
  else if String.length scheme =? 1 then
    transport ← transport_local (url_as_str url);
    mret (Ok transport)
  else mret (Err (MkTransportError TE_UrlScheme None None)).

(** [Transport::new(s)] *)
Definition transport_new (s : string) : M (result Transport TransportError) :=
  match url_parse s with
  | Some url => transport_from_url url
  | None => transport ← transport_local s; mret (Ok transport)
  end.

(** [Archive::open(Transport::new(location)?)?] *)
Definition open_archive (location : string) : M (result Archive Error) :=
  r ← transport_new location;
  match r with
  | Err e => mret (Err (TransportErr e))
  | Ok transport => Archive.open transport
  end.

(** [band_selection_policy_from_opt(backup)] *)
Definition band_selection_policy_from_opt (backup : option BandId) : BandSelectionPolicy :=
  match backup with
  | Some band_id => Specified band_id
  | None => Latest
  end.

(** [stored_tree_from_opt(archive_location, backup)] *)
Definition stored_tree_from_opt (archive_location : string) (backup : option BandId) :
    M (result StoredTree Error) :=
  archive ←? open_archive archive_location;
  open_stored_tree archive (band_selection_policy_from_opt backup).

(** The callback itself: changes are printed and written, except unchanged entries. *)
Definition on_change (print_changes ls_long : bool) (changes_json_writer : option nat)
    (entry_change : EntryChange) : M (result unit Error) :=
  let change := ec_change entry_change in
  if Change.is_unchanged change then mret (Ok tt)
  else
    _ ← (if ls_long then
           let change_meta := Change.primary_metadata change in
           println (Change.sigil change +:+ " " +:+ UnixMode.to_string (em_unix_mode change_meta) +:+ " "
                    +:+ Owner.to_string (em_owner change_meta) +:+ " " +:+ apath_str (ec_apath entry_change))
         else if print_changes then
           println (Change.sigil change +:+ " " +:+ apath_str (ec_apath entry_change))
         else mret tt);
    match changes_json_writer with
    | None => mret (Ok tt)
    | Some w =>
        s ← expect (json_change entry_change);
        r ← buf_writeln w s;
        mret (map_err IOError r)
    end.

(** [make_change_callback(..)]: the callback, and the writer that it owns *)
Definition make_change_callback (print_changes ls_long : bool) (changes_json : option Path) :
    M (result (option (EntryChange → M (result unit Error)) * option nat) Error) :=
  if negb print_changes && negb ls_long && bool_decide (changes_json = None) then mret (Ok (None, None))
  else
    writer ←? (match changes_json with
               | Some path =>
                   r ← sys_open_truncate path;
                   match r with
                   | Err e => mret (Err (IOError e))
                   | Ok _ => id ← new_writer path; mret (Ok (Some id))
                   end
               | None => mret (Ok None)
               end);
    mret (Ok (Some (on_change print_changes ls_long writer), writer)).

(** The writer is dropped with the options at the end of the scope. *)
Definition drop_change_callback (writer : option nat) : M unit :=
  match writer with Some id => drop_writer id | None => mret tt end.

Definition excludes (exclude exclude_from : list string) : M (result Exclude Error) :=
  Exclude.from_patterns_and_files exclude (path_join current_dir <$> exclude_from).

(** ** The commands *)

Definition run_backup (archive : string) (source : Path) (changes_json : option Path) (verbose : bool)
    (exclude exclude_from : list string) (no_stats long_listing : bool) : M (result unit Error) :=
  exclude ←? excludes exclude exclude_from;
  '(callback, writer) ←? make_change_callback verbose long_listing changes_json;
  let options :=
    MkBackupOptions _ exclude (bo_max_entries_per_hunk default_backup_options) callback
      (bo_max_block_size default_backup_options) (bo_small_file_cap default_backup_options)
      (bo_owner default_backup_options) in
  scoped (drop_change_callback writer)
    (archive ←? open_archive archive;
     _ ←? backup archive source options;
     mret (Ok tt)).

Definition run_debug (debug : DebugCommand) : M (result unit Error) :=
  match debug with
  | DebugBlocks archive =>
      archive ←? open_archive archive;
      hashes ←? BlockDir.blocks (ar_block_dir archive);
      _ ← for_each hashes (λ hash, println (BlockHash.to_string hash));
      mret (Ok tt)
  | DebugIndex archive backup =>
      st ←? stored_tree_from_opt archive backup;
      s ←? show_index_json (sto_band st);
      _ ← print s;
      mret (Ok tt)
  | DebugReferenced archive =>
      archive ←? open_archive archive;
      band_ids ←? Archive.list_band_ids archive;
      hashes ←? Gc.referenced_blocks archive band_ids;
      (* in the order of a hash set, which is arbitrary *)
      _ ← for_each (elements hashes) (λ hash, println (BlockHash.to_string hash));
      mret (Ok tt)
  | DebugUnreferenced archive =>
      archive ←? open_archive archive;
      hashes ←? Gc.unreferenced_blocks archive;
      _ ← print (String.concat "" ((λ hash, BlockHash.to_string hash +:+ LF) <$> hashes));
      mret (Ok tt)
  end.

Definition run_delete (archive : string) (backup : list BandId) (dry_run break_lock no_stats : bool) :
    M (result unit Error) :=
  archive ←? open_archive archive;
  stats ←? Gc.delete_bands archive backup (MkDeleteOptions dry_run break_lock);
  elapsed ← gets elapsed_secs;
  _ ← (if no_stats then mret tt else println (DeleteStats_to_string stats elapsed));
  mret (Ok tt).

(** One change, as JSON without the end of a line or as a line *)
Definition show_change (json : bool) (change : EntryChange) : M (result unit Error) :=
  if json then
    match json_change change with
    | None => mret (Err SerializeJson)
    | Some s => _ ← print s; mret (Ok tt)
    end
  else _ ← println (EntryChange.to_string change); mret (Ok tt).

Definition run_diff (archive : string) (source : Path) (backup : option BandId)
    (exclude exclude_from : list string) (include_unchanged json : bool) : M (result unit Error) :=
  st ←? stored_tree_from_opt archive backup;
  let lt := LiveTree.open source in
  exclude ←? excludes exclude exclude_from;
  changes ←? diff st lt (MkDiffOptions _ exclude include_unchanged);
  try_fold (λ _ change, show_change json change) tt changes.

Definition run_gc (archive : string) (dry_run break_lock no_stats : bool) : M (result unit Error) :=
  archive ←? open_archive archive;
  _ ←? Gc.delete_bands archive [] (MkDeleteOptions dry_run break_lock);
  mret (Ok tt).

Definition run_init (archive : string) : M (result unit Error) :=
  r ← transport_new archive;
  match r with
  | Err e => mret (Err (TransportErr e))
  | Ok transport => _ ←? Archive.create transport; mret (Ok tt)
  end.

(** One entry of a listing *)
Definition show_entry (json long_listing : bool) (entry : EntryValue) : M (result unit Error) :=
  if json then
    match json_entry entry with
    | None => mret (Err SerializeJson)
    | Some s => _ ← println s; mret (Ok tt)
    end
  else _ ← for_each (show_entry_names [entry] long_listing) println; mret (Ok tt).

(** The loop over the entries of a live tree *)
Fixpoint show_live_loop (fuel : nat) (json long_listing : bool) (it : LiveIter) : M (result unit Error) :=
  '(r, it) ← LiveIter.next it;
  match r with
  | None => mret (Ok tt)
  | Some entry =>
      _ ←? show_entry json long_listing entry;
      match fuel with O => no_fuel | S fuel => show_live_loop fuel json long_listing it end
  end.

Definition run_ls (stos : StoredTreeOrSource) (exclude exclude_from : list string)
    (json long_listing : bool) : M (result unit Error) :=
  exclude ←? excludes exclude exclude_from;
  match stos_archive stos with
  | Some archive =>
      st ←? stored_tree_from_opt archive (stos_backup stos);
      IndexEntryIter.for_entries (λ _ it, entry ← EntryValue_from it; show_entry json long_listing entry) tt
        (StoredTree.iter_entries st Apath.root exclude)
  | None =>
      source ← expect (stos_source stos);
      it ←? live_iter_entries (LiveTree.open source) Apath.root exclude;
      bound ← gets (LiveIter.entries_bound it);
      show_live_loop bound json long_listing it
  end.

Definition run_restore (archive : string) (destination : Path) (backup : option BandId)
    (changes_json : option Path) (force_overwrite verbose : bool) (exclude exclude_from : list string)
    (only_subtree : option Apath) (no_stats long_listing : bool) : M (result unit Error) :=
  let band_selection := band_selection_policy_from_opt backup in
  archive ←? open_archive archive;
  exclude ←? excludes exclude exclude_from;
  '(callback, writer) ←? make_change_callback verbose long_listing changes_json;
  let options := MkRestoreOptions _ exclude only_subtree force_overwrite band_selection callback in
  scoped (drop_change_callback writer) (Restore.restore archive destination options).

Definition run_size (stos : StoredTreeOrSource) (bytes : bool) (exclude exclude_from : list string) :
    M (result unit Error) :=
  exclude ←? excludes exclude exclude_from;
  size ←? (match stos_archive stos with
           | Some archive =>
               st ←? stored_tree_from_opt archive (stos_backup stos);
               StoredTree.size st exclude
           | None =>
               source ← expect (stos_source stos);
               live_size (LiveTree.open source) exclude
           end);
  _ ← println (if bytes then decimal size else bytes_to_human_mb size);
  mret (Ok tt).

Definition run_validate (archive : string) (quick : bool) : M (result unit Error) :=
  archive ←? open_archive archive;
  Gc.validate archive (MkValidateOptions quick).

Definition run_versions (archive : string) (short newest sizes utc : bool) : M (result unit Error) :=
  timezone ← (if utc then mret None else offset ← expect current_local_offset; mret (Some offset));
  archive ←? open_archive archive;
  '(out, r) ← show_versions archive (MkShowVersionsOptions newest sizes (negb short) (negb short) timezone);
  _ ← for_each out println;
  mret r.

(** [Command::run] *)
Definition run (self : Command) : M (result ExitCode Error) :=
  _ ←? (match self with
        | CmdBackup archive source changes_json verbose exclude exclude_from no_stats long_listing =>
            run_backup archive source changes_json verbose exclude exclude_from no_stats long_listing
        | CmdDebug debug => run_debug debug
        | CmdDelete archive backup dry_run break_lock no_stats =>
            run_delete archive backup dry_run break_lock no_stats
        | CmdDiff archive source backup exclude exclude_from include_unchanged json =>
            run_diff archive source backup exclude exclude_from include_unchanged json
        | CmdInit archive => run_init archive
        | CmdGc archive dry_run break_lock no_stats => run_gc archive dry_run break_lock no_stats
        | CmdLs stos exclude exclude_from json long_listing => run_ls stos exclude exclude_from json long_listing
        | CmdRestore archive destination backup changes_json force_overwrite verbose exclude exclude_from
            only_subtree no_stats long_listing =>
            run_restore archive destination backup changes_json force_overwrite verbose exclude exclude_from
              only_subtree no_stats long_listing
        | CmdSize stos bytes exclude exclude_from => run_size stos bytes exclude exclude_from
        | CmdValidate archive quick _ => run_validate archive quick
        | CmdVersions archive short newest sizes utc => run_versions archive short newest sizes utc
        end);
  mret (Ok Success).

(** ** The program *)

(** The file for metrics: created, and the counters written to it *)
Definition write_metrics (path : Path) : M (result unit Error) :=
  r ← sys_open_truncate path;
  match r with
  | Err e => mret (Err (IOError e))
  | Ok _ =>
      counters ← gets w_counters;
      match json_counters counters with
      | None => mret (Err SerializeJson)
      | Some s => r ← sys_write_all path s; mret (map_err (λ _, SerializeJson) r)
      end
  end.

(** [main()], from the parsed arguments. *)
Definition main (args : Args) : M (result ExitCode Error) :=
  _ ← expect current_local_offset;
  _ ← new_monitor;
  result ← run (arg_command args);
  _ ←? (match arg_metrics_json args with Some path => write_metrics path | None => mret (Ok tt) end);
  error_count ← error_count;
  mret (Ok (match result with
            | Err _ => Failure
            | Ok Success => if (error_count =? 0)%N then Success else NonFatalErrors
            | Ok exit_code => exit_code
            end)).

(** [ExitCode as u8], and the status of a process whose [main] returns a [Result] *)
Definition report (r : result ExitCode Error) : N :=
  match r with
  | Ok Success => 0
  | Ok Failure => 1
  | Ok NonFatalErrors => 2
  | Err _ => 1
  end.

End cli.
End Cli.
