(* ===== verification/CliSafety.v ===== *)
(** * Commands that only look (src/bin/conserve.rs)

    The commands that inspect an archive or a tree leave every file as it is, however the
    system fails; a garbage collection or a deletion that is only tried changes nothing
    but the lock. *)

From Stdlib Require Import Ascii.
From S2P Require Import Prelude Text Apath Externals Sample Ids Entry Counters Errors World Console Transport.
From S2P Require Import Excludes Jsonio SampleWorld BlockDir Index Archive Footprint Stitch Merge LiveTree Diff Show Gc GcSafety.
From S2P Require Import Backup Restore Cli.
From stdpp Require Import list gmap strings.

(** ** The library operations *)

Section looking.
Context `{Ext} `{BuildCfg} `{CacheDir} `{Codecs} `{ShowExt} `{!CliExt}.
Context (R : relation Fs) `{!PreOrder R}.
#[local] Abbreviation Rel := (fs_rel R).

Lemma print_respects s : respects Rel (print s).
Proof. intros w. unfold fs_rel. simpl. reflexivity. Qed.

Lemma println_respects s : respects Rel (println s).
Proof. apply print_respects. Qed.
#[local] Hint Resolve print_respects println_respects : respects.

Lemma excludes_respects xs files : respects Rel (Cli.excludes xs files).
Proof.
  unfold Cli.excludes, Exclude.from_patterns_and_files, add_patterns_from_file, read_to_string, sys_open. solve_respects.
Qed.

Lemma transport_new_respects s : respects Rel (Cli.transport_new s).
Proof. unfold Cli.transport_new, Cli.transport_from_url, Cli.transport_local. solve_respects. Qed.

Lemma open_archive_respects s : respects Rel (Cli.open_archive s).
Proof.
  unfold Cli.open_archive, Archive.open. pose proof transport_new_respects.
  pose proof (λ t f, read_json_reading (T:=ArchiveHeader) Rel t f). pose proof (bd_open_respects R). solve_respects.
Qed.

Lemma stored_tree_respects s b : respects Rel (Cli.stored_tree_from_opt s b).
Proof.
  unfold Cli.stored_tree_from_opt. pose proof open_archive_respects. pose proof (open_stored_tree_reading Rel). solve_respects.
Qed.
#[local] Hint Resolve excludes_respects transport_new_respects open_archive_respects stored_tree_respects : respects.

Lemma live_collect_respects it : respects Rel (LiveIter.collect it).
Proof.
  unfold LiveIter.collect. apply respects_bind; [apply _|apply respects_gets; apply _|]. intros fuel. generalize ([] : list EntryValue).
  revert it. pose proof (live_next_respects R). induction fuel as [|fuel IH]; intros it acc; cbn [LiveIter.collect_loop]; solve_respects.
Qed.

Lemma value_size_looking (e : EntryValue) : respects Rel (Entry.size e).
Proof. apply value_size_respects, _. Qed.

Lemma live_size_respects lt x : respects Rel (live_size lt x).
Proof. unfold live_size, live_iter_entries. pose proof live_collect_respects. pose proof value_size_looking. solve_respects. Qed.

Lemma collect_looking {HI} `{!HunkIter HI, !HunkIterLaws HI} (it : IndexEntryIter HI) :
  respects Rel (IndexEntryIter.collect it).
Proof. unfold IndexEntryIter.collect. apply for_entries_reading; [apply _..|]. intros s e. apply respects_ret. apply _. Qed.

(** The changes are computed without reading anything. *)
Lemma fixed_respects {A} (m : M A) : fixed m → respects Rel m.
Proof. intros [o Ho] w. rewrite Ho. unfold fs_rel. simpl. reflexivity. Qed.

Lemma changes_respects options ms : respects Rel (changes options ms).
Proof.
  induction ms as [|m ms IH]; cbn [changes]; [apply respects_ret; apply _|].
  apply respects_bind; [apply _|apply fixed_respects, fixed_to_entry_change|]. intros c.
  apply respects_bind; [apply _|exact IH|]. intros cs. apply respects_ret. apply _.
Qed.

Lemma diff_respects st lt options : respects Rel (diff st lt options).
Proof.
  unfold diff, live_iter_entries. pose proof live_collect_respects. pose proof changes_respects.
  pose proof (collect_looking (HI:=IterStitchedIndexHunks)). solve_respects.
Qed.

Lemma show_index_json_respects band : respects Rel (show_index_json band).
Proof.
  unfold show_index_json, index_iter_entries. pose proof (collect_looking (HI:=IndexHunkIter)).
  pose proof (iter_available_hunks_reading Rel). solve_respects.
Qed.

(** ** Validation *)

Lemma validate_stored_tree_respects st : respects Rel (Gc.validate_stored_tree st).
Proof.
  unfold Gc.validate_stored_tree. apply for_entries_reading; [apply _..|]. intros s e. unfold Gc.entry_lens. solve_respects.
Qed.

Lemma validate_respects a options : respects Rel (Gc.validate a options).
Proof.
  assert (∀ dirs seen, respects Rel (Gc.check_band_dirs seen dirs)) as Hdirs.
  { induction dirs as [|d dirs IH]; intros seen; cbn [Gc.check_band_dirs]; solve_respects. }
  unfold Gc.validate, Gc.validate_archive_dir, Gc.validate_bands, Gc.validate_band.
  pose proof validate_stored_tree_respects. pose proof (stored_tree_open_reading Rel). pose proof (open_stored_tree_reading Rel).
  pose proof (band_validate_reading Rel). pose proof (band_open_reading Rel). pose proof (list_band_ids_reading Rel).
  pose proof (blocks_respects R). pose proof (bd_validate_respects R). solve_respects.
Qed.
(** ** The commands *)

#[local] Hint Resolve diff_respects show_index_json_respects validate_respects live_size_respects : respects.

Lemma show_entry_respects json long e : respects Rel (Cli.show_entry json long e).
Proof. unfold Cli.show_entry. solve_respects. Qed.

Lemma show_live_loop_respects fuel json long it : respects Rel (Cli.show_live_loop fuel json long it).
Proof.
  pose proof show_entry_respects. pose proof (live_next_respects R). revert it.
  induction fuel as [|fuel IH]; intros it; cbn [Cli.show_live_loop]; solve_respects.
Qed.

Lemma value_from_respects (e : IndexEntry) : respects Rel (EntryValue_from e).
Proof. unfold EntryValue_from, from_unix_seconds_and_nanos. solve_respects. Qed.

(** The commands that only look *)
Definition inspects (c : Command) : bool :=
  match c with
  | CmdDebug _ | CmdDiff _ _ _ _ _ _ _ | CmdLs _ _ _ _ _ | CmdSize _ _ _ _ | CmdValidate _ _ _
  | CmdVersions _ _ _ _ _ => true
  | _ => false
  end.

Lemma run_debug_respects d : respects Rel (Cli.run_debug d).
Proof.
  unfold Cli.run_debug, Gc.unreferenced_blocks. pose proof (blocks_respects R). pose proof (list_band_ids_reading Rel).
  pose proof (referenced_blocks_reading Rel). solve_respects.
Qed.

Lemma run_ls_respects stos xs files json long : respects Rel (Cli.run_ls stos xs files json long).
Proof.
  unfold Cli.run_ls, live_iter_entries. pose proof show_live_loop_respects. pose proof show_entry_respects.
  pose proof value_from_respects. solve_respects.
  apply for_entries_reading; [apply _..|]. intros u e. solve_respects.
Qed.

Lemma run_size_respects stos b xs files : respects Rel (Cli.run_size stos b xs files).
Proof.
  unfold Cli.run_size. assert (∀ st x, respects Rel (StoredTree.size st x)) by (intros; by apply tree_size_reading, _).
  solve_respects.
Qed.

Lemma run_versions_respects a s n z u : respects Rel (Cli.run_versions a s n z u).
Proof.
  unfold Cli.run_versions. assert (∀ a o, respects Rel (show_versions a o)) by (intros; by apply show_versions_reading, _).
  solve_respects.
Qed.

Lemma run_diff_respects a src b xs files iu json : respects Rel (Cli.run_diff a src b xs files iu json).
Proof. unfold Cli.run_diff, Cli.show_change. solve_respects. Qed.

Lemma inspect_run_respects c : inspects c = true → respects Rel (Cli.run c).
Proof.
  pose proof run_debug_respects. pose proof run_ls_respects. pose proof run_size_respects.
  pose proof run_versions_respects. pose proof run_diff_respects.
  intros Hc. unfold Cli.run, Cli.run_validate. destruct c; try done; solve_respects.
Qed.

(** What the program does around a command *)
Lemma main_respects c : respects Rel (Cli.run c) → respects Rel (Cli.main (MkArgs c None)).
Proof.
  intros Hc. unfold Cli.main. cbn [arg_command arg_metrics_json].
  assert (respects Rel new_monitor) by (intros w; unfold fs_rel; simpl; reflexivity).
  unfold error_count. solve_respects.
Qed.
End looking.

(** ** Deletions that are only tried *)

(** The path of a lock *)
Definition is_lock (p : Path) : Prop := last p = Some GC_LOCK.

(** The commands that are told to change nothing *)
Definition tries (c : Command) : bool :=
  match c with
  | CmdDelete _ _ dry_run _ _ | CmdGc _ dry_run _ _ => dry_run
  | _ => false
  end.

Section trying.
Context `{Ext} `{BuildCfg} `{CacheDir} `{Codecs} `{ShowExt} `{!CliExt}.
#[local] Abbreviation Locks := (fs_rel (only_in is_lock)).

Lemma locks_lift {A} (a : Archive) (m : M A) : respects (fs_rel (only_at (lock_path a))) m → respects Locks m.
Proof. intros Hm w. eapply only_in_mono; [|apply Hm]. intros p ->. unfold is_lock, lock_path. apply last_snoc. Qed.

Lemma dry_locked_respects a g ids breaks : respects Locks (Gc.delete_locked a g ids (MkDeleteOptions true breaks)).
Proof.
  unfold Gc.delete_locked. cbn [dry_run]. unfold Gc.measure_loop.
  pose proof (list_band_ids_reading Locks). pose proof (referenced_blocks_reading Locks).
  pose proof (blocks_respects (only_in is_lock)). pose proof (compressed_size_respects (only_in is_lock)). solve_respects.
Qed.

Lemma dry_delete_respects a ids breaks : respects Locks (Gc.delete_bands a ids (MkDeleteOptions true breaks)).
Proof.
  change (Gc.delete_bands a ids (MkDeleteOptions true breaks))
    with (try (acquire a (MkDeleteOptions true breaks)) (λ g, Gc.with_guard g (Gc.delete_locked a g ids (MkDeleteOptions true breaks)))).
  intros w. apply try_at; [apply _|apply (locks_lift a), acquire_only_at|]. intros g w1 Hg.
  unfold Gc.with_guard. apply scoped_at; [apply _|apply dry_locked_respects|].
  apply (locks_lift a), drop_only_at. by eapply acquire_inv.
Qed.

Lemma try_run_respects c : tries c = true → respects Locks (Cli.run c).
Proof.
  pose proof (print_respects (only_in is_lock)). pose proof (println_respects (only_in is_lock)).
  pose proof (open_archive_respects (only_in is_lock)). pose proof dry_delete_respects.
  intros Hc. unfold Cli.run, Cli.run_delete, Cli.run_gc. destruct c; try done; cbn in Hc; subst; solve_respects.
Qed.

(** C26: looking changes nothing. Whatever fails and wherever the process dies: a command
    that lists, measures, compares, validates or debugs leaves the whole file system as
    it was; and a deletion or a garbage collection that is told to try only changes
    nothing but a lock file. *)
Theorem looking_changes_nothing (c : Command) (w : World) (Hc : inspects c || tries c = true) :
  let w' := (Cli.main (MkArgs c None) w).2 in
  (inspects c = true → w_fs w' = w_fs w) ∧ (∀ p, ¬ is_lock p → w_fs w' !! p = w_fs w !! p).
Proof.
  intros w'. assert (inspects c = true → w_fs w' = w_fs w) as Hi.
  { intros Hi. pose proof (main_respects same_fs c (inspect_run_respects same_fs c Hi) w) as Hm. by symmetry. }
  split; [done|]. intros p Hp. destruct (inspects c); [by rewrite Hi|].
  exact (main_respects (only_in is_lock) c (try_run_respects c Hc) w p Hp).
Qed.
End trying.

(** ** Examples *)

#[local] Existing Instances sample_ext sample_build sample_codecs sample_show sample_cachedir.

#[local] Instance sample_cli : CliExt := {
  Url := unit; url_parse _ := None; url_scheme _ := ""; url_to_file_path _ := None; url_as_str _ := "";
  json_entry _ := None; json_change _ := None; json_counters _ := None;
  current_dir := []; current_local_offset := Some 0%Z; elapsed_secs _ := 0%N
}.

(** An archive with one band and one block *)
Definition sample_cli_fs : Fs :=
  <[ ["a"; "CONSERVE"] := NFile (default "" (to_json (MkArchiveHeader ARCHIVE_VERSION))) sample_meta ]> sample_gc_fs.

(** A dry run ends in success; where a lock is there already, in failure. *)
Example sample_dry_gc :
  (Cli.main (MkArgs (CmdGc "/a" true false true) None) (world_of sample_cli_fs)).1 = Ret (Ok Success) ∧
  (Cli.main (MkArgs (CmdGc "/a" true false true) None)
     (world_of (<[ ["a"; "GC_LOCK"] := NFile "" sample_meta ]> sample_cli_fs))).1 = Ret (Ok Failure).
Proof. vm_compute. by split. Qed.

Lemma looking_changes_nothing_witness :
  let w' := (Cli.main (MkArgs (CmdGc "/a" true false true) None) (world_of sample_cli_fs)).2 in
  (inspects (CmdGc "/a" true false true) = true → w_fs w' = sample_cli_fs) ∧
  (∀ p, ¬ is_lock p → w_fs w' !! p = sample_cli_fs !! p).
Proof.
  apply (looking_changes_nothing (CmdGc "/a" true false true) (world_of sample_cli_fs)). reflexivity.
Defined.
