(* ===== verification/CliRun.v ===== *)
(** * A whole session (src/bin/conserve.rs)

    The commands that make an archive, back a tree up into it and restore it, run as the
    separate processes that they are: each opens the archive by its name, and each exits
    with success; what the last one leaves is the source tree again. *)

From Stdlib Require Import Ascii.
From S2P Require Import Prelude Text Apath Externals Sample Ids Entry Counters Errors World Console Transport Excludes Jsonio SampleWorld.
From S2P Require Import BlockDir BlockStore Index Archive Footprint Stitch LiveTree LiveOrder LiveWhole Diff Show Gc Backup BackupRun Combine.
From S2P Require Import Restore HunkIndex StoredBand BandWriter BackupTree RestoreTree BackupWhole GcSafety RoundTrip Incremental Cli CliSafety.
From stdpp Require Import list gmap strings sorting.

(** ** A process *)

Section process.
Context `{Ext} `{BuildCfg} `{CacheDir} `{Codecs} `{ShowExt} `{!CliExt}.

(** The world at the beginning of a process *)
Definition started (w : World) : World := (new_monitor w).2.

Lemma main_success c w w' :
  is_Some current_local_offset → Cli.run c (started w) = (Ret (Ok Success), w') → w_errors w' = [] →
  Cli.main (MkArgs c None) w = (Ret (Ok Success), w').
Proof.
  intros [o Ho] Hr He. unfold Cli.main. cbn [arg_command arg_metrics_json]. rewrite Ho.
  erewrite bind_run by done. erewrite bind_run by done. fold (started w). rewrite (bind_run _ _ _ _ _ Hr).
  erewrite try_run by done. unfold error_count. erewrite bind_run by done. rewrite He. done.
Qed.

(** ** Opening the archive *)

Context (loc : string) (Hurl : url_parse loc = None) (Hloc : loc ≠ "").

(** The place that a location names *)
Definition located : Transport := MkTransport (path_join current_dir loc).
#[local] Abbreviation root := (tr_path located).

Lemma transport_new_run (w : World) : Cli.transport_new loc w = (Ret (Ok located), w).
Proof.
  unfold Cli.transport_new, Cli.transport_local. rewrite Hurl. destruct (String.eqb_spec loc ""); [done|]. done.
Qed.

(** There is an archive of this version. *)
Definition headed (fs : Fs) : Prop :=
  ∃ c m, fs !! (root ++ [HEADER_FILENAME])%list = Some (NFile c m) ∧ from_json c = Some (MkArchiveHeader ARCHIVE_VERSION).

(** The archive, opened with a handle on the block directory *)
Definition opened (h : nat) : Archive := MkArchive (MkBlockDir (Transport.chdir located BLOCK_DIR) h) located.

Definition no_blocks_known : BlockDirState :=
  MkBlockDirState _ (MkBlockDirStats 0 0 0 0) (lru_new BLOCK_CACHE_SIZE) (lru_new EXISTENCE_CACHE_SIZE).

Lemma block_dir_open_run (t : Transport) w :
  BlockDir.open t w = (Ret (MkBlockDir t (w_next_blockdir w)), alloc_blockdir no_blocks_known w).
Proof. done. Qed.

Lemma header_path : path_join root HEADER_FILENAME = (root ++ [HEADER_FILENAME])%list.
Proof. apply (path_join_names _ [HEADER_FILENAME]). by repeat constructor. Qed.

Lemma open_archive_run w :
  fault_free w → headed (w_fs w) →
  ∃ w', Cli.open_archive loc w = (Ret (Ok (opened (w_next_blockdir w))), w') ∧ w_fs w' = w_fs w ∧
    fault_free w' ∧ w_short w' = w_short w ∧ w_errors w' = w_errors w ∧
    w_blockdirs w' (w_next_blockdir w) = no_blocks_known.
Proof.
  intros Hf (c & m & Hc & Hj).
  destruct (read_file_run located HEADER_FILENAME w eq_refl Hf) as (w1 & Hr & Hfs & Hfr).
  rewrite <-tr_read_file, header_path, (fs_read_file_at _ _ _ _ Hc) in Hr. cbn [map_err] in Hr.
  assert (read_json (T:=ArchiveHeader) located HEADER_FILENAME w = (Ret (Ok (Some (MkArchiveHeader ARCHIVE_VERSION))), w1)) as Hr'.
  { unfold read_json. rewrite (bind_run _ _ _ _ _ Hr). by rewrite Hj. }
  eexists. unfold Cli.open_archive. rewrite (bind_run _ _ _ _ _ (transport_new_run w)). cbn iota.
  unfold Archive.open. rewrite (bind_run _ _ _ _ _ Hr'). cbn iota. cbn [conserve_archive_version].
  rewrite String.eqb_refl. erewrite bind_run by apply block_dir_open_run. split.
  { unfold mret, ST_ret, opened. by rewrite (frame_next _ _ Hfr). }
  split; [done|]. split; [exact (fault_free_frame _ _ Hfr Hf)|]. split; [by destruct Hfr|]. split; [by destruct Hfr|].
  cbn. rewrite (frame_next _ _ Hfr). by rewrite decide_True.
Qed.

(** What has to be on the disk for a backup, and that nothing fails *)
Record on_disk (D : string → Prop) (last : option BandId) (w : World) : Prop := {
  od_free : fault_free w;
  od_reads : ∀ t, w_short w t = None;
  od_closed : fs_closed (w_fs w);
  od_header : headed (w_fs w);
  od_dir : is_dir_node (w_fs w !! root) = true;
  od_blocks_dir : is_dir_node (w_fs w !! tr_path (Transport.chdir located BLOCK_DIR)) = true;
  od_subdirs : ∀ h, w_fs w !! subdir_path (ar_block_dir (opened 0)) h = None ∨
    is_dir_node (w_fs w !! subdir_path (ar_block_dir (opened 0)) h) = true;
  od_blocks : ∀ data, D data →
    intact (ar_block_dir (opened 0)) (w_fs w) (BlockHash.hash_bytes data) data ∨
    w_fs w !! block_path (ar_block_dir (opened 0)) (BlockHash.hash_bytes data) = None;
  od_unlocked : w_fs w !! lock_path (opened 0) = None;
  od_room : w_fs w !! band_path (opened 0) (next_band last) = None;
  od_version : ∀ now, accepted (MkHead now (Some "0.6.3") [])
}.

Context `{!LruLaws}.

(** Nothing is known of any block when the archive has just been opened. *)
Lemma just_opened_cached w h : w_blockdirs w h = no_blocks_known → ∀ k, cached (ar_block_dir (opened h)) w k = None.
Proof. intros Hb k. unfold cached. cbn. rewrite Hb. apply lru_peek_new. Qed.

Lemma just_opened_known w h : w_blockdirs w h = no_blocks_known → ∀ k, BlockDir.known (ar_block_dir (opened h)) w k = false.
Proof.
  intros Hb k. unfold BlockDir.known. cbn. rewrite Hb. unfold no_blocks_known. cbn.
  apply orb_false_intro; apply not_true_iff_false; rewrite lru_contains_peek, lru_peek_new; by intros [? ?].
Qed.

Lemma just_opened_serving w h : fault_free w → w_blockdirs w h = no_blocks_known → serving (ar_block_dir (opened h)) w.
Proof. intros Hf Hb. split; [done|]. intros k c d. by rewrite just_opened_cached. Qed.

Lemma opened_ready D last w :
  on_disk D last w →
  ∃ w', Cli.open_archive loc w = (Ret (Ok (opened (w_next_blockdir w))), w') ∧ w_fs w' = w_fs w ∧
    w_errors w' = w_errors w ∧ ready_archive (opened (w_next_blockdir w)) D last w'.
Proof.
  intros [Hf Hs Hcl Hh Hd Hbd Hsub Hb Hl Hr Hv].
  destruct (open_archive_run w Hf Hh) as (w' & Ho & Hfs & Hf' & Hs' & He & Hk). exists w'. split; [done|].
  split; [done|]. split; [done|]. split; [|by rewrite Hfs..|done|by rewrite Hs'].
  split; rewrite ?Hfs; [by apply just_opened_serving|done|done|exact Hsub|].
  intros data Hdata. destruct (Hb data Hdata) as [Hi|Hn]; [left|right].
  - destruct Hi as (? & ? & c & m & ? & ?). split; [done|]. split; [done|]. by exists c, m.
  - split; [exact Hn|]. by apply just_opened_known.
Qed.

(** ** Making the archive *)

Lemma blocks_path : tr_path (Transport.chdir located BLOCK_DIR) = (root ++ [BLOCK_DIR])%list.
Proof. apply (path_join_names _ [BLOCK_DIR]). by repeat constructor. Qed.

Lemma no_children (p : Path) (fs : Fs) : (∀ q, q ≠ [] → fs !! (p ++ q)%list = None) → fs_children p fs = [].
Proof.
  intros Hn. destruct (fs_children p fs) as [|[n nd] l] eqn:E; [done|exfalso].
  assert ((n, nd) ∈ fs_children p fs) as Hin by (rewrite E; by left). apply elem_of_fs_children in Hin.
  by rewrite Hn in Hin.
Qed.

(** The directory of the archive is made, or was there already. *)
Lemma make_root_run w :
  fault_free w → fs_closed (w_fs w) → vacant (w_fs w) root →
  ∃ w', Transport.create_dir located "" w = (Ret (Ok tt), w') ∧ frame w w' ∧ fs_closed (w_fs w') ∧
    (∃ m, w_fs w' !! root = Some (NDir m)) ∧ (∀ q, q ≠ [] → w_fs w' !! (root ++ q)%list = None) ∧
    only_below root (w_fs w) (w_fs w').
Proof.
  intros Hf Hcl [Hroom Hempty]. destruct Hroom as [Hd|(Hn & Hp & Hne)].
  - destruct (w_fs w !! root) as [[|m| |]|] eqn:E; try done.
    destruct (create_dir_run located "" w eq_refl Hf) as (w' & fs' & Hr & Hfs & Hfr & ->). rewrite path_join_empty in *.
    assert (fs_create root (NDir (new_meta 493 w)) (w_fs w) = Err Io_AlreadyExists) as Hc by (unfold fs_create; by rewrite E).
    rewrite Hc in *. exists w'. rewrite Hfs, E. split; [done|]. split; [done|]. split; [done|]. split; [by eexists|]. by split.
  - destruct (create_dir_new located "" root w) as (w' & Hr & Hfr & Hfs); [done|done|by rewrite path_join_empty|done|done|].
    exists w'. split; [done|]. split; [done|]. rewrite Hfs. split; [by apply fs_closed_insert|]. split; [rewrite lookup_insert_eq; by eexists|].
    split.
    + intros q Hq. rewrite lookup_insert_ne; [by apply Hempty|]. intros Heq. rewrite <-(app_nil_r root) in Heq at 1.
      by apply app_inv_head in Heq.
    + intros p Hp'. rewrite lookup_insert_ne; [done|]. by intros <-.
Qed.

Context `{!CodecLaws, !CodecTotal}.

(** What an empty archive consists of *)
Record made_archive (fs fs' : Fs) : Prop := {
  ma_closed : fs_closed fs';
  ma_root : ∃ m, fs' !! root = Some (NDir m);
  ma_blocks : ∃ m, fs' !! (root ++ [BLOCK_DIR])%list = Some (NDir m);
  ma_header : headed fs';
  ma_empty : ∀ q, q ≠ [] → q ≠ [BLOCK_DIR] → q ≠ [HEADER_FILENAME] → fs' !! (root ++ q)%list = None;
  ma_elsewhere : only_below root fs fs'
}.

Lemma made_archive_intro fs fs1 mb c mh :
  fs_closed fs1 → (∃ m, fs1 !! root = Some (NDir m)) → (∀ q, q ≠ [] → fs1 !! (root ++ q)%list = None) →
  only_below root fs fs1 → from_json c = Some (MkArchiveHeader ARCHIVE_VERSION) →
  made_archive fs (<[(root ++ [HEADER_FILENAME])%list := NFile c mh]> (<[(root ++ [BLOCK_DIR])%list := NDir mb]> fs1)).
Proof.
  intros Hcl [m Hm] Hn Hb Hj. set (fs2 := <[(root ++ [BLOCK_DIR])%list := NDir mb]> fs1).
  assert (fs2 !! root = Some (NDir m)) as Hm2 by (unfold fs2; by rewrite lookup_insert_ne by apply app_snoc_ne).
  assert (fs2 !! (root ++ [HEADER_FILENAME])%list = None) as Hh2.
  { unfold fs2. rewrite lookup_insert_ne by (by intros [=]%app_inv_head). by apply Hn. }
  assert (∀ n, (root ++ [n])%list ≠ []) as Hne by (intros n [_ ?]%app_eq_nil; done).
  split.
  - apply fs_closed_insert; [|done|done|by rewrite parent_snoc, Hm2].
    apply fs_closed_insert; [done|by apply Hn|done|by rewrite parent_snoc, Hm].
  - exists m. by rewrite lookup_insert_ne by apply app_snoc_ne.
  - exists mb. rewrite lookup_insert_ne by (by intros [=]%app_inv_head). unfold fs2. by rewrite lookup_insert_eq.
  - exists c, mh. by rewrite lookup_insert_eq.
  - intros q Hq Hqb Hqh. unfold fs2.
    rewrite lookup_insert_ne, lookup_insert_ne; [by apply Hn| |]; intros Heq%app_inv_head; by subst q.
  - intros p Hp. unfold fs2. rewrite !lookup_insert_ne; [by apply Hb| |]; intros <-; apply Hp; by apply prefix_app_r.
Qed.

Lemma create_archive_run w :
  fault_free w → fs_closed (w_fs w) → vacant (w_fs w) root →
  ∃ a w', Archive.create located w = (Ret (Ok a), w') ∧ w_faults w' = w_faults w ∧ w_short w' = w_short w ∧
    w_errors w' = w_errors w ∧ made_archive (w_fs w) (w_fs w').
Proof.
  intros Hf Hcl Hv. destruct (make_root_run w Hf Hcl Hv) as (w1 & Hr1 & Hfr1 & Hcl1 & [m Hm] & Hn1 & Hb1).
  pose proof (fault_free_frame _ _ Hfr1 Hf) as Hf1.
  destruct (list_dir_run located "" w1 eq_refl Hf1) as (w2 & Hr2 & Hfs2 & Hfr2). rewrite <-tr_list_dir, path_join_empty in Hr2.
  assert (fs_read_dir root (w_fs w1) = Ok []) as Hrd by (unfold fs_read_dir; rewrite Hm; by rewrite no_children).
  rewrite Hrd in Hr2. cbn [permute Local.classify] in Hr2.
  pose proof (fault_free_frame _ _ Hfr2 Hf1) as Hf2.
  destruct (create_dir_new (Transport.chdir located BLOCK_DIR) "" (root ++ [BLOCK_DIR])%list w2) as (w3 & Hr3 & Hfr3 & Hfs3);
    [done|done|by rewrite path_join_empty, blocks_path|by rewrite Hfs2; apply Hn1|by rewrite parent_snoc, Hfs2, Hm|].
  rewrite Hfs2 in Hfs3. set (w3' := alloc_blockdir no_blocks_known w3).
  destruct (write_json_run located HEADER_FILENAME (MkArchiveHeader ARCHIVE_VERSION) w3') as (c & mh & w4 & Hr4 & Hfr4 & Hj & Hfs4).
  { done. }
  { exact (fault_free_frame _ _ Hfr3 Hf2). }
  { apply header_total. }
  { unfold w3'. cbn [w_fs alloc_blockdir]. rewrite Hfs3, lookup_insert_ne by apply app_snoc_ne. by rewrite Hm. }
  { unfold w3'. cbn [w_fs alloc_blockdir]. rewrite Hfs3, lookup_insert_ne by (by intros [=]%app_inv_head). by apply Hn1. }
  unfold w3' in Hfs4. cbn [w_fs alloc_blockdir] in Hfs4. rewrite Hfs3 in Hfs4. eexists _, w4. split.
  { unfold Archive.create. rewrite (bind_run _ _ _ _ _ Hr1). cbn iota. rewrite (bind_run _ _ _ _ _ Hr2). cbn iota.
    cbn [ld_files ld_dirs]. unfold BlockDir.create. erewrite try_run.
    2: { rewrite (bind_run _ _ _ _ _ Hr3). cbn iota. by erewrite bind_run by apply block_dir_open_run. }
    fold w3'. by rewrite (bind_run _ _ _ _ _ Hr4). }
  split; [|split; [|split]].
  - rewrite (frame_faults _ _ Hfr4). unfold w3'. cbn. by rewrite (frame_faults _ _ Hfr3), (frame_faults _ _ Hfr2), (frame_faults _ _ Hfr1).
  - rewrite (frame_short _ _ Hfr4). unfold w3'. cbn. by rewrite (frame_short _ _ Hfr3), (frame_short _ _ Hfr2), (frame_short _ _ Hfr1).
  - rewrite (frame_errors _ _ Hfr4). unfold w3'. cbn. by rewrite (frame_errors _ _ Hfr3), (frame_errors _ _ Hfr2), (frame_errors _ _ Hfr1).
  - rewrite Hfs4. apply (made_archive_intro _ (w_fs w1)); try done. by exists m.
Qed.

Lemma made_on_disk D fs w :
  made_archive fs (w_fs w) → fault_free w → (∀ t, w_short w t = None) → (∀ now, accepted (MkHead now (Some "0.6.3") [])) →
  on_disk D None w ∧ base (opened 0) (w_fs w) None [].
Proof.
  intros [Hcl [m Hm] [mb Hmb] Hh He _] Hf Hs Hv. split; [split|]; try done.
  - by rewrite Hm.
  - assert (w_fs w !! tr_path (Transport.chdir located BLOCK_DIR) = Some (NDir mb)) as ->; [|done].
    rewrite blocks_path. exact Hmb.
  - intros h. left. unfold subdir_path. cbn [bd_transport opened ar_block_dir]. rewrite blocks_path, <-app_assoc. by apply He.
  - intros data _. right. unfold block_path. cbn [bd_transport opened ar_block_dir]. rewrite blocks_path, <-app_assoc.
    by apply He.
  - by apply He.
  - by apply He.
  - split; [done|]. intros x (name & mx & Hn & _ & Hx). unfold archive_path in Hn. cbn [ar_transport opened] in Hn.
    destruct (decide (name = BLOCK_DIR)) as [->|Hb]; [by vm_compute in Hx|].
    destruct (decide (name = HEADER_FILENAME)) as [->|Hh']; [by vm_compute in Hx|].
    rewrite He in Hn; [done|done|by intros [=]|by intros [=]].
Qed.

(** Only what is in the directory of the archive matters. *)
Lemma on_disk_elsewhere D last w fs :
  on_disk D last w → same_below root (w_fs w) fs → fs_closed fs → on_disk D last (with_fs (λ _, fs) w).
Proof.
  intros [Hf Hs Hcl (c & m & Hc & Hj) Hd Hbd Hsub Hb Hl Hr Hv] Hsame Hcl'.
  assert (∀ q, fs !! (root ++ q)%list = w_fs w !! (root ++ q)%list) as Hq by (intros q; apply Hsame; by apply prefix_app_r).
  assert (∀ q, fs !! (tr_path (Transport.chdir located BLOCK_DIR) ++ q)%list
    = w_fs w !! (tr_path (Transport.chdir located BLOCK_DIR) ++ q)%list) as Hqb.
  { intros q. rewrite blocks_path, <-app_assoc. apply Hq. }
  split; cbn [w_fs with_fs]; try done.
  - exists c, m. by rewrite Hq.
  - by rewrite Hsame.
  - rewrite blocks_path in *. by rewrite Hq.
  - intros h. unfold subdir_path in *. cbn [bd_transport opened ar_block_dir] in *. rewrite Hqb. apply Hsub.
  - intros data Hdata. unfold intact, block_path in *. cbn [bd_transport opened ar_block_dir] in *. rewrite Hqb. by apply Hb.
  - unfold lock_path, archive_path in *. cbn [ar_transport opened] in *. by rewrite Hq.
  - unfold band_path, archive_path in *. cbn [ar_transport opened] in *. by rewrite Hq.
Qed.

Lemma base_elsewhere last hs fs fs' : base (opened 0) fs last hs → same_below root fs fs' → base (opened 0) fs' last hs.
Proof.
  intros Hb Hs. unfold base in *. destruct last as [x|].
  - destruct Hb as (Hn & Hx & Hst). split; [by eapply newest_same|]. split; [done|].
    eapply stored_band_same; [|done]. eapply same_below_mono; [apply band_path_below|exact Hs].
  - destruct Hb as [-> Hn]. split; [done|]. intros x (name & m & Hp & Hx). apply (Hn x). exists name, m.
    split; [|done]. rewrite <-Hs; [done|]. by apply prefix_app_r.
Qed.

(** ** The three commands *)

Lemma excludes_run xs gsb gs (w : World) :
  add_patterns [] xs = Ok gsb → globset_build gsb = Some gs → Cli.excludes xs [] w = (Ret (Ok (MkExclude gs)), w).
Proof.
  intros Hx Hg. unfold Cli.excludes, Exclude.from_patterns_and_files. rewrite Hx. cbn [fmap list_fmap try_fold].
  erewrite try_run by done. by rewrite Hg.
Qed.

Lemma scoped_run {A} (body : M A) w a w' : body w = (Ret a, w') → scoped (Cli.drop_change_callback None) body w = (Ret a, w').
Proof. intros Hr. unfold scoped. by rewrite Hr. Qed.

(** The options of a backup that is not verbose *)
Definition plain_options (x : Exclude) : BackupOptions :=
  MkBackupOptions _ x (bo_max_entries_per_hunk default_backup_options) None (bo_max_block_size default_backup_options)
    (bo_small_file_cap default_backup_options) (bo_owner default_backup_options).

Definition plain_restore : RestoreOptions := MkRestoreOptions _ Exclude.nothing None false Latest None.

Lemma run_init_run w a w' :
  Archive.create located w = (Ret (Ok a), w') → Cli.run (CmdInit loc) w = (Ret (Ok Success), w').
Proof.
  intros Hr. unfold Cli.run, Cli.run_init. erewrite try_run; [done|].
  rewrite (bind_run _ _ _ _ _ (transport_new_run w)). cbn iota. by rewrite (try_run _ _ _ _ _ Hr).
Qed.

Lemma run_backup_run src xs gsb gs no_stats w a w1 stats w' :
  add_patterns [] xs = Ok gsb → globset_build gsb = Some gs → Cli.open_archive loc w = (Ret (Ok a), w1) →
  backup a src (plain_options (MkExclude gs)) w1 = (Ret (Ok stats), w') →
  Cli.run (CmdBackup loc src None false xs [] no_stats false) w = (Ret (Ok Success), w').
Proof.
  intros Hx Hg Ho Hr. unfold Cli.run, Cli.run_backup. erewrite try_run; [done|].
  rewrite (try_run _ _ _ _ _ (excludes_run xs gsb gs w Hx Hg)). erewrite try_run by done. cbn iota zeta.
  apply scoped_run. rewrite (try_run _ _ _ _ _ Ho). fold (plain_options (MkExclude gs)).
  by rewrite (try_run _ _ _ _ _ Hr).
Qed.

Lemma run_restore_run `{!GlobLaws} dest no_stats w a w1 w' :
  Cli.open_archive loc w = (Ret (Ok a), w1) → Restore.restore a dest plain_restore w1 = (Ret (Ok tt), w') →
  Cli.run (CmdRestore loc dest None None false false [] [] None no_stats false) w = (Ret (Ok Success), w').
Proof.
  intros Ho Hr. unfold Cli.run, Cli.run_restore. erewrite try_run; [done|]. cbv zeta.
  rewrite (try_run _ _ _ _ _ Ho).
  rewrite (try_run _ _ _ _ _ (excludes_run [] [] globset_empty w1 eq_refl globset_build_empty)).
  erewrite try_run by done. cbn iota. by apply scoped_run.
Qed.

Lemma on_disk_started D last w : on_disk D last w → on_disk D last (started w).
Proof. by intros []. Qed.
End process.


(** ** Examples *)

#[local] Existing Instances sample_ext sample_build sample_hash_laws sample_hex_laws sample_snap_laws sample_lru_laws
  sample_glob_laws sample_time_laws sample_codecs sample_codec_laws sample_codec_total sample_cachedir sample_show sample_cli.

Definition cmd_init : Args := MkArgs (CmdInit "a") None.
Definition cmd_backup : Args := MkArgs (CmdBackup "a" ["s"] None false [] [] true false) None.
Definition cmd_restore : Args := MkArgs (CmdRestore "a" ["r"] None None false false [] [] None true false) None.

(** The session, run *)
Example sample_session :
  let '(r1, w1) := Cli.main cmd_init (world_of sample_tree_fs) in
  let '(r2, w2) := Cli.main cmd_backup w1 in
  let '(r3, w3) := Cli.main cmd_restore w2 in
  r1 = Ret (Ok Success) ∧ r2 = Ret (Ok Success) ∧ r3 = Ret (Ok Success) ∧
  w_fs w3 !! ["r"; "b"; "c"] = Some (NFile "x" (MkMeta 420 (MkTime 0 0) 0 0)).
Proof. vm_compute. repeat split. Qed.

Lemma sample_tree_room : vacant sample_tree_fs ["a"].
Proof.
  split; [by right|]. intros q Hq. apply not_elem_of_list_to_map_1. intros ([k n] & Hk & Hin)%list_elem_of_fmap.
  unfold sample_tree_files in Hin.
  repeat (apply elem_of_cons in Hin as [Hin|Hin]; [by simplify_eq/=|]). by apply not_elem_of_nil in Hin.
Qed.

(** What [conserve init] leaves *)
Definition sample_inited : World := (Cli.main cmd_init (world_of sample_tree_fs)).2.

Lemma sample_session_separate : separate ["s"] ["a"] ∧ separate ["a"] ["r"].
Proof. by repeat split; intros [k Hk]. Qed.

(** The source is as it is beside the archive of the other examples. *)
Lemma sample_inited_source :
  only_below ["a"] sample_tree_fs (w_fs sample_inited) → same_below ["s"] sample_home_fs (w_fs sample_inited).
Proof.
  intros Ho p Hp. rewrite (only_below_separate ["s"] ["a"] _ _ (proj1 sample_session_separate) Ho p Hp).
  destruct Hp as [k ->]. unfold sample_home_fs, sample_home_files. cbn [list_to_map foldr app].
  rewrite !lookup_insert_ne by done. done.
Qed.

Lemma sample_inited_vacant : vacant (w_fs sample_inited) ["r"].
Proof.
  split; [by right|]. intros q Hq. destruct (w_fs sample_inited !! _) as [n|] eqn:E; [exfalso|done].
  assert (forallb (λ k : Path * Node, negb (bool_decide (head k.1 = Some "r"))) (map_to_list (w_fs sample_inited)) = true) as Hall
    by (vm_compute; reflexivity).
  apply elem_of_map_to_list, list_elem_of_In in E. rewrite forallb_forall in Hall. apply Hall in E. done.
Qed.

Lemma sample_inited_named : named_below ["s"] (w_fs sample_inited).
Proof.
  rewrite <-(list_to_map_to_list (w_fs sample_inited)). apply named_files. vm_compute. reflexivity.
Qed.

Lemma sample_inited_storable :
  only_below ["a"] sample_tree_fs (w_fs sample_inited) →
  storable_tree ["s"] default_backup_options (w_fs sample_inited) sample_contents.
Proof.
  intros Ho%sample_inited_source. apply (storable_elsewhere ["s"] default_backup_options sample_home_fs); [exact Ho| |by vm_compute|].
  - apply named_files. vm_compute. reflexivity.
  - exact sample_home_storable.
Qed.


(** ** An index that cannot be read *)

(** The sample archive, with the only hunk of its index damaged *)
Definition sample_damaged_fs : Fs :=
  <[ ["a"; "b0000"; "i"; "00000"; "000000000"] := NFile "broken" sample_meta ]> sample_cli_fs.

Definition cmd_validate : Args := MkArgs (CmdValidate "a" false false) None.

